(** * DaggerHeart homebrew converters: zzz2rrr, zzz2rink, zzz2keyword

    A shallow embedding of the record transcoders of the repository
    ([src/zzz2rrr.py], [src/zzz2rink.py], [src/zzz2keyword.py],
    [src/merge_zzz.py]) and the properties of their specification.

    Conventions of the embedding.
    - A Python [str] is the list of its Unicode code points ([str]).  The
      literals of the sources are written as UTF-8 text and decoded once.
    - A JSON document is a [value]; a Python [dict] is an association list
      in insertion order (Python dicts iterate in insertion order, and the
      converters rely on it).  JSON numbers are integers; floats are
      outside the model.
    - A Python exception is a [Raise].  [str()] and an f-string print a list
      or a dict through [repr()], whose escaping rules the model does not
      spell out: that text is the parameter [repr] of [py_str], of
      [work_rrr] and of the converters of [zzz2rink] and [zzz2keyword].
    - In-place updates of the input records are modelled by returning the
      input as it is after the call, next to the result.
    - The clock, the file stem and [uuid.uuid4] are the fields of [env].
    - The files that [merge_zzz.py] and [collect_data] read are what the
      functions [json_load] and [files] say they are; writing the output,
      the command lines and the messages printed (those of [process_item]
      apart) are not part of the embedding.
    - The character classes behind [str.isdigit], [int()], [\d] and [\s]
      are the tables of Unicode 14.0.0 (CPython 3.11).
    - CPython 3.11 limits the conversion between [int] and [str] to
      [sys.int_max_str_digits] digits, 4300 unless it is reconfigured
      (none of the programs does): [int()] of a string with more digits
      and [str()] of an integer with more digits raise [ValueError].
      [json.load] reads integers with [int()], so no integer of a loaded
      document has more digits; [format_with], the text an f-string of
      [zzz2rink] and [zzz2keyword] prints for a field of a loaded
      document, relies on it.  A draw of [uuid.uuid4().int] has 128
      bits. *)

From Stdlib Require Import String Ascii.
From Stdlib Require Import List Bool Arith NArith ZArith Lia.
From Stdlib Require Decimal DecimalFacts DecimalZ.
From Equations Require Import Equations.
Import ListNotations.

Set Implicit Arguments.
Set Warnings "-register-all".
Local Open Scope list_scope.

(* ===================================================================== *)
(** ** Strings                                                           *)
(* ===================================================================== *)

Module Str.

(** A Python string: its code points. *)
Definition str := list N.

Fixpoint bytes_of (s : String.string) : list N :=
  match s with
  | EmptyString => []
  | String a s' => N_of_ascii a :: bytes_of s'
  end.

(** UTF-8 decoding of a source literal.  A byte that starts no sequence is
    kept as it is (it does not occur in the literals below). *)
Fixpoint utf8_decode (bs : list N) : str :=
  match bs with
  | [] => []
  | b0 :: r0 =>
    if (b0 <? 192)%N then b0 :: utf8_decode r0
    else match r0 with
    | [] => [b0]
    | b1 :: r1 =>
      if (b0 <? 224)%N then ((b0 - 192) * 64 + (b1 - 128))%N :: utf8_decode r1
      else match r1 with
      | [] => [b0; b1]
      | b2 :: r2 =>
        if (b0 <? 240)%N
        then ((b0 - 224) * 4096 + (b1 - 128) * 64 + (b2 - 128))%N :: utf8_decode r2
        else match r2 with
        | [] => [b0; b1; b2]
        | b3 :: r3 =>
          ((b0 - 240) * 262144 + (b1 - 128) * 4096 + (b2 - 128) * 64 + (b3 - 128))%N
            :: utf8_decode r3
        end
      end
    end
  end.

Definition lit (s : String.string) : str := utf8_decode (bytes_of s).

Fixpoint eqb (a b : str) : bool :=
  match a, b with
  | [], [] => true
  | x :: a', y :: b' => (x =? y)%N && eqb a' b'
  | _, _ => false
  end.

(** [s.startswith(p)] *)
Fixpoint starts_with (p s : str) : bool :=
  match p, s with
  | [], _ => true
  | x :: p', y :: s' => (x =? y)%N && starts_with p' s'
  | _ :: _, [] => false
  end.

(** [sub in s] for strings. *)
Fixpoint contains (sub s : str) : bool :=
  starts_with sub s ||
  match s with
  | [] => false
  | _ :: s' => contains sub s'
  end.

(** [s.replace(old, new)]: the occurrences of [old] are replaced from left
    to right without overlap.  [skip] counts the code points of a matched
    occurrence still to be dropped. *)
Fixpoint replace_from (old new : str) (skip : nat) (s : str) : str :=
  match s with
  | [] => []
  | c :: s' =>
    match skip with
    | S k => replace_from old new k s'
    | O =>
      if starts_with old s
      then new ++ replace_from old new (length old - 1) s'
      else c :: replace_from old new 0 s'
    end
  end.

Definition replace (old new s : str) : str :=
  match old with
  | [] => new ++ flat_map (fun c => c :: new) s
  | _ :: _ => replace_from old new 0 s
  end.

(** [s.split(sep)] for a non-empty [sep] (every call site passes a
    one-character literal); the result is never empty. *)
Fixpoint split_from (sep : str) (skip : nat) (s : str) : list str :=
  match s with
  | [] => [[]]
  | c :: s' =>
    match skip with
    | S k => split_from sep k s'
    | O =>
      if starts_with sep s
      then [] :: split_from sep (length sep - 1) s'
      else match split_from sep 0 s' with
           | w :: ws => (c :: w) :: ws
           | [] => [[c]]
           end
    end
  end.

Definition split (sep s : str) : list str := split_from sep 0 s.

(** [s.split(sep, 1)] when [sep] occurs in [s]: the text before the first
    occurrence and the text after it. *)
Fixpoint split_once (sep s : str) : option (str * str) :=
  if starts_with sep s then Some ([], skipn (length sep) s)
  else match s with
       | [] => None
       | c :: s' =>
         match split_once sep s' with
         | Some (a, b) => Some (c :: a, b)
         | None => None
         end
       end.

(** [sep.join(parts)] *)
Fixpoint join (sep : str) (parts : list str) : str :=
  match parts with
  | [] => []
  | [p] => p
  | p :: ps => p ++ sep ++ join sep ps
  end.

(** *** Character classes (Unicode 14.0.0) *)

Definition in_ranges (tbl : list (N * N)) (c : N) : bool :=
  existsb (fun r => (fst r <=? c)%N && (c <=? snd r)%N) tbl.

(** General category Nd: every range is a run of decimal digits 0..9. *)
Definition decimal_ranges : list (N * N) :=
  [ (48, 57); (1632, 1641); (1776, 1785); (1984, 1993); (2406, 2415);
    (2534, 2543); (2662, 2671); (2790, 2799); (2918, 2927); (3046, 3055);
    (3174, 3183); (3302, 3311); (3430, 3439); (3558, 3567); (3664, 3673);
    (3792, 3801); (3872, 3881); (4160, 4169); (4240, 4249); (6112, 6121);
    (6160, 6169); (6470, 6479); (6608, 6617); (6784, 6793); (6800, 6809);
    (6992, 7001); (7088, 7097); (7232, 7241); (7248, 7257); (42528, 42537);
    (43216, 43225); (43264, 43273); (43472, 43481); (43504, 43513);
    (43600, 43609); (44016, 44025); (65296, 65305); (66720, 66729);
    (68912, 68921); (69734, 69743); (69872, 69881); (69942, 69951);
    (70096, 70105); (70384, 70393); (70736, 70745); (70864, 70873);
    (71248, 71257); (71360, 71369); (71472, 71481); (71904, 71913);
    (72016, 72025); (72784, 72793); (73040, 73049); (73120, 73129);
    (92768, 92777); (92864, 92873); (93008, 93017); (120782, 120831);
    (123200, 123209); (123632, 123641); (125264, 125273);
    (130032, 130041) ]%N.

(** Numeric type Digit without a decimal value (superscripts, circled
    digits and the like): accepted by [str.isdigit], refused by [int()]. *)
Definition other_digit_ranges : list (N * N) :=
  [ (178, 179); (185, 185); (4969, 4977); (6618, 6618); (8304, 8304);
    (8308, 8313); (8320, 8329); (9312, 9320); (9332, 9340); (9352, 9360);
    (9450, 9450); (9461, 9469); (9471, 9471); (10102, 10110);
    (10112, 10120); (10122, 10130); (68160, 68163); (69216, 69224);
    (69714, 69722); (127232, 127242) ]%N.

Definition space_ranges : list (N * N) :=
  [ (9, 13); (28, 32); (133, 133); (160, 160); (5760, 5760); (8192, 8202);
    (8232, 8233); (8239, 8239); (8287, 8287); (12288, 12288) ]%N.

(** [\d], [str.isdecimal] on one character *)
Definition is_decimal (c : N) : bool := in_ranges decimal_ranges c.

(** The digit a decimal character stands for. *)
Fixpoint decimal_in (tbl : list (N * N)) (c : N) : option N :=
  match tbl with
  | [] => None
  | (lo, hi) :: tbl' =>
    if (lo <=? c)%N && (c <=? hi)%N then Some ((c - lo) mod 10)%N
    else decimal_in tbl' c
  end.

Definition decimal_value (c : N) : option N := decimal_in decimal_ranges c.

(** [str.isdigit] on one character *)
Definition is_digit_char (c : N) : bool :=
  is_decimal c || in_ranges other_digit_ranges c.

(** [\s], [str.isspace] on one character *)
Definition is_space (c : N) : bool := in_ranges space_ranges c.

(** [s.isdigit()] *)
Definition isdigit (s : str) : bool :=
  match s with
  | [] => false
  | _ :: _ => forallb is_digit_char s
  end.

(** [s.strip()] *)
Fixpoint lstrip (s : str) : str :=
  match s with
  | c :: s' => if is_space c then lstrip s' else s
  | [] => []
  end.

Definition strip (s : str) : str := rev (lstrip (rev (lstrip s))).

End Str.

Import Str.

(* ===================================================================== *)
(** ** Values, exceptions and the built-ins the converters call          *)
(* ===================================================================== *)

Module Py.

Inductive exn : Type :=
| IndexError | ValueError | TypeError | AttributeError.

Inductive result (A : Type) : Type :=
| OK (a : A)
| Raise (e : exn).
Arguments Raise {A} e.

Definition bind {A B} (r : result A) (f : A -> result B) : result B :=
  match r with
  | OK a => f a
  | Raise e => Raise e
  end.

(** A JSON document as [json.load] returns it. *)
Inductive value : Type :=
| VNone
| VBool (b : bool)
| VInt (z : Z)
| VStr (s : str)
| VList (l : list value)
| VDict (d : list (str * value)).

Definition dict := list (str * value).

(** *** Insertion-ordered dictionaries *)

Section Dict.
Context {A : Type}.

Fixpoint dict_get (k : str) (d : list (str * A)) : option A :=
  match d with
  | [] => None
  | (k', v) :: d' => if Str.eqb k' k then Some v else dict_get k d'
  end.

  (** [d[k] = v]: an existing key keeps its place, a new one goes last. *)
Fixpoint dict_set (k : str) (v : A) (d : list (str * A)) : list (str * A) :=
  match d with
  | [] => [(k, v)]
  | (k', v') :: d' =>
    if Str.eqb k' k then (k', v) :: d' else (k', v') :: dict_set k v d'
  end.

  (** [d.pop(k, None)], the dictionary that is left: what is stored under
      [k] goes, the other entries keep their order. *)
Definition dict_pop (k : str) (d : list (str * A)) : list (str * A) :=
  filter (fun kv => negb (Str.eqb (fst kv) k)) d.

  (** The keys of a dictionary are pairwise different. *)
Fixpoint nodup_keys (d : list (str * A)) : bool :=
  match d with
  | [] => true
  | (k, _) :: d' =>
    match dict_get k d' with
    | Some _ => false
    | None => nodup_keys d'
    end
  end.

  (** [d.update(e)] *)
Definition dict_update (d e : list (str * A)) : list (str * A) :=
  fold_left (fun acc kv => dict_set (fst kv) (snd kv) acc) e d.

  (** A dictionary built by a run of assignments [d[k] = v]. *)
Definition dict_of (assignments : list (str * A)) : list (str * A) :=
  dict_update [] assignments.
End Dict.

(** *** Truth value, equality, membership *)

Definition truthy (v : value) : bool :=
  match v with
  | VNone => false
  | VBool b => b
  | VInt z => negb (z =? 0)%Z
  | VStr s => match s with [] => false | _ => true end
  | VList l => match l with [] => false | _ => true end
  | VDict d => match d with [] => false | _ => true end
  end.

(** [a == b]: [True == 1], lists compare element by element and dicts
    entry by entry whatever the order. *)
Fixpoint py_eq (a b : value) : bool :=
  match a, b with
  | VNone, VNone => true
  | VBool x, VBool y => Bool.eqb x y
  | VBool x, VInt z => (z =? (if x then 1 else 0))%Z
  | VInt z, VBool x => (z =? (if x then 1 else 0))%Z
  | VInt x, VInt y => (x =? y)%Z
  | VStr x, VStr y => Str.eqb x y
  | VList x, VList y =>
    (fix all2 (x : list value) (y : list value) {struct x} : bool :=
       match x, y with
       | [], [] => true
       | a' :: x', b' :: y' => py_eq a' b' && all2 x' y'
       | _, _ => false
       end) x y
  | VDict x, VDict y =>
    (length x =? length y)%nat &&
    (fix all1 (x : list (str * value)) : bool :=
       match x with
       | [] => true
       | (k, v) :: x' =>
         match dict_get k y with
         | Some w => py_eq v w
         | None => false
         end && all1 x'
       end) x
  | _, _ => false
  end.

(** [x in l] for a list [l]: the items are compared with [x] in order. *)
Definition list_mem (x : value) (l : list value) : bool :=
  existsb (fun y => py_eq y x) l.

(** [v == "literal"] *)
Definition is_str (lit : str) (v : value) : bool := py_eq v (VStr lit).

(** [d.get(k, default)]: only a dict has the method. *)
Definition py_get (d : value) (k : str) (default : value) : result value :=
  match d with
  | VDict kv => OK (match dict_get k kv with Some v => v | None => default end)
  | _ => Raise AttributeError
  end.

(** A receiver of a [str] method: anything else has no such attribute. *)
Definition as_str (v : value) : result str :=
  match v with
  | VStr s => OK s
  | _ => Raise AttributeError
  end.

(** An operand of [+] next to a [str]. *)
Definition as_str_operand (v : value) : result str :=
  match v with
  | VStr s => OK s
  | _ => Raise TypeError
  end.

(** [sub in v] with a string [sub]: substring test on a string, membership
    on a list, key test on a dict; other values are not iterable. *)
Definition py_in (sub : str) (v : value) : result bool :=
  match v with
  | VStr s => OK (Str.contains sub s)
  | VList l => OK (list_mem (VStr sub) l)
  | VDict d => OK (match dict_get sub d with Some _ => true | None => false end)
  | _ => Raise TypeError
  end.

(** [l[i]] on a list of strings *)
Definition index (l : list str) (i : nat) : result str :=
  match nth_error l i with
  | Some s => OK s
  | None => Raise IndexError
  end.

(** *** [int()] and [str()] *)

Definition digit_of (d : N) (u : Decimal.uint) : Decimal.uint :=
  match d with
  | 0 => Decimal.D0 u | 1 => Decimal.D1 u | 2 => Decimal.D2 u
  | 3 => Decimal.D3 u | 4 => Decimal.D4 u | 5 => Decimal.D5 u
  | 6 => Decimal.D6 u | 7 => Decimal.D7 u | 8 => Decimal.D8 u
  | _ => Decimal.D9 u
  end%N.

Definition uint_of_digits (ds : list N) : Decimal.uint :=
  fold_right digit_of Decimal.Nil ds.

Fixpoint digits_of_uint (u : Decimal.uint) : str :=
  match u with
  | Decimal.Nil => []
  | Decimal.D0 u' => 48 :: digits_of_uint u'
  | Decimal.D1 u' => 49 :: digits_of_uint u'
  | Decimal.D2 u' => 50 :: digits_of_uint u'
  | Decimal.D3 u' => 51 :: digits_of_uint u'
  | Decimal.D4 u' => 52 :: digits_of_uint u'
  | Decimal.D5 u' => 53 :: digits_of_uint u'
  | Decimal.D6 u' => 54 :: digits_of_uint u'
  | Decimal.D7 u' => 55 :: digits_of_uint u'
  | Decimal.D8 u' => 56 :: digits_of_uint u'
  | Decimal.D9 u' => 57 :: digits_of_uint u'
  end%N.

(** [str(z)] for an integer *)
Definition str_of_int (z : Z) : str :=
  match Z.to_int z with
  | Decimal.Pos u => digits_of_uint u
  | Decimal.Neg u => 45%N :: digits_of_uint u
  end.

(** What [int()] does to a string before parsing it: a character outside
    ASCII becomes a blank if it is white space, its ASCII digit if it is a
    decimal digit, and [?] otherwise. *)
Definition ascii_fold (c : N) : N :=
  if (c <? 127)%N then c
  else if is_space c then 32%N
  else match decimal_value c with
       | Some v => (48 + v)%N
       | None => 63%N
       end.

Definition c_isspace (c : N) : bool :=
  ((9 <=? c)%N && (c <=? 13)%N) || (c =? 32)%N.

Definition c_isdigit (c : N) : bool := (48 <=? c)%N && (c <=? 57)%N.

Fixpoint skip_spaces (s : str) : str :=
  match s with
  | c :: s' => if c_isspace c then skip_spaces s' else s
  | [] => []
  end.

(** The run of digits of an integer literal and what follows it.  An
    underscore is accepted only between two digits. *)
Fixpoint scan_digits (after_digit : bool) (s : str) : option (list N * str) :=
  match s with
  | [] => Some ([], [])
  | c :: s' =>
    if c_isdigit c then
      match scan_digits true s' with
      | Some (ds, r) => Some ((c - 48)%N :: ds, r)
      | None => None
      end
    else if (c =? 95)%N then
      if after_digit then
        match s' with
        | c' :: _ => if c_isdigit c' then scan_digits false s' else None
        | [] => None
        end
      else None
    else Some ([], s)
  end.

(** [sys.int_max_str_digits], at its default *)
Definition int_max_str_digits : N := 4300.

(** The digits of a conversion are within the limit. *)
Definition within_limit (digits : nat) : bool :=
  (N.of_nat digits <=? int_max_str_digits)%N.

(** [int(s)] for a string, base ten: blanks, sign, digits, blanks.  Every
    digit character counts for the limit, leading zeros too; the sign and
    the underscores do not. *)
Definition int_of_str (s : str) : option Z :=
  let t := skip_spaces (map ascii_fold s) in
  let '(neg, body) :=
    match t with
    | c :: r =>
      if (c =? 45)%N then (true, r)          (* - *)
      else if (c =? 43)%N then (false, r)    (* + *)
      else (false, t)
    | [] => (false, t)
    end in
  match scan_digits false body with
  | Some (d :: ds, r) =>
    if within_limit (length (d :: ds)) then
      match skip_spaces r with
      | [] =>
        let n := Z.of_uint (uint_of_digits (d :: ds)) in
        Some (if neg then (- n)%Z else n)
      | _ :: _ => None
      end
    else None
  | _ => None
  end.

(** [int(v)] *)
Definition py_int (v : value) : result Z :=
  match v with
  | VInt z => OK z
  | VBool b => OK (if b then 1 else 0)%Z
  | VStr s =>
    match int_of_str s with
    | Some z => OK z
    | None => Raise ValueError
    end
  | VNone | VList _ | VDict _ => Raise TypeError
  end.

(** The number of decimal digits of an integer, its sign apart. *)
Definition digits_of_int (z : Z) : nat := length (str_of_int (Z.abs z)).

(** [str(v)], also what an f-string does with [{v}]: a list or a dict is
    printed as [repr] prints it, an integer beyond the limit is refused. *)
Definition py_str (repr : value -> str) (v : value) : result str :=
  match v with
  | VStr s => OK s
  | VInt z =>
    if within_limit (digits_of_int z) then OK (str_of_int z)
    else Raise ValueError
  | VBool true => OK (lit "True")
  | VBool false => OK (lit "False")
  | VNone => OK (lit "None")
  | VList _ | VDict _ => OK (repr v)
  end.

End Py.

Import Py.

Declare Scope py_scope.
Delimit Scope py_scope with py.
Notation "x <- c1 ;; c2" := (bind c1 (fun x => c2))
  (at level 61, c1 at next level, right associativity) : py_scope.
Notation "' pat <- c1 ;; c2" := (bind c1 (fun x => match x with pat => c2 end))
  (at level 61, pat pattern, c1 at next level, right associativity) : py_scope.
Local Open Scope py_scope.

(* ===================================================================== *)
(** ** The literals of the sources                                       *)
(* ===================================================================== *)

Module L.
  (* field names of the flat (zzz) records *)
Definition type_ : str := Eval vm_compute in lit "类型".
Definition name : str := Eval vm_compute in lit "名称".
Definition orig_name : str := Eval vm_compute in lit "原名".
Definition domain : str := Eval vm_compute in lit "领域".
Definition init_hp : str := Eval vm_compute in lit "初始生命点".
Definition init_evasion : str := Eval vm_compute in lit "初始闪避值".
Definition init_items : str := Eval vm_compute in lit "初始物品".
Definition summary : str := Eval vm_compute in lit "简介".
Definition hope_feature : str := Eval vm_compute in lit "希望特性".
Definition class_feature : str := Eval vm_compute in lit "职业特性".
Definition background_qs : str := Eval vm_compute in lit "背景问题".
Definition relation_qs : str := Eval vm_compute in lit "关系问题".
Definition desc : str := Eval vm_compute in lit "描述".
Definition personality : str := Eval vm_compute in lit "性格".
Definition parent : str := Eval vm_compute in lit "主职".
Definition level : str := Eval vm_compute in lit "等级".
Definition cast_attr : str := Eval vm_compute in lit "施法属性".
Definition attribute : str := Eval vm_compute in lit "属性".
Definition recall : str := Eval vm_compute in lit "回想".
Definition brief : str := Eval vm_compute in lit "简略信息".
Definition feature : str := Eval vm_compute in lit "特性".
Definition effect : str := Eval vm_compute in lit "效果".
(* field names of the packaged (rrr) records *)
Definition id : str := Eval vm_compute in lit "id".
Definition domain1 : str := Eval vm_compute in lit "领域1".
Definition domain2 : str := Eval vm_compute in lit "领域2".
Definition start_hp : str := Eval vm_compute in lit "起始生命".
Definition start_evasion : str := Eval vm_compute in lit "起始闪避".
Definition start_items : str := Eval vm_compute in lit "起始物品".
Definition image_url : str := Eval vm_compute in lit "imageUrl".
Definition race : str := Eval vm_compute in lit "种族".
Definition category : str := Eval vm_compute in lit "类别".
Definition subclass_name : str := Eval vm_compute in lit "子职业".
Definition cast : str := Eval vm_compute in lit "施法".
(* values of 类型 *)
Definition t_profession : str := Eval vm_compute in lit "主职".
Definition t_ancestry : str := Eval vm_compute in lit "种族".
Definition t_community : str := Eval vm_compute in lit "社群".
Definition t_subclass : str := Eval vm_compute in lit "子职".
Definition t_domain : str := Eval vm_compute in lit "领域卡".
(* tier vocabulary *)
Definition tier1_zzz : str := Eval vm_compute in lit "基础".
Definition tier2_zzz : str := Eval vm_compute in lit "进阶".
Definition tier3_zzz : str := Eval vm_compute in lit "精通".
Definition tier1_rrr : str := Eval vm_compute in lit "基石".
Definition tier2_rrr : str := Eval vm_compute in lit "专精".
Definition tier3_rrr : str := Eval vm_compute in lit "大师".
(* other text *)
Definition na : str := Eval vm_compute in lit "N/A".
Definition no_cast : str := Eval vm_compute in lit "不可施法".
Definition default_package : str := Eval vm_compute in lit "扩展包".
Definition item : str := Eval vm_compute in lit "item".
Definition amp : str := Eval vm_compute in lit "&".
Definition he : str := Eval vm_compute in lit "和".
Definition wide_comma : str := Eval vm_compute in lit "，".
Definition comma : str := Eval vm_compute in lit ",".
Definition blank : str := Eval vm_compute in lit " ".
Definition plus : str := Eval vm_compute in lit "+".
Definition colon : str := Eval vm_compute in lit ":".
Definition wide_colon : str := Eval vm_compute in lit "：".
Definition nl : str := [10%N].
Definition nlnl : str := [10%N; 10%N].
Definition dash : str := Eval vm_compute in lit "-".
Definition slash : str := Eval vm_compute in lit "/".
(* keys of a package *)
Definition pkg_name : str := Eval vm_compute in lit "name".
Definition pkg_version : str := Eval vm_compute in lit "version".
Definition pkg_description : str := Eval vm_compute in lit "description".
Definition pkg_author : str := Eval vm_compute in lit "author".
Definition custom_defs : str := Eval vm_compute in lit "customFieldDefinitions".
Definition professions : str := Eval vm_compute in lit "professions".
Definition ancestries : str := Eval vm_compute in lit "ancestries".
Definition communities : str := Eval vm_compute in lit "communities".
Definition domains : str := Eval vm_compute in lit "domains".
Definition variants : str := Eval vm_compute in lit "variants".
Definition profession : str := Eval vm_compute in lit "profession".
Definition ancestry : str := Eval vm_compute in lit "ancestry".
Definition community : str := Eval vm_compute in lit "community".
Definition subclass : str := Eval vm_compute in lit "subclass".
Definition domain_cat : str := Eval vm_compute in lit "domain".
Definition variant : str := Eval vm_compute in lit "variant".
End L.

(* ===================================================================== *)
(** ** zzz2rrr.py: [work_zzz]                                            *)
(* ===================================================================== *)

Module Zzz2rrr.

(** What a run takes from outside: the clock ([datetime.now().strftime]),
    the file-name arithmetic of [os.path] and the draws of [uuid.uuid4]. *)
Record env : Type := Env {
  clock : str;
  stem : str -> str;        (* os.path.splitext(os.path.basename(p))[0] *)
  uuid4 : nat -> Z;         (* the n-th draw of uuid.uuid4().int *)
  uuid4_range : forall n, (0 <= uuid4 n < 2 ^ 128)%Z
}.

(** [gen_uuid()] at the [n]-th draw: [str()] of a 128-bit integer, which
    has 39 digits at most. *)
Definition gen_uuid (E : env) (n : nat) : value :=
  VStr (str_of_int (uuid4 E n)).

(** The lists of [dict_out] that the loop appends to: the five of
    [customFieldDefinitions], then the six category lists. *)
Record lists : Type := Lists {
  professions : list value;
  ancestries : list value;
  communities : list value;
  domains : list value;
  variants : list value;
  profession : list value;
  ancestry : list value;
  community : list value;
  subclass : list value;
  domain : list value;
  variant : list value
}.

Definition empty_lists : lists := Lists [] [] [] [] [] [] [] [] [] [] [].

(** [if x not in l: l.append(x)] *)
Definition add_unique (x : value) (l : list value) : list value :=
  if list_mem x l then l else l ++ [x].

Definition note_profession (x : value) (o : lists) : lists :=
  let 'Lists a b c d e f g h i j k := o in Lists (add_unique x a) b c d e f g h i j k.
Definition note_ancestry (x : value) (o : lists) : lists :=
  let 'Lists a b c d e f g h i j k := o in Lists a (add_unique x b) c d e f g h i j k.
Definition note_community (x : value) (o : lists) : lists :=
  let 'Lists a b c d e f g h i j k := o in Lists a b (add_unique x c) d e f g h i j k.
Definition note_domain (x : value) (o : lists) : lists :=
  let 'Lists a b c d e f g h i j k := o in Lists a b c (add_unique x d) e f g h i j k.
Definition note_variant (x : value) (o : lists) : lists :=
  let 'Lists a b c d e f g h i j k := o in Lists a b c d (add_unique x e) f g h i j k.
Definition add_profession (x : value) (o : lists) : lists :=
  let 'Lists a b c d e f g h i j k := o in Lists a b c d e (f ++ [x]) g h i j k.
Definition add_ancestry (x : value) (o : lists) : lists :=
  let 'Lists a b c d e f g h i j k := o in Lists a b c d e f (g ++ [x]) h i j k.
Definition add_community (x : value) (o : lists) : lists :=
  let 'Lists a b c d e f g h i j k := o in Lists a b c d e f g (h ++ [x]) i j k.
Definition add_subclass (x : value) (o : lists) : lists :=
  let 'Lists a b c d e f g h i j k := o in Lists a b c d e f g h (i ++ [x]) j k.
Definition add_domain (x : value) (o : lists) : lists :=
  let 'Lists a b c d e f g h i j k := o in Lists a b c d e f g h i (j ++ [x]) k.
Definition add_variant (x : value) (o : lists) : lists :=
  let 'Lists a b c d e f g h i j k := o in Lists a b c d e f g h i j (k ++ [x]).

(** [d.get(k, default)] once [d] is known to be a dict *)
Definition get (kv : dict) (k : str) (default : value) : value :=
  match dict_get k kv with
  | Some v => v
  | None => default
  end.

Definition empty : value := VStr [].

(** The loop state: the number of identifiers drawn so far and the lists. *)
Definition state : Type := (nat * lists)%type.

(** 类型 == "主职" *)
Definition zzz_profession (E : env) (st : state) (kv : dict) (name_ : value)
  : result state :=
  let '(n, out) := st in
  let out := note_profession name_ out in
  raw <- as_str (get kv L.domain empty) ;;
  let domain :=
    replace L.amp L.plus
      (replace L.blank []
        (replace L.comma L.plus
          (replace L.wide_comma L.plus
            (replace L.he L.plus
              (replace L.amp L.plus raw))))) in
  let domain_parts := split L.plus domain in
  let domain1 := nth 0 domain_parts [] in
  let domain2 := nth 1 domain_parts [] in
  hp <- py_int (get kv L.init_hp empty) ;;
  evasion <- py_int (get kv L.init_evasion empty) ;;
  let dict_in := dict_of
    [ (L.id, gen_uuid E n);
      (L.name, name_);
      (L.domain1, VStr domain1);
      (L.domain2, VStr domain2);
      (L.start_hp, VInt hp);
      (L.start_evasion, VInt evasion);
      (L.start_items, get kv L.init_items (VStr L.blank));
      (L.summary, get kv L.summary (VStr L.na));
      (L.hope_feature, get kv L.hope_feature empty);
      (L.class_feature, get kv L.class_feature empty);
      (L.image_url, empty) ] in
  OK (S n, add_profession (VDict dict_in) out).

(** 类型 == "种族": one packaged record per feature line *)
Definition zzz_ancestry (E : env) (st : state) (kv : dict) (name_ : value)
  : result state :=
  let '(n, out) := st in
  let out := note_ancestry name_ out in
  raw <- as_str (get kv L.desc empty) ;;
  let features :=
    split L.nl (replace L.nlnl L.nl (replace L.colon L.wide_colon raw)) in
  line0 <- index features 0 ;;
  let feature := split L.wide_colon line0 in
  f_name <- index feature 0 ;;
  f_effect <- index feature 1 ;;
  let dict_in := dict_of
    [ (L.id, gen_uuid E n);
      (L.name, name_);
      (L.name, VStr f_name);
      (L.race, name_);
      (L.summary, get kv L.summary (VStr L.na));
      (L.effect, VStr f_effect);
      (L.category, VInt 1);
      (L.image_url, empty) ] in
  let out := add_ancestry (VDict dict_in) out in
  line1 <- index features 1 ;;
  let feature := split L.wide_colon line1 in
  f_name <- index feature 0 ;;
  f_effect <- index feature 1 ;;
  let dict_in := dict_of
    [ (L.id, gen_uuid E (S n));
      (L.name, VStr f_name);
      (L.race, name_);
      (L.summary, get kv L.summary (VStr L.na));
      (L.effect, VStr f_effect);
      (L.category, VInt 2);
      (L.image_url, empty) ] in
  OK (S (S n), add_ancestry (VDict dict_in) out).

(** 类型 == "社群" *)
Definition zzz_community (E : env) (st : state) (kv : dict) (name_ : value)
  : result state :=
  let '(n, out) := st in
  let out := note_community name_ out in
  let feature := get kv L.desc empty in
  has_colon <- py_in L.wide_colon feature ;;
  '(f_name, f_desc) <-
    (if has_colon : bool then
       s <- as_str feature ;;
       match split_once L.wide_colon s with
       | Some (a, b) => OK (VStr a, VStr b)
       | None => Raise ValueError
       end
     else OK (feature, empty)) ;;
  let dict_in := dict_of
    [ (L.id, gen_uuid E n);
      (L.name, name_);
      (L.feature, f_name);
      (L.summary, get kv L.summary (VStr L.na));
      (L.desc, f_desc);
      (L.image_url, empty) ] in
  OK (S n, add_community (VDict dict_in) out).

(** 类型 == "子职" *)
Definition zzz_subclass (E : env) (st : state) (kv : dict) (name_ : value)
  : result state :=
  let '(n, out) := st in
  has_dash <- py_in L.dash name_ ;;
  sub_name <-
    (if has_dash : bool then
       s <- as_str name_ ;;
       head <- index (split L.dash s) 0 ;;
       OK (VStr head)
     else OK name_) ;;
  lv <- as_str (get kv L.level empty) ;;
  let lv :=
    replace L.tier3_zzz L.tier3_rrr
      (replace L.tier2_zzz L.tier2_rrr
        (replace L.tier1_zzz L.tier1_rrr lv)) in
  let cast := get kv L.cast_attr empty in
  let dict_in := dict_of
    [ (L.id, gen_uuid E n);
      (L.name, name_);
      (L.desc, get kv L.desc empty);
      (L.parent, get kv L.parent empty);
      (L.subclass_name, sub_name);
      (L.level, VStr lv);
      (L.cast, if truthy cast then cast else VStr L.no_cast);
      (L.image_url, empty) ] in
  OK (S n, add_subclass (VDict dict_in) out).

(** 类型 == "领域卡" *)
Definition zzz_domain (E : env) (st : state) (kv : dict) (name_ : value)
  : result state :=
  let '(n, out) := st in
  let dom := get kv L.domain empty in
  let out := note_domain dom out in
  lv <- py_int (get kv L.level empty) ;;
  let recall := get kv L.recall empty in
  digits <- as_str recall ;;
  recall' <-
    (if isdigit digits then z <- py_int recall ;; OK (VInt z)
     else OK recall) ;;
  let dict_in := dict_of
    [ (L.id, gen_uuid E n);
      (L.name, name_);
      (L.domain, dom);
      (L.level, VInt lv);
      (L.attribute, get kv L.attribute empty);
      (L.recall, recall');
      (L.desc, get kv L.desc empty);
      (L.image_url, empty) ] in
  OK (S n, add_domain (VDict dict_in) out).

(** [{f"item{i}": attr_parts[i] for i in range(len(attr_parts))}]; an index
    of a list in memory is far from the limit on the digits of [str()]. *)
Fixpoint items_from (i : nat) (parts : list str) : dict :=
  match parts with
  | [] => []
  | p :: ps =>
    (L.item ++ str_of_int (Z.of_nat i), VStr p) :: items_from (S i) ps
  end.

(** What the last branch writes into the input record itself. *)
Definition rewrite_variant (kv : dict) (attr_parts : list str) : dict :=
  let feat := get kv L.feature empty in
  dict_set L.brief (VDict (items_from 0 attr_parts))
    (dict_set L.effect feat kv).

(** Any other 类型; the record [d] is rewritten in place and copied. *)
Definition zzz_variant (E : env) (st : state) (kv : dict)
    (type_ name_ : value) : result (state * dict) :=
  let '(n, out) := st in
  let out := note_variant type_ out in
  let info := get kv L.brief empty in
  attr_parts <-
    (if truthy info then s <- as_str info ;; OK (split L.slash s)
     else OK []) ;;
  let kv' := rewrite_variant kv attr_parts in
  let dict_in :=
    dict_update (dict_of [(L.id, gen_uuid E n); (L.name, name_)]) kv' in
  OK ((S n, add_variant (VDict dict_in) out), kv').

(** One turn of [for d in data]: the new state and the record as the turn
    leaves it. *)
Definition zzz_record (E : env) (st : state) (d : value)
  : result (state * value) :=
  match d with
  | VDict kv =>
    let type_ := get kv L.type_ empty in
    let name_ := get kv L.name empty in
    if is_str L.t_profession type_ then
      st' <- zzz_profession E st kv name_ ;; OK (st', d)
    else if is_str L.t_ancestry type_ then
      st' <- zzz_ancestry E st kv name_ ;; OK (st', d)
    else if is_str L.t_community type_ then
      st' <- zzz_community E st kv name_ ;; OK (st', d)
    else if is_str L.t_subclass type_ then
      st' <- zzz_subclass E st kv name_ ;; OK (st', d)
    else if is_str L.t_domain type_ then
      st' <- zzz_domain E st kv name_ ;; OK (st', d)
    else
      '(st', kv') <- zzz_variant E st kv type_ name_ ;; OK (st', VDict kv')
  | _ => Raise AttributeError
  end.

(** The loop.  An exception ends it; the records already visited stay as
    their turns left them. *)
Fixpoint zzz_loop (E : env) (st : state) (data : list value)
  : result state * list value :=
  match data with
  | [] => (OK st, [])
  | d :: rest =>
    match zzz_record E st d with
    | OK (st', d') =>
      let '(r, rest') := zzz_loop E st' rest in (r, d' :: rest')
    | Raise e => (Raise e, d :: rest)
    end
  end.

(** [dict_out] as it is returned *)
Definition package (name version : str) (o : lists) : value :=
  VDict
    [ (L.pkg_name, VStr name);
      (L.pkg_version, VStr version);
      (L.pkg_description, empty);
      (L.pkg_author, empty);
      (L.custom_defs,
       VDict [ (L.professions, VList (professions o));
               (L.ancestries, VList (ancestries o));
               (L.communities, VList (communities o));
               (L.domains, VList (domains o));
               (L.variants, VList (variants o)) ]);
      (L.profession, VList (profession o));
      (L.ancestry, VList (ancestry o));
      (L.community, VList (community o));
      (L.subclass, VList (subclass o));
      (L.domain_cat, VList (domain o));
      (L.variant, VList (variant o)) ].

(** [work_zzz(data, input_path)]: what it returns or raises, and the list
    [data] as the call leaves it. *)
Definition work_zzz (E : env) (data : list value) (input_path : str)
  : result value * list value :=
  let name :=
    match input_path with
    | [] => L.default_package
    | _ :: _ => stem E input_path
    end in
  let version := clock E in
  let '(r, data') := zzz_loop E (0, empty_lists) data in
  (st <- r ;; OK (package name version (snd st)), data').

(* --------------------------------------------------------------------- *)
(** *** [work_rrr]                                                        *)
(* --------------------------------------------------------------------- *)

(** [for x in l: s = f(s, x)] with exceptions *)
Fixpoint foldM {A S : Type} (f : S -> A -> result S) (s : S) (l : list A)
  : result S :=
  match l with
  | [] => OK s
  | x :: l' => s' <- f s x ;; foldM f s' l'
  end.

(** The keys the inner loop runs over, in its order. *)
Inductive category : Type :=
| Profession | Ancestry | Community | Subclass | Domain | Variant.

Definition categories : list category :=
  [Profession; Ancestry; Community; Subclass; Domain; Variant].

Definition key_of (c : category) : str :=
  match c with
  | Profession => L.profession
  | Ancestry => L.ancestry
  | Community => L.community
  | Subclass => L.subclass
  | Domain => L.domain_cat
  | Variant => L.variant
  end.

(** [a + b] where [a] is written first and must be a string *)
Definition concat (a b : value) : result value :=
  x <- as_str_operand a ;;
  y <- as_str_operand b ;;
  OK (VStr (x ++ y)).

(** [race_dict]: keyed by the ancestry name, in insertion order.  A key
    must be hashable. *)
Definition race_dict : Type := list (value * dict).

Definition hashable (v : value) : bool :=
  match v with
  | VList _ | VDict _ => false
  | _ => true
  end.

Fixpoint race_get (k : value) (rd : race_dict) : option dict :=
  match rd with
  | [] => None
  | (k', r) :: rd' => if py_eq k' k then Some r else race_get k rd'
  end.

Fixpoint race_set (k : value) (r : dict) (rd : race_dict) : race_dict :=
  match rd with
  | [] => [(k, r)]
  | (k', r') :: rd' =>
    if py_eq k' k then (k', r) :: rd' else (k', r') :: race_set k r rd'
  end.

Definition rrr_profession (d : dict) : result dict :=
  dom1 <- concat (get d L.domain1 empty) (VStr L.plus) ;;
  dom <- concat dom1 (get d L.domain2 empty) ;;
  OK (dict_of
    [ (L.name, get d L.name empty);
      (L.orig_name, get d L.id empty);
      (L.type_, VStr L.t_profession);
      (L.domain, dom);
      (L.init_evasion, get d L.start_evasion empty);
      (L.init_hp, get d L.start_hp empty);
      (L.hope_feature, get d L.hope_feature empty);
      (L.class_feature, get d L.class_feature empty);
      (L.background_qs, get d L.background_qs (VList []));
      (L.relation_qs, get d L.relation_qs (VList []));
      (L.summary, get d L.summary empty) ]).

(** The ancestry branch only feeds [race_dict]. *)
Definition rrr_ancestry (rd : race_dict) (d : dict) : result race_dict :=
  let race_name := get d L.race empty in
  if hashable race_name then
    match race_get race_name rd with
    | Some r =>
      (* the stored record is never empty, hence true *)
      s1 <- concat (get r L.desc empty) (VStr L.nl) ;;
      s2 <- concat s1 (get d L.name empty) ;;
      s3 <- concat s2 (VStr L.wide_colon) ;;
      s4 <- concat s3 (get d L.effect empty) ;;
      OK (race_set race_name (dict_set L.desc s4 r) rd)
    | None =>
      s1 <- concat (get d L.name empty) (VStr L.wide_colon) ;;
      s2 <- concat s1 (get d L.effect empty) ;;
      OK (race_set race_name
            (dict_of
              [ (L.name, race_name);
                (L.orig_name, empty);
                (L.type_, VStr L.t_ancestry);
                (L.summary, get d L.summary empty);
                (L.desc, s2) ])
            rd)
    end
  else Raise TypeError.

Definition rrr_community (d : dict) : result dict :=
  s1 <- concat (get d L.feature empty) (VStr L.wide_colon) ;;
  s2 <- concat s1 (get d L.desc empty) ;;
  OK (dict_of
    [ (L.name, get d L.name empty);
      (L.orig_name, get d L.id empty);
      (L.type_, VStr L.t_community);
      (L.summary, get d L.summary empty);
      (L.personality, empty);
      (L.desc, s2) ]).

Definition rrr_subclass (d : dict) : result dict :=
  raw <- as_str (get d L.level empty) ;;
  let lv :=
    replace L.tier3_rrr L.tier3_zzz
      (replace L.tier2_rrr L.tier2_zzz
        (replace L.tier1_rrr L.tier1_zzz raw)) in
  s1 <- concat (get d L.subclass_name empty) (VStr L.dash) ;;
  nm <- concat s1 (VStr lv) ;;
  OK (dict_of
    [ (L.name, nm);
      (L.orig_name, empty);
      (L.type_, VStr L.t_subclass);
      (L.parent, get d L.parent empty);
      (L.level, VStr lv);
      (L.cast_attr, get d L.cast empty);
      (L.desc, get d L.desc empty) ]).

Section Rrr.
Variable repr : value -> str.

Definition rrr_domain (d : dict) : result dict :=
  lv <- py_str repr (get d L.level empty) ;;
  rc <- py_str repr (get d L.recall empty) ;;
  OK (dict_of
    [ (L.name, get d L.name empty);
      (L.orig_name, get d L.id empty);
      (L.type_, VStr L.t_domain);
      (L.domain, get d L.domain empty);
      (L.level, VStr lv);
      (L.attribute, get d L.attribute empty);
      (L.recall, VStr rc);
      (L.desc, get d L.desc empty) ]).

(** [for k, v in items: if v: attr = attr + f"{v}/"] *)
Definition join_items (items : dict) : result str :=
  foldM (fun attr kv =>
           if truthy (snd kv)
           then s <- py_str repr (snd kv) ;; OK (attr ++ s ++ L.slash)
           else OK attr)
        [] items.

(** The variant branch pops and rewrites [d] itself, then copies its true
    entries. *)
Definition rrr_variant (d : dict) : result dict :=
  let d := dict_pop L.image_url (dict_pop L.id d) in
  match get d L.brief empty with
  | VDict items =>
    attr <- join_items items ;;
    let attr' := match attr with [] => [] | _ :: _ => removelast attr end in
    let d := dict_set L.brief (VStr attr') d in
    OK (dict_of (filter (fun kv => truthy (snd kv)) d))
  | _ => Raise AttributeError
  end.

(** [dict_out] and [race_dict] *)
Definition rstate : Type := (list value * race_dict)%type.

(** One turn of [for d in da]. *)
Definition rrr_item (c : category) (st : rstate) (d : value) : result rstate :=
  let '(dict_out, rd) := st in
  match d with
  | VDict kv =>
    match c with
    | Profession => r <- rrr_profession kv ;; OK (dict_out ++ [VDict r], rd)
    | Ancestry => rd' <- rrr_ancestry rd kv ;; OK (dict_out, rd')
    | Community => r <- rrr_community kv ;; OK (dict_out ++ [VDict r], rd)
    | Subclass => r <- rrr_subclass kv ;; OK (dict_out ++ [VDict r], rd)
    | Domain => r <- rrr_domain kv ;; OK (dict_out ++ [VDict r], rd)
    | Variant => r <- rrr_variant kv ;; OK (dict_out ++ [VDict r], rd)
    end
  | VList _ =>
    match c with
    | Variant => Raise TypeError      (* list.pop takes one argument *)
    | _ => Raise AttributeError
    end
  | _ => Raise AttributeError
  end.

(** What [for d in da] runs over, for a true [da]. *)
Definition iterate (da : value) : result (list value) :=
  match da with
  | VDict _ => OK [da]
  | VList l => OK l
  | VStr s => OK (map (fun c => VStr [c]) s)
  | _ => Raise TypeError
  end.

(** One turn of [for key in [...]]. *)
Definition rrr_key (dat : dict) (st : rstate) (c : category) : result rstate :=
  match dict_get (key_of c) dat with
  | Some da =>
    if truthy da then items <- iterate da ;; foldM (rrr_item c) st items
    else OK st
  | None => OK st
  end.

(** One turn of [for dat in data]. *)
Definition rrr_package (st : rstate) (dat : value) : result rstate :=
  match dat with
  | VDict kv => foldM (rrr_key kv) st categories
  | _ => Raise AttributeError
  end.

(** [work_rrr(data)].  The variant records of [data] are rewritten in place
    as well; no later turn reads them again, and the model returns the
    result only. *)
Definition work_rrr (data : list value) : result (list value) :=
  st <- foldM rrr_package ([], []) data ;;
  OK (fst st ++ map (fun kr => VDict (snd kr)) (snd st)).
End Rrr.

Definition mode_rrr : str := Eval vm_compute in lit "rrr".
Definition mode_zzz : str := Eval vm_compute in lit "zzz".

(** [work_function(data, mode, filepath)]: what it returns or raises.  The
    line it prints first is left out. *)
Definition work_function (repr : value -> str) (E : env) (data : list value)
    (mode filepath : str) : result value :=
  if Str.eqb mode mode_rrr then r <- work_rrr repr data ;; OK (VList r)
  else if Str.eqb mode mode_zzz then fst (work_zzz E data filepath)
  else Raise ValueError.

End Zzz2rrr.

(* ===================================================================== *)
(** ** zzz2rink.py: [convert_environment]                                *)
(* ===================================================================== *)

(** What an f-string prints for [{v}], [v] a value of a loaded document:
    [str(v)], which for a list or a dict is [repr v]. *)
Definition format_with (repr : value -> str) (v : value) : str :=
  match v with
  | VStr s => s
  | VInt z => str_of_int z
  | VBool true => lit "True"
  | VBool false => lit "False"
  | VNone => lit "None"
  | VList _ | VDict _ => repr v
  end.

(** What [for x in v] runs over. *)
Definition py_iter (v : value) : result (list value) :=
  match v with
  | VList l => OK l
  | VDict d => OK (map (fun kv => VStr (fst kv)) d)
  | VStr s => OK (map (fun c => VStr [c]) s)
  | _ => Raise TypeError
  end.

(** [[f(x) for x in l]] with exceptions *)
Fixpoint mapM {A B : Type} (f : A -> result B) (l : list A) : result (list B) :=
  match l with
  | [] => OK []
  | x :: l' => y <- f x ;; ys <- mapM f l' ;; OK (y :: ys)
  end.

Module Zzz2rink.

Definition spend : str := Eval vm_compute in lit "花费".
Definition fear_points : str := Eval vm_compute in lit "恐惧点".

(** The longest prefix of [s] in the class [p], and the rest. *)
Fixpoint span (p : N -> bool) (s : str) : str * str :=
  match s with
  | c :: s' =>
    if p c then let '(a, b) := span p s' in (c :: a, b) else ([], s)
  | [] => ([], [])
  end.

(** [花费\s*(\d+)\s*恐惧点] matched at the start of [s]: group 1.  Every
    repetition is greedy and is followed by something no character of its
    class can start, so the match never backtracks. *)
Definition match_cost_here (s : str) : option str :=
  if starts_with spend s then
    let r1 := skipn (length spend) s in
    let '(_, r2) := span is_space r1 in
    let '(n, r3) := span is_decimal r2 in
    match n with
    | [] => None
    | _ :: _ =>
      let '(_, r4) := span is_space r3 in
      if starts_with fear_points r4 then Some n else None
    end
  else None.

(** [re.search(r"花费\s*(\d+)\s*恐惧点", desc)]: group 1 of the leftmost
    match. *)
Fixpoint search_cost (s : str) : option str :=
  match match_cost_here s with
  | Some n => Some n
  | None =>
    match s with
    | [] => None
    | _ :: s' => search_cost s'
    end
  end.

Section Convert.
Variable repr : value -> str.

Definition k_name_out : str := Eval vm_compute in lit "name".
Definition k_type_out : str := Eval vm_compute in lit "type".
Definition k_fear : str := Eval vm_compute in lit "fear".
Definition k_cost : str := Eval vm_compute in lit "cost".
Definition k_desc_out : str := Eval vm_compute in lit "desc".
Definition k_qs : str := Eval vm_compute in lit "qs".
Definition k_trait_desc : str := Eval vm_compute in lit "特性描述".
Definition k_trait_qs : str := Eval vm_compute in lit "特性问题".
Definition k_traits : str := Eval vm_compute in lit "traits".

  (** One turn of [for trait in src.get("特性", [])] *)
Definition convert_trait (trait : value) : result value :=
  match trait with
  | VDict t =>
    let trait_name := Zzz2rrr.get t L.name Zzz2rrr.empty in
    let trait_en := Zzz2rrr.get t L.orig_name Zzz2rrr.empty in
    let name :=
      if truthy trait_en
      then VStr (format_with repr trait_name ++ L.blank
                   ++ format_with repr trait_en)
      else trait_name in
    let desc := Zzz2rrr.get t k_trait_desc Zzz2rrr.empty in
    match desc with
    | VStr s =>
      let '(fear, cost) :=
        match search_cost s with
        | Some n => (true, n)
        | None => (false, [48%N])
        end in
      OK (VDict (dict_of
        [ (k_name_out, name);
          (k_type_out, Zzz2rrr.get t L.type_ Zzz2rrr.empty);
          (k_fear, VBool fear);
          (k_cost, VStr cost);
          (k_desc_out, desc);
          (k_qs, Zzz2rrr.get t k_trait_qs Zzz2rrr.empty) ]))
    | _ => Raise TypeError
    end
  | _ => Raise AttributeError
  end.

Definition image_settings : value :=
  VDict
    [ (lit "src", VStr []);
      (lit "width", VStr (lit "350"));
      (lit "height", VStr (lit "200"));
      (lit "transform", VStr []);
      (lit "hideBorder", VBool false) ].

Definition convert_environment (src : value) : result value :=
  match src with
  | VDict kv =>
    traits <- py_iter (Zzz2rrr.get kv L.feature (VList [])) ;;
    traits' <- mapM convert_trait traits ;;
    OK (VDict (dict_of
      [ (lit "name", Zzz2rrr.get kv L.name Zzz2rrr.empty);
        (lit "nameEn", Zzz2rrr.get kv (lit "原文") Zzz2rrr.empty);
        (lit "rank", Zzz2rrr.get kv (lit "位阶") Zzz2rrr.empty);
        (lit "type", Zzz2rrr.get kv (lit "种类") Zzz2rrr.empty);
        (lit "description", Zzz2rrr.get kv L.summary Zzz2rrr.empty);
        (lit "tendencies", Zzz2rrr.get kv (lit "趋向") Zzz2rrr.empty);
        (lit "difficulty", Zzz2rrr.get kv (lit "难度") Zzz2rrr.empty);
        (lit "enemies", Zzz2rrr.get kv (lit "潜在敌人") Zzz2rrr.empty);
        (lit "decoratorColor", VStr (lit "#1c538a"));
        (lit "highlightBgColor", VStr (lit "#852020"));
        (lit "highlightTextColor", VStr (lit "#ffffff"));
        (lit "imageSettings", image_settings);
        (k_traits, VList traits') ]))
  | _ => Raise AttributeError
  end.
End Convert.

(* --------------------------------------------------------------------- *)
(** *** [convert_enemy], [process_item] and the loop of [main]            *)
(* --------------------------------------------------------------------- *)

(** The class [[，,]] of the pattern that splits 经历. *)
Definition comma_class : str := Eval vm_compute in lit "，,".

Definition is_comma (c : N) : bool := existsb (N.eqb c) comma_class.

(** [re.split(p, s)] for a pattern [p] that matches one character of a
    class: the texts between the matches; the result is never empty. *)
Fixpoint re_split (sep : N -> bool) (s : str) : list str :=
  match s with
  | [] => [[]]
  | c :: s' =>
    if sep c then [] :: re_split sep s'
    else match re_split sep s' with
         | w :: ws => (c :: w) :: ws
         | [] => [[c]]
         end
  end.

Definition k_rank : str := Eval vm_compute in lit "rank".
Definition k_description_out : str := Eval vm_compute in lit "description".
Definition k_motivation : str := Eval vm_compute in lit "motivation".
Definition k_difficulty : str := Eval vm_compute in lit "difficulty".
Definition k_threshold : str := Eval vm_compute in lit "threshold".
Definition k_health : str := Eval vm_compute in lit "health".
Definition k_stress : str := Eval vm_compute in lit "stress".
Definition k_attack_bonus : str := Eval vm_compute in lit "attackBonus".
Definition k_weapon_name : str := Eval vm_compute in lit "weaponName".
Definition k_weapon_range : str := Eval vm_compute in lit "weaponRange".
Definition k_damage_dice : str := Eval vm_compute in lit "damageDice".
Definition k_damage_type : str := Eval vm_compute in lit "damageType".
Definition k_decorator : str := Eval vm_compute in lit "decoratorColor".
Definition k_highlight_bg : str := Eval vm_compute in lit "highlightBgColor".
Definition k_highlight_text : str := Eval vm_compute in lit "highlightTextColor".
Definition k_is_npc : str := Eval vm_compute in lit "isNPC".
Definition k_image_src : str := Eval vm_compute in lit "imageSrc".
Definition k_image_transform : str := Eval vm_compute in lit "imageTransform".
Definition k_image_settings : str := Eval vm_compute in lit "imageSettings".
Definition k_experiences : str := Eval vm_compute in lit "experiences".
Definition k_flavor : str := Eval vm_compute in lit "flavor".
Definition k_special_traits : str := Eval vm_compute in lit "specialTraits".
(* fields of an adversary record *)
Definition k_tier : str := Eval vm_compute in lit "位阶".
Definition k_kind : str := Eval vm_compute in lit "种类".
Definition k_tactics : str := Eval vm_compute in lit "动机与战术".
Definition k_hardness : str := Eval vm_compute in lit "难度".
Definition k_heavy : str := Eval vm_compute in lit "重度伤害阈值".
Definition k_severe : str := Eval vm_compute in lit "严重伤害阈值".
Definition k_hp : str := Eval vm_compute in lit "生命点".
Definition k_stress_points : str := Eval vm_compute in lit "压力点".
Definition k_attack : str := Eval vm_compute in lit "攻击命中".
Definition k_weapon : str := Eval vm_compute in lit "攻击武器".
Definition k_range : str := Eval vm_compute in lit "攻击范围".
Definition k_damage : str := Eval vm_compute in lit "攻击伤害".
Definition k_damage_kind : str := Eval vm_compute in lit "攻击属性".
Definition k_experience : str := Eval vm_compute in lit "经历".
(* values of 类型 *)
Definition t_enemy : str := Eval vm_compute in lit "敌人".
Definition t_environment : str := Eval vm_compute in lit "环境".

Definition enemy_image_settings : value :=
  VDict
    [ (lit "width", VStr (lit "150"));
      (lit "height", VStr (lit "150"));
      (lit "shape", VStr (lit "circle"));
      (lit "hideBorder", VBool false) ].

Section Process.
Variable repr : value -> str.

(** One turn of [for trait in src.get("特性", [])] in [convert_enemy] *)
Definition convert_enemy_trait (trait : value) : result value :=
  match trait with
  | VDict t =>
    let t_type := Zzz2rrr.get t L.type_ Zzz2rrr.empty in
    let t_desc := Zzz2rrr.get t k_trait_desc Zzz2rrr.empty in
    OK (VDict (dict_of
      [ (k_name_out, Zzz2rrr.get t L.name Zzz2rrr.empty);
        (k_desc_out,
         if truthy t_type
         then VStr (format_with repr t_type ++ L.wide_colon
                      ++ format_with repr t_desc)
         else t_desc);
        (k_flavor, Zzz2rrr.empty) ]))
  | _ => Raise AttributeError
  end.

(** [[e.strip() for e in experiences if e.strip()]] *)
Definition stripped_nonempty (experiences : list str) : list str :=
  map strip
    (filter (fun e => match strip e with [] => false | _ :: _ => true end)
            experiences).

Definition convert_enemy (src : value) : result value :=
  match src with
  | VDict kv =>
    let heavy := Zzz2rrr.get kv k_heavy Zzz2rrr.empty in
    let severe := Zzz2rrr.get kv k_severe Zzz2rrr.empty in
    let attack_bonus := Zzz2rrr.get kv k_attack Zzz2rrr.empty in
    attack_bonus <-
      (if truthy attack_bonus then
         s <- as_str attack_bonus ;;
         OK (if starts_with L.plus s then VStr (skipn 1 s) else attack_bonus)
       else OK attack_bonus) ;;
    let experiences_str := Zzz2rrr.get kv k_experience Zzz2rrr.empty in
    experiences <-
      (if truthy experiences_str then
         match experiences_str with
         | VStr s => OK (map VStr (stripped_nonempty (re_split is_comma s)))
         | _ => Raise TypeError
         end
       else OK []) ;;
    traits <- py_iter (Zzz2rrr.get kv L.feature (VList [])) ;;
    traits' <- mapM convert_enemy_trait traits ;;
    OK (VDict (dict_of
      [ (k_name_out, Zzz2rrr.get kv L.name Zzz2rrr.empty);
        (k_rank, Zzz2rrr.get kv k_tier Zzz2rrr.empty);
        (k_type_out, Zzz2rrr.get kv k_kind Zzz2rrr.empty);
        (k_description_out, Zzz2rrr.get kv L.summary Zzz2rrr.empty);
        (k_motivation, Zzz2rrr.get kv k_tactics Zzz2rrr.empty);
        (k_difficulty, Zzz2rrr.get kv k_hardness Zzz2rrr.empty);
        (k_threshold,
         VStr (format_with repr heavy ++ L.slash ++ format_with repr severe));
        (k_health, Zzz2rrr.get kv k_hp Zzz2rrr.empty);
        (k_stress, Zzz2rrr.get kv k_stress_points Zzz2rrr.empty);
        (k_attack_bonus, attack_bonus);
        (k_weapon_name, Zzz2rrr.get kv k_weapon Zzz2rrr.empty);
        (k_weapon_range, Zzz2rrr.get kv k_range Zzz2rrr.empty);
        (k_damage_dice, Zzz2rrr.get kv k_damage Zzz2rrr.empty);
        (k_damage_type, Zzz2rrr.get kv k_damage_kind Zzz2rrr.empty);
        (k_decorator, VStr (lit "#8a1c1c"));
        (k_highlight_bg, VStr (lit "#852020"));
        (k_highlight_text, VStr (lit "#ffffff"));
        (k_is_npc, VBool false);
        (k_image_src, VStr (lit "about:blank"));
        (k_image_transform, Zzz2rrr.empty);
        (k_image_settings, enemy_image_settings);
        (k_experiences, VList experiences);
        (k_traits, VList traits');
        (k_special_traits, VList []) ]))
  | _ => Raise AttributeError
  end.

(** [process_item(item)]: what it returns ([None] is [VNone]) or raises,
    and the lines it prints. *)
Definition process_item (item : value) : result value * list str :=
  match item with
  | VDict kv =>
    let item_type := Zzz2rrr.get kv L.type_ VNone in
    if is_str t_enemy item_type then (convert_enemy item, [])
    else if is_str t_environment item_type
    then (convert_environment repr item, [])
    else
      (OK VNone,
       [ lit "Warning: Unknown item type '" ++ format_with repr item_type
           ++ lit "' for item '"
           ++ format_with repr (Zzz2rrr.get kv L.name (VStr (lit "Unknown")))
           ++ lit "'. Skipping." ])
  | _ => (Raise AttributeError, [])
  end.

(** [for item in source_data] of [main]: [converted_data], or the
    exception that ends the loop, and the lines printed on the way. *)
Fixpoint convert_items (converted_data : list value) (items : list value)
  : result (list value) * list str :=
  match items with
  | [] => (OK converted_data, [])
  | item :: rest =>
    match process_item item with
    | (OK result, out) =>
      let converted_data :=
        if truthy result then converted_data ++ [result] else converted_data in
      let '(r, out') := convert_items converted_data rest in (r, out ++ out')
    | (Raise e, out) => (Raise e, out)
    end
  end.

(** The part of [main] between [json.load] and [json.dump]: the list that
    is written for the loaded [source_data] ([None] when the root is
    neither a list nor a dict and nothing is written), or the exception
    that the handler of [main] reports. *)
Definition converted_data (source_data : value)
  : result (option (list value)) * list str :=
  match source_data with
  | VList l =>
    let '(r, out) := convert_items [] l in (x <- r ;; OK (Some x), out)
  | VDict _ =>
    let '(r, out) := convert_items [] [source_data] in
    (x <- r ;; OK (Some x), out)
  | _ => (OK None, [lit "Error: JSON root must be a list or a dict."])
  end.
End Process.

End Zzz2rink.

(* ===================================================================== *)
(** ** zzz2keyword.py: [work]                                            *)
(* ===================================================================== *)

Module Zzz2keyword.

Definition default_type : str := Eval vm_compute in lit "默认类型".
Definition k_keyword : str := Eval vm_compute in lit "keyword".
Definition k_category : str := Eval vm_compute in lit "category".
Definition k_description : str := Eval vm_compute in lit "description".
Definition k_display : str := Eval vm_compute in lit "display".
Definition normal : str := Eval vm_compute in lit "normal".

(** The record after the four [d.pop] of a turn. *)
Definition popped (d : dict) : dict :=
  dict_pop L.type_
    (dict_pop L.relation_qs (dict_pop L.background_qs (dict_pop L.orig_name d))).

Section Work.
Variable repr : value -> str.

  (** [for k, v in d.items(): if k != "名称": desc += f"{k}:{v}\n"] *)
Definition describe (d : dict) : str :=
  fold_left
    (fun desc kv =>
       if Str.eqb (fst kv) L.name then desc
       else desc ++ fst kv ++ L.colon ++ format_with repr (snd kv) ++ L.nl)
    d [].

  (** One turn of [for d in data]: the summary or the exception, and the
      record as the turn leaves it. *)
Definition work_record (d : value) : result value * value :=
  match d with
  | VDict kv =>
    let keyword := Zzz2rrr.get kv L.name Zzz2rrr.empty in
    let kv3 :=
      dict_pop L.relation_qs
        (dict_pop L.background_qs (dict_pop L.orig_name kv)) in
    let typ := Zzz2rrr.get kv3 L.type_ (VStr default_type) in
    let kv' := dict_pop L.type_ kv3 in
    (typ' <-
       (if is_str L.t_domain typ then
          s <- as_str_operand (Zzz2rrr.get kv' L.domain Zzz2rrr.empty) ;;
          OK (VStr (L.t_domain ++ L.dash ++ s))
        else OK typ) ;;
     OK (VDict (dict_of
       [ (k_keyword, keyword);
         (k_category, typ');
         (k_description, VStr (strip (describe kv')));
         (k_display, VStr normal) ])),
     VDict kv')
  | _ => (Raise AttributeError, d)
  end.

Fixpoint work_loop (lst : list value) (data : list value)
  : result (list value) * list value :=
  match data with
  | [] => (OK lst, [])
  | d :: rest =>
    match work_record d with
    | (OK dic, d') =>
      let '(r, rest') := work_loop (lst ++ [dic]) rest in (r, d' :: rest')
    | (Raise e, d') => (Raise e, d' :: rest)
    end
  end.

  (** [work(data)]: what it returns or raises, and the object [data] as
      the call leaves it. *)
Definition work (data : value) : result (list value) * value :=
  match data with
  | VDict _ =>
    let '(r, data') := work_loop [] [data] in
    (r, nth 0 data' data)
  | VList l =>
    let '(r, l') := work_loop [] l in (r, VList l')
  | VStr [] => (OK [], data)
  | VStr (_ :: _) => (Raise AttributeError, data)
  | _ => (Raise TypeError, data)
  end.
End Work.

End Zzz2keyword.

(* ===================================================================== *)
(** ** merge_zzz.py: [load_json_list], [merge_zzz_files]                 *)
(* ===================================================================== *)

Module Merge_zzz.

(** What [open] and [json.load] make of a path: the parsed root, a
    [JSONDecodeError] or [UnicodeDecodeError], or an exception of another
    class (a file that cannot be opened, say). *)
Inductive loaded : Type :=
| Parsed (v : value)
| Undecodable
| Unopened.

(** The exceptions of this script: [ValueError] ([Invalid]), and whatever else
    [open] and [json.load] raise. *)
Inductive failure : Type := Invalid | Other.

Section Files.
Variable json_load : str -> loaded.

(** [load_json_list(filepath)]: a root that is no list and a text that is
    no JSON raise [ValueError]. *)
Definition load_json_list (filepath : str) : list value + failure :=
  match json_load filepath with
  | Parsed (VList l) => inl l
  | Parsed _ => inr Invalid
  | Undecodable => inr Invalid
  | Unopened => inr Other
  end.

(** [merge_zzz_files(filepaths)]: a [ValueError] skips the file, any other
    exception ends the loop.  The lines printed are left out. *)
Fixpoint merge_from (merged : list value) (filepaths : list str)
  : list value + failure :=
  match filepaths with
  | [] => inl merged
  | fp :: rest =>
    match load_json_list fp with
    | inl lst => merge_from (merged ++ lst) rest
    | inr Invalid => merge_from merged rest
    | inr Other => inr Other
    end
  end.

Definition merge_zzz_files (filepaths : list str) : list value + failure :=
  merge_from [] filepaths.
End Files.

End Merge_zzz.

(* ===================================================================== *)
(** ** zzz2rrr.py: [load_dhcb_file], [collect_data]                      *)
(* ===================================================================== *)

Module Collector.

(** [s.endswith(suffix)] *)
Definition ends_with (suffix s : str) : bool :=
  starts_with (rev suffix) (rev s).

Definition ext_json : str := Eval vm_compute in lit ".json".
Definition ext_dhcb : str := Eval vm_compute in lit ".dhcb".
Definition ext_zip : str := Eval vm_compute in lit ".zip".
Definition cards_json : str := Eval vm_compute in lit "cards.json".

(** What reading and parsing a JSON text gives: the parsed root, a
    [JSONDecodeError], a [UnicodeDecodeError], or an exception of another
    class (a file that cannot be opened, say). *)
Inductive loaded : Type :=
| Parsed (v : value)
| BadJson
| BadUnicode
| Failed.

(** What [zipfile.ZipFile] makes of a path: the names of the entries, a
    [BadZipFile], or an exception of another class. *)
Inductive archive : Type :=
| Entries (names : list str)
| BadZip
| Unreadable.

Inductive path_kind : Type := IsFile | IsDir | Missing.

(** The exceptions that leave [collect_data]. *)
Inductive failure : Type :=
| Value_error          (* ValueError raised by the script itself *)
| Json_error           (* json.JSONDecodeError *)
| Unicode_error        (* UnicodeDecodeError *)
| Not_found            (* FileNotFoundError raised by the script itself *)
| Other_error.

(** The file system and the library calls, as a run meets them. *)
Record files : Type := Files {
  kind : str -> path_kind;              (* os.path.isfile, os.path.isdir *)
  lower : str -> str;                   (* str.lower *)
  walk : str -> list (str * list str);  (* os.walk: root and files *)
  join : str -> str -> str;             (* os.path.join *)
  load_json_file : str -> loaded;
  namelist : str -> archive;
  read_entry : str -> str -> loaded     (* zf.open, read, decode, json.loads *)
}.

Section Collect.
Variable F : files.

(** [load_dhcb_file(filepath)].  A [BadZipFile] and a [JSONDecodeError]
    become a [ValueError]; the handlers let a [UnicodeDecodeError]
    through. *)
Definition load_dhcb_file (filepath : str) : value + failure :=
  match namelist F filepath with
  | Entries names =>
    let candidates :=
      filter (fun name => ends_with cards_json (lower F name)) names in
    let candidates :=
      match candidates with
      | [] => filter (fun name => ends_with ext_json (lower F name)) names
      | _ :: _ => candidates
      end in
    match candidates with
    | [] => inr Value_error
    | target :: _ =>
      match read_entry F filepath target with
      | Parsed v => inl v
      | BadJson => inr Value_error
      | BadUnicode => inr Unicode_error
      | Failed => inr Other_error
      end
    end
  | BadZip => inr Value_error
  | Unreadable => inr Other_error
  end.

(** [all_data.append(data)] for a dict, [all_data.extend(data)] for a
    list; [None] for any other root. *)
Definition add_root (all_data : list value) (data : value)
  : option (list value) :=
  match data with
  | VDict _ => Some (all_data ++ [data])
  | VList l => Some (all_data ++ l)
  | _ => None
  end.

(** The branch [os.path.isfile(input_path)]. *)
Definition collect_file (input_path : str) : list value + failure :=
  let lower_path := lower F input_path in
  let data :=
    if ends_with ext_json lower_path then
      match load_json_file F input_path with
      | Parsed v => inl v
      | BadJson => inr Json_error
      | BadUnicode => inr Unicode_error
      | Failed => inr Other_error
      end
    else if ends_with ext_dhcb lower_path || ends_with ext_zip lower_path
    then load_dhcb_file input_path
    else inr Value_error in
  match data with
  | inl v =>
    match add_root [] v with
    | Some all_data => inl all_data
    | None => inr Value_error
    end
  | inr e => inr e
  end.

(** [for file in files] under one [root]: a root that is neither dict nor
    list and a text that does not parse are skipped with a warning (the
    warnings are left out). *)
Fixpoint collect_files (root : str) (names : list str) (all_data : list value)
  : list value + failure :=
  match names with
  | [] => inl all_data
  | file :: rest =>
    if ends_with ext_json (lower F file) then
      match load_json_file F (join F root file) with
      | Parsed data =>
        collect_files root rest
          (match add_root all_data data with
           | Some all_data' => all_data'
           | None => all_data
           end)
      | BadJson | BadUnicode => collect_files root rest all_data
      | Failed => inr Other_error
      end
    else collect_files root rest all_data
  end.

(** [for root, dirs, files in os.walk(input_path)] *)
Fixpoint collect_walk (entries : list (str * list str)) (all_data : list value)
  : list value + failure :=
  match entries with
  | [] => inl all_data
  | (root, names) :: rest =>
    match collect_files root names all_data with
    | inl all_data' => collect_walk rest all_data'
    | inr e => inr e
    end
  end.

Definition collect_data (input_path : str) : list value + failure :=
  match kind F input_path with
  | IsFile => collect_file input_path
  | IsDir => collect_walk (walk F input_path) []
  | Missing => inr Not_found
  end.
End Collect.

End Collector.


Unset Implicit Arguments.

(* ===================================================================== *)
(** ** Notions of the specification                                      *)
(* ===================================================================== *)

Module Spec.
Import Zzz2rrr.

(** zzz→rrr→zzz on one flat record: the package [work_zzz] returns is what
    [work_rrr] is given. *)
Definition roundtrip (repr : value -> str) (E : env) (path : str) (d : value)
  : result (list value) :=
  pkg <- fst (work_zzz E [d] path) ;; work_rrr repr [pkg].

(** A category list of a package. *)
Definition category_list (pkg : value) (k : str) : list value :=
  match pkg with
  | VDict kv =>
    match dict_get k kv with
    | Some (VList l) => l
    | _ => []
    end
  | _ => []
  end.

(** A list of [customFieldDefinitions]. *)
Definition custom_list (pkg : value) (k : str) : list value :=
  match pkg with
  | VDict kv =>
    match dict_get L.custom_defs kv with
    | Some defs => category_list defs k
    | None => []
    end
  | _ => []
  end.

(** The code point [c] does not occur in [s]. *)
Definition free_of (c : N) (s : str) : bool :=
  forallb (fun x => negb (x =? c)%N) s.

(** The digits that ASCII digit characters stand for. *)
Definition digit_values (s : str) : list N := map (fun c => (c - 48)%N) s.


(** A domain name as [work_zzz] leaves it: none of the separators that the
    profession branch rewrites or splits on ([&], [和], [，], [,], blank,
    [+]). *)
Definition plain_domain (s : str) : bool :=
  forallb (fun c => free_of c s) [38; 21644; 65292; 44; 32; 43]%N.

(** The tier labels of the flat records. *)
Definition tier_label (s : str) : bool :=
  Str.eqb s L.tier1_zzz || Str.eqb s L.tier2_zzz || Str.eqb s L.tier3_zzz.

(** The packaged label of a flat tier label. *)
Definition packaged_tier (s : str) : str :=
  if Str.eqb s L.tier1_zzz then L.tier1_rrr
  else if Str.eqb s L.tier2_zzz then L.tier2_rrr
  else L.tier3_rrr.

(** The record [r] holds under [k] what the record [kv] holds under it
    ([default] if [kv] has no such field). *)
Definition agrees (kv r : dict) (k : str) (default : value) : Prop :=
  dict_get k r = Some (get kv k default).

(** Every part is non-empty and has no [/]. *)
Definition brief_parts (parts : list str) : bool :=
  match parts with
  | [] => false
  | _ :: _ =>
    forallb (fun p => match p with [] => false | _ :: _ => free_of 47 p end) parts
  end.

(** A string of ASCII digits that is the decimal writing of a number:
    no leading zero, except for zero itself. *)
Definition canonical_digits (s : str) : bool :=
  match s with
  | [] => false
  | [c] => c_isdigit c
  | c :: _ :: _ => forallb c_isdigit s && negb (c =? 48)%N
  end.

(** 类型 is one of the five the loop knows. *)
Definition known_type (t : value) : bool :=
  is_str L.t_profession t || is_str L.t_ancestry t || is_str L.t_community t
  || is_str L.t_subclass t || is_str L.t_domain t.

(** The identifier a packaged record carries. *)
Definition record_id (r : value) : option value :=
  match r with
  | VDict d => dict_get L.id d
  | _ => None
  end.

(** The identifiers [work_zzz] gives the records of one category list. *)
Definition emitted_ids (E : env) (data : list value) (k : str)
  : list (option value) :=
  match fst (work_zzz E data []) with
  | OK pkg => map record_id (category_list pkg k)
  | Raise _ => []
  end.

(** The parts of 简略信息 that the last branch keys. *)
Definition variant_parts (kv : dict) : list str :=
  match get kv L.brief empty with
  | VStr (c :: s) => split L.slash (c :: s)
  | _ => []
  end.

(** An input record after a completed turn of [work_zzz]: a record of one
    of the five known types is as it was; any other has 效果 set to its
    特性 and 简略信息 replaced by the keyed parts. *)
Definition after_zzz (d : value) : value :=
  match d with
  | VDict kv =>
    if known_type (get kv L.type_ empty) then d
    else VDict (dict_set L.brief (VDict (items_from 0 (variant_parts kv)))
                  (dict_set L.effect (get kv L.feature empty) kv))
  | _ => d
  end.

(** What a completed turn of the loop does to the state, whatever the
    fields of the packaged record beside its identifier. *)
Inductive turn (E : env) : state -> value -> state -> value -> Prop :=
| turn_profession n out kv r :
    get kv L.type_ empty = VStr L.t_profession ->
    record_id r = Some (gen_uuid E n) ->
    turn E (n, out) (VDict kv)
         (S n, add_profession r (note_profession (get kv L.name empty) out))
         (VDict kv)
| turn_ancestry n out kv r1 r2 :
    get kv L.type_ empty = VStr L.t_ancestry ->
    record_id r1 = Some (gen_uuid E n) ->
    record_id r2 = Some (gen_uuid E (S n)) ->
    turn E (n, out) (VDict kv)
         (S (S n),
          add_ancestry r2
            (add_ancestry r1 (note_ancestry (get kv L.name empty) out)))
         (VDict kv)
| turn_community n out kv r :
    get kv L.type_ empty = VStr L.t_community ->
    record_id r = Some (gen_uuid E n) ->
    turn E (n, out) (VDict kv)
         (S n, add_community r (note_community (get kv L.name empty) out))
         (VDict kv)
| turn_subclass n out kv r :
    get kv L.type_ empty = VStr L.t_subclass ->
    record_id r = Some (gen_uuid E n) ->
    turn E (n, out) (VDict kv) (S n, add_subclass r out) (VDict kv)
| turn_domain n out kv r :
    get kv L.type_ empty = VStr L.t_domain ->
    record_id r = Some (gen_uuid E n) ->
    turn E (n, out) (VDict kv)
         (S n, add_domain r (note_domain (get kv L.domain empty) out))
         (VDict kv)
| turn_variant n out kv :
    known_type (get kv L.type_ empty) = false ->
    turn E (n, out) (VDict kv)
         (S n,
          add_variant
            (VDict (dict_update
                      (dict_of [(L.id, gen_uuid E n);
                                (L.name, get kv L.name empty)])
                      (rewrite_variant kv (variant_parts kv))))
            (note_variant (get kv L.type_ empty) out))
         (VDict (rewrite_variant kv (variant_parts kv))).

(** The records of [l] carry, in order, the draws numbered [ks]. *)
Definition minted (E : env) (ks : list nat) (l : list value) : Prop :=
  map record_id l = map (fun k => Some (gen_uuid E k)) ks.

(** The variant record [v] carries the draw numbered [k], unless an input
    record brought an id field of its own, which it carries then. *)
Definition minted_or_own (E : env) (data : list value) (k : nat) (v : value)
  : Prop :=
  record_id v = Some (gen_uuid E k) \/
  exists kv x, In (VDict kv) data /\ In (L.id, x) kv /\ record_id v = Some x.

(** A completed run of the loop. *)
Inductive run (E : env) : state -> list value -> state -> list value -> Prop :=
| run_nil st : run E st [] st []
| run_cons st d st1 d' ds st2 ds' :
    turn E st d st1 d' -> run E st1 ds st2 ds' ->
    run E st (d :: ds) st2 (d' :: ds').

(** The values of a list in the order of their first appearance: a value
    stays unless an earlier value that stayed is [==] to it. *)
Equations nub (l : list value) : list value by wf (length l) lt :=
  nub [] := [];
  nub (x :: xs) := x :: nub (filter (fun y => negb (py_eq x y)) xs).
Next Obligation.
  apply Nat.lt_succ_r. apply filter_length_le.
Qed.

(** No value of the list is [==] to a later one. *)
Definition distinct (l : list value) : Prop :=
  ForallOrdPairs (fun x y => py_eq x y = false) l.

Definition type_of (d : value) : value :=
  match d with VDict kv => get kv L.type_ empty | _ => VNone end.
Definition name_of (d : value) : value :=
  match d with VDict kv => get kv L.name empty | _ => VNone end.
Definition domain_of (d : value) : value :=
  match d with VDict kv => get kv L.domain empty | _ => VNone end.

(** The names of the records of type [t], in input order. *)
Definition names_of_type (t : str) (data : list value) : list value :=
  map name_of (filter (fun d => is_str t (type_of d)) data).

(** The 领域 of the domain cards, in input order. *)
Definition domain_tags (data : list value) : list value :=
  map domain_of (filter (fun d => is_str L.t_domain (type_of d)) data).

(** The 类型 of the records of no known type, in input order. *)
Definition variant_tags (data : list value) : list value :=
  map type_of (filter (fun d => negb (known_type (type_of d))) data).

(** [for x in xs: if x not in acc: acc.append(x)] *)
Definition add_all (acc xs : list value) : list value :=
  fold_left (fun a x => add_unique x a) xs acc.

(** How a run over [data] extends the five lists of
    [customFieldDefinitions]. *)
Definition defs_step (data : list value) (o o' : lists) : Prop :=
  professions o' = add_all (professions o) (names_of_type L.t_profession data) /\
  ancestries o' = add_all (ancestries o) (names_of_type L.t_ancestry data) /\
  communities o' = add_all (communities o) (names_of_type L.t_community data) /\
  domains o' = add_all (domains o) (domain_tags data) /\
  variants o' = add_all (variants o) (variant_tags data).

(** *** The order in which [work_rrr] meets the packaged records *)

(** The items of one category of a package, as the inner loop visits
    them. *)
Definition items_of (dat : value) (c : category) : list value :=
  match dat with
  | VDict kv =>
    match dict_get (key_of c) kv with
    | Some da =>
      if truthy da
      then match iterate da with OK l => l | Raise _ => [] end
      else []
    | None => []
    end
  | _ => []
  end.

(** All items with their category, in encounter order: package by
    package, category by category, item by item. *)
Definition encounter (data : list value) : list (category * value) :=
  flat_map (fun dat =>
              flat_map (fun c => map (pair c) (items_of dat c)) categories)
           data.

Definition is_ancestry (c : category) : bool :=
  match c with Ancestry => true | _ => false end.

Definition plain_items (data : list value) : list (category * value) :=
  filter (fun cd => negb (is_ancestry (fst cd))) (encounter data).

Definition ancestry_items (data : list value) : list value :=
  map snd (filter (fun cd => is_ancestry (fst cd)) (encounter data)).

(** The flat record of one item that is not an ancestry entry. *)
Definition convert_item (repr : value -> str) (cd : category * value)
  : result value :=
  match snd cd with
  | VDict kv =>
    r <- match fst cd with
         | Profession => rrr_profession kv
         | Community => rrr_community kv
         | Subclass => rrr_subclass kv
         | Domain => rrr_domain repr kv
         | Variant => rrr_variant repr kv
         | Ancestry => Raise TypeError
         end ;;
    OK (VDict r)
  | _ => Raise AttributeError
  end.

(** One ancestry entry merged into the records gathered so far. *)
Definition merge_item (rd : race_dict) (d : value) : result race_dict :=
  match d with
  | VDict kv => rrr_ancestry rd kv
  | _ => Raise AttributeError
  end.

Definition race_of (d : value) : value :=
  match d with VDict kv => get kv L.race empty | _ => VNone end.

(** One visit of the flattened loop. *)
Definition visit (repr : value -> str) (st : rstate) (cd : category * value)
  : result rstate :=
  rrr_item repr (fst cd) st (snd cd).

(** *** What the keyword extractor leaves of its input *)

(** The four keys a turn of [work] pops. *)
Definition popped_key (k : str) : bool :=
  Str.eqb k L.orig_name || Str.eqb k L.background_qs
  || Str.eqb k L.relation_qs || Str.eqb k L.type_.

(** A record without the four keys, its other entries in their order. *)
Definition without_popped (kv : dict) : dict :=
  filter (fun e => negb (popped_key (fst e))) kv.

(** An input record after a turn of [work]. *)
Definition after_work (d : value) : value :=
  match d with
  | VDict kv => VDict (without_popped kv)
  | _ => d
  end.

(** *** The cost pattern of the rink exporter *)

(** [s] starts with 花费, white space, the digits [n], white space and
    恐惧点: the pattern matches at the start of [s] with group 1 = [n]. *)
Definition cost_match_at (s n : str) : Prop :=
  exists w1 w2 rest,
    s = Zzz2rink.spend ++ w1 ++ n ++ w2 ++ Zzz2rink.fear_points ++ rest /\
    forallb is_space w1 = true /\ forallb is_space w2 = true /\
    n <> [] /\ forallb is_decimal n = true.

(** The leftmost match in [s] has group 1 = [n]. *)
Definition first_cost_match (s n : str) : Prop :=
  exists pre post,
    s = pre ++ post /\ cost_match_at post n /\
    forall pre' post' n',
      s = pre' ++ post' -> cost_match_at post' n' -> length pre <= length pre'.

(** The pattern matches nowhere in [s]. *)
Definition no_cost_match (s : str) : Prop :=
  forall pre post n, s = pre ++ post -> ~ cost_match_at post n.

Definition field (k : str) (v : value) : option value :=
  match v with VDict d => dict_get k d | _ => None end.

(** The fear and cost fields of an output trait agree with the pattern in
    the description [s]. *)
Definition fear_cost_of (s : str) (out : value) : Prop :=
  (forall n, first_cost_match s n ->
     field Zzz2rink.k_fear out = Some (VBool true) /\
     field Zzz2rink.k_cost out = Some (VStr n)) /\
  (no_cost_match s ->
     field Zzz2rink.k_fear out = Some (VBool false) /\
     field Zzz2rink.k_cost out = Some (VStr [48%N])).

(** The description of an input trait. *)
Definition trait_desc (trait : value) : value :=
  match trait with
  | VDict t => get t Zzz2rink.k_trait_desc empty
  | _ => VNone
  end.

(** Two tables of ranges share no code point. *)
Definition tables_apart (t1 t2 : list (N * N)) : bool :=
  forallb (fun r1 =>
    forallb (fun r2 => (snd r1 <? fst r2)%N || (snd r2 <? fst r1)%N) t2) t1.

(** *** Malformed records *)

(** A line holds a colon, ASCII or full-width. *)
Definition has_colon (line : str) : bool :=
  contains L.colon line || contains L.wide_colon line.

(** The number of newline-delimited lines of [s] that hold a colon. *)
Definition colon_lines (s : str) : nat :=
  length (filter has_colon (split L.nl s)).

(** The feature lines as the ancestry branch computes them. *)
Definition features_of (s : str) : list str :=
  split L.nl (replace L.nlnl L.nl (replace L.colon L.wide_colon s)).

(** A character an integer literal can hold, once folded to ASCII. *)
Definition numeric_char (c : N) : bool :=
  c_isdigit c || c_isspace c || (c =? 43)%N || (c =? 45)%N || (c =? 95)%N.

(** *** Runs over several records *)

(** The keys of a record are pairwise different, as the keys of a Python
    dict are. *)
Definition unique_keys (d : value) : bool :=
  match d with
  | VDict kv => nodup_keys kv
  | _ => true
  end.

(** The category whose list the turn of a flat record appends to; for a
    flat record that [work_rrr] returns, the category it comes from. *)
Definition category_of (d : value) : category :=
  let t := type_of d in
  if is_str L.t_profession t then Profession
  else if is_str L.t_ancestry t then Ancestry
  else if is_str L.t_community t then Community
  else if is_str L.t_subclass t then Subclass
  else if is_str L.t_domain t then Domain
  else Variant.

Definition same_category (a b : category) : bool :=
  match a, b with
  | Profession, Profession | Ancestry, Ancestry | Community, Community
  | Subclass, Subclass | Domain, Domain | Variant, Variant => true
  | _, _ => false
  end.

(** The records of the category [c], in order. *)
Definition pick (c : category) (l : list value) : list value :=
  filter (fun d => same_category (category_of d) c) l.

(** The identifiers the turn of a record draws: two for a 种族 record, one
    for any other. *)
Definition draws (d : value) : nat :=
  match category_of d with
  | Ancestry => 2
  | _ => 1
  end.

(** The records of a run, each with the number of identifiers drawn
    before its turn. *)
Fixpoint numbered (n : nat) (data : list value) : list (nat * value) :=
  match data with
  | [] => []
  | d :: rest => (n, d) :: numbered (n + draws d) rest
  end.

(** The records of the category [c] in a run that starts with no
    identifier drawn. *)
Definition pick_numbered (c : category) (data : list value)
  : list (nat * value) :=
  filter (fun nd => same_category (category_of (snd nd)) c) (numbered 0 data).

(** The list of a category. *)
Definition cat_list (o : lists) (c : category) : list value :=
  match c with
  | Profession => profession o
  | Ancestry => ancestry o
  | Community => community o
  | Subclass => subclass o
  | Domain => domain o
  | Variant => variant o
  end.

(** The lists [o] after a turn that takes empty lists to [o1]. *)
Definition extend (o o1 : lists) : lists :=
  Lists (add_all (professions o) (professions o1))
        (add_all (ancestries o) (ancestries o1))
        (add_all (communities o) (communities o1))
        (add_all (domains o) (domains o1))
        (add_all (variants o) (variants o1))
        (profession o ++ profession o1)
        (ancestry o ++ ancestry o1)
        (community o ++ community o1)
        (subclass o ++ subclass o1)
        (domain o ++ domain o1)
        (variant o ++ variant o1).

(** What the turn of the record [snd nd], taken after [fst nd] draws,
    appends to the list of the category [c]. *)
Definition emitted (E : env) (c : category) (nd : nat * value) : list value :=
  match zzz_record E (fst nd, empty_lists) (snd nd) with
  | OK (st, _) => cat_list (snd st) c
  | Raise _ => []
  end.

(** The flat record [r] that [work_rrr] makes of what the turn of
    [snd nd] packages. *)
Definition trip (repr : value -> str) (E : env) (c : category)
    (nd : nat * value) (r : value) : Prop :=
  exists p, emitted E c nd = [p] /\ convert_item repr (c, p) = OK r.

Definition is_text (v : value) : bool :=
  match v with VStr _ => true | _ => false end.

Definition int_ok (v : value) : bool :=
  match py_int v with OK _ => true | Raise _ => false end.

(** Conditions under which neither the turn of [work_zzz] on a record nor
    the turn of [work_rrr] on what is packaged for it raises. *)
Definition convertible (d : value) : bool :=
  match d with
  | VDict kv =>
    match category_of d with
    | Profession =>
      is_text (get kv L.domain empty) && int_ok (get kv L.init_hp empty)
      && int_ok (get kv L.init_evasion empty)
    | Ancestry =>
      hashable (get kv L.name empty) &&
      match get kv L.desc empty with
      | VStr raw =>
        match features_of raw with
        | line0 :: line1 :: _ =>
          (2 <=? length (split L.wide_colon line0))
          && (2 <=? length (split L.wide_colon line1))
        | _ => false
        end
      | _ => false
      end
    | Community => is_text (get kv L.desc empty)
    | Subclass =>
      is_text (get kv L.name empty) && is_text (get kv L.level empty)
    | Domain =>
      match py_int (get kv L.level empty) with
      | OK lv => within_limit (digits_of_int lv)
      | Raise _ => false
      end &&
      match get kv L.recall empty with
      | VStr s => if isdigit s then int_ok (VStr s) else true
      | _ => false
      end
    | Variant =>
      match get kv L.brief empty with
      | VStr _ => true
      | info => negb (truthy info)
      end
    end
  | _ => false
  end.

(** A packaged ancestry entry that [work_rrr] merges without raising. *)
Definition mergeable (p : value) : bool :=
  match p with
  | VDict kv =>
    hashable (get kv L.race empty) && is_text (get kv L.name empty)
    && is_text (get kv L.effect empty)
  | _ => false
  end.

(** Lists of packaged records that [work_rrr] converts without raising. *)
Definition returnable (repr : value -> str) (o : lists) : Prop :=
  (forall c, c <> Ancestry ->
     Forall (fun p => exists r, convert_item repr (c, p) = OK r)
            (cat_list o c)) /\
  forallb mergeable (ancestry o) = true.

(** **** The four categories that come back as one record *)






(** **** 回想 *)



(** **** 简略信息 *)

Definition nonempty (s : str) : bool :=
  match s with [] => false | _ :: _ => true end.

(** 简略信息 of a variant as it is packaged: the parts between the
    slashes, keyed by their position. *)
Definition brief_packaged (d p : value) : Prop :=
  forall kv s,
    d = VDict kv ->
    get kv L.brief empty = VStr s -> s <> [] ->
    field L.brief p = Some (VDict (items_from 0 (split L.slash s))).

(** 简略信息 of a variant as it comes back: the non-empty parts joined by
    slashes; the field is absent if no part is left. *)
Definition brief_returned (d r : value) : Prop :=
  forall kv s,
    d = VDict kv ->
    get kv L.brief empty = VStr s -> s <> [] ->
    field L.brief r =
      match filter nonempty (split L.slash s) with
      | [] => None
      | kept => Some (VStr (join L.slash kept))
      end.

(** 简略信息 made of non-empty parts is packaged as these parts, keyed
    item0, item1, ... *)
Definition brief_keyed (d p : value) : Prop :=
  forall kv parts,
    d = VDict kv ->
    brief_parts parts = true ->
    get kv L.brief empty = VStr (join L.slash parts) ->
    field L.brief p = Some (VDict (items_from 0 parts)).

(** 简略信息 made of non-empty parts comes back as it was. *)
Definition brief_restored (d r : value) : Prop :=
  forall kv parts,
    d = VDict kv ->
    brief_parts parts = true ->
    get kv L.brief empty = VStr (join L.slash parts) ->
    field L.brief r = Some (VStr (join L.slash parts)).

(** **** Identifiers of the variants *)

(** The identifier of the packaged variant [v]: the [id] of its input
    record if it has one, the draw of its turn otherwise. *)
Definition own_or_minted (E : env) (nd : nat * value) (v : value) : Prop :=
  forall kv,
    snd nd = VDict kv -> nodup_keys kv = true ->
    record_id v =
      Some (match dict_get L.id kv with
            | Some x => x
            | None => gen_uuid E (fst nd)
            end).

(** Every number occurs at most once in [l] and is below [n]. *)
Definition fresh_below (n : nat) (l : list nat) : Prop :=
  forall x, count_occ Nat.eq_dec l x <= 1 /\
            (0 < count_occ Nat.eq_dec l x -> x < n).

(** The identifiers drawn in the turns of [data]. *)
Definition drawn (data : list value) : nat := list_sum (map draws data).

(** The draws behind the identifiers of a loop state reached after the
    turns of the records [seen] of [data]: one per record, no draw used
    twice; a variant has the draw of its turn. *)
Definition ids_inv (E : env) (data seen : list value) (st : state) : Prop :=
  exists kp ka kc ks kd kv,
    fresh_below (fst st) (kp ++ ka ++ kc ++ ks ++ kd ++ kv) /\
    minted E kp (profession (snd st)) /\
    minted E ka (ancestry (snd st)) /\
    minted E kc (community (snd st)) /\
    minted E ks (subclass (snd st)) /\
    minted E kd (domain (snd st)) /\
    Forall2 (minted_or_own E data) kv (variant (snd st)) /\
    fst st = drawn seen /\
    kv = map fst (pick_numbered Variant seen) /\
    Forall2 (own_or_minted E) (pick_numbered Variant seen) (variant (snd st)).

(** A sample environment and sample records. *)
Definition demo_draw (n : nat) : Z := ((1000 + Z.of_nat n) mod 2 ^ 128)%Z.

Definition demo_draw_range (n : nat) : (0 <= demo_draw n < 2 ^ 128)%Z :=
  Z.mod_pos_bound (1000 + Z.of_nat n) (2 ^ 128) eq_refl.

Definition demo_env : env :=
  Env (lit "20240101_120000") (fun p => p) demo_draw demo_draw_range.

Definition text (s : String.string) : value := VStr (lit s).

Definition demo_domain_card (recall : String.string) : dict :=
  [ (L.name, text "火球术"); (L.type_, text "领域卡"); (L.domain, text "奥秘");
    (L.level, text "1"); (L.attribute, text "法术"); (L.recall, text recall);
    (L.desc, text "造成伤害") ].

Definition demo_weapon : dict :=
  [ (L.name, text "长剑"); (L.type_, text "武器");
    (L.brief, text "近战/物理/3点"); (L.feature, text "可靠") ].

Definition demo_profession : dict :=
  [ (L.name, text "战士"); (L.type_, text "主职"); (L.domain, text "利刃+骸骨");
    (L.init_hp, text "6"); (L.init_evasion, text "11");
    (L.init_items, text "长剑"); (L.summary, text "近战专家");
    (L.hope_feature, text "不屈"); (L.class_feature, text "战斗训练") ].

Definition demo_community : dict :=
  [ (L.name, text "高城"); (L.type_, text "社群"); (L.summary, text "贵族");
    (L.desc, text "特权：你有门路") ].

Definition demo_subclass : dict :=
  [ (L.name, text "剑圣-基础"); (L.type_, text "子职"); (L.parent, text "战士");
    (L.level, text "基础"); (L.cast_attr, text "力量");
    (L.desc, text "你精通剑术") ].

Definition demo_ancestry : dict :=
  [ (L.name, text "精灵"); (L.type_, text "种族"); (L.summary, text "长寿");
    (L.desc, VStr (lit "敏捷:快" ++ L.nl ++ lit "长寿：久")) ].

Definition demo_packages : list value :=
  [ VDict
      [ (L.ancestry,
         VList [ VDict [ (L.name, text "敏捷"); (L.race, text "精灵");
                         (L.effect, text "快") ];
                 VDict [ (L.name, text "夜视"); (L.race, text "矮人");
                         (L.effect, text "暗") ] ]);
        (L.community,
         VList [ VDict [ (L.name, text "高城"); (L.feature, text "特权");
                         (L.desc, text "门路") ] ]) ];
    VDict
      [ (L.profession,
         VDict [ (L.name, text "战士"); (L.domain1, text "利刃");
                 (L.domain2, text "骸骨") ]);
        (L.ancestry,
         VList [ VDict [ (L.name, text "长寿"); (L.race, text "精灵");
                         (L.effect, text "久") ] ]) ] ].

Definition demo_traits : list value :=
  [ VDict [ (L.name, text "烈焰"); (L.type_, text "行动");
            (Zzz2rink.k_trait_desc, text "花费2恐惧点触发效果") ];
    VDict [ (L.name, text "浓雾"); (L.type_, text "被动");
            (Zzz2rink.k_trait_desc, text "视线受阻") ] ].

Definition demo_environment : dict :=
  [ (L.name, text "火山"); (L.type_, text "环境");
    (L.feature, VList demo_traits) ].

Definition bad_ancestry : dict :=
  [ (L.name, text "精灵"); (L.type_, text "种族"); (L.desc, text "敏捷：快") ].

Definition bad_profession : dict :=
  [ (L.name, text "战士"); (L.type_, text "主职"); (L.domain, text "利刃+骸骨");
    (L.init_hp, text "六"); (L.init_evasion, text "11") ].

Definition bad_evasion : dict :=
  [ (L.name, text "战士"); (L.type_, text "主职"); (L.domain, text "利刃+骸骨");
    (L.init_hp, text "6"); (L.init_evasion, text "十一") ].

Definition bad_domain_card : dict :=
  [ (L.name, text "火球术"); (L.type_, text "领域卡"); (L.domain, text "奥秘");
    (L.level, text "一级"); (L.recall, text "2") ].

Definition demo_data : list value :=
  [ VDict demo_profession; VDict demo_community; VDict demo_weapon;
    VDict demo_ancestry; VDict (demo_domain_card "2"); VDict demo_subclass;
    VDict demo_profession ].

(** A run that stops at its second record. *)
Definition demo_data_broken : list value :=
  [VDict demo_weapon; VDict bad_ancestry; VDict demo_weapon].

(** A variant that brings an [id] of its own. *)
Definition demo_relic : dict :=
  [ (L.id, text "relic-7"); (L.name, text "圣物"); (L.type_, text "道具");
    (L.brief, text "稀有//1件"); (L.feature, text "发光") ].

Definition demo_data_relic : list value :=
  demo_data ++ [VDict demo_relic; VDict demo_weapon].

Definition demo_package_relic : value :=
  Eval vm_compute in
    match fst (work_zzz demo_env demo_data_relic []) with
    | OK pkg => pkg
    | Raise _ => VNone
    end.

(** What [work_rrr] makes of the package of the sample run. *)
Definition demo_back_relic : list value :=
  Eval vm_compute in
    match work_rrr (fun _ => []) [demo_package_relic] with
    | OK out => out
    | Raise _ => []
    end.

(** Domain cards among other records: 回想 a numeral, digits with leading
    zeros, no digits. *)
Definition demo_cards : list value :=
  [ VDict (demo_domain_card "2"); VDict demo_weapon;
    VDict (demo_domain_card "007"); VDict (demo_domain_card "三") ].

Definition demo_cards_package : value :=
  Eval vm_compute in
    match fst (work_zzz demo_env demo_cards []) with
    | OK pkg => pkg
    | Raise _ => VNone
    end.

Definition demo_cards_back : list value :=
  Eval vm_compute in
    match work_rrr (fun _ => []) [demo_cards_package] with
    | OK out => out
    | Raise _ => []
    end.

Definition demo_package : value :=
  Eval vm_compute in
    match fst (work_zzz demo_env demo_data []) with
    | OK pkg => pkg
    | Raise _ => VNone
    end.

End Spec.
(* ===================================================================== *)
(** ** Further notions: counts, separators, feature lines                *)
(* ===================================================================== *)

Module RecordCounts.
Import Zzz2rrr Spec.

(** The number of records of 类型 [t]. *)
Definition count_type (t : str) (data : list value) : nat :=
  length (filter (fun d => is_str t (type_of d)) data).

(** The number of records of no known 类型. *)
Definition count_other (data : list value) : nat :=
  length (filter (fun d => negb (known_type (type_of d))) data).

(** The six category lists of a package, one after the other. *)
Definition all_records (pkg : value) : list value :=
  flat_map (fun c => category_list pkg (key_of c)) categories.

End RecordCounts.

Module DomainProps.
Import Zzz2rrr Spec.

(** What the six [replace] of the profession branch make of one character
    of 领域: [&], [和], [，] and [,] become [+], a blank goes, any other
    character stays. *)
Definition domain_char (c : N) : str :=
  if (c =? 38)%N || (c =? 21644)%N || (c =? 65292)%N || (c =? 44)%N
  then [43%N]
  else if (c =? 32)%N then [] else [c].

(** One of the five separators of 领域. *)
Definition is_separator (sep : str) : bool :=
  existsb (Str.eqb sep) [L.amp; L.he; L.wide_comma; L.comma; L.plus].

(** A run of blanks. *)
Definition blanks (w : str) : bool := forallb (fun c => (c =? 32)%N) w.

(** A packaged profession whose 领域1 and 领域2 are texts without any
    separator or blank. *)
Definition plain_pair (r : value) : Prop :=
  exists d1 d2,
    field L.domain1 r = Some (VStr d1) /\ field L.domain2 r = Some (VStr d2) /\
    plain_domain d1 = true /\ plain_domain d2 = true.

(** A profession whose 领域 names three domains, with [&] between them. *)
Definition demo_three_domains : dict :=
  [ (L.name, text "战士"); (L.type_, text "主职");
    (L.domain, text "利刃 & 骸骨 & 奥秘");
    (L.init_hp, text "6"); (L.init_evasion, text "11") ].

End DomainProps.

Module TripProps.
Import Zzz2rrr Spec.

(** The tier label as [work_zzz] packages it and [work_rrr] restores
    it. *)
Definition tier_forth (lv : str) : str :=
  replace L.tier3_zzz L.tier3_rrr
    (replace L.tier2_zzz L.tier2_rrr (replace L.tier1_zzz L.tier1_rrr lv)).

Definition tier_back (lv : str) : str :=
  replace L.tier3_rrr L.tier3_zzz
    (replace L.tier2_rrr L.tier2_zzz (replace L.tier1_rrr L.tier1_zzz lv)).

(** [pre] is what stands before the first [-] of [nm], or all of [nm] if
    it has none. *)
Definition before_dash (nm pre : str) : Prop :=
  (nm = pre /\ free_of 45 nm = true) \/
  (exists post, nm = pre ++ L.dash ++ post /\ free_of 45 pre = true).

(** A colon, ASCII or full-width. *)
Definition is_colon (c : str) : bool :=
  Str.eqb c L.colon || Str.eqb c L.wide_colon.

(** The name or the effect of a feature: a text without colon and
    without newline. *)
Definition feature_text (s : str) : bool :=
  free_of 58 s && free_of 65306 s && free_of 10 s.

(** A subclass whose 名称 has two dashes and whose 施法属性 is empty. *)
Definition demo_plain_subclass : dict :=
  [ (L.name, text "剑-圣-进阶"); (L.type_, text "子职"); (L.parent, text "战士");
    (L.level, text "基础"); (L.cast_attr, text "");
    (L.desc, text "你精通剑术") ].

(** A community whose 描述 has no full-width colon. *)
Definition demo_plain_community : dict :=
  [ (L.name, text "高城"); (L.type_, text "社群"); (L.summary, text "贵族");
    (L.desc, text "你有门路") ].

End TripProps.

Module AncestryProps.
Import Zzz2rrr Spec.

(** The line [work_rrr] writes for a feature. *)
Definition feature_line (ne : str * str) : str :=
  fst ne ++ L.wide_colon ++ snd ne.

(** The packaged entry [d] belongs to the ancestry [nm] and holds the
    feature [ne] (name and effect). *)
Definition entry_of (nm : value) (d : dict) (ne : str * str) : Prop :=
  get d L.race empty = nm /\
  get d L.name empty = VStr (fst ne) /\
  get d L.effect empty = VStr (snd ne).

(** The merged record of an ancestry. *)
Definition merged (nm summary : value) (lines : list str) : dict :=
  [ (L.name, nm); (L.orig_name, empty); (L.type_, VStr L.t_ancestry);
    (L.summary, summary); (L.desc, VStr (join L.nl lines)) ].

(** zzz→rrr→zzz through [work_function], as [main] runs it in its two
    modes: the package is handed over as the only element of a list. *)
Definition there_and_back (repr : value -> str) (E : env) (path : str)
    (data : list value) : result value :=
  pkg <- work_function repr E data mode_zzz path ;;
  work_function repr E [pkg] mode_rrr [].

(** Three packaged features of one ancestry. *)
Definition demo_entries : list dict :=
  [ [ (L.name, text "敏捷"); (L.race, text "精灵"); (L.summary, text "长寿");
      (L.effect, text "快") ];
    [ (L.name, text "夜视"); (L.race, text "精灵"); (L.effect, text "暗") ];
    [ (L.name, text "长寿"); (L.race, text "精灵"); (L.summary, text "别的");
      (L.effect, text "久") ] ].

(** An ancestry whose two features are a blank line apart. *)
Definition demo_spaced_ancestry : dict :=
  [ (L.name, text "精灵"); (L.type_, text "种族");
    (L.desc, VStr (lit "敏捷:快" ++ L.nlnl ++ lit "长寿：久")) ].

End AncestryProps.

Module VariantProps.
Import Zzz2rrr Spec.

(** The flat record [o] made of the packaged variant [d]: [d] holds a
    mapping under 简略信息, and [o] has no false value, no [id], no
    [imageUrl], and no key that [d] has not, 简略信息 apart. *)
Definition clean_variant (d o : value) : Prop :=
  exists kv r,
    d = VDict kv /\ o = VDict r /\
    (exists items, get kv L.brief empty = VDict items) /\
    Forall (fun e => truthy (snd e) = true) r /\
    dict_get L.id r = None /\ dict_get L.image_url r = None /\
    forall k, dict_get k r <> None -> k = L.brief \/ dict_get k kv <> None.

(** A package with one variant. *)
Definition demo_variant_package : value :=
  VDict
    [ (L.variant,
       VList [ VDict [ (L.id, text "7"); (L.name, text "长剑");
                       (L.image_url, text "x.png");
                       (L.brief, VDict [ (lit "item0", text "近战");
                                         (lit "item1", text "") ]);
                       (L.effect, text "") ] ]) ].

(** A package whose variant has a text, not a mapping, under 简略信息. *)
Definition demo_flat_variant : dict :=
  [ (L.variant,
     VList [ VDict [ (L.name, text "长剑"); (L.brief, text "近战/物理") ] ]) ].

End VariantProps.

Module KeywordProps.
Import Zzz2keyword Spec.

(** A text with no white space at either end. *)
Definition trimmed (s : str) : Prop :=
  lstrip s = s /\ lstrip (rev s) = rev s.

(** The entries a description lists: those that the four [pop] leave,
    名称 apart. *)
Definition described (kv : dict) : dict :=
  filter (fun e => negb (Str.eqb (fst e) L.name)) (without_popped kv).

(** The line of an entry: key, colon, value. *)
Definition entry_line (repr : value -> str) (e : str * value) : str :=
  fst e ++ L.colon ++ format_with repr (snd e).

(** The lines of a description, newlines between them. *)
Definition description_of (repr : value -> str) (kv : dict) : str :=
  join L.nl (map (entry_line repr) (described kv)).

(** The category of a record: its 类型 (默认类型 if it has none), and for
    a domain card 领域卡, a dash and its 领域. *)
Definition category_rule (kv : dict) (cat : value) : Prop :=
  let typ := Zzz2rrr.get kv L.type_ (VStr default_type) in
  if is_str L.t_domain typ
  then exists s, Zzz2rrr.get kv L.domain Zzz2rrr.empty = VStr s /\
                 cat = VStr (L.t_domain ++ L.dash ++ s)
  else cat = typ.

(** The summary [o] of the record [d] has the four fields, in this
    order. *)
Definition summary_fields (d o : value) : Prop :=
  exists kv cat desc,
    d = VDict kv /\
    o = VDict [ (k_keyword, Zzz2rrr.get kv L.name Zzz2rrr.empty);
                (k_category, cat);
                (k_description, VStr desc);
                (k_display, VStr normal) ] /\
    category_rule kv cat.

(** The description in the summary [o] of the record [d]. *)
Definition summary_description (repr : value -> str) (d o : value) : Prop :=
  exists kv desc,
    d = VDict kv /\
    field k_description o = Some (VStr desc) /\
    desc = strip (description_of repr kv) /\
    trimmed desc /\
    (trimmed (description_of repr kv) -> desc = description_of repr kv).

(** What a second run makes of a record that a first run summed up as
    [o]. *)
Definition summed_again (o o2 : value) : Prop :=
  field k_keyword o2 = field k_keyword o /\
  field k_category o2 = Some (VStr default_type).

End KeywordProps.

Module RinkProps.
Import Zzz2rrr Zzz2rink Spec KeywordProps.

(** A text without a comma, ASCII or full-width. *)
Definition comma_free (s : str) : bool := forallb (fun c => negb (is_comma c)) s.

(** A run of white space. *)
Definition white (w : str) : bool := forallb is_space w.

(** An experience as the list holds it: a text that is not empty, has no
    comma and no white space at either end. *)
Definition clean_text (s : str) : Prop :=
  s <> [] /\ trimmed s /\ comma_free s = true.

Definition clean_experience (e : value) : Prop :=
  exists s, e = VStr s /\ clean_text s.

(** An adversary whose 攻击命中 is a text (or absent, or empty) and whose
    特性 is a list of records. *)
Definition plain_enemy (kv : dict) : Prop :=
  (exists s, get kv k_attack empty = VStr s) /\
  exists traits,
    get kv L.feature (VList []) = VList traits /\
    Forall (fun t => exists d, t = VDict d) traits.

(** 类型 is 敌人 or 环境. *)
Definition rink_type (item : value) : bool :=
  match item with
  | VDict kv =>
    is_str t_enemy (get kv L.type_ VNone)
    || is_str t_environment (get kv L.type_ VNone)
  | _ => false
  end.

(** The conversion that the 类型 of an item selects. *)
Definition convert_by_type (repr : value -> str) (item : value)
  : result value :=
  match item with
  | VDict kv =>
    if is_str t_enemy (get kv L.type_ VNone) then convert_enemy repr item
    else convert_environment repr item
  | _ => Raise AttributeError
  end.

(** An adversary. *)
Definition demo_enemy : dict :=
  [ (L.name, text "骷髅兵"); (L.type_, text "敌人");
    (k_heavy, VInt 5); (k_severe, VInt 11); (k_attack, text "+3");
    (k_experience, text "潜行 ， 伏击,,追踪 ");
    (L.feature,
     VList [ VDict [ (L.name, text "不死"); (L.type_, text "被动");
                     (k_trait_desc, text "免疫毒素") ] ]) ].

(** A record that is neither an adversary nor an environment. *)
Definition demo_other : dict :=
  [ (L.name, text "长剑"); (L.type_, text "武器") ].

(** What [convert_enemy] makes of the adversary. *)
Definition demo_converted_enemy : value :=
  Eval vm_compute in
    match convert_enemy (fun _ => []) (VDict demo_enemy) with
    | OK dest => dest
    | Raise _ => VNone
    end.

(** Three items, the first of no known 类型, and what [main] makes of
    them. *)
Definition demo_items : list value :=
  [VDict demo_other; VDict demo_enemy; VDict demo_environment].

Definition demo_items_out : list value :=
  Eval vm_compute in
    match fst (converted_data (fun _ => []) (VList demo_items)) with
    | OK (Some out) => out
    | _ => []
    end.

Definition demo_items_log : list str :=
  Eval vm_compute in snd (converted_data (fun _ => []) (VList demo_items)).

End RinkProps.

Module MergeProps.
Import Merge_zzz.

(** The list a file contributes: its root if that is a list, nothing
    otherwise. *)
Definition list_root (json_load : str -> loaded) (fp : str) : list value :=
  match json_load fp with
  | Parsed (VList l) => l
  | _ => []
  end.

(** Three files: a list, a dict and a text that is no JSON. *)
Definition demo_files (fp : str) : loaded :=
  if Str.eqb fp (lit "a_zzz.json")
  then Parsed (VList [VStr (lit "x"); VStr (lit "y")])
  else if Str.eqb fp (lit "b_zzz.json") then Parsed (VDict [])
  else if Str.eqb fp (lit "c_zzz.json") then Undecodable
  else if Str.eqb fp (lit "d_zzz.json") then Parsed (VList [VInt 1])
  else Unopened.

End MergeProps.

Module PackageProps.
Import Zzz2rrr Spec.

(** A package without a record: every category is absent or false (an
    empty list, an empty dict, an empty text, zero, null). *)
Definition no_records (dat : value) : Prop :=
  exists pk, dat = VDict pk /\
    forall c, match dict_get (key_of c) pk with
              | Some da => truthy da = false
              | None => True
              end.

(** A record without 类型 and without 简略信息. *)
Definition demo_untyped : dict := [ (L.name, text "无名") ].

End PackageProps.

Module CollectorProps.
Import Collector.

(** The records a file of a folder contributes: a dict root as one
    record, the elements of a list root, nothing for any other root and
    for a text that does not parse. *)
Definition records_of (l : loaded) : list value :=
  match l with
  | Parsed (VDict d) => [VDict d]
  | Parsed (VList items) => items
  | _ => []
  end.

(** The records of the files of one folder whose name ends in .json. *)
Definition folder_records (F : files) (entry : str * list str) : list value :=
  flat_map
    (fun file =>
       if ends_with ext_json (lower F file)
       then records_of (load_json_file F (join F (fst entry) file))
       else [])
    (snd entry).

(** No file of the walk whose name ends in .json fails to open. *)
Definition all_open (F : files) (entries : list (str * list str)) : Prop :=
  forall root names file,
    In (root, names) entries -> In file names ->
    ends_with ext_json (lower F file) = true ->
    load_json_file F (join F root file) <> Failed.

(** What [load_dhcb_file] makes of the entry it reads. *)
Definition entry_result (l : loaded) : value + failure :=
  match l with
  | Parsed v => inl v
  | BadJson => inr Value_error
  | BadUnicode => inr Unicode_error
  | Failed => inr Other_error
  end.

(** [t] is the first name of [names] that [p] holds for. *)
Definition first_with (p : str -> bool) (names : list str) (t : str) : Prop :=
  exists pre post,
    names = pre ++ t :: post /\ p t = true /\
    forallb (fun n => negb (p n)) pre = true.

(** A folder with four files and an archive with three entries; names
    are in lower case already. *)
Definition demo_tree : files :=
  Files
    (fun p => if Str.eqb p (lit "data") then IsDir
              else if Str.eqb p (lit "one.json") then IsFile
              else Missing)
    (fun s => s)
    (fun _ => [ (lit "data", [lit "a.json"; lit "b.txt"; lit "c.json"]);
                (lit "data/sub", [lit "d.json"; lit "e.json"]) ])
    (fun root file => root ++ lit "/" ++ file)
    (fun p => if Str.eqb p (lit "data/a.json")
              then Parsed (VList [VInt 1; VInt 2])
              else if Str.eqb p (lit "data/c.json") then Parsed (VInt 3)
              else if Str.eqb p (lit "data/sub/d.json") then BadJson
              else if Str.eqb p (lit "data/sub/e.json")
              then Parsed (VDict [(lit "k", VInt 4)])
              else if Str.eqb p (lit "one.json") then Parsed (VInt 5)
              else Failed)
    (fun _ => Entries [lit "readme.json"; lit "x/cards.json"; lit "cards.json"])
    (fun _ entry => if Str.eqb entry (lit "x/cards.json")
                    then Parsed (VList [VInt 7]) else BadJson).

End CollectorProps.

Module TraitProps.
Import Zzz2rrr Zzz2rink Spec.

(** The output trait [out] of the trait [tr] of an environment: type,
    description and question as they are, and the name followed by a
    blank and 原名 if there is one. *)
Definition environment_trait (repr : value -> str) (tr out : value) : Prop :=
  exists t,
    tr = VDict t /\
    field k_type_out out = Some (get t L.type_ empty) /\
    field k_desc_out out = Some (get t k_trait_desc empty) /\
    field k_qs out = Some (get t k_trait_qs empty) /\
    field k_name_out out =
      Some (if truthy (get t L.orig_name empty)
            then VStr (format_with repr (get t L.name empty) ++ L.blank
                         ++ format_with repr (get t L.orig_name empty))
            else get t L.name empty).

(** The output trait [out] of the trait [tr] of an adversary: exactly
    name, desc and flavor; the description has the 类型 and a full-width
    colon before it if there is a 类型. *)
Definition enemy_trait (repr : value -> str) (tr out : value) : Prop :=
  exists t,
    tr = VDict t /\
    out = VDict
      [ (k_name_out, get t L.name empty);
        (k_desc_out,
         if truthy (get t L.type_ empty)
         then VStr (format_with repr (get t L.type_ empty) ++ L.wide_colon
                      ++ format_with repr (get t k_trait_desc empty))
         else get t k_trait_desc empty);
        (k_flavor, empty) ].

End TraitProps.


(* ===================================================================== *)
(** ** Examples of the built-ins                                         *)
(* ===================================================================== *)

Example lit_type : lit "类型" = [31867; 22411]%N.
Proof. reflexivity. Qed.

Example replace_plus :
  replace (lit "和") (lit "+") (lit "利刃和骸骨") = lit "利刃+骸骨".
Proof. reflexivity. Qed.

Example split_lines :
  split (lit "/") (lit "近战/物理//3点/") =
  [lit "近战"; lit "物理"; []; lit "3点"; []].
Proof. reflexivity. Qed.

Example split_once_colon :
  split_once (lit "：") (lit "a：b：c") = Some (lit "a", lit "b：c").
Proof. reflexivity. Qed.

Example int_examples :
  map int_of_str
      [lit " 12 "; lit "+5"; lit "-5"; lit "1_000"; lit "_1"; lit "1__0";
       lit "００７"; lit "²"; []; lit "- 5"; lit "0x10"; lit "00"] =
  [Some 12; Some 5; Some (-5); Some 1000; None; None;
   Some 7; None; None; None; None; Some 0]%Z.
Proof. vm_compute. reflexivity. Qed.

Example str_examples :
  map str_of_int [0; 7; -5; 1000]%Z = [lit "0"; lit "7"; lit "-5"; lit "1000"].
Proof. vm_compute. reflexivity. Qed.

Example isdigit_examples :
  map isdigit [lit "007"; lit "²"; lit "１２"; []; lit "1a"; lit "-5"] =
  [true; true; true; false; false; false].
Proof. vm_compute. reflexivity. Qed.

(* ===================================================================== *)
(** ** Strings and dictionaries: basic facts                             *)
(* ===================================================================== *)

Module StrFacts.
Import Spec.

Lemma eqb_refl (s : str) : Str.eqb s s = true.
Proof. induction s as [|c s IH]; simpl; [|rewrite N.eqb_refl]; auto. Qed.

Lemma eqb_eq (a b : str) : Str.eqb a b = true <-> a = b.
Proof.
  split; [|intros ->; apply eqb_refl].
  revert b; induction a as [|x a IH]; intros [|y b]; simpl; try discriminate; auto.
  intros H. apply andb_true_iff in H as [H1 H2].
  apply N.eqb_eq in H1. f_equal; auto.
Qed.

Lemma eqb_neq (a b : str) : Str.eqb a b = false <-> a <> b.
Proof.
  destruct (Str.eqb a b) eqn:H.
  - apply eqb_eq in H. split; [discriminate | congruence].
  - split; auto. intros _ Heq. apply eqb_eq in Heq. congruence.
Qed.

Lemma eqb_sym (a b : str) : Str.eqb a b = Str.eqb b a.
Proof.
  destruct (Str.eqb b a) eqn:H.
  - apply eqb_eq in H. subst. apply eqb_refl.
  - apply eqb_neq. apply eqb_neq in H. congruence.
Qed.

Lemma starts_with_app (p s : str) : starts_with p (p ++ s) = true.
Proof. induction p; simpl; auto. rewrite N.eqb_refl. auto. Qed.

Lemma starts_with_inv (p s : str) :
  starts_with p s = true -> s = p ++ skipn (length p) s.
Proof.
  revert s; induction p as [|x p IH]; intros s H; simpl in *; auto.
  destruct s as [|y s]; [discriminate|].
  apply andb_true_iff in H as [H1 H2]. apply N.eqb_eq in H1. subst.
  simpl. f_equal. auto.
Qed.

Lemma free_of_app c a b : free_of c (a ++ b) = free_of c a && free_of c b.
Proof. apply forallb_app. Qed.

Lemma replace_char_absent (c : N) (new s : str) :
  free_of c s = true -> replace [c] new s = s.
Proof.
  unfold replace. induction s as [|x s IH]; simpl; auto.
  intros H. apply andb_true_iff in H as [Hx Hs].
  rewrite N.eqb_sym. apply negb_true_iff in Hx. rewrite Hx. simpl.
  now rewrite IH.
Qed.

Lemma split_char_absent (c : N) (s : str) :
  free_of c s = true -> split [c] s = [s].
Proof.
  unfold split. induction s as [|x s IH]; simpl; auto.
  intros H. apply andb_true_iff in H as [Hx Hs].
  rewrite N.eqb_sym. apply negb_true_iff in Hx. rewrite Hx. simpl.
  now rewrite IH.
Qed.

Lemma split_char_app (c : N) (a b : str) :
  free_of c a = true -> split [c] (a ++ c :: b) = a :: split [c] b.
Proof.
  unfold split. induction a as [|x a IH]; simpl.
  - intros _. now rewrite N.eqb_refl.
  - intros H. apply andb_true_iff in H as [Hx Ha].
    rewrite N.eqb_sym. apply negb_true_iff in Hx. rewrite Hx. simpl.
    now rewrite IH.
Qed.

Lemma split_join (c : N) (parts : list str) :
  parts <> [] -> forallb (free_of c) parts = true ->
  split [c] (join [c] parts) = parts.
Proof.
  induction parts as [|p ps IH]; [congruence|]. intros _ H.
  simpl in H. apply andb_true_iff in H as [Hp Hps].
  destruct ps as [|q ps].
  - simpl. now apply split_char_absent.
  - change (join [c] (p :: q :: ps)) with (p ++ c :: join [c] (q :: ps)).
    rewrite split_char_app by assumption. f_equal. apply IH; [discriminate|assumption].
Qed.

Lemma contains_split_once (sep s : str) :
  contains sep s = true ->
  exists a b, split_once sep s = Some (a, b) /\ s = a ++ sep ++ b.
Proof.
  induction s as [|x s IH]; simpl.
  - rewrite orb_false_r. intros H. rewrite H.
    exists [], (skipn (length sep) []). split; auto.
    simpl. now apply starts_with_inv.
  - destruct (starts_with sep (x :: s)) eqn:Hs; simpl.
    + intros _. exists [], (skipn (length sep) (x :: s)). split; auto.
      simpl. now apply starts_with_inv.
    + intros H. destruct (IH H) as (a & b & Hab & Heq).
      rewrite Hab. exists (x :: a), b. split; auto. simpl. now f_equal.
Qed.

Lemma contains_unfold (sub s : str) :
  contains sub s =
  starts_with sub s || match s with [] => false | _ :: s' => contains sub s' end.
Proof. destruct s; reflexivity. Qed.

Lemma contains_app_l (sep a b : str) : contains sep (a ++ sep ++ b) = true.
Proof.
  induction a as [|x a IH]; simpl.
  - rewrite contains_unfold, starts_with_app. reflexivity.
  - rewrite IH. apply orb_true_r.
Qed.

End StrFacts.

Module DictFacts.
Import StrFacts.

Section Facts.
Context {A : Type}.
Implicit Types (d e : list (str * A)) (k : str) (v : A).

Lemma get_set_same k v d : dict_get k (dict_set k v d) = Some v.
Proof.
  induction d as [|[k' v'] d IH]; simpl.
  - now rewrite eqb_refl.
  - destruct (Str.eqb k' k) eqn:E; simpl; rewrite E; auto.
Qed.

Lemma get_set_other k k' v d :
  k <> k' -> dict_get k' (dict_set k v d) = dict_get k' d.
Proof.
  intros Hne. induction d as [|[k0 v0] d IH]; simpl.
  - apply eqb_neq in Hne. now rewrite Hne.
  - destruct (Str.eqb k0 k) eqn:E; simpl.
    + apply eqb_eq in E. subst. apply eqb_neq in Hne. now rewrite Hne.
    + destruct (Str.eqb k0 k'); auto.
Qed.

Lemma get_pop_same k d : dict_get k (dict_pop k d) = None.
Proof.
  induction d as [|[k' v'] d IH]; simpl; auto.
  destruct (Str.eqb k' k) eqn:E; simpl; auto. now rewrite E.
Qed.

Lemma get_pop_other k k' d :
  k <> k' -> dict_get k' (dict_pop k d) = dict_get k' d.
Proof.
  intros Hne. induction d as [|[k0 v0] d IH]; simpl; auto.
  destruct (Str.eqb k0 k) eqn:E; simpl.
  - apply eqb_eq in E. subst. apply eqb_neq in Hne. now rewrite Hne.
  - now rewrite IH.
Qed.

Lemma get_none_set k v d :
  dict_get k d = None -> dict_set k v d = d ++ [(k, v)].
Proof.
  induction d as [|[k' v'] d IH]; simpl; auto.
  destruct (Str.eqb k' k); [discriminate|]. intros H. now rewrite IH.
Qed.

Lemma get_app k d e :
  dict_get k (d ++ e) =
  match dict_get k d with Some v => Some v | None => dict_get k e end.
Proof.
  induction d as [|[k' v'] d IH]; simpl; auto.
  destruct (Str.eqb k' k); auto.
Qed.

  (** A run of assignments with pairwise different new keys is appended. *)
Lemma update_fresh d e :
  nodup_keys e = true ->
  (forall k v, In (k, v) e -> dict_get k d = None) ->
  dict_update d e = d ++ e.
Proof.
  unfold dict_update. revert d.
  induction e as [|[k v] e IH]; intros d Hnd Hfresh; simpl.
  - now rewrite app_nil_r.
  - simpl in Hnd. destruct (dict_get k e) eqn:Hk; [discriminate|].
    rewrite get_none_set by (apply (Hfresh k v); now left).
    rewrite IH; auto.
    + now rewrite <- app_assoc.
    + intros k' v' Hin. rewrite get_app.
      rewrite (Hfresh k' v') by (now right). simpl.
      destruct (Str.eqb k k') eqn:E; auto.
      apply eqb_eq in E. subst.
      clear - Hin Hk. induction e as [|[k0 v0] e IH]; [contradiction|].
      simpl in Hk. destruct (Str.eqb k0 k') eqn:E; [discriminate|].
      destruct Hin as [Heq|Hin]; auto.
      inversion Heq; subst. now rewrite eqb_refl in E.
Qed.

Lemma dict_of_nodup e : nodup_keys e = true -> dict_of e = e.
Proof.
  intros H. unfold dict_of. rewrite update_fresh; auto.
Qed.

Lemma get_in k v d : dict_get k d = Some v -> In (k, v) d.
Proof.
  induction d as [|[k' v'] d IH]; simpl; [discriminate|].
  destruct (Str.eqb k' k) eqn:E.
  - apply eqb_eq in E. intros [= ->]. subst. now left.
  - intros H. right. auto.
Qed.

Lemma get_filter_none k (p : str * A -> bool) d :
  dict_get k d = None -> dict_get k (filter p d) = None.
Proof.
  induction d as [|[k' v'] d IH]; simpl; auto.
  destruct (Str.eqb k' k) eqn:E; [discriminate|]. intros H.
  destruct (p (k', v')); simpl; auto. rewrite E. auto.
Qed.

Lemma nodup_filter (p : str * A -> bool) d :
  nodup_keys d = true -> nodup_keys (filter p d) = true.
Proof.
  induction d as [|[k v] d IH]; simpl; auto.
  destruct (dict_get k d) eqn:Hk; [discriminate|]. intros H.
  destruct (p (k, v)); simpl; auto.
  rewrite get_filter_none; auto.
Qed.

Lemma nodup_set k v d : nodup_keys d = true -> nodup_keys (dict_set k v d) = true.
Proof.
  induction d as [|[k' v'] d IH]; simpl; auto.
  destruct (dict_get k' d) eqn:Hk; [discriminate|]. intros H.
  destruct (Str.eqb k' k) eqn:E; simpl.
  - rewrite Hk. auto.
  - rewrite get_set_other, Hk; auto.
    apply eqb_neq in E. congruence.
Qed.

Lemma nodup_update d e : nodup_keys d = true -> nodup_keys (dict_update d e) = true.
Proof.
  unfold dict_update. revert d.
  induction e as [|[k v] e IH]; intros d H; simpl; auto.
  apply IH. now apply nodup_set.
Qed.

  (** After [d.update(e)] a key holds what [e] holds for it, and what [d]
      held otherwise. *)
Lemma get_update k d e :
  nodup_keys e = true ->
  dict_get k (dict_update d e) =
  match dict_get k e with Some v => Some v | None => dict_get k d end.
Proof.
  unfold dict_update. revert d.
  induction e as [|[k' v'] e IH]; intros d H; simpl; auto.
  simpl in H. destruct (dict_get k' e) eqn:Hk; [discriminate|].
  rewrite IH by assumption.
  destruct (Str.eqb k' k) eqn:E.
  - apply eqb_eq in E. subst. rewrite Hk. apply get_set_same.
  - destruct (dict_get k e); auto.
    apply get_set_other. apply eqb_neq in E. congruence.
Qed.

Lemma get_filter_some k v (p : str * A -> bool) d :
  nodup_keys d = true -> dict_get k d = Some v -> p (k, v) = true ->
  dict_get k (filter p d) = Some v.
Proof.
  induction d as [|[k' v'] d IH]; simpl; [discriminate|].
  destruct (dict_get k' d) eqn:Hk; [discriminate|]. intros Hnd.
  destruct (Str.eqb k' k) eqn:E.
  - apply eqb_eq in E. subst. intros [= ->] Hp. rewrite Hp. simpl.
    now rewrite eqb_refl.
  - intros Hget Hp. destruct (p (k', v')); simpl; auto. rewrite E. auto.
Qed.
End Facts.

End DictFacts.

(* ===================================================================== *)
(** ** [int()] and [str()] on decimal writings                           *)
(* ===================================================================== *)

Module IntFacts.
Import Spec.

Lemma digit_cases (c : N) :
  c_isdigit c = true ->
  (c = 48 \/ c = 49 \/ c = 50 \/ c = 51 \/ c = 52 \/
   c = 53 \/ c = 54 \/ c = 55 \/ c = 56 \/ c = 57)%N.
Proof.
  unfold c_isdigit. intros H. apply andb_true_iff in H as [H1 H2].
  apply N.leb_le in H1, H2. lia.
Qed.

Ltac each_digit c H :=
  destruct (digit_cases c H) as
    [->|[->|[->|[->|[->|[->|[->|[->|[->| ->]]]]]]]]].

Lemma scan_all_digits (s : str) (b : bool) :
  forallb c_isdigit s = true -> scan_digits b s = Some (digit_values s, []).
Proof.
  revert b. induction s as [|c s IH]; intros b H; simpl in *; auto.
  apply andb_true_iff in H as [Hc Hs]. rewrite Hc, (IH true Hs). reflexivity.
Qed.

Lemma digits_back (s : str) :
  forallb c_isdigit s = true ->
  digits_of_uint (uint_of_digits (digit_values s)) = s.
Proof.
  induction s as [|c s IH]; intros H; simpl in *; auto.
  apply andb_true_iff in H as [Hc Hs]. specialize (IH Hs).
  each_digit c Hc; simpl; now rewrite IH.
Qed.

Lemma unorm_canonical (s : str) :
  canonical_digits s = true ->
  Decimal.unorm (uint_of_digits (digit_values s)) = uint_of_digits (digit_values s).
Proof.
  destruct s as [|c [|c' s]]; simpl; try discriminate.
  - intros Hc. each_digit c Hc; reflexivity.
  - intros H. apply andb_true_iff in H as [H Hz].
    apply andb_true_iff in H as [Hc _].
    each_digit c Hc; try reflexivity. discriminate.
Qed.

Lemma fold_digits (s : str) :
  forallb c_isdigit s = true -> map ascii_fold s = s.
Proof.
  induction s as [|c s IH]; intros H; simpl in *; auto.
  apply andb_true_iff in H as [Hc Hs]. rewrite (IH Hs).
  each_digit c Hc; reflexivity.
Qed.

Lemma canonical_all_digits (s : str) :
  canonical_digits s = true -> s <> [] /\ forallb c_isdigit s = true.
Proof.
  destruct s as [|c [|c' s]]; simpl; try discriminate.
  - intros ->. split; [discriminate | reflexivity].
  - intros H. apply andb_true_iff in H as [H _]. split; [discriminate | exact H].
Qed.

(** [int()] of a non-empty string of ASCII digits: its number, unless the
    string is longer than the limit. *)
Lemma int_of_digit_string (s : str) :
  s <> [] -> forallb c_isdigit s = true ->
  int_of_str s =
  if within_limit (length s)
  then Some (Z.of_uint (uint_of_digits (digit_values s)))
  else None.
Proof.
  intros Hne Hall. unfold int_of_str. rewrite (fold_digits s Hall).
  destruct s as [|c s]; [congruence|].
  assert (Hc : c_isdigit c = true)
    by (simpl in Hall; apply andb_true_iff in Hall; tauto).
  pose proof (scan_all_digits (c :: s) false Hall) as Hscan.
  assert (Hlen : length (digit_values (c :: s)) = length (c :: s))
    by apply length_map.
  each_digit c Hc; cbn [skip_spaces c_isspace N.leb N.eqb N.compare
    Pos.compare Pos.compare_cont Pos.eqb andb orb];
    rewrite Hscan; cbn [digit_values map] in *; rewrite Hlen;
    destruct (within_limit (length (_ :: s))); reflexivity.
Qed.

Lemma str_of_uint (u : Decimal.uint) :
  str_of_int (Z.of_uint u) = digits_of_uint (Decimal.unorm u).
Proof.
  unfold str_of_int.
  change (Z.of_uint u) with (Z.of_int (Decimal.Pos u)).
  rewrite DecimalZ.to_of. reflexivity.
Qed.

(** [int()] reads a decimal numeral within the limit and [str()] writes it
    back. *)
Lemma canonical_int_str (s : str) :
  canonical_digits s = true -> within_limit (length s) = true ->
  exists z, int_of_str s = Some z /\ str_of_int z = s /\ (0 <= z)%Z.
Proof.
  intros Hcan Hlen. destruct (canonical_all_digits s Hcan) as [Hne Hall].
  exists (Z.of_uint (uint_of_digits (digit_values s))).
  split; [|split].
  - now rewrite (int_of_digit_string s Hne Hall), Hlen.
  - rewrite str_of_uint, (unorm_canonical s Hcan). apply digits_back, Hall.
  - unfold Z.of_uint. apply N2Z.is_nonneg.
Qed.



(** *** The limit on the digits *)

Lemma digits_length (u : Decimal.uint) :
  length (digits_of_uint u) = Decimal.nb_digits u.
Proof. induction u; simpl; auto. Qed.

Lemma uint_of_digits_length (ds : list N) :
  Decimal.nb_digits (uint_of_digits ds) = length ds.
Proof.
  induction ds as [|d ds IH]; simpl; auto.
  unfold digit_of. destruct d as [|p]; [simpl; now rewrite IH|].
  do 4 (try destruct p as [p|p|]); simpl; now rewrite IH.
Qed.

Lemma within_limit_le (a b : nat) :
  a <= b -> within_limit b = true -> within_limit a = true.
Proof.
  unfold within_limit. intros Hab Hb.
  apply N.leb_le in Hb. apply N.leb_le. lia.
Qed.

(** The digits [str()] writes for a number read from the digits [ds] are
    no more than [ds]. *)
Lemma digits_of_read (ds : list N) :
  ds <> [] -> digits_of_int (Z.of_uint (uint_of_digits ds)) <= length ds.
Proof.
  intros Hne. unfold digits_of_int.
  rewrite Z.abs_eq by (unfold Z.of_uint; apply N2Z.is_nonneg).
  rewrite str_of_uint, digits_length, <- (uint_of_digits_length ds).
  apply DecimalFacts.nb_digits_unorm.
  intros Hnil. apply (f_equal Decimal.nb_digits) in Hnil.
  rewrite uint_of_digits_length in Hnil. destruct ds; [congruence|discriminate].
Qed.

(** An integer that [int()] read from a string is within the limit of
    [str()]. *)
Lemma int_within (s : str) (z : Z) :
  int_of_str s = Some z -> within_limit (digits_of_int z) = true.
Proof.
  unfold int_of_str.
  destruct (match skip_spaces (map ascii_fold s) with
            | [] => (false, skip_spaces (map ascii_fold s))
            | c :: r =>
              if (c =? 45)%N then (true, r)
              else if (c =? 43)%N then (false, r)
              else (false, skip_spaces (map ascii_fold s))
            end) as [neg body].
  destruct (scan_digits false body) as [[[|d ds] r]|]; try discriminate.
  destruct (within_limit (length (d :: ds))) eqn:Hl; [|discriminate].
  destruct (skip_spaces r); [|discriminate]. intros [= <-].
  apply (within_limit_le _ (length (d :: ds))); [|exact Hl].
  destruct neg; [|apply (digits_of_read (d :: ds)); discriminate].
  unfold digits_of_int. rewrite Z.abs_opp.
  apply (digits_of_read (d :: ds)). discriminate.
Qed.

Lemma py_int_text_within (s : str) (z : Z) :
  py_int (VStr s) = OK z -> within_limit (digits_of_int z) = true.
Proof.
  unfold py_int. destruct (int_of_str s) as [z'|] eqn:Hz; [|discriminate].
  intros [= <-]. now apply (int_within s).
Qed.

End IntFacts.

(* ===================================================================== *)
(** ** One record through [work_zzz] and back through [work_rrr]         *)
(* ===================================================================== *)

Arguments Zzz2rrr.get kv k default : simpl nomatch.
Arguments str_of_int z : simpl never.
Arguments int_of_str s : simpl never.
Arguments within_limit digits : simpl never.
Arguments digits_of_int z : simpl never.
Arguments Zzz2rrr.gen_uuid E n : simpl never.
Arguments replace old new s : simpl never.
Arguments split sep s : simpl never.
Arguments split_once sep s : simpl never.
Arguments contains sub s : simpl never.
Arguments isdigit s : simpl never.

Module Dispatch.
Import Zzz2rrr Spec.

Lemma zzz_record_profession E st kv :
  get kv L.type_ empty = VStr L.t_profession ->
  zzz_record E st (VDict kv) =
  (st' <- zzz_profession E st kv (get kv L.name empty) ;; OK (st', VDict kv)).
Proof. intros H. unfold zzz_record. rewrite H. reflexivity. Qed.

Lemma zzz_record_ancestry E st kv :
  get kv L.type_ empty = VStr L.t_ancestry ->
  zzz_record E st (VDict kv) =
  (st' <- zzz_ancestry E st kv (get kv L.name empty) ;; OK (st', VDict kv)).
Proof. intros H. unfold zzz_record. rewrite H. reflexivity. Qed.

Lemma zzz_record_community E st kv :
  get kv L.type_ empty = VStr L.t_community ->
  zzz_record E st (VDict kv) =
  (st' <- zzz_community E st kv (get kv L.name empty) ;; OK (st', VDict kv)).
Proof. intros H. unfold zzz_record. rewrite H. reflexivity. Qed.

Lemma zzz_record_subclass E st kv :
  get kv L.type_ empty = VStr L.t_subclass ->
  zzz_record E st (VDict kv) =
  (st' <- zzz_subclass E st kv (get kv L.name empty) ;; OK (st', VDict kv)).
Proof. intros H. unfold zzz_record. rewrite H. reflexivity. Qed.

Lemma zzz_record_domain E st kv :
  get kv L.type_ empty = VStr L.t_domain ->
  zzz_record E st (VDict kv) =
  (st' <- zzz_domain E st kv (get kv L.name empty) ;; OK (st', VDict kv)).
Proof. intros H. unfold zzz_record. rewrite H. reflexivity. Qed.

Lemma zzz_record_variant E st kv :
  known_type (get kv L.type_ empty) = false ->
  zzz_record E st (VDict kv) =
  ('(st', kv') <- zzz_variant E st kv (get kv L.type_ empty) (get kv L.name empty) ;;
   OK (st', VDict kv')).
Proof.
  unfold known_type, zzz_record. intros H.
  repeat (apply orb_false_iff in H as [H ?]).
  repeat match goal with Hf : is_str _ _ = false |- _ => rewrite Hf; clear Hf end.
  reflexivity.
Qed.

(** A record of a known type is dispatched on its 类型 alone. *)
Lemma known_type_cases (t : value) :
  known_type t = true ->
  t = VStr L.t_profession \/ t = VStr L.t_ancestry \/ t = VStr L.t_community
  \/ t = VStr L.t_subclass \/ t = VStr L.t_domain.
Proof.
  unfold known_type, is_str. intros H.
  destruct t as [| | |s| |]; try discriminate. simpl in H.
  repeat (apply orb_true_iff in H as [H|H]);
    apply StrFacts.eqb_eq in H; subst; auto 6.
Qed.

(** What [work_rrr] makes of a package holding one record. *)
Section Single.
Variables (repr : value -> str) (name version : str).
Variables (a b c d e : list value) (p : dict).
Let o := Lists a b c d e [] [] [] [] [] [].

Lemma rrr_single_profession :
  work_rrr repr [package name version (add_profession (VDict p) o)] =
  (r <- rrr_profession p ;; OK [VDict r]).
Proof. unfold work_rrr. cbn. destruct (rrr_profession p); reflexivity. Qed.

Lemma rrr_single_community :
  work_rrr repr [package name version (add_community (VDict p) o)] =
  (r <- rrr_community p ;; OK [VDict r]).
Proof. unfold work_rrr. cbn. destruct (rrr_community p); reflexivity. Qed.

Lemma rrr_single_subclass :
  work_rrr repr [package name version (add_subclass (VDict p) o)] =
  (r <- rrr_subclass p ;; OK [VDict r]).
Proof. unfold work_rrr. cbn. destruct (rrr_subclass p); reflexivity. Qed.

Lemma rrr_single_domain :
  work_rrr repr [package name version (add_domain (VDict p) o)] =
  (r <- rrr_domain repr p ;; OK [VDict r]).
Proof. unfold work_rrr. cbn. destruct (rrr_domain repr p); reflexivity. Qed.

Lemma rrr_single_variant :
  work_rrr repr [package name version (add_variant (VDict p) o)] =
  (r <- rrr_variant repr p ;; OK [VDict r]).
Proof. unfold work_rrr. cbn. destruct (rrr_variant repr p); reflexivity. Qed.
End Single.

End Dispatch.

(* ===================================================================== *)
(** ** The loop of [work_zzz]                                            *)
(* ===================================================================== *)

Module Loop.
Import Zzz2rrr Spec DictFacts StrFacts Dispatch.

Ltac bind_inv H :=
  repeat match type of H with
  | bind ?c _ = OK _ =>
    let e := fresh "Hb" in
    destruct c eqn:e; cbn [bind] in H; [|discriminate H]
  | match ?x with (_, _) => _ end = OK _ => destruct x
  end.

Lemma profession_turn E n out kv st' :
  get kv L.type_ empty = VStr L.t_profession ->
  zzz_profession E (n, out) kv (get kv L.name empty) = OK st' ->
  turn E (n, out) (VDict kv) st' (VDict kv).
Proof.
  intros Ht H. unfold zzz_profession in H. bind_inv H.
  injection H as <-. now constructor.
Qed.

Lemma ancestry_turn E n out kv st' :
  get kv L.type_ empty = VStr L.t_ancestry ->
  zzz_ancestry E (n, out) kv (get kv L.name empty) = OK st' ->
  turn E (n, out) (VDict kv) st' (VDict kv).
Proof.
  intros Ht H. unfold zzz_ancestry in H. bind_inv H.
  injection H as <-. now constructor.
Qed.

Lemma community_turn E n out kv st' :
  get kv L.type_ empty = VStr L.t_community ->
  zzz_community E (n, out) kv (get kv L.name empty) = OK st' ->
  turn E (n, out) (VDict kv) st' (VDict kv).
Proof.
  intros Ht H. unfold zzz_community in H. bind_inv H.
  injection H as <-. now constructor.
Qed.

Lemma subclass_turn E n out kv st' :
  get kv L.type_ empty = VStr L.t_subclass ->
  zzz_subclass E (n, out) kv (get kv L.name empty) = OK st' ->
  turn E (n, out) (VDict kv) st' (VDict kv).
Proof.
  intros Ht H. unfold zzz_subclass in H. bind_inv H.
  injection H as <-. now constructor.
Qed.

Lemma domain_turn E n out kv st' :
  get kv L.type_ empty = VStr L.t_domain ->
  zzz_domain E (n, out) kv (get kv L.name empty) = OK st' ->
  turn E (n, out) (VDict kv) st' (VDict kv).
Proof.
  intros Ht H. unfold zzz_domain in H. bind_inv H.
  injection H as <-. now constructor.
Qed.

Lemma variant_turn E n out kv st' kv' :
  known_type (get kv L.type_ empty) = false ->
  zzz_variant E (n, out) kv (get kv L.type_ empty) (get kv L.name empty)
    = OK (st', kv') ->
  turn E (n, out) (VDict kv) st' (VDict kv').
Proof.
  intros Hk H. unfold zzz_variant in H.
  assert (Hparts :
    (if truthy (get kv L.brief empty)
     then s <- as_str (get kv L.brief empty) ;; OK (split L.slash s)
     else OK []) = OK (variant_parts kv) \/
    exists e, (if truthy (get kv L.brief empty)
     then s <- as_str (get kv L.brief empty) ;; OK (split L.slash s)
     else OK []) = Raise e).
  { unfold variant_parts.
    destruct (get kv L.brief empty) as [|b|z|[|c s]|l|m]; cbn;
      try (left; reflexivity);
      try (destruct b); try (destruct (z =? 0)%Z); try (destruct l);
      try (destruct m); cbn; eauto. }
  destruct Hparts as [Hp|[e Hp]]; rewrite Hp in H; cbn [bind] in H;
    [|discriminate].
  injection H as <- <-. now constructor.
Qed.

(** A turn that completes is one of the six turns. *)
Lemma zzz_record_turn E st d st' d' :
  zzz_record E st d = OK (st', d') -> turn E st d st' d'.
Proof.
  destruct st as [n out]. destruct d as [| | | | |kv]; try discriminate.
  destruct (known_type (get kv L.type_ empty)) eqn:Hk.
  - destruct (known_type_cases _ Hk) as [Ht|[Ht|[Ht|[Ht|Ht]]]]; intros H.
    + rewrite (zzz_record_profession E _ kv Ht) in H. bind_inv H.
      injection H as <- <-. now apply profession_turn.
    + rewrite (zzz_record_ancestry E _ kv Ht) in H. bind_inv H.
      injection H as <- <-. now apply ancestry_turn.
    + rewrite (zzz_record_community E _ kv Ht) in H. bind_inv H.
      injection H as <- <-. now apply community_turn.
    + rewrite (zzz_record_subclass E _ kv Ht) in H. bind_inv H.
      injection H as <- <-. now apply subclass_turn.
    + rewrite (zzz_record_domain E _ kv Ht) in H. bind_inv H.
      injection H as <- <-. now apply domain_turn.
  - intros H. rewrite (zzz_record_variant E _ kv Hk) in H. bind_inv H.
    injection H as <- <-. now apply variant_turn.
Qed.

Lemma zzz_loop_run E st data st' data' :
  zzz_loop E st data = (OK st', data') -> run E st data st' data'.
Proof.
  revert st data'. induction data as [|d ds IH]; intros st data' H; simpl in H.
  - injection H as <- <-. constructor.
  - destruct (zzz_record E st d) as [[st1 d1]|e] eqn:Hd; [|discriminate].
    destruct (zzz_loop E st1 ds) as [r rest] eqn:Hl.
    injection H as -> <-.
    apply (run_cons E st d st1 d1 ds st' rest).
    + apply zzz_record_turn, Hd.
    + apply IH, Hl.
Qed.

(** What [work_zzz] returns comes from a completed run. *)
Lemma work_zzz_run E data path pkg :
  fst (work_zzz E data path) = OK pkg ->
  exists n out data',
    run E (0, empty_lists) data (n, out) data' /\
    snd (work_zzz E data path) = data' /\
    pkg = package (match path with [] => L.default_package
                   | _ :: _ => stem E path end) (clock E) out.
Proof.
  unfold work_zzz.
  destruct (zzz_loop E (0, empty_lists) data) as [r data'] eqn:Hl. simpl.
  destruct r as [[n out]|e]; [|discriminate]. intros [= <-].
  exists n, out, data'. split; [now apply zzz_loop_run|]. split; reflexivity.
Qed.

(** *** What the call does to its input *)

Lemma turn_after E st d st' d' : turn E st d st' d' -> d' = after_zzz d.
Proof.
  intros H. destruct H; unfold after_zzz;
    try (match goal with Ht : get _ L.type_ empty = _ |- _ => rewrite Ht end;
         reflexivity).
  match goal with Hk : known_type _ = false |- _ => rewrite Hk end.
  reflexivity.
Qed.

Lemma zzz_loop_effect E st data :
  exists k, k <= length data /\
    snd (zzz_loop E st data) = map after_zzz (firstn k data) ++ skipn k data /\
    (forall st', fst (zzz_loop E st data) = OK st' -> k = length data).
Proof.
  revert st. induction data as [|d ds IH]; intros st; simpl.
  - exists 0. simpl. auto.
  - destruct (zzz_record E st d) as [[st1 d1]|e] eqn:Hd.
    + destruct (IH st1) as (k & Hk & Hsnd & Hfst).
      destruct (zzz_loop E st1 ds) as [r rest] eqn:Hl. simpl in *.
      exists (S k). split; [lia|]. split.
      * simpl. rewrite Hsnd.
        now rewrite (turn_after E st d st1 d1 (zzz_record_turn _ _ _ _ _ Hd)).
      * intros st' Hr. f_equal. now apply (Hfst st').
    + exists 0. simpl. split; [lia|]. split; [reflexivity|discriminate].
Qed.

(** A run that returns has rewritten every record. *)
Lemma zzz_loop_returns E st data st' data' :
  zzz_loop E st data = (OK st', data') -> data' = map after_zzz data.
Proof.
  revert st data'. induction data as [|d ds IH]; intros st data' H; simpl in H.
  - now injection H as _ <-.
  - destruct (zzz_record E st d) as [[st1 d1]|e] eqn:Hd; [|discriminate].
    destruct (zzz_loop E st1 ds) as [r rest] eqn:Hl.
    injection H as -> <-. simpl.
    rewrite (turn_after E st d st1 d1 (zzz_record_turn _ _ _ _ _ Hd)).
    f_equal. now apply (IH st1).
Qed.

(** A run that raises stops at the first record whose turn raises: the
    records before it are rewritten, that record and the records after it
    are as they were. *)
Lemma zzz_loop_raises E st data e :
  fst (zzz_loop E st data) = Raise e ->
  exists pre d post st',
    data = pre ++ d :: post /\
    zzz_loop E st pre = (OK st', map after_zzz pre) /\
    zzz_record E st' d = Raise e /\
    snd (zzz_loop E st data) = map after_zzz pre ++ d :: post.
Proof.
  revert st. induction data as [|d ds IH]; intros st; simpl; [discriminate|].
  destruct (zzz_record E st d) as [[st1 d1]|e1] eqn:Hd.
  - destruct (zzz_loop E st1 ds) as [r rest] eqn:Hl. simpl. intros Hr.
    specialize (IH st1). rewrite Hl in IH. simpl in IH.
    destruct (IH Hr) as (pre & d0 & post & st' & -> & Hpre & Hd0 & Hrest).
    exists (d :: pre), d0, post, st'. simpl. rewrite Hd, Hpre.
    rewrite (turn_after E st d st1 d1 (zzz_record_turn _ _ _ _ _ Hd)), Hrest.
    auto.
  - simpl. intros [= ->]. exists [], d, ds, st. simpl. auto.
Qed.

(** C5, as the code has it.  After [work_zzz] the records that a completed
    turn visited are as [after_zzz] describes and the others are
    untouched: a record of one of the five known types is unchanged, a
    record of any other type has been rewritten in place (效果 set to its
    特性, 简略信息 replaced by the keyed parts).  When the call returns,
    every record was visited.  When it raises, the turn of one record
    raised after the turns of the records before it had completed: those
    records are rewritten, that record and the records after it are as
    they were. *)
Theorem work_zzz_effect E data path :
  (exists k, k <= length data /\
     snd (work_zzz E data path) =
       map after_zzz (firstn k data) ++ skipn k data /\
     (forall pkg, fst (work_zzz E data path) = OK pkg -> k = length data)) /\
  (forall d, known_type (type_of d) = true -> after_zzz d = d) /\
  (forall kv, known_type (get kv L.type_ empty) = false ->
     after_zzz (VDict kv) =
     VDict (dict_set L.brief (VDict (items_from 0 (variant_parts kv)))
              (dict_set L.effect (get kv L.feature empty) kv))) /\
  (forall pkg, fst (work_zzz E data path) = OK pkg ->
     snd (work_zzz E data path) = map after_zzz data) /\
  (forall e, fst (work_zzz E data path) = Raise e ->
     exists pre d post st,
       data = pre ++ d :: post /\
       zzz_loop E (0, empty_lists) pre = (OK st, map after_zzz pre) /\
       zzz_record E st d = Raise e /\
       snd (work_zzz E data path) = map after_zzz pre ++ d :: post).
Proof.
  split; [|split; [|split; [|split]]].
  - destruct (zzz_loop_effect E (0, empty_lists) data) as (k & Hk & Hsnd & Hfst).
    exists k. unfold work_zzz.
    destruct (zzz_loop E (0, empty_lists) data) as [r data'] eqn:Hl.
    simpl in *. split; [exact Hk|]. split; [exact Hsnd|].
    intros pkg Hpkg. destruct r as [st'|e]; [|discriminate].
    now apply (Hfst st').
  - intros [| | | | |kv] Hk; try reflexivity.
    unfold after_zzz. simpl in Hk. now rewrite Hk.
  - intros kv Hk. unfold after_zzz. now rewrite Hk.
  - unfold work_zzz. intros pkg.
    destruct (zzz_loop E (0, empty_lists) data) as [r data'] eqn:Hl. simpl.
    destruct r as [st'|e]; [|discriminate]. intros _.
    now apply (zzz_loop_returns E (0, empty_lists) data st').
  - unfold work_zzz. intros e.
    pose proof (zzz_loop_raises E (0, empty_lists) data e) as Hr.
    destruct (zzz_loop E (0, empty_lists) data) as [r data'] eqn:Hl. simpl in *.
    destruct r as [st'|e']; [discriminate|]. intros [= ->]. now apply Hr.
Qed.

Lemma work_zzz_effect_witness :
  (snd (work_zzz demo_env demo_data []) = map after_zzz demo_data /\
   after_zzz (VDict demo_profession) = VDict demo_profession /\
   after_zzz (VDict demo_weapon) =
     VDict (dict_set L.brief (VDict (items_from 0 (variant_parts demo_weapon)))
              (dict_set L.effect (get demo_weapon L.feature empty) demo_weapon))) /\
  (exists pre d post st,
     demo_data_broken = pre ++ d :: post /\
     zzz_loop demo_env (0, empty_lists) pre = (OK st, map after_zzz pre) /\
     zzz_record demo_env st d = Raise IndexError /\
     snd (work_zzz demo_env demo_data_broken []) =
       map after_zzz pre ++ d :: post).
Proof.
  destruct (work_zzz_effect demo_env demo_data [])
    as (_ & Hknown & Hother & Hret & _).
  destruct (work_zzz_effect demo_env demo_data_broken [])
    as (_ & _ & _ & _ & Hraise).
  split; [split; [|split]|].
  - apply (Hret demo_package). reflexivity.
  - apply Hknown. reflexivity.
  - apply Hother. reflexivity.
  - apply Hraise. reflexivity.
Defined.

Example work_zzz_stops_at_broken :
  fst (work_zzz demo_env demo_data_broken []) = Raise IndexError /\
  snd (work_zzz demo_env demo_data_broken []) =
    [ after_zzz (VDict demo_weapon); VDict bad_ancestry; VDict demo_weapon ] /\
  after_zzz (VDict demo_weapon) <> VDict demo_weapon.
Proof. vm_compute. repeat split. discriminate. Qed.

(** The claim as stated fails: a record of another type is rewritten in
    place by the call. *)
Lemma work_zzz_rewrites_variant :
  demo_weapon =
    [ (L.name, text "长剑"); (L.type_, text "武器");
      (L.brief, text "近战/物理/3点"); (L.feature, text "可靠") ] /\
  snd (work_zzz demo_env [VDict demo_weapon] []) =
    [VDict
      [ (L.name, text "长剑"); (L.type_, text "武器");
        (L.brief,
         VDict [ (lit "item0", text "近战"); (lit "item1", text "物理");
                 (lit "item2", text "3点") ]);
        (L.feature, text "可靠"); (L.effect, text "可靠") ]].
Proof. vm_compute. auto. Qed.

(** *** The identifiers *)

Lemma lists_after_profession r x o :
  let o' := add_profession r (note_profession x o) in
  profession o' = profession o ++ [r] /\ ancestry o' = ancestry o /\
  community o' = community o /\ subclass o' = subclass o /\
  domain o' = domain o /\ variant o' = variant o.
Proof. destruct o; simpl; auto 10. Qed.

Lemma lists_after_ancestry r1 r2 x o :
  let o' := add_ancestry r2 (add_ancestry r1 (note_ancestry x o)) in
  profession o' = profession o /\ ancestry o' = ancestry o ++ [r1; r2] /\
  community o' = community o /\ subclass o' = subclass o /\
  domain o' = domain o /\ variant o' = variant o.
Proof. destruct o; simpl; rewrite <- ?app_assoc; auto 10. Qed.

Lemma lists_after_community r x o :
  let o' := add_community r (note_community x o) in
  profession o' = profession o /\ ancestry o' = ancestry o /\
  community o' = community o ++ [r] /\ subclass o' = subclass o /\
  domain o' = domain o /\ variant o' = variant o.
Proof. destruct o; simpl; auto 10. Qed.

Lemma lists_after_subclass r o :
  let o' := add_subclass r o in
  profession o' = profession o /\ ancestry o' = ancestry o /\
  community o' = community o /\ subclass o' = subclass o ++ [r] /\
  domain o' = domain o /\ variant o' = variant o.
Proof. destruct o; simpl; auto 10. Qed.

Lemma lists_after_domain r x o :
  let o' := add_domain r (note_domain x o) in
  profession o' = profession o /\ ancestry o' = ancestry o /\
  community o' = community o /\ subclass o' = subclass o /\
  domain o' = domain o ++ [r] /\ variant o' = variant o.
Proof. destruct o; simpl; auto 10. Qed.

Lemma lists_after_variant r x o :
  let o' := add_variant r (note_variant x o) in
  profession o' = profession o /\ ancestry o' = ancestry o /\
  community o' = community o /\ subclass o' = subclass o /\
  domain o' = domain o /\ variant o' = variant o ++ [r].
Proof. destruct o; simpl; auto 10. Qed.

Lemma minted_snoc E ks l k r :
  minted E ks l -> record_id r = Some (gen_uuid E k) ->
  minted E (ks ++ [k]) (l ++ [r]).
Proof.
  unfold minted. intros H Hr. rewrite !map_app, H. simpl. now rewrite Hr.
Qed.

(** A number that is not below [n] is new to a list that is. *)
Lemma fresh_below_absent n l x :
  fresh_below n l -> n <= x -> count_occ Nat.eq_dec l x = 0.
Proof. intros H Hx. destruct (H x) as [_ H2]. lia. Qed.

Ltac count_fresh H :=
  let x := fresh "x" in
  intros x; specialize (H x);
  repeat rewrite count_occ_app in *; cbn [count_occ] in *;
  repeat match goal with
  | |- context [Nat.eq_dec ?a ?b] => destruct (Nat.eq_dec a b)
  end; subst; lia.

Lemma in_set_other {A} (k k' : str) (v x : A) (d : list (str * A)) :
  k <> k' -> In (k', x) (dict_set k v d) -> In (k', x) d.
Proof.
  intros Hne. induction d as [|[k0 v0] d IH]; simpl.
  - intros [[= -> _]|[]]. congruence.
  - destruct (Str.eqb k0 k) eqn:E; simpl.
    + apply eqb_eq in E. subst. intros [[= <- _]|H]; [congruence | now right].
    + intros [H|H]; auto.
Qed.

(** After [d.update(e)] a key holds what it held, or something [e] holds
    under it. *)
Lemma get_update_cases {A} (k : str) (d e : list (str * A)) :
  dict_get k (dict_update d e) = dict_get k d \/
  exists x, In (k, x) e /\ dict_get k (dict_update d e) = Some x.
Proof.
  unfold dict_update. revert d.
  induction e as [|[k' v'] e IH]; intros d; simpl; auto.
  destruct (IH (dict_set k' v' d)) as [H|(x & Hin & H)].
  - destruct (Str.eqb k' k) eqn:E.
    + apply eqb_eq in E. subst. rewrite get_set_same in H.
      right. exists v'. auto.
    + left. rewrite H. apply get_set_other. apply eqb_neq in E. congruence.
  - right. exists x. auto.
Qed.

(** The category of a record, from its 类型. *)
Lemma category_profession kv :
  get kv L.type_ empty = VStr L.t_profession ->
  category_of (VDict kv) = Profession.
Proof. unfold category_of, type_of. now intros ->. Qed.

Lemma category_ancestry kv :
  get kv L.type_ empty = VStr L.t_ancestry ->
  category_of (VDict kv) = Ancestry.
Proof. unfold category_of, type_of. now intros ->. Qed.

Lemma category_community kv :
  get kv L.type_ empty = VStr L.t_community ->
  category_of (VDict kv) = Community.
Proof. unfold category_of, type_of. now intros ->. Qed.

Lemma category_subclass kv :
  get kv L.type_ empty = VStr L.t_subclass ->
  category_of (VDict kv) = Subclass.
Proof. unfold category_of, type_of. now intros ->. Qed.

Lemma category_domain kv :
  get kv L.type_ empty = VStr L.t_domain ->
  category_of (VDict kv) = Domain.
Proof. unfold category_of, type_of. now intros ->. Qed.

Lemma category_variant kv :
  known_type (get kv L.type_ empty) = false ->
  category_of (VDict kv) = Variant.
Proof.
  unfold category_of, type_of, known_type. intros H.
  repeat (apply orb_false_iff in H as [H ?]).
  repeat match goal with Hf : is_str _ _ = false |- _ => rewrite Hf; clear Hf end.
  reflexivity.
Qed.

(** The category of the record of a turn. *)
Lemma turn_category E st d st' d' :
  turn E st d st' d' ->
  fst st' = fst st + draws d /\
  forall c, same_category (category_of d) c = true ->
    cat_list (snd st') c <> cat_list (snd st) c.
Proof.
  assert (Hne : forall (l : list value) x, l ++ [x] <> l).
  { intros l x H. apply (f_equal (@length value)) in H.
    rewrite length_app in H. simpl in H. lia. }
  assert (Hne2 : forall (l : list value) x y, (l ++ [x]) ++ [y] <> l).
  { intros l x y H. apply (f_equal (@length value)) in H.
    rewrite !length_app in H. simpl in H. lia. }
  intros H. unfold draws.
  destruct H; cbn [fst snd];
    try match goal with
        | Hk : known_type _ = false |- _ =>
          rewrite (category_variant _ Hk)
        end;
    try (rewrite (category_profession _ ltac:(eassumption)));
    try (rewrite (category_ancestry _ ltac:(eassumption)));
    try (rewrite (category_community _ ltac:(eassumption)));
    try (rewrite (category_subclass _ ltac:(eassumption)));
    try (rewrite (category_domain _ ltac:(eassumption)));
    (split; [lia|]); intros c Hc; destruct c; try discriminate Hc;
    destruct out; cbn; auto.
Qed.

Lemma numbered_app n l1 l2 :
  numbered n (l1 ++ l2) = numbered n l1 ++ numbered (n + drawn l1) l2.
Proof.
  revert n. induction l1 as [|d l1 IH]; intros n; simpl.
  - unfold drawn. simpl. now rewrite Nat.add_0_r.
  - rewrite IH. unfold drawn. simpl. now rewrite Nat.add_assoc.
Qed.

Lemma drawn_snoc seen d : drawn (seen ++ [d]) = drawn seen + draws d.
Proof.
  unfold drawn. rewrite map_app, list_sum_app. simpl. lia.
Qed.

Lemma pick_numbered_snoc c seen d :
  pick_numbered c (seen ++ [d]) =
  pick_numbered c seen ++
  (if same_category (category_of d) c then [(drawn seen, d)] else []).
Proof.
  unfold pick_numbered. rewrite numbered_app, filter_app. simpl.
  destruct (same_category (category_of d) c); reflexivity.
Qed.

(** The identifier of a packaged variant. *)
Lemma variant_id E n kv parts :
  own_or_minted E (n, VDict kv)
    (VDict (dict_update
              (dict_of [(L.id, gen_uuid E n); (L.name, get kv L.name empty)])
              (rewrite_variant kv parts))).
Proof.
  intros kv' [= <-] Hnd. unfold record_id.
  rewrite get_update
    by (unfold rewrite_variant; now apply nodup_set, nodup_set).
  unfold rewrite_variant. rewrite !get_set_other by discriminate.
  destruct (dict_get L.id kv); reflexivity.
Qed.

Ltac known_turn Hseen Hkv Hown lemma :=
  rewrite drawn_snoc, pick_numbered_snoc;
  unfold draws;
  rewrite (lemma _ ltac:(eassumption));
  cbn [same_category]; rewrite app_nil_r;
  split; [rewrite <- Hseen; lia | split; [exact Hkv | exact Hown]].

Lemma turn_ids E data seen st d st' d' :
  turn E st d st' d' -> In d data ->
  ids_inv E data seen st -> ids_inv E data (seen ++ [d]) st'.
Proof.
  intros Ht Hin
    (kp & ka & kc & ks & kd & kv & Hf & Hp & Ha & Hc & Hs & Hd & Hv &
     Hseen & Hkv & Hown).
  unfold ids_inv. destruct Ht; cbn [fst snd] in *.
  - exists (kp ++ [n]), ka, kc, ks, kd, kv.
    destruct (lists_after_profession r (get kv0 L.name empty) out)
      as (E1 & E2 & E3 & E4 & E5 & E6).
    rewrite E1, E2, E3, E4, E5, E6.
    refine (conj _ (conj _ (conj _ (conj _ (conj _ (conj _ (conj _ _)))))));
      auto using minted_snoc.
    + count_fresh Hf.
    + known_turn Hseen Hkv Hown category_profession.
  - exists kp, (ka ++ [n; S n]), kc, ks, kd, kv.
    destruct (lists_after_ancestry r1 r2 (get kv0 L.name empty) out)
      as (E1 & E2 & E3 & E4 & E5 & E6).
    rewrite E1, E2, E3, E4, E5, E6.
    refine (conj _ (conj _ (conj _ (conj _ (conj _ (conj _ (conj _ _)))))));
      auto.
    + count_fresh Hf.
    + change [r1; r2] with ([r1] ++ [r2]). change [n; S n] with ([n] ++ [S n]).
      rewrite !app_assoc. auto using minted_snoc.
    + known_turn Hseen Hkv Hown category_ancestry.
  - exists kp, ka, (kc ++ [n]), ks, kd, kv.
    destruct (lists_after_community r (get kv0 L.name empty) out)
      as (E1 & E2 & E3 & E4 & E5 & E6).
    rewrite E1, E2, E3, E4, E5, E6.
    refine (conj _ (conj _ (conj _ (conj _ (conj _ (conj _ (conj _ _)))))));
      auto using minted_snoc.
    + count_fresh Hf.
    + known_turn Hseen Hkv Hown category_community.
  - exists kp, ka, kc, (ks ++ [n]), kd, kv.
    destruct (lists_after_subclass r out) as (E1 & E2 & E3 & E4 & E5 & E6).
    rewrite E1, E2, E3, E4, E5, E6.
    refine (conj _ (conj _ (conj _ (conj _ (conj _ (conj _ (conj _ _)))))));
      auto using minted_snoc.
    + count_fresh Hf.
    + known_turn Hseen Hkv Hown category_subclass.
  - exists kp, ka, kc, ks, (kd ++ [n]), kv.
    destruct (lists_after_domain r (get kv0 L.domain empty) out)
      as (E1 & E2 & E3 & E4 & E5 & E6).
    rewrite E1, E2, E3, E4, E5, E6.
    refine (conj _ (conj _ (conj _ (conj _ (conj _ (conj _ (conj _ _)))))));
      auto using minted_snoc.
    + count_fresh Hf.
    + known_turn Hseen Hkv Hown category_domain.
  - exists kp, ka, kc, ks, kd, (kv ++ [n]).
    match goal with |- context [add_variant ?r (note_variant ?x out)] =>
      destruct (lists_after_variant r x out) as (E1 & E2 & E3 & E4 & E5 & E6)
    end.
    rewrite E1, E2, E3, E4, E5, E6.
    refine (conj _ (conj _ (conj _ (conj _ (conj _ (conj _ (conj _ _)))))));
      auto.
    + count_fresh Hf.
    + apply Forall2_app; [assumption|]. constructor; [|constructor].
      unfold minted_or_own, record_id.
      match goal with |- context [dict_update ?b ?e] =>
        destruct (get_update_cases L.id b e) as [Hg|(x & Hx & Hg)]
      end; rewrite Hg.
      * left. reflexivity.
      * right. exists kv0, x. split; [assumption|]. split; [|reflexivity].
        unfold rewrite_variant in Hx.
        apply in_set_other in Hx; [|discriminate].
        apply in_set_other in Hx; [|discriminate]. exact Hx.
    + rewrite drawn_snoc, pick_numbered_snoc. unfold draws.
      rewrite (category_variant _ ltac:(eassumption)). cbn [same_category].
      split; [rewrite <- Hseen; lia|]. split.
      * rewrite map_app, <- Hkv, Hseen. reflexivity.
      * apply Forall2_app; [assumption|]. constructor; [|constructor].
        rewrite <- Hseen. apply variant_id.
Qed.

Lemma run_ids E data seen st ds st' ds' :
  run E st ds st' ds' -> incl ds data ->
  ids_inv E data seen st -> ids_inv E data (seen ++ ds) st'.
Proof.
  intros Hrun. revert seen.
  induction Hrun as [|st d st1 d' ds st2 ds' Ht Hr IH]; intros seen Hincl Hinv.
  - now rewrite app_nil_r.
  - change (d :: ds) with ([d] ++ ds). rewrite app_assoc. apply IH.
    + intros x Hx. apply Hincl. now right.
    + apply (turn_ids E data seen st d st1 d' Ht);
        [apply Hincl; now left | exact Hinv].
Qed.

Lemma fresh_below_nodup n l : fresh_below n l -> NoDup l.
Proof.
  intros H. apply (NoDup_count_occ Nat.eq_dec). intros x. apply (H x).
Qed.

(** C7, as the code has it.  Every record [work_zzz] emits into the
    profession, ancestry, community, subclass and domain lists carries
    under [id] the identifier of a draw of its own, and no draw serves two
    records.  A record emitted into the variant list has a draw of its own
    too, the one of the turn of its input record; it carries the
    identifier of that draw unless the input record has an [id] field,
    whose value it carries then. *)
Theorem work_zzz_identifiers E data path pkg :
  fst (work_zzz E data path) = OK pkg ->
  exists ks kvs : list nat,
    NoDup (ks ++ kvs) /\
    map record_id
      (category_list pkg L.profession ++ category_list pkg L.ancestry ++
       category_list pkg L.community ++ category_list pkg L.subclass ++
       category_list pkg L.domain_cat)
    = map (fun k => Some (gen_uuid E k)) ks /\
    Forall2
      (fun k v =>
         record_id v = Some (gen_uuid E k) \/
         exists kv x,
           In (VDict kv) data /\ In (L.id, x) kv /\ record_id v = Some x)
      kvs (category_list pkg L.variant) /\
    kvs = map fst (pick_numbered Variant data) /\
    Forall2 (own_or_minted E)
      (pick_numbered Variant data) (category_list pkg L.variant).
Proof.
  intros Hpkg.
  destruct (work_zzz_run E data path pkg Hpkg) as (n & out & data' & Hrun & _ & ->).
  assert (Hinv : ids_inv E data ([] ++ data) (n, out)).
  { apply (run_ids E data [] _ _ _ _ Hrun (incl_refl data)).
    exists [], [], [], [], [], [].
    repeat split; try constructor. all: simpl; lia. }
  destruct Hinv as
    (kp & ka & kc & ks & kd & kv & Hf & Hp & Ha & Hc & Hs & Hd & Hv &
     _ & Hkv & Hown).
  cbn [fst snd app] in *.
  exists (kp ++ ka ++ kc ++ ks ++ kd), kv. split; [|split; [|split; [|split]]].
  - apply (fresh_below_nodup n). now rewrite <- !app_assoc.
  - change (category_list (package _ _ out) L.profession) with (profession out).
    change (category_list (package _ _ out) L.ancestry) with (ancestry out).
    change (category_list (package _ _ out) L.community) with (community out).
    change (category_list (package _ _ out) L.subclass) with (subclass out).
    change (category_list (package _ _ out) L.domain_cat) with (domain out).
    unfold minted in *. rewrite !map_app. congruence.
  - exact Hv.
  - exact Hkv.
  - exact Hown.
Qed.

Lemma work_zzz_identifiers_witness :
  exists ks kvs : list nat,
    NoDup (ks ++ kvs) /\
    map record_id
      (category_list demo_package_relic L.profession ++
       category_list demo_package_relic L.ancestry ++
       category_list demo_package_relic L.community ++
       category_list demo_package_relic L.subclass ++
       category_list demo_package_relic L.domain_cat)
    = map (fun k => Some (gen_uuid demo_env k)) ks /\
    Forall2
      (fun k v =>
         record_id v = Some (gen_uuid demo_env k) \/
         exists kv x,
           In (VDict kv) demo_data_relic /\ In (L.id, x) kv /\
           record_id v = Some x)
      kvs (category_list demo_package_relic L.variant) /\
    kvs = map fst (pick_numbered Variant demo_data_relic) /\
    Forall2 (own_or_minted demo_env)
      (pick_numbered Variant demo_data_relic)
      (category_list demo_package_relic L.variant).
Proof.
  apply (work_zzz_identifiers demo_env demo_data_relic [] demo_package_relic).
  vm_compute. reflexivity.
Defined.

(** The three variants of the sample run: the first and the last carry the
    draws of their turns, the second the [id] it brought. *)
Example variant_ids_example :
  map fst (pick_numbered Variant demo_data_relic) = [2; 8; 9] /\
  map record_id (category_list demo_package_relic L.variant) =
    [Some (text "1002"); Some (text "relic-7"); Some (text "1009")].
Proof. vm_compute. auto. Qed.

(** The claim as stated fails: a community record and a domain record are
    given an identifier as well (here the first draw, 1000). *)
Lemma community_and_domain_ids :
  gen_uuid demo_env 0 = text "1000" /\
  emitted_ids demo_env [VDict demo_community] L.community
    = [Some (text "1000")] /\
  emitted_ids demo_env [VDict (demo_domain_card "2")] L.domain_cat
    = [Some (text "1000")].
Proof. vm_compute. auto. Qed.

(** *** The lists of [customFieldDefinitions] *)

Lemma nub_incl (l : list value) : incl (nub l) l.
Proof.
  funelim (nub l); simp nub; [easy|].
  intros y [<-|Hy]; [now left|]. right.
  apply H in Hy. apply filter_In in Hy. tauto.
Qed.

Lemma nub_distinct (l : list value) : distinct (nub l).
Proof.
  unfold distinct. funelim (nub l); simp nub; constructor; auto.
  apply Forall_forall. intros y Hy.
  apply nub_incl, filter_In in Hy. destruct Hy as [_ Hy].
  now apply negb_true_iff in Hy.
Qed.

Lemma filter_and {A} (p q : A -> bool) (l : list A) :
  filter (fun x => p x && q x) l = filter q (filter p l).
Proof.
  induction l as [|x l IH]; simpl; auto.
  destruct (p x); simpl; [destruct (q x)|]; now rewrite IH.
Qed.

Lemma list_mem_snoc (y x : value) (acc : list value) :
  list_mem y (acc ++ [x]) = list_mem y acc || py_eq x y.
Proof. unfold list_mem. rewrite existsb_app. simpl. now rewrite orb_false_r. Qed.

(** The membership loop keeps the first appearances. *)
Lemma add_all_nub (xs acc : list value) :
  add_all acc xs = acc ++ nub (filter (fun x => negb (list_mem x acc)) xs).
Proof.
  unfold add_all. revert acc.
  induction xs as [|x xs IH]; intros acc; simpl.
  - simp nub. now rewrite app_nil_r.
  - unfold add_unique at 2. destruct (list_mem x acc) eqn:Hx; simpl.
    + apply IH.
    + rewrite IH. simp nub. rewrite <- app_assoc. simpl. do 3 f_equal.
      rewrite <- filter_and. apply filter_ext. intros y.
      now rewrite list_mem_snoc, negb_orb.
Qed.

Lemma add_all_nil (xs : list value) : add_all [] xs = nub xs.
Proof.
  rewrite add_all_nub. simpl. f_equal.
  induction xs as [|x xs IH]; simpl; now f_equal.
Qed.

Lemma add_all_app (acc xs ys : list value) :
  add_all acc (xs ++ ys) = add_all (add_all acc xs) ys.
Proof. unfold add_all. apply fold_left_app. Qed.

Lemma defs_step_app d ds o o1 o2 :
  defs_step [d] o o1 -> defs_step ds o1 o2 -> defs_step (d :: ds) o o2.
Proof.
  unfold defs_step, names_of_type, domain_tags, variant_tags.
  intros (H1 & H2 & H3 & H4 & H5) (K1 & K2 & K3 & K4 & K5).
  change (d :: ds) with ([d] ++ ds).
  rewrite !filter_app, !map_app, !add_all_app.
  rewrite <- H1, <- H2, <- H3, <- H4, <- H5. auto.
Qed.

Lemma turn_defs E st d st' d' :
  turn E st d st' d' -> defs_step [d] (snd st) (snd st').
Proof.
  intros H. unfold defs_step, names_of_type, domain_tags, variant_tags.
  destruct H; destruct out; cbn [snd filter map type_of name_of domain_of];
    try (match goal with Ht : get _ L.type_ empty = _ |- _ => rewrite Ht end;
         cbn; auto 6).
  unfold known_type in *.
  match goal with Hk : _ = false |- _ =>
    repeat (apply orb_false_iff in Hk as [Hk ?])
  end.
  repeat match goal with Hf : is_str _ _ = false |- _ => rewrite Hf; clear Hf end.
  cbn. auto 6.
Qed.

Lemma run_defs E st ds st' ds' :
  run E st ds st' ds' -> defs_step ds (snd st) (snd st').
Proof.
  induction 1 as [st|st d st1 d' ds st2 ds' Ht Hr IH].
  - unfold defs_step. cbn. auto.
  - apply (defs_step_app d ds (snd st) (snd st1) (snd st2)); auto.
    now apply (turn_defs E st d st1 d').
Qed.

(** C8.  Each of the five lists of [customFieldDefinitions] that
    [work_zzz] returns holds the names (for [domains] the 领域 tags, for
    [variants] the 类型 tags) of the input in the order of their first
    appearance, and no entry is [==] to a later one. *)
Theorem custom_lists_first_seen E data path pkg :
  fst (work_zzz E data path) = OK pkg ->
  (custom_list pkg L.professions = nub (names_of_type L.t_profession data) /\
   custom_list pkg L.ancestries = nub (names_of_type L.t_ancestry data) /\
   custom_list pkg L.communities = nub (names_of_type L.t_community data) /\
   custom_list pkg L.domains = nub (domain_tags data) /\
   custom_list pkg L.variants = nub (variant_tags data)) /\
  (distinct (custom_list pkg L.professions) /\
   distinct (custom_list pkg L.ancestries) /\
   distinct (custom_list pkg L.communities) /\
   distinct (custom_list pkg L.domains) /\
   distinct (custom_list pkg L.variants)).
Proof.
  intros Hpkg.
  destruct (work_zzz_run E data path pkg Hpkg) as (n & out & data' & Hrun & _ & ->).
  destruct (run_defs E _ _ _ _ Hrun) as (H1 & H2 & H3 & H4 & H5).
  cbn [snd empty_lists professions ancestries communities domains variants]
    in H1, H2, H3, H4, H5.
  rewrite add_all_nil in H1, H2, H3, H4, H5.
  change (custom_list (package _ _ out) L.professions) with (professions out).
  change (custom_list (package _ _ out) L.ancestries) with (ancestries out).
  change (custom_list (package _ _ out) L.communities) with (communities out).
  change (custom_list (package _ _ out) L.domains) with (domains out).
  change (custom_list (package _ _ out) L.variants) with (variants out).
  rewrite H1, H2, H3, H4, H5.
  split; [auto 6|]. repeat split; apply nub_distinct.
Qed.

Lemma custom_lists_first_seen_witness :
  (custom_list demo_package L.professions = [text "战士"] /\
   custom_list demo_package L.ancestries = [text "精灵"] /\
   custom_list demo_package L.communities = [text "高城"] /\
   custom_list demo_package L.domains = [text "奥秘"] /\
   custom_list demo_package L.variants = [text "武器"]) /\
  (distinct (custom_list demo_package L.professions) /\
   distinct (custom_list demo_package L.ancestries) /\
   distinct (custom_list demo_package L.communities) /\
   distinct (custom_list demo_package L.domains) /\
   distinct (custom_list demo_package L.variants)).
Proof.
  exact (custom_lists_first_seen demo_env demo_data [] demo_package eq_refl).
Defined.

End Loop.

(* ===================================================================== *)
(** ** The order of the records [work_rrr] returns                       *)
(* ===================================================================== *)

Module Order.
Import Zzz2rrr Spec DictFacts StrFacts Loop.

Lemma foldM_app {A S} (f : S -> A -> result S) (s : S) (l1 l2 : list A) :
  foldM f s (l1 ++ l2) = (s' <- foldM f s l1 ;; foldM f s' l2).
Proof.
  revert s. induction l1 as [|x l1 IH]; intros s; simpl; auto.
  destruct (f s x); simpl; auto.
Qed.

Section Visits.
Variable repr : value -> str.

Lemma foldM_visit_map (c : category) (st : rstate) (items : list value) :
  foldM (visit repr) st (map (pair c) items) = foldM (rrr_item repr c) st items.
Proof.
  revert st. induction items as [|d items IH]; intros st; simpl; auto.
  unfold visit at 1. simpl. destruct (rrr_item repr c st d); simpl; auto.
Qed.

Lemma rrr_key_flat kv st c st' :
  rrr_key repr kv st c = OK st' ->
  foldM (rrr_item repr c) st (items_of (VDict kv) c) = OK st'.
Proof.
  unfold rrr_key, items_of.
  destruct (dict_get (key_of c) kv) as [da|]; [|now intros [= <-]].
  destruct (truthy da); [|now intros [= <-]].
  destruct (iterate da); simpl; [auto|discriminate].
Qed.

Lemma rrr_keys_flat kv cs st st' :
  foldM (rrr_key repr kv) st cs = OK st' ->
  foldM (visit repr) st
    (flat_map (fun c => map (pair c) (items_of (VDict kv) c)) cs) = OK st'.
Proof.
  revert st. induction cs as [|c cs IH]; intros st; cbn [foldM flat_map]; auto.
  destruct (rrr_key repr kv st c) as [st1|e] eqn:Hk; cbn [bind]; [|discriminate].
  intros H. rewrite foldM_app, foldM_visit_map, (rrr_key_flat kv st c st1 Hk).
  cbn [bind]. now apply IH.
Qed.

(** The three nested loops visit the items in encounter order. *)
Lemma packages_flat data st st' :
  foldM (rrr_package repr) st data = OK st' ->
  foldM (visit repr) st (encounter data) = OK st'.
Proof.
  unfold encounter. revert st.
  induction data as [|dat data IH]; intros st; cbn [foldM flat_map]; auto.
  destruct (rrr_package repr st dat) as [st1|e] eqn:Hp; cbn [bind]; [|discriminate].
  intros H. rewrite foldM_app.
  destruct dat as [| | | | |kv]; try discriminate.
  rewrite (rrr_keys_flat kv categories st st1 Hp). cbn [bind]. now apply IH.
Qed.

(** The visits of the ancestry entries only feed [race_dict], the others
    only append to [dict_out]: the two can be told apart. *)
Lemma visits_split l o rd o' rd' :
  foldM (visit repr) (o, rd) l = OK (o', rd') ->
  exists plain,
    mapM (convert_item repr) (filter (fun cd => negb (is_ancestry (fst cd))) l)
      = OK plain /\
    o' = o ++ plain /\
    foldM merge_item rd (map snd (filter (fun cd => is_ancestry (fst cd)) l))
      = OK rd'.
Proof.
  revert o rd. induction l as [|[c d] l IH]; intros o rd.
  - simpl. intros [= <- <-]. exists []. now rewrite app_nil_r.
  - cbn [foldM]. unfold visit at 1. cbn [fst snd].
    destruct d as [| | | |items|kv];
      try (destruct c; discriminate).
    destruct c; cbn [rrr_item is_ancestry negb filter map mapM convert_item
                      fst snd merge_item foldM].
    2: { destruct (rrr_ancestry rd kv) as [rd1|e]; cbn [bind]; [|discriminate].
         intros H. destruct (IH o rd1 H) as (plain & Hm & Ho & Hf).
         exists plain. auto. }
    all: match goal with
         | |- (_ <- (_ <- ?x ;; _) ;; _) = _ -> _ =>
           destruct x as [r|e]; cbn [bind]; [|discriminate]; intros H;
           destruct (IH (o ++ [VDict r]) rd H) as (plain & Hm & Ho & Hf);
           exists (VDict r :: plain); rewrite Hm; cbn [bind];
           split; [reflexivity|]; split; [|exact Hf];
           rewrite Ho, <- app_assoc; reflexivity
         end.
Qed.

End Visits.

Lemma race_get_mem (k : value) (rd : race_dict) :
  list_mem k (map fst rd) =
  match race_get k rd with Some _ => true | None => false end.
Proof.
  induction rd as [|[k' r] rd IH]; simpl; auto.
  destruct (py_eq k' k); simpl; auto.
Qed.

Lemma race_set_keys (k : value) (r : dict) (rd : race_dict) :
  map fst (race_set k r rd) = add_unique k (map fst rd).
Proof.
  unfold add_unique. rewrite race_get_mem.
  induction rd as [|[k' r'] rd IH]; simpl; auto.
  destruct (py_eq k' k) eqn:E; simpl; auto.
  rewrite IH. destruct (race_get k rd); reflexivity.
Qed.

Lemma rrr_ancestry_keys rd kv rd' :
  rrr_ancestry rd kv = OK rd' ->
  map fst rd' = add_unique (get kv L.race empty) (map fst rd).
Proof.
  unfold rrr_ancestry. destruct (hashable (get kv L.race empty)); [|discriminate].
  destruct (race_get (get kv L.race empty) rd) as [r|]; intros H;
    bind_inv H; injection H as <-; apply race_set_keys.
Qed.

(** The keys of [race_dict] are the ancestry names in the order of their
    first appearance. *)
Lemma merge_keys items rd rd' :
  foldM merge_item rd items = OK rd' ->
  map fst rd' = add_all (map fst rd) (map race_of items).
Proof.
  revert rd. induction items as [|d items IH]; intros rd; simpl.
  - now intros [= <-].
  - destruct (merge_item rd d) as [rd1|e] eqn:Hd; simpl; [|discriminate].
    intros H. rewrite (IH rd1 H). unfold add_all. simpl. f_equal.
    destruct d as [| | | | |kv]; try discriminate.
    now apply rrr_ancestry_keys.
Qed.

Lemma race_set_found (P : value * dict -> Prop) k r r' rd :
  Forall P rd -> race_get k rd = Some r ->
  (forall k', P (k', r) -> P (k', r')) ->
  Forall P (race_set k r' rd).
Proof.
  intros Hall Hget Hstep. induction rd as [|[k0 r0] rd IH]; [discriminate|].
  simpl in *. inversion Hall as [|? ? H0 Hrest]; subst.
  destruct (py_eq k0 k).
  - injection Hget as ->. constructor; auto.
  - constructor; auto.
Qed.

Lemma race_set_new (P : value * dict -> Prop) k r rd :
  Forall P rd -> race_get k rd = None -> P (k, r) ->
  Forall P (race_set k r rd).
Proof.
  intros Hall Hget Hnew. induction rd as [|[k0 r0] rd IH]; simpl in *.
  - constructor; auto.
  - inversion Hall; subst. destruct (py_eq k0 k); [discriminate|].
    constructor; auto.
Qed.

(** Every merged record is named after its key. *)
Lemma merge_names items rd rd' :
  Forall (fun kr => dict_get L.name (snd kr) = Some (fst kr)) rd ->
  foldM merge_item rd items = OK rd' ->
  Forall (fun kr => dict_get L.name (snd kr) = Some (fst kr)) rd'.
Proof.
  revert rd. induction items as [|d items IH]; intros rd Hall; simpl.
  - now intros [= <-].
  - destruct (merge_item rd d) as [rd1|e] eqn:Hd; simpl; [|discriminate].
    apply IH. destruct d as [| | | | |kv]; try discriminate.
    simpl in Hd. unfold rrr_ancestry in Hd.
    destruct (hashable (get kv L.race empty)); [|discriminate].
    destruct (race_get (get kv L.race empty) rd) as [r|] eqn:Hget;
      bind_inv Hd; injection Hd as <-.
    + apply (race_set_found _ _ r); auto.
      intros k' Hk'. simpl in *. now rewrite get_set_other by discriminate.
    + apply race_set_new; auto.
Qed.

(** C9.  The list [work_rrr] returns is made of the flat records of all
    items that are no ancestry entries, in the order the loops meet them,
    followed by one merged record per ancestry name, named after it, in
    the order in which the names first appear. *)
Theorem work_rrr_order repr data out :
  work_rrr repr data = OK out ->
  exists plain rd,
    mapM (convert_item repr) (plain_items data) = OK plain /\
    foldM merge_item [] (ancestry_items data) = OK rd /\
    map fst rd = nub (map race_of (ancestry_items data)) /\
    Forall (fun kr => dict_get L.name (snd kr) = Some (fst kr)) rd /\
    out = plain ++ map (fun kr => VDict (snd kr)) rd.
Proof.
  unfold work_rrr. intros H. bind_inv H. injection H as <-.
  destruct a as [o rd].
  apply packages_flat, visits_split in Hb.
  destruct Hb as (plain & Hm & Ho & Hf). simpl in Ho. subst o.
  exists plain, rd. split; [exact Hm|]. split; [exact Hf|].
  split; [|split; [|reflexivity]].
  - rewrite (merge_keys _ _ _ Hf). apply add_all_nil.
  - apply (merge_names _ [] rd (Forall_nil _) Hf).
Qed.

Lemma work_rrr_order_witness :
  exists plain rd,
    mapM (convert_item (fun _ => [])) (plain_items demo_packages) = OK plain /\
    foldM merge_item [] (ancestry_items demo_packages) = OK rd /\
    map fst rd = nub (map race_of (ancestry_items demo_packages)) /\
    Forall (fun kr => dict_get L.name (snd kr) = Some (fst kr)) rd /\
    [ VDict [ (L.name, text "高城"); (L.orig_name, text "");
              (L.type_, text "社群"); (L.summary, text "");
              (L.personality, text ""); (L.desc, text "特权：门路") ];
      VDict [ (L.name, text "战士"); (L.orig_name, text "");
              (L.type_, text "主职"); (L.domain, text "利刃+骸骨");
              (L.init_evasion, text ""); (L.init_hp, text "");
              (L.hope_feature, text ""); (L.class_feature, text "");
              (L.background_qs, VList []); (L.relation_qs, VList []);
              (L.summary, text "") ];
      VDict [ (L.name, text "精灵"); (L.orig_name, text "");
              (L.type_, text "种族"); (L.summary, text "");
              (L.desc, VStr (lit "敏捷：快" ++ L.nl ++ lit "长寿：久")) ];
      VDict [ (L.name, text "矮人"); (L.orig_name, text "");
              (L.type_, text "种族"); (L.summary, text "");
              (L.desc, text "夜视：暗") ] ]
    = plain ++ map (fun kr => VDict (snd kr)) rd.
Proof.
  apply (work_rrr_order (fun _ => []) demo_packages). vm_compute. reflexivity.
Defined.

End Order.

(* ===================================================================== *)
(** ** Runs over several records: each record is converted on its own    *)
(* ===================================================================== *)

Module Locality.
Import Zzz2rrr Spec DictFacts StrFacts IntFacts Dispatch Loop Order.

(** *** A turn does not look at the lists it appends to *)

Ltac extend_lists :=
  intros; match goal with o : lists |- _ => destruct o end;
  unfold extend, add_all;
  cbn [extend empty_lists add_all fold_left add_unique list_mem existsb app
       professions ancestries communities domains variants
       profession ancestry community subclass domain variant
       note_profession note_ancestry note_community note_domain note_variant
       add_profession add_ancestry add_community add_subclass add_domain
       add_variant];
  rewrite <- ?app_assoc, ?app_nil_r; reflexivity.

Lemma extend_profession p x o :
  extend o (add_profession p (note_profession x empty_lists)) =
  add_profession p (note_profession x o).
Proof. extend_lists. Qed.

Lemma extend_ancestry p1 p2 x o :
  extend o (add_ancestry p2 (add_ancestry p1 (note_ancestry x empty_lists))) =
  add_ancestry p2 (add_ancestry p1 (note_ancestry x o)).
Proof. extend_lists. Qed.

Lemma extend_community p x o :
  extend o (add_community p (note_community x empty_lists)) =
  add_community p (note_community x o).
Proof. extend_lists. Qed.

Lemma extend_subclass p o :
  extend o (add_subclass p empty_lists) = add_subclass p o.
Proof. extend_lists. Qed.

Lemma extend_domain p x o :
  extend o (add_domain p (note_domain x empty_lists)) =
  add_domain p (note_domain x o).
Proof. extend_lists. Qed.

Lemma extend_variant p x o :
  extend o (add_variant p (note_variant x empty_lists)) =
  add_variant p (note_variant x o).
Proof. extend_lists. Qed.

Lemma extend_cat_list o o1 c :
  cat_list (extend o o1) c = cat_list o c ++ cat_list o1 c.
Proof. destruct c; reflexivity. Qed.

Ltac inner_bind :=
  match goal with
  | |- context [bind ?c _] =>
    lazymatch c with
    | context [bind _ _] => fail
    | _ => destruct c; cbn [bind]
    end
  end.

Ltac frame_steps :=
  repeat first
    [ progress cbn [bind]
    | match goal with
      | |- context [match ?x with (_, _) => _ end] => is_var x; destruct x
      | |- context [if ?b then _ else _] => destruct b
      | |- context [match ?x with Some _ => _ | None => _ end] =>
        destruct x as [[? ?]|]
      end
    | inner_bind ];
  cbn [bind fst snd]; try reflexivity.

(** The turn of a record from any lists is its turn from empty lists,
    appended. *)
Lemma zzz_record_frame E n o d :
  zzz_record E (n, o) d =
  match zzz_record E (n, empty_lists) d with
  | OK (st, d') => OK ((fst st, extend o (snd st)), d')
  | Raise e => Raise e
  end.
Proof.
  destruct d as [| | | | |kv]; try reflexivity.
  unfold zzz_record.
  repeat match goal with
  | |- context [if is_str ?t ?v then _ else _] => destruct (is_str t v)
  end.
  - unfold zzz_profession. frame_steps. now rewrite extend_profession.
  - unfold zzz_ancestry. frame_steps. now rewrite extend_ancestry.
  - unfold zzz_community. frame_steps; now rewrite extend_community.
  - unfold zzz_subclass. frame_steps; now rewrite extend_subclass.
  - unfold zzz_domain. frame_steps; now rewrite extend_domain.
  - unfold zzz_variant. frame_steps; now rewrite extend_variant.
Qed.

(** *** The lists after a run *)

(** A run that returns has completed the turn of every record, and each
    category list holds what the turns appended to it, in order. *)
Lemma zzz_loop_lists E data n o n' o' data' :
  zzz_loop E (n, o) data = (OK (n', o'), data') ->
  n' = n + drawn data /\
  Forall (fun nd => exists st d',
            zzz_record E (fst nd, empty_lists) (snd nd) = OK (st, d'))
         (numbered n data) /\
  forall c,
    cat_list o' c = cat_list o c ++ flat_map (emitted E c) (numbered n data).
Proof.
  revert n o data'. induction data as [|d ds IH]; intros n o data' H.
  - simpl in H. injection H as <- <- <-. unfold drawn. simpl.
    split; [lia|]. split; [constructor|]. intros c. now rewrite app_nil_r.
  - cbn [zzz_loop] in H. rewrite zzz_record_frame in H.
    destruct (zzz_record E (n, empty_lists) d) as [[[n1 o1] d1]|e] eqn:Hd;
      [|discriminate].
    cbn [fst snd] in H.
    destruct (zzz_loop E (n1, extend o o1) ds) as [r rest] eqn:Hl.
    injection H as -> <-.
    destruct (IH _ _ _ Hl) as (Hn & Hall & Hlists).
    destruct (turn_category E _ _ _ _ (zzz_record_turn _ _ _ _ _ Hd))
      as [Hn1 _].
    cbn [fst] in Hn1. subst n1.
    split; [|split].
    + rewrite Hn. unfold drawn. simpl. lia.
    + cbn [numbered]. constructor; [|exact Hall].
      cbn [fst snd]. eauto.
    + intros c. rewrite Hlists, extend_cat_list. cbn [numbered flat_map].
      unfold emitted at 2. cbn [fst snd]. rewrite Hd. cbn [snd].
      now rewrite <- app_assoc.
Qed.

(** What a completed turn from empty lists leaves in the list of a
    category: one record in the list of its own (two for an ancestry),
    none in the others. *)
Lemma turn_emits E n d st d' c :
  zzz_record E (n, empty_lists) d = OK (st, d') ->
  if same_category (category_of d) c
  then match c with
       | Ancestry => exists p1 p2, cat_list (snd st) c = [p1; p2]
       | _ => exists p, cat_list (snd st) c = [p]
       end
  else cat_list (snd st) c = [].
Proof.
  intros H. apply zzz_record_turn in H.
  inversion H; subst;
    try match goal with
        | Hk : known_type _ = false |- _ =>
          rewrite (category_variant _ Hk)
        end;
    try (rewrite (category_profession _ ltac:(eassumption)));
    try (rewrite (category_ancestry _ ltac:(eassumption)));
    try (rewrite (category_community _ ltac:(eassumption)));
    try (rewrite (category_subclass _ ltac:(eassumption)));
    try (rewrite (category_domain _ ltac:(eassumption)));
    destruct c; cbn; eauto.
Qed.

Lemma emitted_one E c nd st d' :
  c <> Ancestry ->
  zzz_record E (fst nd, empty_lists) (snd nd) = OK (st, d') ->
  if same_category (category_of (snd nd)) c
  then exists p, emitted E c nd = [p]
  else emitted E c nd = [].
Proof.
  intros Hc H. pose proof (turn_emits E _ _ _ _ c H) as Ht.
  unfold emitted. rewrite H.
  destruct (same_category (category_of (snd nd)) c); [|exact Ht].
  destruct c; try exact Ht. congruence.
Qed.

Lemma emitted_pick E c (l : list (nat * value)) :
  c <> Ancestry ->
  Forall (fun nd => exists st d',
            zzz_record E (fst nd, empty_lists) (snd nd) = OK (st, d')) l ->
  Forall2 (fun nd p => emitted E c nd = [p])
    (filter (fun nd => same_category (category_of (snd nd)) c) l)
    (flat_map (emitted E c) l).
Proof.
  intros Hc Hall. induction Hall as [|nd l (st & d' & Hd) _ IH]; simpl.
  - constructor.
  - pose proof (emitted_one E c nd st d' Hc Hd) as He.
    destruct (same_category (category_of (snd nd)) c).
    + destruct He as [p Hp]. rewrite Hp. simpl. constructor; auto.
    + rewrite He. exact IH.
Qed.

(** The packaged records of a category are, in order, what the turns of
    the records of that category emitted. *)
Lemma packaged_local E data path pkg c :
  c <> Ancestry ->
  fst (work_zzz E data path) = OK pkg ->
  Forall2 (fun nd p => emitted E c nd = [p])
    (pick_numbered c data) (category_list pkg (key_of c)) /\
  exists o,
    pkg = package (match path with [] => L.default_package
                   | _ :: _ => stem E path end) (clock E) o.
Proof.
  intros Hc. unfold work_zzz.
  destruct (zzz_loop E (0, empty_lists) data) as [r data'] eqn:Hl. simpl.
  destruct r as [[n o]|e]; [|discriminate]. intros [= <-].
  destruct (zzz_loop_lists E data 0 empty_lists n o data' Hl)
    as (_ & Hall & Hlists).
  split; [|eauto].
  assert (Hcat : category_list (package (match path with
                   | [] => L.default_package | _ :: _ => stem E path end)
                   (clock E) o) (key_of c) = cat_list o c)
    by (destruct c; reflexivity).
  rewrite Hcat, Hlists.
  assert (He : cat_list empty_lists c = []) by (destruct c; reflexivity).
  rewrite He. simpl. now apply emitted_pick.
Qed.

(** *** [work_rrr] on a package of [work_zzz] *)

Section Back.
Variable repr : value -> str.

Lemma rrr_key_list kv st c l :
  dict_get (key_of c) kv = Some (VList l) ->
  rrr_key repr kv st c = foldM (rrr_item repr c) st l.
Proof.
  intros H. unfold rrr_key. rewrite H. destruct l; reflexivity.
Qed.

Lemma bind_ok {A} (r : result A) : bind r (fun x => OK x) = r.
Proof. destruct r; reflexivity. Qed.

(** The six lists are visited in the order of the keys. *)
Lemma rrr_package_lists name version o st :
  rrr_package repr st (package name version o) =
  (st1 <- foldM (rrr_item repr Profession) st (profession o) ;;
   st2 <- foldM (rrr_item repr Ancestry) st1 (ancestry o) ;;
   st3 <- foldM (rrr_item repr Community) st2 (community o) ;;
   st4 <- foldM (rrr_item repr Subclass) st3 (subclass o) ;;
   st5 <- foldM (rrr_item repr Domain) st4 (domain o) ;;
   foldM (rrr_item repr Variant) st5 (variant o)).
Proof.
  unfold rrr_package, package. cbn [foldM categories].
  rewrite (rrr_key_list _ st Profession (profession o)) by reflexivity.
  destruct (foldM (rrr_item repr Profession) st (profession o)) as [st1|];
    [|reflexivity]. cbn [bind].
  rewrite (rrr_key_list _ st1 Ancestry (ancestry o)) by reflexivity.
  destruct (foldM (rrr_item repr Ancestry) st1 (ancestry o)) as [st2|];
    [|reflexivity]. cbn [bind].
  rewrite (rrr_key_list _ st2 Community (community o)) by reflexivity.
  destruct (foldM (rrr_item repr Community) st2 (community o)) as [st3|];
    [|reflexivity]. cbn [bind].
  rewrite (rrr_key_list _ st3 Subclass (subclass o)) by reflexivity.
  destruct (foldM (rrr_item repr Subclass) st3 (subclass o)) as [st4|];
    [|reflexivity]. cbn [bind].
  rewrite (rrr_key_list _ st4 Domain (domain o)) by reflexivity.
  destruct (foldM (rrr_item repr Domain) st4 (domain o)) as [st5|];
    [|reflexivity]. cbn [bind].
  rewrite (rrr_key_list _ st5 Variant (variant o)) by reflexivity.
  apply bind_ok.
Qed.

(** The items of a category other than the ancestries are converted one
    by one and appended. *)
Lemma fold_items_inv c l out rd st' :
  c <> Ancestry ->
  foldM (rrr_item repr c) (out, rd) l = OK st' ->
  exists rs,
    Forall2 (fun p r => convert_item repr (c, p) = OK r) l rs /\
    st' = (out ++ rs, rd).
Proof.
  intros Hc. revert out. induction l as [|d l IH]; intros out; cbn [foldM].
  - intros [= <-]. exists []. split; [constructor|]. now rewrite app_nil_r.
  - destruct (rrr_item repr c (out, rd) d) as [st1|] eqn:Hd; cbn [bind];
      [|discriminate].
    intros H.
    assert (Hr : exists r, convert_item repr (c, d) = OK r /\
                           st1 = (out ++ [r], rd)).
    { unfold rrr_item in Hd. unfold convert_item. cbn [fst snd].
      destruct d as [| | | |items|kv]; try discriminate;
        try (destruct c; discriminate).
      destruct c; try congruence;
        match type of Hd with
        | bind ?x _ = _ => destruct x as [r|]; cbn [bind] in *;
                           [|discriminate]
        end; injection Hd as <-; eauto. }
    destruct Hr as (r & Hr & ->).
    destruct (IH _ H) as (rs & Hrs & ->).
    exists (r :: rs). split; [constructor; auto|].
    now rewrite <- app_assoc.
Qed.

Lemma fold_items_ok c l rs out rd :
  c <> Ancestry ->
  Forall2 (fun p r => convert_item repr (c, p) = OK r) l rs ->
  foldM (rrr_item repr c) (out, rd) l = OK (out ++ rs, rd).
Proof.
  intros Hc H. revert out. induction H as [|d r l rs Hd _ IH]; intros out.
  - simpl. now rewrite app_nil_r.
  - cbn [foldM].
    assert (Hi : rrr_item repr c (out, rd) d = OK (out ++ [r], rd)).
    { unfold convert_item in Hd. cbn [fst snd] in Hd. unfold rrr_item.
      destruct d as [| | | | |kv]; try discriminate.
      destruct c; try congruence;
        match type of Hd with
        | bind ?x _ = _ => destruct x as [r'|]; cbn [bind] in *;
                           [|discriminate]
        end; injection Hd as <-; reflexivity. }
    rewrite Hi. cbn [bind]. rewrite IH. now rewrite <- app_assoc.
Qed.

(** The ancestry entries only feed [race_dict]. *)
Lemma fold_ancestry l out rd :
  foldM (rrr_item repr Ancestry) (out, rd) l =
  (rd' <- foldM merge_item rd l ;; OK (out, rd')).
Proof.
  revert rd. induction l as [|d l IH]; intros rd; cbn [foldM bind].
  - reflexivity.
  - unfold rrr_item at 1, merge_item at 1.
    destruct d as [| | | | |kv]; try reflexivity.
    destruct (rrr_ancestry rd kv) as [rd1|]; cbn [bind]; [|reflexivity].
    apply IH.
Qed.

(** What [work_rrr] returns for a package of [work_zzz]: the flat records
    of the professions, the communities, the subclasses, the domain cards
    and the variants, then the merged ancestries. *)
Lemma work_rrr_package name version o out :
  work_rrr repr [package name version o] = OK out <->
  exists ps cs ss ds vs rd,
    Forall2 (fun p r => convert_item repr (Profession, p) = OK r)
      (profession o) ps /\
    foldM merge_item [] (ancestry o) = OK rd /\
    Forall2 (fun p r => convert_item repr (Community, p) = OK r)
      (community o) cs /\
    Forall2 (fun p r => convert_item repr (Subclass, p) = OK r)
      (subclass o) ss /\
    Forall2 (fun p r => convert_item repr (Domain, p) = OK r)
      (domain o) ds /\
    Forall2 (fun p r => convert_item repr (Variant, p) = OK r)
      (variant o) vs /\
    out = ps ++ cs ++ ss ++ ds ++ vs ++ map (fun kr => VDict (snd kr)) rd.
Proof.
  unfold work_rrr. cbn [foldM]. rewrite rrr_package_lists. split.
  - intros H.
    destruct (foldM (rrr_item repr Profession) ([], []) (profession o))
      as [st1|] eqn:H1; cbn [bind] in H; [|discriminate].
    apply fold_items_inv in H1 as (ps & Hps & ->); [|discriminate].
    rewrite fold_ancestry in H.
    destruct (foldM merge_item [] (ancestry o)) as [rd|] eqn:H2;
      cbn [bind] in H; [|discriminate].
    destruct (foldM (rrr_item repr Community) ([] ++ ps, rd) (community o))
      as [st3|] eqn:H3; cbn [bind] in H; [|discriminate].
    apply fold_items_inv in H3 as (cs & Hcs & ->); [|discriminate].
    destruct (foldM (rrr_item repr Subclass) (([] ++ ps) ++ cs, rd) (subclass o))
      as [st4|] eqn:H4; cbn [bind] in H; [|discriminate].
    apply fold_items_inv in H4 as (ss & Hss & ->); [|discriminate].
    destruct (foldM (rrr_item repr Domain) ((([] ++ ps) ++ cs) ++ ss, rd)
                (domain o))
      as [st5|] eqn:H5; cbn [bind] in H; [|discriminate].
    apply fold_items_inv in H5 as (ds & Hds & ->); [|discriminate].
    destruct (foldM (rrr_item repr Variant)
                (((([] ++ ps) ++ cs) ++ ss) ++ ds, rd) (variant o))
      as [st6|] eqn:H6; cbn [bind] in H; [|discriminate].
    apply fold_items_inv in H6 as (vs & Hvs & ->); [|discriminate].
    injection H as <-. cbn [fst snd app].
    exists ps, cs, ss, ds, vs, rd. repeat (split; [assumption|]).
    now rewrite <- !app_assoc.
  - intros (ps & cs & ss & ds & vs & rd & Hps & Hrd & Hcs & Hss & Hds & Hvs & ->).
    rewrite (fold_items_ok Profession _ ps) by (auto; discriminate).
    cbn [bind]. rewrite fold_ancestry, Hrd. cbn [bind].
    rewrite (fold_items_ok Community _ cs) by (auto; discriminate).
    cbn [bind].
    rewrite (fold_items_ok Subclass _ ss) by (auto; discriminate).
    cbn [bind].
    rewrite (fold_items_ok Domain _ ds) by (auto; discriminate).
    cbn [bind].
    rewrite (fold_items_ok Variant _ vs) by (auto; discriminate).
    cbn [bind fst snd app]. now rewrite <- !app_assoc.
Qed.

End Back.

(** *** The categories of the records that come back *)

Lemma is_str_eq (t : str) (v : value) : is_str t v = true -> v = VStr t.
Proof.
  unfold is_str. destruct v; simpl; try discriminate.
  intros H. apply eqb_eq in H. now subst.
Qed.

(** The 类型 behind the category of a record. *)
Lemma category_type (d : value) :
  match category_of d with
  | Profession => type_of d = VStr L.t_profession
  | Ancestry => type_of d = VStr L.t_ancestry
  | Community => type_of d = VStr L.t_community
  | Subclass => type_of d = VStr L.t_subclass
  | Domain => type_of d = VStr L.t_domain
  | Variant => known_type (type_of d) = false
  end.
Proof.
  unfold category_of, known_type.
  destruct (is_str L.t_profession (type_of d)) eqn:H1; [now apply is_str_eq|].
  destruct (is_str L.t_ancestry (type_of d)) eqn:H2; [now apply is_str_eq|].
  destruct (is_str L.t_community (type_of d)) eqn:H3; [now apply is_str_eq|].
  destruct (is_str L.t_subclass (type_of d)) eqn:H4; [now apply is_str_eq|].
  destruct (is_str L.t_domain (type_of d)) eqn:H5; [now apply is_str_eq|].
  reflexivity.
Qed.

Lemma same_category_eq (a b : category) :
  same_category a b = true <-> a = b.
Proof. destruct a, b; simpl; split; congruence. Qed.

Lemma pick_all (c c' : category) (l : list value) :
  Forall (fun r => category_of r = c') l ->
  pick c l = if same_category c' c then l else [].
Proof.
  unfold pick. induction 1 as [|r l Hr _ IH]; simpl.
  - now destruct (same_category c' c).
  - rewrite Hr, IH. now destruct (same_category c' c).
Qed.

Lemma pick_app (c : category) (l1 l2 : list value) :
  pick c (l1 ++ l2) = pick c l1 ++ pick c l2.
Proof. apply filter_app. Qed.

Section Categories.
Variable repr : value -> str.

(** A flat record made of a packaged profession, community, subclass or
    domain card has the 类型 of its category. *)
Lemma converted_category c p r :
  c <> Ancestry -> c <> Variant ->
  convert_item repr (c, p) = OK r -> category_of r = c.
Proof.
  intros Ha Hv. unfold convert_item. cbn [fst snd].
  destruct p as [| | | | |kv]; try discriminate.
  destruct c; try congruence; intros H; bind_inv H; injection H as <-;
    match goal with Hb : _ = OK _ |- _ => rename Hb into Hk end.
  - unfold rrr_profession in Hk. bind_inv Hk. injection Hk as <-. reflexivity.
  - unfold rrr_community in Hk. bind_inv Hk. injection Hk as <-. reflexivity.
  - unfold rrr_subclass in Hk. bind_inv Hk. injection Hk as <-. reflexivity.
  - unfold rrr_domain in Hk. bind_inv Hk. injection Hk as <-. reflexivity.
Qed.

Lemma converted_categories c l rs :
  c <> Ancestry -> c <> Variant ->
  Forall2 (fun p r => convert_item repr (c, p) = OK r) l rs ->
  Forall (fun r => category_of r = c) rs.
Proof.
  intros Ha Hv. induction 1; constructor; eauto using converted_category.
Qed.

End Categories.

(** Every merged record is of 类型 种族. *)
Lemma merged_types items rd rd' :
  Forall (fun kr => dict_get L.type_ (snd kr) = Some (VStr L.t_ancestry)) rd ->
  foldM merge_item rd items = OK rd' ->
  Forall (fun kr => dict_get L.type_ (snd kr) = Some (VStr L.t_ancestry)) rd'.
Proof.
  revert rd. induction items as [|d items IH]; intros rd Hall; simpl.
  - now intros [= <-].
  - destruct (merge_item rd d) as [rd1|e] eqn:Hd; simpl; [|discriminate].
    apply IH. destruct d as [| | | | |kv]; try discriminate.
    simpl in Hd. unfold rrr_ancestry in Hd.
    destruct (hashable (get kv L.race empty)); [|discriminate].
    destruct (race_get (get kv L.race empty) rd) as [r|] eqn:Hget;
      bind_inv Hd; injection Hd as <-.
    + apply (race_set_found _ _ r); auto.
      intros k' Hk'. simpl in *. now rewrite get_set_other by discriminate.
    + apply race_set_new; auto.
Qed.

Lemma merged_categories items rd :
  foldM merge_item [] items = OK rd ->
  Forall (fun r => category_of r = Ancestry)
    (map (fun kr => VDict (snd kr)) rd).
Proof.
  intros H. apply (merged_types items [] rd (Forall_nil _)) in H.
  apply Forall_map. revert H. apply Forall_impl. intros [k r] Hr.
  unfold category_of, type_of, get. cbn [snd] in *. now rewrite Hr.
Qed.

(** *** Runs that return *)

Section Returns.
Variable repr : value -> str.

Lemma returnable_extend o o1 :
  returnable repr o -> returnable repr o1 -> returnable repr (extend o o1).
Proof.
  intros [H1 H2] [K1 K2]. split.
  - intros c Hc. rewrite extend_cat_list. apply Forall_app. auto.
  - change (ancestry (extend o o1)) with (ancestry o ++ ancestry o1).
    now rewrite forallb_app, H2, K2.
Qed.

Lemma returnable_empty : returnable repr empty_lists.
Proof.
  split; [|reflexivity]. intros c _. destruct c; constructor.
Qed.

(** [for k, v in items: if v: attr = attr + f"{v}/"] on the keyed parts:
    the non-empty parts, each followed by a slash. *)
Lemma join_items_from (parts : list str) (i : nat) (acc : str) :
  foldM (fun attr kv =>
           if truthy (snd kv)
           then s <- py_str repr (snd kv) ;; OK (attr ++ s ++ L.slash)
           else OK attr)
        acc (items_from i parts)
  = OK (acc ++ flat_map (fun p => p ++ L.slash) (filter nonempty parts)).
Proof.
  revert i acc. induction parts as [|p ps IH]; intros i acc; simpl.
  - now rewrite app_nil_r.
  - destruct p as [|c p]; cbn [truthy snd py_str bind nonempty].
    + apply IH.
    + rewrite IH. cbn [flat_map]. now rewrite <- !app_assoc.
Qed.

Lemma forall_exists_forall2 {A B} (R : A -> B -> Prop) (l : list A) :
  Forall (fun a => exists b, R a b) l -> exists l', Forall2 R l l'.
Proof.
  induction 1 as [|a l [b Hb] _ [l' IH]].
  - exists []. constructor.
  - exists (b :: l'). now constructor.
Qed.

(** Merging never raises on entries whose 种族 can be a key and whose
    名称 and 效果 are strings. *)
Lemma merge_total (l : list value) (rd : race_dict) :
  forallb mergeable l = true ->
  Forall (fun kr => is_text (get (snd kr) L.desc empty) = true) rd ->
  exists rd', foldM merge_item rd l = OK rd'.
Proof.
  revert rd. induction l as [|p l IH]; intros rd Hl Hrd; simpl.
  - eauto.
  - simpl in Hl. apply andb_true_iff in Hl as [Hp Hl].
    destruct p as [| | | | |kv]; try discriminate. simpl in Hp.
    apply andb_true_iff in Hp as [Hp He].
    apply andb_true_iff in Hp as [Hh Hn].
    destruct (get kv L.name empty) as [| | |nm| |] eqn:Hnm; try discriminate.
    destruct (get kv L.effect empty) as [| | |ef| |] eqn:Hef; try discriminate.
    cbn [merge_item]. unfold rrr_ancestry. rewrite Hh, Hnm, Hef.
    destruct (race_get (get kv L.race empty) rd) as [r|] eqn:Hget.
    + assert (Hr : is_text (get r L.desc empty) = true).
      { clear - Hget Hrd. induction rd as [|[k0 r0] rd IH]; [discriminate|].
        simpl in Hget. inversion Hrd; subst.
        destruct (py_eq k0 (get kv L.race empty)); auto.
        now injection Hget as <-. }
      destruct (get r L.desc empty) as [| | |ds| |]; try discriminate.
      cbn [concat as_str_operand bind]. apply IH; auto.
      apply (race_set_found _ _ r); auto.
      intros k' _. cbn [snd]. unfold get. now rewrite get_set_same.
    + cbn [concat as_str_operand bind]. apply IH; auto.
      apply race_set_new; auto.
Qed.

(** [work_rrr] returns on a package whose lists are returnable. *)
Lemma returnable_returns name version o :
  returnable repr o -> exists out, work_rrr repr [package name version o] = OK out.
Proof.
  intros [Hc Ha].
  destruct (forall_exists_forall2 _ _ (Hc Profession ltac:(discriminate)))
    as [ps Hps].
  destruct (forall_exists_forall2 _ _ (Hc Community ltac:(discriminate)))
    as [cs Hcs].
  destruct (forall_exists_forall2 _ _ (Hc Subclass ltac:(discriminate)))
    as [ss Hss].
  destruct (forall_exists_forall2 _ _ (Hc Domain ltac:(discriminate)))
    as [ds Hds].
  destruct (forall_exists_forall2 _ _ (Hc Variant ltac:(discriminate)))
    as [vs Hvs].
  destruct (merge_total (ancestry o) [] Ha (Forall_nil _)) as [rd Hrd].
  eexists. apply work_rrr_package.
  exists ps, cs, ss, ds, vs, rd. cbn [cat_list] in *. auto 10.
Qed.

(** A run over records that are convertible one by one returns. *)
Lemma returnable_loop E data n o :
  (forall m d, In d data ->
     exists st, zzz_record E (m, empty_lists) d = OK (st, after_zzz d) /\
                returnable repr (snd st)) ->
  returnable repr o ->
  exists n' o',
    zzz_loop E (n, o) data = (OK (n', o'), map after_zzz data) /\
    returnable repr o'.
Proof.
  revert n o. induction data as [|d ds IH]; intros n o Hall Ho.
  - exists n, o. auto.
  - destruct (Hall n d (or_introl eq_refl)) as ([n1 o1] & Hd & Ho1).
    cbn [zzz_loop]. rewrite zzz_record_frame, Hd. cbn [fst snd] in *.
    destruct (IH n1 (extend o o1)) as (n' & o' & Hl & Ho').
    + intros m x Hx. apply Hall. now right.
    + now apply returnable_extend.
    + rewrite Hl. exists n', o'. auto.
Qed.

End Returns.

End Locality.

(* ===================================================================== *)
(** ** Malformed records raise                                           *)
(* ===================================================================== *)

Module Errors.
Import Zzz2rrr Spec DictFacts StrFacts Dispatch Loop.

(** *** Splitting and replacing on one character *)

Lemma split_cons (c x : N) (s : str) :
  split [c] (x :: s) =
  if (c =? x)%N then [] :: split [c] s
  else match split [c] s with
       | w :: ws => (x :: w) :: ws
       | [] => [[x]]
       end.
Proof. unfold split. simpl. destruct (c =? x)%N; reflexivity. Qed.

Lemma split_nonempty (c : N) (s : str) : exists w ws, split [c] s = w :: ws.
Proof.
  induction s as [|x s (w & ws & IH)].
  - exists [], []. reflexivity.
  - rewrite split_cons, IH. destruct (c =? x)%N; eauto.
Qed.

Lemma contains_char_cons (c x : N) (s : str) :
  contains [c] (x :: s) = (c =? x)%N || contains [c] s.
Proof. rewrite contains_unfold. simpl. now rewrite andb_true_r. Qed.

Lemma contains_char_nil (c : N) : contains [c] [] = false.
Proof. reflexivity. Qed.

Lemma split_without (c : N) (s : str) :
  contains [c] s = false -> split [c] s = [s].
Proof.
  induction s as [|x s IH]; [reflexivity|].
  rewrite contains_char_cons, split_cons. intros H.
  apply orb_false_iff in H as [-> H]. now rewrite (IH H).
Qed.

Lemma split_with (c : N) (s : str) :
  contains [c] s = true -> exists a b rest, split [c] s = a :: b :: rest.
Proof.
  induction s as [|x s IH]; [discriminate|].
  rewrite contains_char_cons, split_cons.
  destruct (c =? x)%N; simpl.
  - intros _. destruct (split_nonempty c s) as (w & ws & ->). eauto.
  - intros H. destruct (IH H) as (a & b & rest & ->). eauto.
Qed.

Lemma replace_char_cons (a b x : N) (s : str) :
  replace [a] [b] (x :: s) =
  (if (a =? x)%N then b else x) :: replace [a] [b] s.
Proof. unfold replace. simpl. destruct (a =? x)%N; reflexivity. Qed.

Lemma replace_pair_double (c : N) (s : str) :
  replace [c; c] [c] (c :: c :: s) = c :: replace [c; c] [c] s.
Proof. unfold replace. simpl. now rewrite N.eqb_refl. Qed.

Lemma replace_pair_other (c x : N) (s : str) :
  starts_with [c; c] (x :: s) = false ->
  replace [c; c] [c] (x :: s) = x :: replace [c; c] [c] s.
Proof. unfold replace. cbn [replace_from]. now intros ->. Qed.

(** Replacing a doubled separator by a single one only removes empty
    lines. *)
Lemma split_replace_pair (c : N) (P : str -> bool) (n : nat) (t : str) :
  P [] = false -> length t <= n ->
  hd [] (split [c] (replace [c; c] [c] t)) = hd [] (split [c] t) /\
  filter P (tl (split [c] (replace [c; c] [c] t))) = filter P (tl (split [c] t)).
Proof.
  intros HP. revert t. induction n as [|n IH]; intros t Hlen.
  - destruct t; [|simpl in Hlen; lia]. split; reflexivity.
  - destruct t as [|x t]; [split; reflexivity|].
    simpl in Hlen.
    assert (Hwhole : forall u, length u <= n ->
              filter P (split [c] (replace [c; c] [c] u)) = filter P (split [c] u)).
    { intros u Hu. destruct (IH u Hu) as [Hh Ht].
      destruct (split_nonempty c (replace [c; c] [c] u)) as (w1 & ws1 & E1).
      destruct (split_nonempty c u) as (w2 & ws2 & E2).
      rewrite E1, E2 in *. simpl in *. subst w2. now rewrite Ht. }
    destruct (starts_with [c; c] (x :: t)) eqn:Hs.
    + simpl in Hs. destruct t as [|y t]; [now rewrite andb_false_r in Hs|].
      apply andb_true_iff in Hs as [Hx Hy]. apply andb_true_iff in Hy as [Hy _].
      apply N.eqb_eq in Hx, Hy. subst x y.
      rewrite replace_pair_double, !split_cons, N.eqb_refl. simpl.
      rewrite HP. split; [reflexivity|]. apply Hwhole. simpl in Hlen. lia.
    + rewrite (replace_pair_other c x t Hs), !split_cons.
      destruct (c =? x)%N; simpl.
      * split; [reflexivity|]. apply Hwhole. lia.
      * destruct (IH t ltac:(lia)) as [Hh Ht].
        destruct (split_nonempty c (replace [c; c] [c] t)) as (w1 & ws1 & E1).
        destruct (split_nonempty c t) as (w2 & ws2 & E2).
        rewrite E1, E2 in *. simpl in *. subst w2. auto.
Qed.

Lemma filter_split_replace_pair (c : N) (P : str -> bool) (t : str) :
  P [] = false ->
  filter P (split [c] (replace [c; c] [c] t)) = filter P (split [c] t).
Proof.
  intros HP.
  destruct (split_replace_pair c P (length t) t HP (le_n _)) as [Hh Ht].
  destruct (split_nonempty c (replace [c; c] [c] t)) as (w1 & ws1 & E1).
  destruct (split_nonempty c t) as (w2 & ws2 & E2).
  rewrite E1, E2 in *. simpl in *. subst w2. now rewrite Ht.
Qed.

(** Rewriting one character into another commutes with splitting on a
    third. *)
Lemma split_replace_char (c a b : N) (s : str) :
  (c =? a)%N = false -> (c =? b)%N = false ->
  split [c] (replace [a] [b] s) = map (replace [a] [b]) (split [c] s).
Proof.
  intros Ha Hb. induction s as [|x s IH]; [reflexivity|].
  rewrite replace_char_cons, !split_cons, IH.
  destruct (a =? x)%N eqn:Hax.
  - apply N.eqb_eq in Hax. subst x. rewrite Hb, Ha.
    destruct (split_nonempty c s) as (w & ws & ->). simpl.
    now rewrite replace_char_cons, N.eqb_refl.
  - destruct (c =? x)%N; [reflexivity|].
    destruct (split_nonempty c s) as (w & ws & ->). simpl.
    now rewrite replace_char_cons, Hax.
Qed.

Lemma contains_replaced_colon (l : str) :
  contains L.wide_colon (replace L.colon L.wide_colon l) = has_colon l.
Proof.
  unfold has_colon.
  change L.colon with [58%N]. change L.wide_colon with [65306%N].
  induction l as [|x l IH]; [reflexivity|].
  rewrite replace_char_cons, !contains_char_cons, IH.
  destruct (58 =? x)%N eqn:E.
  - apply N.eqb_eq in E. subst x. reflexivity.
  - destruct (65306 =? x)%N, (contains [58%N] l), (contains [65306%N] l);
      reflexivity.
Qed.

(** The feature lines of the code hold as many colon lines as the
    description does. *)
Lemma features_colon_lines (s : str) :
  length (filter (contains L.wide_colon) (features_of s)) = colon_lines s.
Proof.
  unfold features_of, colon_lines.
  change L.nl with [10%N]. change L.nlnl with [10%N; 10%N].
  rewrite filter_split_replace_pair by reflexivity.
  change L.colon with [58%N]. change L.wide_colon with [65306%N].
  rewrite split_replace_char by reflexivity.
  generalize (split [10%N] s). intros lines.
  induction lines as [|l lines IH]; [reflexivity|]. cbn [map filter].
  rewrite (contains_replaced_colon l
            : contains [65306%N] (replace [58%N] [65306%N] l) = has_colon l).
  destruct (has_colon l); cbn [length]; now rewrite IH.
Qed.

(** *** Texts that [int()] rejects *)

Lemma skip_spaces_spec (s : str) :
  exists sp, s = sp ++ skip_spaces s /\ forallb c_isspace sp = true.
Proof.
  induction s as [|c s (sp & E & H)]; simpl.
  - exists []. auto.
  - destruct (c_isspace c) eqn:Hc.
    + exists (c :: sp). simpl. rewrite Hc, H. split; [now f_equal|reflexivity].
    + exists []. auto.
Qed.

Lemma scan_digits_spec (s : str) (b : bool) (ds : list N) (r : str) :
  scan_digits b s = Some (ds, r) ->
  exists used, s = used ++ r /\
    forallb (fun c => c_isdigit c || (c =? 95)%N) used = true.
Proof.
  revert b ds r. induction s as [|c s IH]; intros b ds r; simpl.
  - intros [= <- <-]. exists []. auto.
  - destruct (c_isdigit c) eqn:Hd.
    + destruct (scan_digits true s) as [[ds' r']|] eqn:Hs; [|discriminate].
      intros [= <- <-]. destruct (IH _ _ _ Hs) as (used & -> & Hu).
      exists (c :: used). simpl. now rewrite Hd, Hu.
    + destruct (c =? 95)%N eqn:Hu.
      * destruct b; [|discriminate]. destruct s as [|c' s']; [discriminate|].
        destruct (c_isdigit c'); [|discriminate]. intros Hs.
        destruct (IH _ _ _ Hs) as (used & -> & Hused).
        exists (c :: used). simpl in *. now rewrite Hd, Hu, Hused.
      * intros [= <- <-]. exists []. auto.
Qed.

Lemma forallb_weaken {A} (p q : A -> bool) (l : list A) :
  (forall x, p x = true -> q x = true) ->
  forallb p l = true -> forallb q l = true.
Proof.
  intros Hpq H. apply forallb_forall. intros x Hx.
  apply Hpq. now apply (proj1 (forallb_forall p l) H).
Qed.

Lemma forallb_mapped {A B} (f : B -> bool) (g : A -> B) (l : list A) :
  forallb f (map g l) = forallb (fun x => f (g x)) l.
Proof. induction l as [|x l IH]; simpl; [reflexivity|now rewrite IH]. Qed.

(** Every character of a text that [int()] accepts is, once folded to
    ASCII, a digit, a blank, a sign or an underscore. *)
Lemma int_chars (s : str) (z : Z) :
  int_of_str s = Some z ->
  forallb (fun c => numeric_char (ascii_fold c)) s = true.
Proof.
  unfold int_of_str. intros H.
  assert (Hgoal : forallb numeric_char (map ascii_fold s) = true).
  { destruct (skip_spaces_spec (map ascii_fold s)) as (sp & Et & Hsp).
    rewrite Et. rewrite forallb_app. apply andb_true_iff. split.
    { revert Hsp. apply forallb_weaken. intros x Hx. unfold numeric_char.
      rewrite Hx. now rewrite orb_true_r. }
    assert (Hbody : forall body,
      match scan_digits false body with
      | Some (d :: ds, r) =>
        if within_limit (length (d :: ds)) then
          match skip_spaces r with
          | [] => Some (Z.of_uint (uint_of_digits (d :: ds)))
          | _ :: _ => None
          end
        else None
      | _ => None
      end <> None -> forallb numeric_char body = true).
    { intros body Hb.
      destruct (scan_digits false body) as [[[|d ds] r]|] eqn:Hs; try congruence.
      destruct (scan_digits_spec _ _ _ _ Hs) as (used & -> & Hu).
      destruct (within_limit (length (d :: ds))); [|congruence].
      destruct (skip_spaces_spec r) as (sp' & Er & Hsp').
      destruct (skip_spaces r); [|congruence].
      rewrite app_nil_r in Er. subst sp'.
      rewrite forallb_app. apply andb_true_iff. split.
      - revert Hu. apply forallb_weaken. intros x Hx. unfold numeric_char.
        apply orb_true_iff in Hx as [->| ->]; auto using orb_true_r.
      - revert Hsp'. apply forallb_weaken. intros x Hx. unfold numeric_char.
        rewrite Hx. now rewrite orb_true_r. }
    destruct (skip_spaces (map ascii_fold s)) as [|c r] eqn:Hsk.
    { reflexivity. }
    destruct (c =? 45)%N eqn:H45; [|destruct (c =? 43)%N eqn:H43].
    - cbn [forallb]. apply andb_true_iff. split.
      + unfold numeric_char. rewrite H45. now rewrite !orb_true_r.
      + apply Hbody. intros Hn.
        destruct (scan_digits false r) as [[[|d ds] r']|]; try discriminate.
        destruct (within_limit (length (d :: ds))); [|discriminate].
        destruct (skip_spaces r'); discriminate.
    - cbn [forallb]. apply andb_true_iff. split.
      + unfold numeric_char. rewrite H43. now rewrite !orb_true_r.
      + apply Hbody. intros Hn.
        destruct (scan_digits false r) as [[[|d ds] r']|]; try discriminate.
        destruct (within_limit (length (d :: ds))); [|discriminate].
        destruct (skip_spaces r'); discriminate.
    - apply Hbody. intros Hn.
      destruct (scan_digits false (c :: r)) as [[[|d ds] r']|]; try discriminate.
      destruct (within_limit (length (d :: ds))); [|discriminate].
      destruct (skip_spaces r'); discriminate. }
  now rewrite forallb_mapped in Hgoal.
Qed.

(** A text holding a character that is none of these is rejected. *)
Lemma non_numeric_rejected (s : str) :
  forallb (fun c => numeric_char (ascii_fold c)) s = false ->
  int_of_str s = None.
Proof.
  intros H. destruct (int_of_str s) as [z|] eqn:Hz; [|reflexivity].
  rewrite (int_chars s z Hz) in H. discriminate.
Qed.

(** *** The ancestry branch *)

Lemma ancestry_raises E st kv s :
  get kv L.desc empty = VStr s -> colon_lines s < 2 ->
  zzz_ancestry E st kv (get kv L.name empty) = Raise IndexError.
Proof.
  intros Hd Hlt. rewrite <- features_colon_lines in Hlt.
  destruct st as [n out]. unfold zzz_ancestry. rewrite Hd. cbn [as_str bind].
  fold (features_of s).
  change (split L.wide_colon) with (split [65306%N]).
  change (contains L.wide_colon) with (contains [65306%N]) in Hlt.
  destruct (features_of s) as [|l0 rest] eqn:Hf.
  { unfold features_of in Hf. change L.nl with [10%N] in Hf.
    destruct (split_nonempty 10 (replace L.nlnl [10%N]
                (replace L.colon L.wide_colon s))) as (w & ws & Hsp).
    congruence. }
  cbn [index nth_error bind].
  destruct (contains [65306%N] l0) eqn:H0.
  2: { rewrite (split_without _ _ H0). reflexivity. }
  destruct (split_with _ _ H0) as (a0 & b0 & r0 & ->).
  cbn [index nth_error bind].
  destruct rest as [|l1 rest]; [reflexivity|].
  cbn [index nth_error bind].
  destruct (contains [65306%N] l1) eqn:H1.
  2: { rewrite (split_without _ _ H1). reflexivity. }
  simpl in Hlt. rewrite H0, H1 in Hlt. simpl in Hlt. lia.
Qed.

(** *** An exception ends the call *)

Lemma loop_raises E d e :
  (forall st, zzz_record E st d = Raise e) ->
  forall data st, In d data -> exists e', fst (zzz_loop E st data) = Raise e'.
Proof.
  intros Hd. induction data as [|x data IH]; intros st Hin; [contradiction|].
  simpl. destruct (zzz_record E st x) as [[st1 x1]|e1] eqn:Hx.
  - destruct Hin as [->|Hin]; [rewrite Hd in Hx; discriminate|].
    destruct (IH st1 Hin) as (e' & He').
    destruct (zzz_loop E st1 data) as [r rest]. simpl in *. eauto.
  - simpl. eauto.
Qed.

Lemma loop_raises_first E d e pre post st st' pre' :
  (forall st, zzz_record E st d = Raise e) ->
  zzz_loop E st pre = (OK st', pre') ->
  zzz_loop E st (pre ++ d :: post) = (Raise e, pre' ++ d :: post).
Proof.
  intros Hd. revert st pre'. induction pre as [|x pre IH]; intros st pre' H.
  - simpl in H. injection H as <- <-. simpl. now rewrite Hd.
  - simpl in *. destruct (zzz_record E st x) as [[st1 x1]|e1]; [|discriminate].
    destruct (zzz_loop E st1 pre) as [r rest] eqn:Hl.
    injection H as -> <-. now rewrite (IH st1 rest Hl).
Qed.

(** C4.  A record that [work_zzz] cannot read makes the call raise.  An
    ancestry record whose 描述 has fewer than two lines holding a colon
    raises IndexError; a profession whose 初始生命点 or 初始闪避值, or a
    domain card whose 等级, is a text that [int()] rejects raises
    ValueError.  The exception is not caught: a call on a list holding
    such a record raises, with that very exception when the records before
    it are read without one.  A text is rejected by [int()] as soon as one
    of its characters is no digit, blank, sign or underscore. *)
Theorem malformed_record_raises E kv :
  (forall s,
     get kv L.type_ empty = VStr L.t_ancestry ->
     get kv L.desc empty = VStr s -> colon_lines s < 2 ->
     forall st, zzz_record E st (VDict kv) = Raise IndexError) /\
  (forall dom h,
     get kv L.type_ empty = VStr L.t_profession ->
     get kv L.domain empty = VStr dom ->
     get kv L.init_hp empty = VStr h -> int_of_str h = None ->
     forall st, zzz_record E st (VDict kv) = Raise ValueError) /\
  (forall dom hp h,
     get kv L.type_ empty = VStr L.t_profession ->
     get kv L.domain empty = VStr dom ->
     py_int (get kv L.init_hp empty) = OK hp ->
     get kv L.init_evasion empty = VStr h -> int_of_str h = None ->
     forall st, zzz_record E st (VDict kv) = Raise ValueError) /\
  (forall h,
     get kv L.type_ empty = VStr L.t_domain ->
     get kv L.level empty = VStr h -> int_of_str h = None ->
     forall st, zzz_record E st (VDict kv) = Raise ValueError) /\
  (forall e,
     (forall st, zzz_record E st (VDict kv) = Raise e) ->
     (forall data path, In (VDict kv) data ->
        exists e', fst (work_zzz E data path) = Raise e') /\
     (forall pre post path st' pre',
        zzz_loop E (0, empty_lists) pre = (OK st', pre') ->
        work_zzz E (pre ++ VDict kv :: post) path
          = (Raise e, pre' ++ VDict kv :: post))) /\
  (forall h,
     forallb (fun c => numeric_char (ascii_fold c)) h = false ->
     int_of_str h = None).
Proof.
  split; [|split; [|split; [|split; [|split; [|exact non_numeric_rejected]]]]].
  - intros s Ht Hd Hlt st. rewrite (zzz_record_ancestry E st kv Ht).
    now rewrite (ancestry_raises E st kv s Hd Hlt).
  - intros dom h Ht Hdom Hh Hnone [n out].
    rewrite (zzz_record_profession E _ kv Ht).
    unfold zzz_profession. rewrite Hdom, Hh. cbn [as_str bind py_int].
    now rewrite Hnone.
  - intros dom hp h Ht Hdom Hhp Hh Hnone [n out].
    rewrite (zzz_record_profession E _ kv Ht).
    unfold zzz_profession. rewrite Hdom, Hhp, Hh. cbn [as_str bind py_int].
    now rewrite Hnone.
  - intros h Ht Hh Hnone [n out].
    rewrite (zzz_record_domain E _ kv Ht).
    unfold zzz_domain. rewrite Hh. cbn [bind py_int]. now rewrite Hnone.
  - intros e He. split.
    + intros data path Hin. unfold work_zzz.
      destruct (loop_raises E (VDict kv) e He data (0, empty_lists) Hin)
        as (e' & He').
      destruct (zzz_loop E (0, empty_lists) data) as [r data'].
      simpl in *. subst r. exists e'. reflexivity.
    + intros pre post path st' pre' Hpre. unfold work_zzz.
      now rewrite (loop_raises_first E (VDict kv) e pre post _ st' pre' He Hpre).
Qed.

Lemma malformed_record_raises_witness :
  work_zzz demo_env [VDict bad_ancestry; VDict demo_weapon] []
    = (Raise IndexError, [VDict bad_ancestry; VDict demo_weapon]) /\
  work_zzz demo_env [VDict bad_profession] []
    = (Raise ValueError, [VDict bad_profession]) /\
  work_zzz demo_env [VDict bad_evasion] []
    = (Raise ValueError, [VDict bad_evasion]) /\
  work_zzz demo_env [VDict bad_domain_card] []
    = (Raise ValueError, [VDict bad_domain_card]) /\
  int_of_str (lit "六") = None.
Proof.
  split; [|split; [|split; [|split]]].
  - destruct (malformed_record_raises demo_env bad_ancestry)
      as (Ha & _ & _ & _ & Hup & _).
    assert (Hlt : colon_lines (lit "敏捷：快") < 2) by (vm_compute; lia).
    exact (proj2 (Hup IndexError (Ha (lit "敏捷：快") eq_refl eq_refl Hlt))
             [] [VDict demo_weapon] [] (0, Zzz2rrr.empty_lists) [] eq_refl).
  - destruct (malformed_record_raises demo_env bad_profession)
      as (_ & Hp & _ & _ & Hup & Hnum).
    exact (proj2 (Hup ValueError
                    (Hp (lit "利刃+骸骨") (lit "六") eq_refl eq_refl eq_refl
                        (Hnum (lit "六") eq_refl)))
             [] [] [] (0, Zzz2rrr.empty_lists) [] eq_refl).
  - destruct (malformed_record_raises demo_env bad_evasion)
      as (_ & _ & Hp & _ & Hup & Hnum).
    exact (proj2 (Hup ValueError
                    (Hp (lit "利刃+骸骨") 6%Z (lit "十一")
                        eq_refl eq_refl eq_refl eq_refl
                        (Hnum (lit "十一") eq_refl)))
             [] [] [] (0, Zzz2rrr.empty_lists) [] eq_refl).
  - destruct (malformed_record_raises demo_env bad_domain_card)
      as (_ & _ & _ & Hd & Hup & Hnum).
    exact (proj2 (Hup ValueError
                    (Hd (lit "一级") eq_refl eq_refl (Hnum (lit "一级") eq_refl)))
             [] [] [] (0, Zzz2rrr.empty_lists) [] eq_refl).
  - destruct (malformed_record_raises demo_env bad_domain_card)
      as (_ & _ & _ & _ & _ & Hnum).
    exact (Hnum (lit "六") eq_refl).
Defined.

End Errors.
Module RoundTrip.
Import Zzz2rrr Spec IntFacts DictFacts StrFacts Dispatch Loop Order Locality Errors.

(** *** Strings that the converters keep *)

Lemma flat_map_join (parts : list str) :
  parts <> [] ->
  flat_map (fun p => p ++ L.slash) parts = join L.slash parts ++ L.slash.
Proof.
  induction parts as [|p ps IH]; [congruence|]. intros _.
  destruct ps as [|q ps].
  - simpl. now rewrite app_nil_r.
  - change (flat_map (fun p => p ++ L.slash) (p :: q :: ps))
      with ((p ++ L.slash) ++ flat_map (fun p => p ++ L.slash) (q :: ps)).
    change (join L.slash (p :: q :: ps))
      with (p ++ L.slash ++ join L.slash (q :: ps)).
    rewrite IH by discriminate. now rewrite <- !app_assoc.
Qed.

Lemma brief_parts_inv (parts : list str) :
  brief_parts parts = true ->
  parts <> [] /\
  forallb (free_of 47) parts = true /\
  forallb (fun p => match p with [] => false | _ :: _ => true end) parts = true /\
  join L.slash parts <> [].
Proof.
  unfold brief_parts. destruct parts as [|p ps]; [discriminate|]. intros H.
  split; [discriminate|].
  assert (Hall : forall q, In q (p :: ps) -> q <> [] /\ free_of 47 q = true).
  { intros q Hq. rewrite forallb_forall in H. specialize (H q Hq).
    destruct q; [discriminate|]. split; [discriminate|assumption]. }
  split; [|split].
  - apply forallb_forall. intros q Hq. now apply Hall.
  - apply forallb_forall. intros q Hq. destruct (Hall q Hq) as [Hne _].
    destruct q; congruence.
  - destruct (Hall p (or_introl eq_refl)) as [Hne _].
    destruct p; [congruence|]. destruct ps; discriminate.
Qed.

Lemma plain_domain_inv (s : str) :
  plain_domain s = true ->
  free_of 38 s = true /\ free_of 21644 s = true /\ free_of 65292 s = true /\
  free_of 44 s = true /\ free_of 32 s = true /\ free_of 43 s = true.
Proof.
  unfold plain_domain. simpl. intros H.
  repeat (apply andb_true_iff in H as [? H]). auto 10.
Qed.


Lemma tier_there_and_back (lv : str) :
  tier_label lv = true ->
  replace L.tier3_zzz L.tier3_rrr
    (replace L.tier2_zzz L.tier2_rrr (replace L.tier1_zzz L.tier1_rrr lv))
  = packaged_tier lv /\
  replace L.tier3_rrr L.tier3_zzz
    (replace L.tier2_rrr L.tier2_zzz
      (replace L.tier1_rrr L.tier1_zzz (packaged_tier lv)))
  = lv.
Proof.
  unfold tier_label. intros H.
  repeat (apply orb_true_iff in H as [H|H]);
    apply eqb_eq in H; subst lv; vm_compute; auto.
Qed.

(** *** One record, packaged and returned *)

Lemma emitted_turn E c n d :
  emitted E c (n, d) =
  match zzz_record E (n, empty_lists) d with
  | OK (st, _) => cat_list (snd st) c
  | Raise _ => []
  end.
Proof. reflexivity. Qed.

Lemma type_of_category kv :
  match category_of (VDict kv) with
  | Profession => get kv L.type_ empty = VStr L.t_profession
  | Ancestry => get kv L.type_ empty = VStr L.t_ancestry
  | Community => get kv L.type_ empty = VStr L.t_community
  | Subclass => get kv L.type_ empty = VStr L.t_subclass
  | Domain => get kv L.type_ empty = VStr L.t_domain
  | Variant => known_type (get kv L.type_ empty) = false
  end.
Proof. exact (category_type (VDict kv)). Qed.

Ltac type_from Hc Ht :=
  match type of Hc with
  | category_of (VDict ?kv) = _ =>
    pose proof (type_of_category kv) as Ht; rewrite Hc in Ht
  end.

(** *** Lists of records and their relations *)

Lemma forall2_compose {A B C} (R1 : A -> B -> Prop) (R2 : B -> C -> Prop)
    (l1 : list A) (l2 : list B) (l3 : list C) :
  Forall2 R1 l1 l2 -> Forall2 R2 l2 l3 ->
  Forall2 (fun a c => exists b, R1 a b /\ R2 b c) l1 l3.
Proof.
  intros H. revert l3. induction H; intros l3 H3; inversion H3; subst;
    constructor; eauto.
Qed.

Lemma forall2_filter_left {A B} (R : A -> B -> Prop) (P : A -> Prop)
    (p : A -> bool) (l : list A) (l' : list B) :
  Forall P l -> Forall2 R (filter p l) l' ->
  Forall2 (fun a b => R a b /\ P a /\ p a = true) (filter p l) l'.
Proof.
  intros HP. revert l'. induction HP as [|a l Ha _ IH]; intros l'; simpl.
  - intros H. inversion H. constructor.
  - destruct (p a) eqn:Hp; auto.
    intros H. inversion H; subst. constructor; auto.
Qed.

Lemma unique_numbered data n :
  forallb unique_keys data = true ->
  Forall (fun nd => unique_keys (snd nd) = true) (numbered n data).
Proof.
  revert n. induction data as [|d ds IH]; intros n H; simpl; constructor.
  - simpl in H. apply andb_true_iff in H. tauto.
  - apply IH. simpl in H. apply andb_true_iff in H. tauto.
Qed.

(** A relation that holds for the dict records of a category holds for
    the records of that category in a run. *)
Lemma trips_of_records c (Q R : nat * value -> value -> Prop) data l :
  (forall n kv b, category_of (VDict kv) = c ->
     Q (n, VDict kv) b -> R (n, VDict kv) b) ->
  (forall nd b, Q nd b -> exists kv, snd nd = VDict kv) ->
  Forall2 Q (pick_numbered c data) l ->
  Forall2 R (pick_numbered c data) l.
Proof.
  intros HR Hrec. unfold pick_numbered. generalize (numbered 0 data).
  intros nds. revert l. induction nds as [|[n d] nds IH]; intros l; simpl.
  - intros H. inversion H. constructor.
  - destruct (same_category (category_of d) c) eqn:Hs; auto.
    intros H. inversion H as [|? b ? l' Hq Hrest]; subst.
    constructor; auto.
    destruct (Hrec _ _ Hq) as [kv Hkv]. cbn [snd] in Hkv. subst d.
    apply same_category_eq in Hs. auto.
Qed.

Lemma emitted_record E c nd p :
  emitted E c nd = [p] -> exists kv, snd nd = VDict kv.
Proof.
  destruct nd as [n d]. rewrite emitted_turn.
  destruct d as [| | | | |kv]; try (cbn [zzz_record]; discriminate).
  intros _. exists kv. reflexivity.
Qed.

Lemma plain_records c (R : value -> value -> Prop) data l :
  Forall2 (fun nd r => R (snd nd) r) (pick_numbered c data) l ->
  Forall2 R (pick c data) l.
Proof.
  unfold pick_numbered, pick. generalize 0.
  revert l. induction data as [|d ds IH]; intros l n; simpl.
  - intros H. inversion H. constructor.
  - destruct (same_category (category_of d) c); eauto.
    intros H. inversion H; subst. constructor; eauto.
Qed.

Lemma get_filter_drop {A} k (v : A) (p : str * A -> bool) d :
  nodup_keys d = true -> dict_get k d = Some v -> p (k, v) = false ->
  dict_get k (filter p d) = None.
Proof.
  induction d as [|[k' v'] d IH]; simpl; [discriminate|].
  destruct (dict_get k' d) eqn:Hk; [discriminate|]. intros Hnd.
  destruct (Str.eqb k' k) eqn:E.
  - apply eqb_eq in E. subst. intros [= ->] Hp. rewrite Hp.
    now apply get_filter_none.
  - intros Hget Hp. destruct (p (k', v')); simpl; auto. rewrite E. auto.
Qed.

Lemma filter_all {A} (p : A -> bool) (l : list A) :
  forallb p l = true -> filter p l = l.
Proof.
  induction l as [|x l IH]; simpl; auto. intros H.
  apply andb_true_iff in H as [Hx Hl]. now rewrite Hx, IH.
Qed.

Lemma filter_nonempty (l : list str) :
  forallb nonempty (filter nonempty l) = true.
Proof.
  induction l as [|x l IH]; simpl; auto.
  destruct (nonempty x) eqn:Hx; simpl; auto. now rewrite Hx.
Qed.

Lemma join_parts_nonempty (kept : list str) :
  kept <> [] -> forallb nonempty kept = true -> join L.slash kept <> [].
Proof.
  destruct kept as [|[|c p] ps]; simpl; try congruence; try discriminate.
  intros _ _. destruct ps; discriminate.
Qed.

(** [attr[:-1] if attr else ""] on the parts, each followed by a slash:
    the parts joined by slashes. *)
Lemma join_kept (kept : list str) :
  match flat_map (fun p => p ++ L.slash) kept with
  | [] => []
  | _ :: _ => removelast (flat_map (fun p => p ++ L.slash) kept)
  end = join L.slash kept.
Proof.
  destruct kept as [|p ps]; [reflexivity|].
  rewrite (flat_map_join (p :: ps)) by discriminate.
  destruct (join L.slash (p :: ps) ++ L.slash) eqn:Hj.
  { destruct (join L.slash (p :: ps)); discriminate. }
  rewrite <- Hj.
  exact (removelast_last (join L.slash (p :: ps)) 47%N).
Qed.

Lemma variant_parts_text kv s :
  get kv L.brief empty = VStr s -> s <> [] ->
  variant_parts kv = split L.slash s.
Proof.
  intros H Hs. unfold variant_parts. rewrite H.
  destruct s; [congruence|reflexivity].
Qed.

Lemma category_unknown (d : value) :
  known_type (type_of d) = false -> category_of d = Variant.
Proof.
  unfold category_of, known_type. intros H.
  repeat (apply orb_false_iff in H as [H ?]).
  repeat match goal with Hf : is_str _ _ = false |- _ => rewrite Hf; clear Hf end.
  reflexivity.
Qed.

Lemma split_length2 (c : N) (s : str) :
  (2 <=? length (split [c] s)) = true ->
  exists a b rest, split [c] s = a :: b :: rest.
Proof.
  destruct (split [c] s) as [|a [|b rest]]; try discriminate. eauto.
Qed.

Lemma is_text_inv (v : value) : is_text v = true -> exists s, v = VStr s.
Proof.
  destruct v; try discriminate. eauto.
Qed.

Lemma int_ok_inv (v : value) : int_ok v = true -> exists z, py_int v = OK z.
Proof.
  unfold int_ok. destruct (py_int v); try discriminate. eauto.
Qed.


Section Trips.
Variable repr : value -> str.











(** *** The variant *)

Lemma variant_packaged E n kv p :
  category_of (VDict kv) = Variant ->
  emitted E Variant (n, VDict kv) = [p] ->
  p = VDict (dict_update
               (dict_of [(L.id, gen_uuid E n); (L.name, get kv L.name empty)])
               (rewrite_variant kv (variant_parts kv))).
Proof.
  intros Hc Hp. type_from Hc Ht.
  rewrite emitted_turn, (zzz_record_variant E _ kv Ht) in Hp.
  destruct (zzz_variant E (n, empty_lists) kv (get kv L.type_ empty)
              (get kv L.name empty)) as [[st kv']|] eqn:Hv; [|discriminate].
  cbn [bind snd] in Hp. apply (variant_turn E _ _ _ _ _ Ht) in Hv.
  inversion Hv; subst;
    try match goal with
        | Hk : get _ L.type_ empty = VStr _ |- _ =>
          rewrite Hk in Ht; discriminate Ht
        end.
  unfold empty_lists, note_variant, add_variant in Hp.
  cbn [cat_list variant app snd] in Hp. now injection Hp as <-.
Qed.

(** The flat record made of the packaged variant of a record. *)
Lemma variant_trip E n kv r :
  category_of (VDict kv) = Variant ->
  nodup_keys kv = true ->
  trip repr E Variant (n, VDict kv) r ->
  nodup_keys
    (dict_set L.brief
       (VStr (join L.slash (filter nonempty (variant_parts kv))))
       (dict_pop L.image_url
          (dict_pop L.id
             (dict_update
                (dict_of [(L.id, gen_uuid E n); (L.name, get kv L.name empty)])
                (rewrite_variant kv (variant_parts kv)))))) = true /\
  r = VDict
    (filter (fun e => truthy (snd e))
       (dict_set L.brief
          (VStr (join L.slash (filter nonempty (variant_parts kv))))
          (dict_pop L.image_url
             (dict_pop L.id
                (dict_update
                   (dict_of [(L.id, gen_uuid E n);
                             (L.name, get kv L.name empty)])
                   (rewrite_variant kv (variant_parts kv))))))).
Proof.
  intros Hc Hnd (p & Hp & Hr).
  rewrite (variant_packaged E n kv p Hc Hp) in Hr. clear Hp.
  set (parts := variant_parts kv) in *.
  set (kv' := rewrite_variant kv parts) in *.
  set (v := dict_update (dict_of [(L.id, gen_uuid E n);
                                   (L.name, get kv L.name empty)]) kv') in *.
  assert (Hkv' : nodup_keys kv' = true).
  { unfold kv', rewrite_variant. now apply nodup_set, nodup_set. }
  assert (Hv : nodup_keys v = true) by (apply nodup_update; reflexivity).
  assert (Hvb : dict_get L.brief v = Some (VDict (items_from 0 parts))).
  { unfold v. rewrite get_update by assumption.
    unfold kv', rewrite_variant. now rewrite get_set_same. }
  set (d1 := dict_pop L.image_url (dict_pop L.id v)) in *.
  assert (Hd1 : nodup_keys d1 = true).
  { unfold d1, dict_pop. now apply nodup_filter, nodup_filter. }
  assert (Hd1b : get d1 L.brief empty = VDict (items_from 0 parts)).
  { unfold get, d1. rewrite !get_pop_other by discriminate. now rewrite Hvb. }
  set (d2 := dict_set L.brief
               (VStr (join L.slash (filter nonempty parts))) d1).
  assert (Hd2 : nodup_keys d2 = true) by (unfold d2; now apply nodup_set).
  split; [exact Hd2|].
  unfold convert_item in Hr. cbn [fst snd] in Hr. unfold rrr_variant in Hr.
  fold d1 in Hr. rewrite Hd1b in Hr. unfold join_items in Hr.
  rewrite (join_items_from repr parts 0 []) in Hr. cbn [bind app] in Hr.
  rewrite join_kept in Hr. fold d2 in Hr.
  rewrite dict_of_nodup in Hr by (now apply nodup_filter).
  now injection Hr as <-.
Qed.

(** What a key other than 简略信息, 效果, 名称, [id] and [imageUrl] holds
    in the flat record: what it held in the input record, if that is
    true. *)
Lemma variant_field E n kv r k :
  category_of (VDict kv) = Variant ->
  nodup_keys kv = true ->
  trip repr E Variant (n, VDict kv) r ->
  k <> L.brief -> k <> L.id -> k <> L.image_url -> k <> L.effect ->
  k <> L.name ->
  field k r =
  match dict_get k kv with
  | Some x => if truthy x then Some x else None
  | None => None
  end.
Proof.
  intros Hc Hnd Ht Hb Hi Hu He Hn.
  destruct (variant_trip E n kv r Hc Hnd Ht) as [Hd2 ->]. cbn [field].
  match type of Hd2 with nodup_keys ?d = true => set (d2 := d) in * end.
  assert (Hget : dict_get k d2 = dict_get k kv).
  { unfold d2. rewrite get_set_other by congruence.
    rewrite !get_pop_other by congruence.
    rewrite get_update
      by (unfold rewrite_variant; now apply nodup_set, nodup_set).
    unfold rewrite_variant. rewrite !get_set_other by congruence.
    destruct (dict_get k kv); [reflexivity|].
    unfold dict_of, dict_update. cbn [fold_left fst snd].
    rewrite !get_set_other by congruence. reflexivity. }
  destruct (dict_get k kv) as [x|] eqn:Hk.
  - destruct (truthy x) eqn:Hx.
    + now apply get_filter_some.
    + now apply (get_filter_drop k x).
  - now apply get_filter_none.
Qed.

(** The flat record of a variant is of no known 类型. *)
Lemma variant_category E n kv r :
  category_of (VDict kv) = Variant ->
  nodup_keys kv = true ->
  trip repr E Variant (n, VDict kv) r ->
  category_of r = Variant.
Proof.
  intros Hc Hnd Ht. type_from Hc Hty.
  apply category_unknown.
  destruct (variant_trip E n kv r Hc Hnd Ht) as [_ Hr].
  pose proof (variant_field E n kv r L.type_ Hc Hnd Ht
                ltac:(discriminate) ltac:(discriminate) ltac:(discriminate)
                ltac:(discriminate) ltac:(discriminate)) as Hf.
  subst r. cbn [field] in Hf. unfold type_of. unfold get at 1. rewrite Hf.
  unfold get in Hty.
  destruct (dict_get L.type_ kv) as [x|]; [|reflexivity].
  destruct (truthy x); [exact Hty|reflexivity].
Qed.

Lemma variant_brief_packaged E n kv p :
  category_of (VDict kv) = Variant ->
  nodup_keys kv = true ->
  emitted E Variant (n, VDict kv) = [p] ->
  brief_packaged (VDict kv) p.
Proof.
  intros Hc Hnd Hp kv' s [= <-] Hs Hne.
  rewrite (variant_packaged E n kv p Hc Hp). cbn [field].
  rewrite get_update
    by (unfold rewrite_variant; now apply nodup_set, nodup_set).
  unfold rewrite_variant. rewrite get_set_same.
  now rewrite (variant_parts_text kv s Hs Hne).
Qed.

Lemma variant_brief_returned E n kv r :
  category_of (VDict kv) = Variant ->
  nodup_keys kv = true ->
  trip repr E Variant (n, VDict kv) r ->
  brief_returned (VDict kv) r.
Proof.
  intros Hc Hnd Ht kv' s [= <-] Hs Hne.
  destruct (variant_trip E n kv r Hc Hnd Ht) as [Hd2 ->]. cbn [field].
  rewrite (variant_parts_text kv s Hs Hne) in *.
  match type of Hd2 with nodup_keys ?d = true => set (d2 := d) in * end.
  assert (Hget : dict_get L.brief d2 =
                 Some (VStr (join L.slash (filter nonempty (split L.slash s)))))
    by (unfold d2; apply get_set_same).
  pose proof (filter_nonempty (split L.slash s)) as Hall.
  destruct (filter nonempty (split L.slash s)) as [|x kept] eqn:Hk.
  - now apply (get_filter_drop L.brief (VStr (join L.slash []))).
  - apply get_filter_some; auto. cbn [snd truthy].
    pose proof (join_parts_nonempty (x :: kept) ltac:(discriminate) Hall) as Hj.
    destruct (join L.slash (x :: kept)); congruence.
Qed.

Lemma variant_brief_restored E n kv r :
  category_of (VDict kv) = Variant ->
  nodup_keys kv = true ->
  trip repr E Variant (n, VDict kv) r ->
  brief_restored (VDict kv) r.
Proof.
  intros Hc Hnd Ht kv' parts [= <-] Hparts Hs.
  destruct (brief_parts_inv parts Hparts) as (Hne & Hfree & Hfull & Hjoin).
  rewrite (variant_brief_returned E n kv r Hc Hnd Ht kv (join L.slash parts)
             eq_refl Hs Hjoin).
  rewrite (split_join 47 parts Hne Hfree
            : split L.slash (join L.slash parts) = parts).
  rewrite (filter_all nonempty parts Hfull).
  destruct parts; [congruence|reflexivity].
Qed.

(** *** A run over several records *)

Lemma trip_record E c nd r :
  trip repr E c nd r -> exists kv, snd nd = VDict kv.
Proof.
  intros (p & Hp & _). now apply (emitted_record E c nd p).
Qed.

(** The flat records of a category that come back are, in order, the
    trips of the input records of that category. *)
Lemma returned_local E data path pkg out :
  forallb unique_keys data = true ->
  fst (work_zzz E data path) = OK pkg ->
  work_rrr repr [pkg] = OK out ->
  forall c, c <> Ancestry ->
    Forall2 (trip repr E c) (pick_numbered c data) (pick c out).
Proof.
  intros Hu Hpkg Hout.
  destruct (packaged_local E data path pkg Profession ltac:(discriminate) Hpkg)
    as [Hp [o ->]].
  destruct (packaged_local E data path _ Community ltac:(discriminate) Hpkg)
    as [Hc _].
  destruct (packaged_local E data path _ Subclass ltac:(discriminate) Hpkg)
    as [Hs _].
  destruct (packaged_local E data path _ Domain ltac:(discriminate) Hpkg)
    as [Hd _].
  destruct (packaged_local E data path _ Variant ltac:(discriminate) Hpkg)
    as [Hv _].
  apply work_rrr_package in Hout
    as (ps & cs & ss & ds & vs & rd & Kp & Ka & Kc & Ks & Kd & Kv & ->).
  change (category_list (package _ _ o) (key_of Profession))
    with (profession o) in Hp.
  change (category_list (package _ _ o) (key_of Community))
    with (community o) in Hc.
  change (category_list (package _ _ o) (key_of Subclass))
    with (subclass o) in Hs.
  change (category_list (package _ _ o) (key_of Domain))
    with (domain o) in Hd.
  change (category_list (package _ _ o) (key_of Variant))
    with (variant o) in Hv.
  pose proof (forall2_compose _ _ _ _ _ Hp Kp) as Tp.
  pose proof (forall2_compose _ _ _ _ _ Hc Kc) as Tc.
  pose proof (forall2_compose _ _ _ _ _ Hs Ks) as Ts.
  pose proof (forall2_compose _ _ _ _ _ Hd Kd) as Td.
  pose proof (forall2_compose _ _ _ _ _ Hv Kv) as Tv.
  assert (Cv : Forall (fun r => category_of r = Variant) vs).
  { unfold pick_numbered in Tv.
    apply (forall2_filter_left _ _ _ _ _ (unique_numbered data 0 Hu)) in Tv.
    clear - Tv. induction Tv as [|nd r l l' (Ht & Hk & Hsel) _ IH];
      constructor; auto.
    destruct (trip_record E Variant nd r Ht) as [kv Hkv].
    destruct nd as [n d]. cbn [snd] in *. subst d.
    apply same_category_eq in Hsel.
    now apply (variant_category E n kv r). }
  pose proof (converted_categories repr Profession _ _
                ltac:(discriminate) ltac:(discriminate) Kp) as Cp.
  pose proof (converted_categories repr Community _ _
                ltac:(discriminate) ltac:(discriminate) Kc) as Cc.
  pose proof (converted_categories repr Subclass _ _
                ltac:(discriminate) ltac:(discriminate) Ks) as Cs.
  pose proof (converted_categories repr Domain _ _
                ltac:(discriminate) ltac:(discriminate) Kd) as Cd.
  pose proof (merged_categories _ _ Ka) as Ca.
  intros c Hne.
  rewrite !pick_app.
  rewrite (pick_all c _ _ Cp), (pick_all c _ _ Cc), (pick_all c _ _ Cs),
    (pick_all c _ _ Cd), (pick_all c _ _ Cv), (pick_all c _ _ Ca).
  destruct c; try congruence; cbn [same_category app];
    rewrite ?app_nil_r; assumption.
Qed.

(** *** Records that are converted without raising *)

Lemma returnable_single o c p :
  c <> Ancestry ->
  (forall c', cat_list o c' = if same_category c c' then [p] else []) ->
  (exists r, convert_item repr (c, p) = OK r) ->
  returnable repr o.
Proof.
  intros Hc Hl Hr. split.
  - intros c' _. rewrite Hl. destruct (same_category c c') eqn:Hs.
    + apply same_category_eq in Hs. subst c'. constructor; auto.
    + constructor.
  - change (ancestry o) with (cat_list o Ancestry). rewrite Hl.
    destruct c; try reflexivity. congruence.
Qed.

Ltac single_list c :=
  eapply (returnable_single _ c);
  [ discriminate | intros c'; destruct c'; reflexivity | ].

Lemma convertible_profession E m kv :
  category_of (VDict kv) = Profession ->
  convertible (VDict kv) = true ->
  exists st d', zzz_record E (m, empty_lists) (VDict kv) = OK (st, d') /\
                returnable repr (snd st).
Proof.
  intros Hc H. type_from Hc Ht. unfold convertible in H. rewrite Hc in H.
  apply andb_true_iff in H as [H Hev]. apply andb_true_iff in H as [Hd Hhp].
  apply is_text_inv in Hd as [raw Hd].
  apply int_ok_inv in Hhp as [hp Hhp]. apply int_ok_inv in Hev as [ev Hev].
  rewrite (zzz_record_profession E _ kv Ht). unfold zzz_profession.
  rewrite Hd. cbn [as_str bind]. rewrite Hhp, Hev. cbn [bind].
  eexists _, _. split; [reflexivity|]. cbn [snd].
  single_list Profession.
  unfold convert_item, rrr_profession. cbn. eauto.
Qed.

Lemma convertible_community E m kv :
  category_of (VDict kv) = Community ->
  convertible (VDict kv) = true ->
  exists st d', zzz_record E (m, empty_lists) (VDict kv) = OK (st, d') /\
                returnable repr (snd st).
Proof.
  intros Hc H. type_from Hc Ht. unfold convertible in H. rewrite Hc in H.
  apply is_text_inv in H as [s Hs].
  rewrite (zzz_record_community E _ kv Ht). unfold zzz_community.
  rewrite Hs. cbn [py_in bind].
  destruct (contains L.wide_colon s) eqn:Hcolon.
  - destruct (contains_split_once L.wide_colon s Hcolon) as (a & b & Hab & _).
    cbn [as_str bind]. rewrite Hab. cbn [bind].
    eexists _, _. split; [reflexivity|]. cbn [snd].
    single_list Community.
    unfold convert_item, rrr_community. cbn. eauto.
  - cbn [bind].
    eexists _, _. split; [reflexivity|]. cbn [snd].
    single_list Community.
    unfold convert_item, rrr_community. cbn. eauto.
Qed.

Lemma convertible_subclass E m kv :
  category_of (VDict kv) = Subclass ->
  convertible (VDict kv) = true ->
  exists st d', zzz_record E (m, empty_lists) (VDict kv) = OK (st, d') /\
                returnable repr (snd st).
Proof.
  intros Hc H. type_from Hc Ht. unfold convertible in H. rewrite Hc in H.
  apply andb_true_iff in H as [Hn Hl].
  apply is_text_inv in Hn as [nm Hn]. apply is_text_inv in Hl as [lv Hl].
  rewrite (zzz_record_subclass E _ kv Ht). unfold zzz_subclass.
  rewrite Hn, Hl. cbn [py_in bind as_str].
  destruct (contains L.dash nm) eqn:Hdash.
  - destruct (split_nonempty 45 nm) as (w & ws & Hw).
    rewrite (Hw : split L.dash nm = _). cbn [index nth_error bind].
    eexists _, _. split; [reflexivity|]. cbn [snd].
    single_list Subclass.
    unfold convert_item, rrr_subclass. cbn. eauto.
  - cbn [bind].
    eexists _, _. split; [reflexivity|]. cbn [snd].
    single_list Subclass.
    unfold convert_item, rrr_subclass. cbn. eauto.
Qed.

Lemma convertible_card E m kv :
  category_of (VDict kv) = Domain ->
  convertible (VDict kv) = true ->
  exists st d', zzz_record E (m, empty_lists) (VDict kv) = OK (st, d') /\
                returnable repr (snd st).
Proof.
  intros Hc H. type_from Hc Ht. unfold convertible in H. rewrite Hc in H.
  apply andb_true_iff in H as [Hl Hr].
  destruct (py_int (get kv L.level empty)) as [lv|] eqn:Hlv; [|discriminate].
  destruct (get kv L.recall empty) as [| | |s| |] eqn:Hs; try discriminate.
  rewrite (zzz_record_domain E _ kv Ht). unfold zzz_domain.
  rewrite Hlv, Hs. cbn [bind as_str].
  destruct (isdigit s).
  - apply int_ok_inv in Hr as [z Hz]. rewrite Hz. cbn [bind].
    eexists _, _. split; [reflexivity|]. cbn [snd].
    single_list Domain.
    unfold convert_item, rrr_domain. cbn. rewrite Hl.
    rewrite (py_int_text_within s z Hz). cbn. eauto.
  - cbn [bind].
    eexists _, _. split; [reflexivity|]. cbn [snd].
    single_list Domain.
    unfold convert_item, rrr_domain. cbn. rewrite Hl. cbn. eauto.
Qed.

Lemma convertible_variant E m kv :
  category_of (VDict kv) = Variant ->
  nodup_keys kv = true ->
  convertible (VDict kv) = true ->
  exists st d', zzz_record E (m, empty_lists) (VDict kv) = OK (st, d') /\
                returnable repr (snd st).
Proof.
  intros Hc Hnd H. type_from Hc Ht. unfold convertible in H. rewrite Hc in H.
  assert (Hz : exists st kv',
    zzz_variant E (m, empty_lists) kv (get kv L.type_ empty)
      (get kv L.name empty) = OK (st, kv')).
  { unfold zzz_variant.
    destruct (get kv L.brief empty) as [|b|z|s|l|d]; cbn [truthy] in *;
      try (apply negb_true_iff in H; rewrite H); cbn [bind]; eauto.
    destruct s; cbn [as_str bind]; eauto. }
  destruct Hz as (st & kv' & Hz).
  rewrite (zzz_record_variant E _ kv Ht), Hz. cbn [bind].
  eexists _, _. split; [reflexivity|].
  pose proof (variant_turn E _ _ _ _ _ Ht Hz) as Hturn.
  inversion Hturn; subst;
    try match goal with
        | Hk : get _ L.type_ empty = VStr _ |- _ =>
          rewrite Hk in Ht; discriminate Ht
        end.
  cbn [snd]. single_list Variant.
  set (parts := variant_parts kv).
  set (kv1 := rewrite_variant kv parts).
  set (v := dict_update (dict_of [(L.id, gen_uuid E m);
                                   (L.name, get kv L.name empty)]) kv1).
  assert (Hkv1 : nodup_keys kv1 = true).
  { unfold kv1, rewrite_variant. now apply nodup_set, nodup_set. }
  assert (Hvb : dict_get L.brief v = Some (VDict (items_from 0 parts))).
  { unfold v. rewrite get_update by assumption.
    unfold kv1, rewrite_variant. now rewrite get_set_same. }
  unfold convert_item. cbn [fst snd]. unfold rrr_variant.
  unfold get at 1. rewrite !get_pop_other by discriminate. rewrite Hvb.
  unfold join_items. rewrite (join_items_from repr parts 0 []).
  cbn [bind]. eauto.
Qed.


Lemma convertible_ancestry E m kv :
  category_of (VDict kv) = Ancestry ->
  convertible (VDict kv) = true ->
  exists st d', zzz_record E (m, empty_lists) (VDict kv) = OK (st, d') /\
                returnable repr (snd st).
Proof.
  intros Hc H. type_from Hc Ht. unfold convertible in H. rewrite Hc in H.
  apply andb_true_iff in H as [Hh H].
  destruct (get kv L.desc empty) as [| | |raw| |] eqn:Hd; try discriminate.
  unfold features_of in H.
  destruct (split L.nl (replace L.nlnl L.nl (replace L.colon L.wide_colon raw)))
    as [|line0 [|line1 rest]] eqn:Hf; try discriminate.
  apply andb_true_iff in H as [H0 H1].
  apply (split_length2 65306) in H0 as (a0 & b0 & r0 & H0).
  apply (split_length2 65306) in H1 as (a1 & b1 & r1 & H1).
  rewrite (zzz_record_ancestry E _ kv Ht). unfold zzz_ancestry.
  rewrite Hd. cbn [as_str bind]. rewrite Hf. cbn [index nth_error bind].
  rewrite (H0 : split L.wide_colon line0 = _).
  rewrite (H1 : split L.wide_colon line1 = _).
  cbn [index nth_error bind].
  eexists _, _. split; [reflexivity|]. cbn [snd]. split.
  - intros c Hne. destruct c; try congruence; constructor.
  - cbn. rewrite Hh. reflexivity.
Qed.

(** The turn of a convertible record returns, and what it packages is
    converted back without raising. *)
Lemma convertible_turn E m d :
  convertible d = true -> unique_keys d = true ->
  exists st, zzz_record E (m, empty_lists) d = OK (st, after_zzz d) /\
             returnable repr (snd st).
Proof.
  intros H Hu.
  destruct d as [| | | | |kv]; try discriminate.
  assert (Hz : exists st d',
    zzz_record E (m, empty_lists) (VDict kv) = OK (st, d') /\
    returnable repr (snd st)).
  { destruct (category_of (VDict kv)) eqn:Hc.
    - now apply convertible_profession.
    - now apply convertible_ancestry.
    - now apply convertible_community.
    - now apply convertible_subclass.
    - now apply convertible_card.
    - now apply convertible_variant. }
  destruct Hz as (st & d' & Hz & Hr).
  exists st. split; [|exact Hr].
  now rewrite Hz, (turn_after E _ _ _ _ (zzz_record_turn _ _ _ _ _ Hz)).
Qed.

(** Both calls return on records that are convertible one by one. *)
Lemma convertible_returns E data path :
  forallb convertible data = true ->
  forallb unique_keys data = true ->
  exists pkg out,
    work_zzz E data path = (OK pkg, map after_zzz data) /\
    work_rrr repr [pkg] = OK out.
Proof.
  intros Hc Hu.
  destruct (returnable_loop repr E data 0 empty_lists) as (n & o & Hl & Ho).
  - intros m d Hd. apply convertible_turn.
    + rewrite forallb_forall in Hc. now apply Hc.
    + rewrite forallb_forall in Hu. now apply Hu.
  - apply returnable_empty.
  - destruct (returnable_returns repr
                (match path with [] => L.default_package
                 | _ :: _ => stem E path end) (clock E) o Ho) as [out Hout].
    eexists _, out. unfold work_zzz. rewrite Hl. cbn [bind snd].
    split; [reflexivity|exact Hout].
Qed.

End Trips.

(** *** The 回想 field of a domain card *)



(** The sample cards: 回想 "2" is packaged as 2 and comes back as "2",
    "007" is packaged as 7 and comes back as "7", "三" stays as it is. *)
Example recall_examples :
  map (field L.recall) (pick Domain demo_cards) =
    [Some (text "2"); Some (text "007"); Some (text "三")] /\
  map (field L.recall) (category_list demo_cards_package L.domain_cat) =
    [Some (VInt 2); Some (VInt 7); Some (text "三")] /\
  map (field L.recall) (pick Domain demo_cards_back) =
    [Some (text "2"); Some (text "7"); Some (text "三")].
Proof. vm_compute. auto. Qed.


(** *** The 简略信息 field of a variant *)

(** C2.  In every run of [work_zzz] that returns, the packaged variants
    are, in order, those of the input, and a 简略信息 string is packaged
    as its ['/']-separated parts keyed item0, item1, ... in order.  When
    [work_rrr] returns on the package, the variants come back in order
    with the non-empty parts joined by ['/'] (no 简略信息 if no part is
    left): a string made of non-empty parts comes back as it was.  The
    two calls return whenever every record is convertible by itself. *)
Theorem brief_roundtrip repr E data path :
  (forall pkg,
     forallb unique_keys data = true ->
     fst (work_zzz E data path) = OK pkg ->
     Forall2 brief_packaged
       (pick Variant data) (category_list pkg L.variant) /\
     Forall2 brief_keyed
       (pick Variant data) (category_list pkg L.variant) /\
     forall out,
       work_rrr repr [pkg] = OK out ->
       Forall2 brief_returned (pick Variant data) (pick Variant out) /\
       Forall2 brief_restored (pick Variant data) (pick Variant out)) /\
  (forallb convertible data = true ->
   forallb unique_keys data = true ->
   exists pkg out,
     fst (work_zzz E data path) = OK pkg /\ work_rrr repr [pkg] = OK out).
Proof.
  split.
  - intros pkg Hu Hpkg.
    destruct (packaged_local E data path pkg Variant ltac:(discriminate) Hpkg)
      as [Hp _].
    change (key_of Variant) with L.variant in Hp.
    unfold pick_numbered in Hp.
    apply (forall2_filter_left _ _ _ _ _ (unique_numbered data 0 Hu)) in Hp.
    fold (pick_numbered Variant data) in Hp.
    split; [|split].
    + apply plain_records. revert Hp.
      apply (trips_of_records Variant).
      * intros n kv p Hc (Hq & Hk & _). now apply (variant_brief_packaged E n).
      * intros nd p (Hq & _). now apply (emitted_record E Variant nd p).
    + apply plain_records. revert Hp.
      apply (trips_of_records Variant).
      * intros n kv p Hc (Hq & Hk & _) kv' parts [= <-] Hparts Hs.
        destruct (brief_parts_inv parts Hparts) as (Hne & Hfree & _ & Hjoin).
        rewrite (variant_brief_packaged E n kv p Hc Hk Hq kv
                   (join L.slash parts) eq_refl Hs Hjoin).
        now rewrite (split_join 47 parts Hne Hfree
                      : split L.slash (join L.slash parts) = parts).
      * intros nd p (Hq & _). now apply (emitted_record E Variant nd p).
    + intros out Hout.
      pose proof (returned_local repr E data path pkg out Hu Hpkg Hout
                    Variant ltac:(discriminate)) as Ht.
      unfold pick_numbered in Ht.
      apply (forall2_filter_left _ _ _ _ _ (unique_numbered data 0 Hu)) in Ht.
      fold (pick_numbered Variant data) in Ht.
      split; apply plain_records; revert Ht;
        apply (trips_of_records Variant).
      * intros n kv r Hc (Hq & Hk & _).
        now apply (variant_brief_returned repr E n).
      * intros nd r (Hq & _). now apply (trip_record repr E Variant nd r).
      * intros n kv r Hc (Hq & Hk & _).
        now apply (variant_brief_restored repr E n).
      * intros nd r (Hq & _). now apply (trip_record repr E Variant nd r).
  - intros Hc Hu.
    destruct (convertible_returns repr E data path Hc Hu)
      as (pkg & out & Hz & Hr).
    exists pkg, out. now rewrite Hz.
Qed.

Lemma brief_roundtrip_witness :
  Forall2 brief_packaged
    (pick Variant demo_data_relic)
    (category_list demo_package_relic L.variant) /\
  Forall2 brief_keyed
    (pick Variant demo_data_relic)
    (category_list demo_package_relic L.variant) /\
  Forall2 brief_returned
    (pick Variant demo_data_relic) (pick Variant demo_back_relic) /\
  Forall2 brief_restored
    (pick Variant demo_data_relic) (pick Variant demo_back_relic) /\
  exists pkg out,
    fst (work_zzz demo_env demo_data_relic []) = OK pkg /\
    work_rrr (fun _ => []) [pkg] = OK out.
Proof.
  destruct (brief_roundtrip (fun _ => []) demo_env demo_data_relic [])
    as (Hpair & Hex).
  destruct (Hpair demo_package_relic ltac:(vm_compute; reflexivity)
              ltac:(vm_compute; reflexivity)) as (Hp & Hk & Hr).
  destruct (Hr demo_back_relic ltac:(vm_compute; reflexivity)) as (Hr1 & Hr2).
  split; [exact Hp|]. split; [exact Hk|]. split; [exact Hr1|].
  split; [exact Hr2|]. apply Hex; vm_compute; reflexivity.
Defined.

(** The sample variants: "近战/物理/3点" is keyed in three parts and comes
    back as it was; "稀有//1件" is keyed in three parts, the empty one
    included, and comes back as "稀有/1件". *)
Example brief_examples :
  map (field L.brief) (pick Variant demo_data_relic) =
    [ Some (text "近战/物理/3点"); Some (text "稀有//1件");
      Some (text "近战/物理/3点") ] /\
  map (field L.brief) (category_list demo_package_relic L.variant) =
    [ Some (VDict [ (lit "item0", text "近战"); (lit "item1", text "物理");
                    (lit "item2", text "3点") ]);
      Some (VDict [ (lit "item0", text "稀有"); (lit "item1", text "");
                    (lit "item2", text "1件") ]);
      Some (VDict [ (lit "item0", text "近战"); (lit "item1", text "物理");
                    (lit "item2", text "3点") ]) ] /\
  map (field L.brief) (pick Variant demo_back_relic) =
    [ Some (text "近战/物理/3点"); Some (text "稀有/1件");
      Some (text "近战/物理/3点") ].
Proof. vm_compute. auto. Qed.

(** *** The four categories that come back as one record *)



(** The professions of the sample run, the first record and the eighth:
    each comes back with the identifier of its own turn. *)
Example roundtrip_profession_example :
  map fst (pick_numbered Profession demo_data_relic) = [0; 7] /\
  pick Profession demo_back_relic =
    [ VDict
        [ (L.name, text "战士"); (L.orig_name, text "1000");
          (L.type_, text "主职"); (L.domain, text "利刃+骸骨");
          (L.init_evasion, VInt 11); (L.init_hp, VInt 6);
          (L.hope_feature, text "不屈"); (L.class_feature, text "战斗训练");
          (L.background_qs, VList []); (L.relation_qs, VList []);
          (L.summary, text "近战专家") ];
      VDict
        [ (L.name, text "战士"); (L.orig_name, text "1007");
          (L.type_, text "主职"); (L.domain, text "利刃+骸骨");
          (L.init_evasion, VInt 11); (L.init_hp, VInt 6);
          (L.hope_feature, text "不屈"); (L.class_feature, text "战斗训练");
          (L.background_qs, VList []); (L.relation_qs, VList []);
          (L.summary, text "近战专家") ] ].
Proof. vm_compute. auto. Qed.


End RoundTrip.
(* ===================================================================== *)
(** ** zzz2keyword: the input after [work]                               *)
(* ===================================================================== *)

Module Keyword.
Import Zzz2keyword Spec DictFacts StrFacts Loop.

Lemma popped_filter (kv : dict) : popped kv = without_popped kv.
Proof.
  unfold popped, without_popped, dict_pop. rewrite <- !filter_and.
  apply filter_ext. intros [k v]. unfold popped_key. simpl.
  rewrite !negb_orb. now rewrite !andb_assoc.
Qed.

Lemma get_without_popped (kv : dict) (k : str) :
  dict_get k (without_popped kv) =
  if popped_key k then None else dict_get k kv.
Proof.
  unfold without_popped. induction kv as [|[k' v] kv IH]; cbn [filter fst dict_get].
  - now destruct (popped_key k).
  - destruct (Str.eqb k' k) eqn:E.
    + apply eqb_eq in E. subst k'.
      destruct (popped_key k) eqn:Hp; cbn [negb dict_get].
      * exact IH.
      * now rewrite eqb_refl.
    + destruct (popped_key k'); cbn [negb dict_get]; rewrite ?E; exact IH.
Qed.

Section Effect.
Variable repr : value -> str.

Lemma work_record_effect (d : value) : snd (work_record repr d) = after_work d.
Proof.
  destruct d as [| | | | |kv]; try reflexivity.
  unfold work_record, after_work. cbn [snd]. f_equal. apply popped_filter.
Qed.

Lemma work_loop_effect (data lst : list value) :
  exists k, k <= length data /\
    snd (work_loop repr lst data) =
      map after_work (firstn k data) ++ skipn k data /\
    (forall out, fst (work_loop repr lst data) = OK out ->
       k = length data /\ length out = length lst + length data).
Proof.
  revert lst. induction data as [|d ds IH]; intros lst.
  - exists 0. simpl. split; [lia|]. split; [reflexivity|].
    intros out [= <-]. lia.
  - cbn [work_loop]. pose proof (work_record_effect d) as Hd.
    destruct (work_record repr d) as [[dic|e] d'] eqn:Hr; cbn [snd] in Hd; subst d'.
    + destruct (IH (lst ++ [dic])) as (k & Hk & Hsnd & Hfst).
      destruct (work_loop repr (lst ++ [dic]) ds) as [r rest] eqn:Hl.
      cbn [fst snd] in *. exists (S k). split; [simpl; lia|].
      split; [simpl; now rewrite Hsnd|].
      intros out Hout. destruct (Hfst out Hout) as [-> Hlen].
      rewrite length_app in Hlen. simpl in *. lia.
    + exists 1. cbn [fst snd]. split; [simpl; lia|].
      split; [reflexivity|discriminate].
Qed.

(** C10.  [work] rewrites its input in place: after the call the records
    it visited (all of them when it returns) have lost the keys 原名,
    背景问题, 关系问题 and 类型 and keep their other entries; a single
    dict passed as [data] is treated the same way. *)
Theorem work_strips_input (l : list value) :
  (exists k, k <= length l /\
     snd (work repr (VList l)) =
       VList (map after_work (firstn k l) ++ skipn k l) /\
     (forall out, fst (work repr (VList l)) = OK out ->
        k = length l /\ length out = length l)) /\
  (forall kv, snd (work repr (VDict kv)) = VDict (without_popped kv)) /\
  (forall kv k,
     dict_get k (without_popped kv) =
     if popped_key k then None else dict_get k kv).
Proof.
  split; [|split].
  - destruct (work_loop_effect l []) as (k & Hk & Hsnd & Hfst).
    exists k. unfold work.
    destruct (work_loop repr [] l) as [r l'] eqn:Hl. cbn [fst snd] in *.
    split; [exact Hk|]. split; [now rewrite Hsnd|exact Hfst].
  - intros kv. unfold work. cbn [work_loop].
    pose proof (work_record_effect (VDict kv)) as Hd.
    destruct (work_record repr (VDict kv)) as [[dic|e] d'];
      cbn [snd] in Hd; subst d'; reflexivity.
  - apply get_without_popped.
Qed.
End Effect.

Lemma work_strips_input_witness :
  snd (work (fun _ => [])
         (VList [VDict demo_profession; VDict (demo_domain_card "2")]))
    = VList [after_work (VDict demo_profession);
             after_work (VDict (demo_domain_card "2"))] /\
  dict_get L.type_ (without_popped demo_profession) = None /\
  dict_get L.name (without_popped demo_profession) = Some (text "战士").
Proof.
  destruct (work_strips_input (fun _ => [])
              [VDict demo_profession; VDict (demo_domain_card "2")])
    as ((k & Hk & Hsnd & Hfst) & _ & Hget).
  split; [|split].
  - rewrite Hsnd.
    destruct (Hfst [VDict [ (k_keyword, text "战士");
                            (k_category, text "主职");
                            (k_description,
                             VStr (lit "领域:利刃+骸骨" ++ L.nl ++
                                   lit "初始生命点:6" ++ L.nl ++
                                   lit "初始闪避值:11" ++ L.nl ++
                                   lit "初始物品:长剑" ++ L.nl ++
                                   lit "简介:近战专家" ++ L.nl ++
                                   lit "希望特性:不屈" ++ L.nl ++
                                   lit "职业特性:战斗训练"));
                            (k_display, text "normal") ];
                    VDict [ (k_keyword, text "火球术");
                            (k_category, text "领域卡-奥秘");
                            (k_description,
                             VStr (lit "领域:奥秘" ++ L.nl ++
                                   lit "等级:1" ++ L.nl ++
                                   lit "属性:法术" ++ L.nl ++
                                   lit "回想:2" ++ L.nl ++
                                   lit "描述:造成伤害"));
                            (k_display, text "normal") ]] eq_refl) as [-> _].
    reflexivity.
  - rewrite Hget. reflexivity.
  - rewrite Hget. reflexivity.
Defined.

Example work_on_domain_card :
  work (fun _ => [])
    (VList [VDict [ (L.name, text "火焰领域"); (L.orig_name, text "Fire");
                    (L.type_, text "领域卡"); (L.domain, text "奥秘");
                    (L.desc, text "燃烧") ]])
  = (OK [VDict [ (k_keyword, text "火焰领域");
                 (k_category, text "领域卡-奥秘");
                 (k_description,
                  VStr (lit "领域:奥秘" ++ L.nl ++ lit "描述:燃烧"));
                 (k_display, text "normal") ]],
     VList [VDict [ (L.name, text "火焰领域"); (L.domain, text "奥秘");
                    (L.desc, text "燃烧") ]]).
Proof. vm_compute. reflexivity. Qed.

End Keyword.

(* ===================================================================== *)
(** ** zzz2rink: fear and cost of an environment trait                   *)
(* ===================================================================== *)

Module Rink.
Import Zzz2rink Spec DictFacts StrFacts.

Lemma tables_apart_spec (t1 t2 : list (N * N)) (c : N) :
  tables_apart t1 t2 = true -> in_ranges t1 c = true -> in_ranges t2 c = false.
Proof.
  unfold tables_apart, in_ranges. intros Hap H1.
  apply existsb_exists in H1 as ([lo1 hi1] & Hin1 & Hc1).
  rewrite forallb_forall in Hap. specialize (Hap _ Hin1).
  rewrite forallb_forall in Hap.
  apply not_true_is_false. intros H2.
  apply existsb_exists in H2 as ([lo2 hi2] & Hin2 & Hc2).
  specialize (Hap _ Hin2). simpl in *.
  apply andb_true_iff in Hc1 as [A1 B1]. apply andb_true_iff in Hc2 as [A2 B2].
  apply N.leb_le in A1, B1, A2, B2.
  apply orb_true_iff in Hap as [H|H]; apply N.ltb_lt in H; lia.
Qed.

Lemma decimal_not_space (c : N) : is_decimal c = true -> is_space c = false.
Proof. apply tables_apart_spec. vm_compute. reflexivity. Qed.

Lemma space_not_decimal (c : N) : is_space c = true -> is_decimal c = false.
Proof. apply tables_apart_spec. vm_compute. reflexivity. Qed.

(** [span] takes a run of the class up to a character outside it. *)
Lemma span_app (p : N -> bool) (a b : str) :
  forallb p a = true ->
  match b with [] => True | c :: _ => p c = false end ->
  span p (a ++ b) = (a, b).
Proof.
  intros Ha Hb. induction a as [|x a IH]; simpl in *.
  - destruct b as [|c b]; simpl; auto. now rewrite Hb.
  - apply andb_true_iff in Ha as [Hx Ha]. rewrite Hx, (IH Ha). reflexivity.
Qed.

Lemma span_spec (p : N -> bool) (s a b : str) :
  span p s = (a, b) -> s = a ++ b /\ forallb p a = true.
Proof.
  revert a b. induction s as [|c s IH]; intros a b; simpl.
  - intros [= <- <-]. auto.
  - destruct (p c) eqn:Hc.
    + destruct (span p s) as [a' b'] eqn:Hs. intros [= <- <-].
      destruct (IH a' b' eq_refl) as [-> Ha]. simpl. now rewrite Hc.
    + intros [= <- <-]. auto.
Qed.

(** The anchored matcher finds exactly the matches at the start. *)
Lemma match_here_sound (s n : str) :
  match_cost_here s = Some n -> cost_match_at s n.
Proof.
  unfold match_cost_here, cost_match_at.
  destruct (starts_with spend s) eqn:Hs; [|discriminate].
  apply starts_with_inv in Hs.
  destruct (span is_space (skipn (length spend) s)) as [w1 r2] eqn:H1.
  destruct (span is_decimal r2) as [n' r3] eqn:H2.
  destruct n' as [|d n']; [discriminate|].
  destruct (span is_space r3) as [w2 r4] eqn:H3.
  destruct (starts_with fear_points r4) eqn:H4; [|discriminate].
  intros [= <-]. apply starts_with_inv in H4.
  apply span_spec in H1 as [E1 F1]. apply span_spec in H2 as [E2 F2].
  apply span_spec in H3 as [E3 F3].
  exists w1, w2, (skipn (length fear_points) r4).
  split; [|split; [exact F1|split; [exact F3|split; [discriminate|exact F2]]]].
  rewrite Hs at 1. rewrite E1, E2, E3. rewrite H4 at 1.
  rewrite <- ?app_assoc. reflexivity.
Qed.

Lemma match_here_complete (s n : str) :
  cost_match_at s n -> match_cost_here s = Some n.
Proof.
  intros (w1 & w2 & rest & -> & F1 & F3 & Hne & F2).
  unfold match_cost_here. rewrite starts_with_app.
  rewrite skipn_app, skipn_all, Nat.sub_diag. cbn [skipn app].
  destruct n as [|d n]; [congruence|].
  assert (Hd : is_decimal d = true)
    by (simpl in F2; apply andb_true_iff in F2; tauto).
  rewrite (span_app is_space w1 ((d :: n) ++ w2 ++ fear_points ++ rest) F1)
    by (simpl; now apply decimal_not_space).
  assert (Htail : match w2 ++ fear_points ++ rest with
                  | [] => True | c :: _ => is_decimal c = false end).
  { destruct w2 as [|c w2]; [reflexivity|]. simpl.
    simpl in F3. apply andb_true_iff in F3 as [Hc _].
    now apply space_not_decimal. }
  rewrite (span_app is_decimal (d :: n) (w2 ++ fear_points ++ rest) F2 Htail).
  rewrite (span_app is_space w2 (fear_points ++ rest) F3) by reflexivity.
  now rewrite starts_with_app.
Qed.

(** [search_cost] returns the group of the leftmost match, and nothing
    when there is no match. *)
Lemma search_first (s n : str) :
  search_cost s = Some n -> first_cost_match s n.
Proof.
  induction s as [|c s IH].
  - intros H. discriminate H.
  - cbn [search_cost]. destruct (match_cost_here (c :: s)) eqn:Hm.
    + intros [= ->]. exists [], (c :: s). split; [reflexivity|].
      split; [now apply match_here_sound|]. intros; simpl; lia.
    + intros H. destruct (IH H) as (pre & post & -> & Hat & Hleft).
      exists (c :: pre), post. split; [reflexivity|]. split; [exact Hat|].
      intros pre' post' n' Heq Hat'. destruct pre' as [|c' pre'].
      * simpl in Heq. subst post'.
        apply match_here_complete in Hat'. congruence.
      * simpl in Heq. injection Heq as <- Heq. simpl.
        apply le_n_S. now apply (Hleft pre' post' n').
Qed.

Lemma search_none (s : str) : search_cost s = None -> no_cost_match s.
Proof.
  induction s as [|c s IH]; cbn [search_cost].
  - intros _ pre post n Heq Hat. symmetry in Heq.
    apply app_eq_nil in Heq as [-> ->].
    apply match_here_complete in Hat. discriminate Hat.
  - destruct (match_cost_here (c :: s)) eqn:Hm; [discriminate|].
    intros H pre post n Heq Hat. destruct pre as [|c' pre].
    + simpl in Heq. subst post. apply match_here_complete in Hat. congruence.
    + simpl in Heq. injection Heq as <- Heq. exact (IH H pre post n Heq Hat).
Qed.

Lemma first_match_unique (s n m : str) :
  first_cost_match s n -> first_cost_match s m -> n = m.
Proof.
  intros (pre & post & E1 & A1 & L1) (pre' & post' & E2 & A2 & L2).
  pose proof (L1 pre' post' m E2 A2). pose proof (L2 pre post n E1 A1).
  assert (Hlen : length pre = length pre') by lia.
  assert (pre = pre' /\ post = post') as [_ <-].
  { subst s. clear - E2 Hlen. revert pre' E2 Hlen.
    induction pre as [|x pre IH]; intros [|y pre'] E Hl; simpl in *;
      try discriminate; auto.
    injection E as -> E. injection Hl as Hl.
    destruct (IH pre' E Hl) as [-> ->]. auto. }
  apply match_here_complete in A1, A2. congruence.
Qed.

Section Traits.
Variable repr : value -> str.

Lemma convert_trait_fear_cost (t : dict) (s : str) :
  Zzz2rrr.get t k_trait_desc Zzz2rrr.empty = VStr s ->
  exists out, convert_trait repr (VDict t) = OK out /\ fear_cost_of s out.
Proof.
  intros Hd. unfold convert_trait. rewrite Hd.
  destruct (search_cost s) as [n|] eqn:Hs; eexists; (split; [reflexivity|]).
  - split.
    + intros m Hm. rewrite (first_match_unique s m n Hm (search_first s n Hs)).
      split; reflexivity.
    + intros Hno. destruct (search_first s n Hs) as (pre & post & E & A & _).
      exfalso. exact (Hno pre post n E A).
  - split.
    + intros m (pre & post & E & A & _). exfalso.
      exact (search_none s Hs pre post m E A).
    + intros _. split; reflexivity.
Qed.

Lemma convert_traits_fear_cost (traits : list value) :
  Forall (fun tr => exists t s, tr = VDict t /\ trait_desc tr = VStr s) traits ->
  exists outs,
    mapM (convert_trait repr) traits = OK outs /\
    Forall2 (fun tr out => forall s, trait_desc tr = VStr s -> fear_cost_of s out)
            traits outs.
Proof.
  induction 1 as [|tr traits (t & s & -> & Hs) _ (outs & Hm & Hall)].
  - exists []. split; [reflexivity|constructor].
  - destruct (convert_trait_fear_cost t s Hs) as (out & Ho & Hfc).
    exists (out :: outs). cbn [mapM]. rewrite Ho, Hm. split; [reflexivity|].
    constructor; [|exact Hall].
    intros s' Hs'. simpl in Hs, Hs'. rewrite Hs in Hs'. now injection Hs' as <-.
Qed.

(** C6.  [convert_environment] on an environment whose traits are records
    with a text description returns one output trait per input trait, in
    order; a trait whose description has a match of 花费 N 恐惧点 gets
    fear = true and cost = N (the N of the leftmost match), a trait whose
    description has no match gets fear = false and cost = "0". *)
Theorem environment_fear_cost (kv : dict) (traits : list value) :
  Zzz2rrr.get kv L.feature (VList []) = VList traits ->
  Forall (fun tr => exists t s, tr = VDict t /\ trait_desc tr = VStr s) traits ->
  exists dest outs,
    convert_environment repr (VDict kv) = OK dest /\
    field k_traits dest = Some (VList outs) /\
    Forall2 (fun tr out => forall s, trait_desc tr = VStr s -> fear_cost_of s out)
            traits outs.
Proof.
  intros Hf Hall.
  destruct (convert_traits_fear_cost traits Hall) as (outs & Hm & H2).
  unfold convert_environment. rewrite Hf. cbn [py_iter bind]. rewrite Hm.
  cbn [bind]. eexists _, outs. split; [reflexivity|]. split; [|exact H2].
  reflexivity.
Qed.
End Traits.

Lemma environment_fear_cost_witness :
  exists dest outs,
    convert_environment (fun _ => []) (VDict demo_environment) = OK dest /\
    field k_traits dest = Some (VList outs) /\
    Forall2 (fun tr out => forall s, trait_desc tr = VStr s -> fear_cost_of s out)
            demo_traits outs.
Proof.
  apply (environment_fear_cost (fun _ => []) demo_environment demo_traits).
  - reflexivity.
  - repeat constructor; eexists _, _; split; reflexivity.
Defined.

Example environment_traits_example :
  match convert_environment (fun _ => []) (VDict demo_environment) with
  | OK dest =>
    match field k_traits dest with
    | Some (VList outs) =>
      map (fun out => (field k_fear out, field k_cost out)) outs
    | _ => []
    end
  | Raise _ => []
  end
  = [ (Some (VBool true), Some (text "2"));
      (Some (VBool false), Some (text "0")) ].
Proof. vm_compute. reflexivity. Qed.

End Rink.

(* ===================================================================== *)
(** ** What [work_zzz] emits                                             *)
(* ===================================================================== *)

Module Emitted.
Import Zzz2rrr Spec RecordCounts DictFacts StrFacts Dispatch Loop.

Lemma package_lists name version o :
  category_list (package name version o) L.profession = profession o /\
  category_list (package name version o) L.ancestry = ancestry o /\
  category_list (package name version o) L.community = community o /\
  category_list (package name version o) L.subclass = subclass o /\
  category_list (package name version o) L.domain_cat = domain o /\
  category_list (package name version o) L.variant = variant o.
Proof. repeat split; reflexivity. Qed.

Lemma turn_counts E st d st' d' :
  turn E st d st' d' ->
  length (profession (snd st')) =
    length (profession (snd st)) + count_type L.t_profession [d] /\
  length (ancestry (snd st')) =
    length (ancestry (snd st)) + 2 * count_type L.t_ancestry [d] /\
  length (community (snd st')) =
    length (community (snd st)) + count_type L.t_community [d] /\
  length (subclass (snd st')) =
    length (subclass (snd st)) + count_type L.t_subclass [d] /\
  length (domain (snd st')) =
    length (domain (snd st)) + count_type L.t_domain [d] /\
  length (variant (snd st')) =
    length (variant (snd st)) + count_other [d].
Proof.
  intros H. unfold count_type, count_other.
  destruct H; cbn [snd filter type_of];
    try (match goal with Ht : get _ L.type_ empty = _ |- _ => rewrite Ht end);
    [ destruct (lists_after_profession r (get kv L.name empty) out)
        as (E1 & E2 & E3 & E4 & E5 & E6)
    | destruct (lists_after_ancestry r1 r2 (get kv L.name empty) out)
        as (E1 & E2 & E3 & E4 & E5 & E6)
    | destruct (lists_after_community r (get kv L.name empty) out)
        as (E1 & E2 & E3 & E4 & E5 & E6)
    | destruct (lists_after_subclass r out) as (E1 & E2 & E3 & E4 & E5 & E6)
    | destruct (lists_after_domain r (get kv L.domain empty) out)
        as (E1 & E2 & E3 & E4 & E5 & E6)
    | destruct (lists_after_variant
                  (VDict (dict_update
                     (dict_of [(L.id, gen_uuid E n);
                               (L.name, get kv L.name empty)])
                     (rewrite_variant kv (variant_parts kv))))
                  (get kv L.type_ empty) out)
        as (E1 & E2 & E3 & E4 & E5 & E6) ];
    rewrite E1, E2, E3, E4, E5, E6; rewrite ?length_app;
    try (cbn; repeat split; lia).
  unfold known_type in *.
  match goal with Hk : _ = false |- _ =>
    rewrite Hk; repeat (apply orb_false_iff in Hk as [Hk ?])
  end.
  repeat match goal with Hf : is_str _ _ = false |- _ => rewrite Hf; clear Hf end.
  cbn. repeat split; lia.
Qed.

Lemma count_type_cons t d ds :
  count_type t (d :: ds) = count_type t [d] + count_type t ds.
Proof. unfold count_type. simpl. destruct (is_str t (type_of d)); reflexivity. Qed.

Lemma count_other_cons d ds :
  count_other (d :: ds) = count_other [d] + count_other ds.
Proof.
  unfold count_other. simpl. destruct (known_type (type_of d)); reflexivity.
Qed.

Lemma run_counts E st ds st' ds' :
  run E st ds st' ds' ->
  length (profession (snd st')) =
    length (profession (snd st)) + count_type L.t_profession ds /\
  length (ancestry (snd st')) =
    length (ancestry (snd st)) + 2 * count_type L.t_ancestry ds /\
  length (community (snd st')) =
    length (community (snd st)) + count_type L.t_community ds /\
  length (subclass (snd st')) =
    length (subclass (snd st)) + count_type L.t_subclass ds /\
  length (domain (snd st')) =
    length (domain (snd st)) + count_type L.t_domain ds /\
  length (variant (snd st')) =
    length (variant (snd st)) + count_other ds.
Proof.
  induction 1 as [st|st d st1 d' ds st2 ds' Ht Hr IH].
  - unfold count_type, count_other. simpl. repeat split; lia.
  - destruct (turn_counts E st d st1 d' Ht) as (T1 & T2 & T3 & T4 & T5 & T6).
    destruct IH as (I1 & I2 & I3 & I4 & I5 & I6).
    rewrite (count_type_cons L.t_profession), (count_type_cons L.t_ancestry),
      (count_type_cons L.t_community), (count_type_cons L.t_subclass),
      (count_type_cons L.t_domain), count_other_cons.
    repeat split; lia.
Qed.

Lemma one_category (d : value) :
  count_type L.t_profession [d] + count_type L.t_ancestry [d] +
  count_type L.t_community [d] + count_type L.t_subclass [d] +
  count_type L.t_domain [d] + count_other [d] = 1.
Proof.
  unfold count_type, count_other. cbn [filter].
  destruct (known_type (type_of d)) eqn:Hk.
  - destruct (known_type_cases _ Hk) as [Ht|[Ht|[Ht|[Ht|Ht]]]];
      rewrite Ht; reflexivity.
  - unfold known_type in Hk.
    repeat (apply orb_false_iff in Hk as [Hk ?]).
    repeat match goal with Hf : is_str _ _ = false |- _ => rewrite Hf; clear Hf end.
    reflexivity.
Qed.

Lemma all_categories (data : list value) :
  count_type L.t_profession data + count_type L.t_ancestry data +
  count_type L.t_community data + count_type L.t_subclass data +
  count_type L.t_domain data + count_other data = length data.
Proof.
  induction data as [|d ds IH]; [reflexivity|].
  rewrite (count_type_cons L.t_profession), (count_type_cons L.t_ancestry),
    (count_type_cons L.t_community), (count_type_cons L.t_subclass),
    (count_type_cons L.t_domain), count_other_cons.
  pose proof (one_category d). simpl length. lia.
Qed.

(** X1.  Every record that [work_zzz] is given ends up in exactly one category
    list of the package it returns: a record of 类型 主职, 社群, 子职 or
    领域卡 as one record of its list, a 种族 record as two records of the
    ancestry list, and any other record as one record of the variant
    list. *)
Theorem work_zzz_counts E data path pkg :
  fst (work_zzz E data path) = OK pkg ->
  length (category_list pkg L.profession) = count_type L.t_profession data /\
  length (category_list pkg L.ancestry) = 2 * count_type L.t_ancestry data /\
  length (category_list pkg L.community) = count_type L.t_community data /\
  length (category_list pkg L.subclass) = count_type L.t_subclass data /\
  length (category_list pkg L.domain_cat) = count_type L.t_domain data /\
  length (category_list pkg L.variant) = count_other data /\
  length (all_records pkg) = length data + count_type L.t_ancestry data.
Proof.
  intros H.
  destruct (work_zzz_run E data path pkg H) as (n & out & data' & Hrun & _ & ->).
  destruct (package_lists
              (match path with [] => L.default_package | _ :: _ => stem E path end)
              (clock E) out) as (P1 & P2 & P3 & P4 & P5 & P6).
  destruct (run_counts E _ _ _ _ Hrun) as (R1 & R2 & R3 & R4 & R5 & R6).
  cbn [snd empty_lists profession ancestry community subclass domain variant
       length Nat.add] in R1, R2, R3, R4, R5, R6.
  unfold all_records, categories. cbn [flat_map key_of].
  rewrite !length_app, P1, P2, P3, P4, P5, P6. cbn [length].
  pose proof (all_categories data).
  repeat split; lia.
Qed.

Lemma work_zzz_counts_witness :
  length (category_list demo_package L.profession) = 2 /\
  length (category_list demo_package L.ancestry) = 2 /\
  length (category_list demo_package L.variant) = 1 /\
  length (all_records demo_package) = 8.
Proof.
  destruct (work_zzz_counts demo_env demo_data [] demo_package eq_refl)
    as (H1 & H2 & H3 & H4 & H5 & H6 & H7).
  rewrite H1, H2, H6, H7. repeat split; reflexivity.
Defined.

End Emitted.

(* ===================================================================== *)
(** ** The 领域 of a profession                                          *)
(* ===================================================================== *)

Module Domains.
Import Zzz2rrr Spec DomainProps DictFacts StrFacts Dispatch Loop.

Lemma replace_char_flat (a : N) (new s : str) :
  replace [a] new s = flat_map (fun x => if (a =? x)%N then new else [x]) s.
Proof.
  unfold replace. induction s as [|x s IH]; [reflexivity|].
  cbn [replace_from starts_with flat_map length Nat.sub].
  rewrite andb_true_r. destruct (a =? x)%N; simpl; now rewrite IH.
Qed.

Lemma flat_map_flat_map {A B C} (f : A -> list B) (g : B -> list C) (l : list A) :
  flat_map g (flat_map f l) = flat_map (fun x => flat_map g (f x)) l.
Proof.
  induction l as [|x l IH]; [reflexivity|].
  simpl. now rewrite flat_map_app, IH.
Qed.

(** The six passes over 领域 amount to one pass, character by
    character. *)
Lemma normalise_chain (raw : str) :
  replace L.amp L.plus
    (replace L.blank []
      (replace L.comma L.plus
        (replace L.wide_comma L.plus
          (replace L.he L.plus
            (replace L.amp L.plus raw)))))
  = flat_map domain_char raw.
Proof.
  change L.amp with [38%N]. change L.he with [21644%N].
  change L.wide_comma with [65292%N]. change L.comma with [44%N].
  change L.blank with [32%N]. change L.plus with [43%N].
  rewrite !replace_char_flat, !flat_map_flat_map.
  apply flat_map_ext. intros c. unfold domain_char.
  destruct (N.eqb_spec 38 c) as [<-|H1]; [reflexivity|].
  destruct (N.eqb_spec 21644 c) as [<-|H2]; [reflexivity|].
  destruct (N.eqb_spec 65292 c) as [<-|H3]; [reflexivity|].
  destruct (N.eqb_spec 44 c) as [<-|H4]; [reflexivity|].
  destruct (N.eqb_spec 32 c) as [<-|H5]; [reflexivity|].
  rewrite !(N.eqb_sym c).
  apply N.eqb_neq in H1, H2, H3, H4, H5.
  repeat (cbn [flat_map app]; rewrite ?H1, ?H2, ?H3, ?H4, ?H5).
  reflexivity.
Qed.

Lemma domain_char_plain (s : str) :
  plain_domain s = true -> flat_map domain_char s = s.
Proof.
  intros H. destruct (RoundTrip.plain_domain_inv s H) as (H1 & H2 & H3 & H4 & H5 & _).
  clear H. induction s as [|c s IH]; [reflexivity|].
  unfold free_of in *. cbn [forallb] in *.
  apply andb_true_iff in H1 as [A1 H1]. apply andb_true_iff in H2 as [A2 H2].
  apply andb_true_iff in H3 as [A3 H3]. apply andb_true_iff in H4 as [A4 H4].
  apply andb_true_iff in H5 as [A5 H5].
  apply negb_true_iff in A1, A2, A3, A4, A5.
  cbn [flat_map]. unfold domain_char at 1. rewrite A1, A2, A3, A4, A5.
  cbn [orb app]. f_equal. auto.
Qed.

Lemma domain_char_blanks (w : str) :
  blanks w = true -> flat_map domain_char w = [].
Proof.
  unfold blanks. induction w as [|c w IH]; [reflexivity|].
  cbn [forallb flat_map]. intros H. apply andb_true_iff in H as [Hc Hw].
  apply N.eqb_eq in Hc. subst c. rewrite (IH Hw). reflexivity.
Qed.

Lemma domain_char_separator (sep : str) :
  is_separator sep = true -> flat_map domain_char sep = L.plus.
Proof.
  unfold is_separator. cbn [existsb]. rewrite orb_false_r. intros H.
  repeat (apply orb_true_iff in H as [H|H]);
    apply eqb_eq in H; subst sep; reflexivity.
Qed.

Lemma flat_map_joined (f : N -> str) (sep : str) (parts : list str) :
  flat_map f (join sep parts) = join (flat_map f sep) (map (flat_map f) parts).
Proof.
  induction parts as [|p ps IH]; [reflexivity|].
  destruct ps as [|q ps]; [reflexivity|].
  change (join sep (p :: q :: ps)) with (p ++ sep ++ join sep (q :: ps)).
  change (map (flat_map f) (p :: q :: ps))
    with (flat_map f p :: flat_map f q :: map (flat_map f) ps).
  change (join (flat_map f sep) (flat_map f p :: flat_map f q :: map (flat_map f) ps))
    with (flat_map f p ++ flat_map f sep
            ++ join (flat_map f sep) (flat_map f q :: map (flat_map f) ps)).
  rewrite !flat_map_app, IH. reflexivity.
Qed.

Lemma map_plain (parts : list str) :
  forallb plain_domain parts = true -> map (flat_map domain_char) parts = parts.
Proof.
  induction parts as [|p ps IH]; [reflexivity|].
  cbn [forallb map]. intros H. apply andb_true_iff in H as [Hp Hps].
  now rewrite (domain_char_plain p Hp), (IH Hps).
Qed.

(** Parts joined by one of the separators, with blanks around it, are
    split into these parts. *)
Lemma normalise_parts (parts : list str) (w1 sep w2 : str) :
  forallb plain_domain parts = true ->
  blanks w1 = true -> is_separator sep = true -> blanks w2 = true ->
  split L.plus (flat_map domain_char (join (w1 ++ sep ++ w2) parts))
  = match parts with [] => [[]] | _ :: _ => parts end.
Proof.
  intros Hp H1 Hs H2.
  rewrite flat_map_joined, !flat_map_app, (domain_char_blanks w1 H1),
    (domain_char_blanks w2 H2), (domain_char_separator sep Hs), app_nil_r,
    (map_plain parts Hp).
  cbn [app]. destruct parts as [|p ps]; [reflexivity|].
  apply (split_join 43 (p :: ps)); [discriminate|].
  revert Hp. apply Errors.forallb_weaken. intros x Hx.
  now destruct (RoundTrip.plain_domain_inv x Hx) as (_ & _ & _ & _ & _ & ?).
Qed.

Lemma nth_parts (parts : list str) (i : nat) :
  nth i (match parts with [] => [[]] | _ :: _ => parts end) [] = nth i parts [].
Proof. destruct parts as [|p ps]; [now destruct i as [|[|i]]|reflexivity]. Qed.

(** The package and the flat record of a profession, whatever 领域
    holds. *)
Lemma profession_roundtrip repr E path kv raw hp ev :
  get kv L.type_ empty = VStr L.t_profession ->
  get kv L.domain empty = VStr raw ->
  py_int (get kv L.init_hp empty) = OK hp ->
  py_int (get kv L.init_evasion empty) = OK ev ->
  let parts := split L.plus (flat_map domain_char raw) in
  fst (work_zzz E [VDict kv] path) =
    OK (package (match path with [] => L.default_package
                 | _ :: _ => stem E path end) (clock E)
         (add_profession
           (VDict
             [ (L.id, gen_uuid E 0);
               (L.name, get kv L.name empty);
               (L.domain1, VStr (nth 0 parts []));
               (L.domain2, VStr (nth 1 parts []));
               (L.start_hp, VInt hp);
               (L.start_evasion, VInt ev);
               (L.start_items, get kv L.init_items (VStr L.blank));
               (L.summary, get kv L.summary (VStr L.na));
               (L.hope_feature, get kv L.hope_feature empty);
               (L.class_feature, get kv L.class_feature empty);
               (L.image_url, empty) ])
           (note_profession (get kv L.name empty) empty_lists))) /\
  roundtrip repr E path (VDict kv) =
    OK [VDict
      [ (L.name, get kv L.name empty);
        (L.orig_name, gen_uuid E 0);
        (L.type_, VStr L.t_profession);
        (L.domain, VStr (nth 0 parts [] ++ L.plus ++ nth 1 parts []));
        (L.init_evasion, VInt ev);
        (L.init_hp, VInt hp);
        (L.hope_feature, get kv L.hope_feature empty);
        (L.class_feature, get kv L.class_feature empty);
        (L.background_qs, VList []);
        (L.relation_qs, VList []);
        (L.summary, get kv L.summary (VStr L.na)) ]].
Proof.
  intros Ht Hdom Hhp Hev parts.
  assert (Hz : fst (work_zzz E [VDict kv] path) = OK (package
    (match path with [] => L.default_package | _ :: _ => stem E path end)
    (clock E)
    (add_profession
           (VDict
             [ (L.id, gen_uuid E 0);
               (L.name, get kv L.name empty);
               (L.domain1, VStr (nth 0 parts []));
               (L.domain2, VStr (nth 1 parts []));
               (L.start_hp, VInt hp);
               (L.start_evasion, VInt ev);
               (L.start_items, get kv L.init_items (VStr L.blank));
               (L.summary, get kv L.summary (VStr L.na));
               (L.hope_feature, get kv L.hope_feature empty);
               (L.class_feature, get kv L.class_feature empty);
               (L.image_url, empty) ])
           (note_profession (get kv L.name empty) empty_lists)))).
  { unfold work_zzz, zzz_loop.
    rewrite (zzz_record_profession E _ kv Ht).
    unfold zzz_profession. rewrite Hdom. cbn [as_str bind].
    rewrite (normalise_chain raw), Hhp, Hev. reflexivity. }
  split; [exact Hz|].
  unfold roundtrip. rewrite Hz. cbn [bind].
  unfold empty_lists, note_profession, add_unique. cbn [list_mem existsb app].
  rewrite rrr_single_profession. unfold rrr_profession. cbn.
  now rewrite <- app_assoc.
Qed.

(** X2.  In 领域 of a profession the separators [&], [和], [，], [,] and [+]
    are one and the same, and blanks around them do not count: the first
    part becomes 领域1, the second 领域2, further parts are dropped, and
    领域 comes back from the round trip as the first two parts joined by
    [+]. *)
Theorem profession_domain_parts repr E path kv parts w1 sep w2 hp ev :
  get kv L.type_ empty = VStr L.t_profession ->
  get kv L.domain empty = VStr (join (w1 ++ sep ++ w2) parts) ->
  forallb plain_domain parts = true ->
  blanks w1 = true -> is_separator sep = true -> blanks w2 = true ->
  py_int (get kv L.init_hp empty) = OK hp ->
  py_int (get kv L.init_evasion empty) = OK ev ->
  exists pkg p r,
    fst (work_zzz E [VDict kv] path) = OK pkg /\
    category_list pkg L.profession = [VDict p] /\
    dict_get L.domain1 p = Some (VStr (nth 0 parts [])) /\
    dict_get L.domain2 p = Some (VStr (nth 1 parts [])) /\
    roundtrip repr E path (VDict kv) = OK [VDict r] /\
    dict_get L.domain r = Some (VStr (nth 0 parts [] ++ L.plus ++ nth 1 parts [])).
Proof.
  intros Ht Hdom Hp H1 Hs H2 Hhp Hev.
  destruct (profession_roundtrip repr E path kv _ hp ev Ht Hdom Hhp Hev) as [Hz Hr].
  rewrite (normalise_parts parts w1 sep w2 Hp H1 Hs H2), !nth_parts in Hz, Hr.
  eexists _, _, _. split; [exact Hz|].
  split; [reflexivity|]. split; [reflexivity|]. split; [reflexivity|].
  split; [exact Hr|reflexivity].
Qed.

Lemma profession_domain_parts_witness :
  exists pkg p r,
    fst (work_zzz demo_env [VDict demo_three_domains] []) = OK pkg /\
    category_list pkg L.profession = [VDict p] /\
    dict_get L.domain1 p = Some (text "利刃") /\
    dict_get L.domain2 p = Some (text "骸骨") /\
    roundtrip (fun _ => []) demo_env [] (VDict demo_three_domains) = OK [VDict r] /\
    dict_get L.domain r = Some (text "利刃+骸骨").
Proof.
  exact (profession_domain_parts (fun _ => []) demo_env [] demo_three_domains
           [lit "利刃"; lit "骸骨"; lit "奥秘"] (lit " ") (lit "&") (lit " ")
           6 11 eq_refl eq_refl eq_refl eq_refl eq_refl eq_refl eq_refl eq_refl).
Defined.

(** *** No separator survives *)

Lemma free_flat_map (c : N) (f : N -> str) (s : str) :
  (forall x, free_of c (f x) = true) -> free_of c (flat_map f s) = true.
Proof.
  intros Hf. induction s as [|x s IH]; [reflexivity|].
  cbn [flat_map]. now rewrite free_of_app, Hf, IH.
Qed.

Lemma domain_char_free (c x : N) :
  In c [38; 21644; 65292; 44; 32]%N -> free_of c (domain_char x) = true.
Proof.
  intros Hc. unfold domain_char.
  destruct (N.eqb_spec x 38) as [->|H1];
    [cbn [orb]; repeat (destruct Hc as [<-|Hc]; [reflexivity|]); contradiction|].
  destruct (N.eqb_spec x 21644) as [->|H2];
    [cbn [orb]; repeat (destruct Hc as [<-|Hc]; [reflexivity|]); contradiction|].
  destruct (N.eqb_spec x 65292) as [->|H3];
    [cbn [orb]; repeat (destruct Hc as [<-|Hc]; [reflexivity|]); contradiction|].
  destruct (N.eqb_spec x 44) as [->|H4];
    [cbn [orb]; repeat (destruct Hc as [<-|Hc]; [reflexivity|]); contradiction|].
  cbn [orb]. destruct (N.eqb_spec x 32) as [->|H5]; [reflexivity|].
  unfold free_of. cbn [forallb]. rewrite andb_true_r. apply negb_true_iff.
  apply N.eqb_neq.
  repeat (destruct Hc as [<-|Hc]; [assumption|]). contradiction.
Qed.

Lemma split_parts_free (c d : N) (s : str) :
  free_of c s = true -> Forall (fun p => free_of c p = true) (split [d] s).
Proof.
  induction s as [|x s IH]; intros H.
  - repeat constructor.
  - unfold free_of in H. cbn [forallb] in H.
    apply andb_true_iff in H as [Hx Hs]. specialize (IH Hs).
    rewrite Errors.split_cons. destruct (d =? x)%N.
    + constructor; [reflexivity|exact IH].
    + destruct (split [d] s) as [|w ws]; [repeat constructor; simpl; now rewrite Hx|].
      inversion IH as [|? ? Hw Hws]; subst. constructor; [|exact Hws].
      unfold free_of in *. cbn [forallb]. now rewrite Hx, Hw.
Qed.

Lemma split_parts_sep_free (d : N) (s : str) :
  Forall (fun p => free_of d p = true) (split [d] s).
Proof.
  induction s as [|x s IH].
  - repeat constructor.
  - rewrite Errors.split_cons. destruct (N.eqb_spec d x) as [->|Hne].
    + constructor; [reflexivity|exact IH].
    + destruct (split [d] s) as [|w ws].
      * repeat constructor. unfold free_of. cbn [forallb].
        rewrite andb_true_r. apply negb_true_iff, N.eqb_neq. congruence.
      * inversion IH as [|? ? Hw Hws]; subst. constructor; [|exact Hws].
        unfold free_of in *. cbn [forallb]. rewrite Hw, andb_true_r.
        apply negb_true_iff, N.eqb_neq. congruence.
Qed.

Lemma normalised_parts_plain (raw : str) :
  Forall (fun p => plain_domain p = true)
         (split L.plus (flat_map domain_char raw)).
Proof.
  change L.plus with [43%N].
  assert (H : forall c, In c [38; 21644; 65292; 44; 32]%N ->
            Forall (fun p => free_of c p = true)
                   (split [43%N] (flat_map domain_char raw))).
  { intros c Hc. apply split_parts_free, free_flat_map.
    intros x. now apply domain_char_free. }
  pose proof (split_parts_sep_free 43 (flat_map domain_char raw)) as H6.
  pose proof (H 38%N ltac:(simpl; tauto)) as H1.
  pose proof (H 21644%N ltac:(simpl; tauto)) as H2.
  pose proof (H 65292%N ltac:(simpl; tauto)) as H3.
  pose proof (H 44%N ltac:(simpl; tauto)) as H4.
  pose proof (H 32%N ltac:(simpl; tauto)) as H5.
  clear H. rewrite Forall_forall in *. intros p Hp.
  unfold plain_domain. cbn [forallb].
  now rewrite (H1 p Hp), (H2 p Hp), (H3 p Hp), (H4 p Hp), (H5 p Hp), (H6 p Hp).
Qed.

Lemma nth_plain (l : list str) (i : nat) :
  Forall (fun p => plain_domain p = true) l -> plain_domain (nth i l []) = true.
Proof.
  intros H. revert i. induction H as [|p l Hp Hl IH]; intros [|i]; auto.
  apply IH.
Qed.

Lemma profession_step E n out kv name_ st' :
  zzz_profession E (n, out) kv name_ = OK st' ->
  exists r, plain_pair r /\
    snd st' = add_profession r (note_profession name_ out).
Proof.
  unfold zzz_profession. intros H. bind_inv H. injection H as <-.
  rewrite normalise_chain.
  eexists. split; [|reflexivity].
  eexists _, _. split; [reflexivity|]. split; [reflexivity|].
  split; apply nth_plain, normalised_parts_plain.
Qed.

Lemma record_keeps_plain E st d st' d' :
  zzz_record E st d = OK (st', d') ->
  Forall plain_pair (profession (snd st)) ->
  Forall plain_pair (profession (snd st')).
Proof.
  intros H Hall. pose proof (zzz_record_turn E st d st' d' H) as Ht.
  destruct Ht; cbn [snd] in *.
  - rewrite (zzz_record_profession E _ kv) in H by assumption.
    bind_inv H. injection H as Ha. subst a.
    destruct (profession_step E n out kv _ _ Hb) as (r' & Hr' & Heq).
    cbn [snd] in Heq. rewrite Heq.
    destruct (lists_after_profession r' (get kv L.name empty) out) as (-> & _).
    apply Forall_app. split; [exact Hall|]. now constructor.
  - now destruct (lists_after_ancestry r1 r2 (get kv L.name empty) out) as (-> & _).
  - now destruct (lists_after_community r (get kv L.name empty) out) as (-> & _).
  - now destruct (lists_after_subclass r out) as (-> & _).
  - now destruct (lists_after_domain r (get kv L.domain empty) out) as (-> & _).
  - match goal with |- context [add_variant ?r (note_variant ?x out)] =>
      now destruct (lists_after_variant r x out) as (-> & _)
    end.
Qed.

Lemma loop_keeps_plain E data st st' data' :
  zzz_loop E st data = (OK st', data') ->
  Forall plain_pair (profession (snd st)) ->
  Forall plain_pair (profession (snd st')).
Proof.
  revert st data'. induction data as [|d ds IH]; intros st data' H Hall.
  - simpl in H. now injection H as <- _.
  - simpl in H. destruct (zzz_record E st d) as [[st1 d1]|e] eqn:Hd; [|discriminate].
    destruct (zzz_loop E st1 ds) as [r rest] eqn:Hl.
    injection H as -> _.
    apply (IH st1 rest Hl). exact (record_keeps_plain E st d st1 d1 Hd Hall).
Qed.

(** X3.  Whatever 领域 of the professions held, no 领域1 and no 领域2 of a
    package holds a separator ([&], [和], [，], [,], [+]) or a blank. *)
Theorem packaged_domains_plain E data path pkg :
  fst (work_zzz E data path) = OK pkg ->
  Forall plain_pair (category_list pkg L.profession).
Proof.
  unfold work_zzz.
  destruct (zzz_loop E (0, empty_lists) data) as [r data'] eqn:Hl.
  destruct r as [[n out]|e]; [|discriminate]. intros [= <-].
  change (Forall plain_pair (profession out)).
  exact (loop_keeps_plain E data _ _ _ Hl (Forall_nil _)).
Qed.

Lemma packaged_domains_plain_witness :
  Forall plain_pair (category_list demo_package L.profession).
Proof. exact (packaged_domains_plain demo_env demo_data [] demo_package eq_refl). Defined.

End Domains.

(* ===================================================================== *)
(** ** Round trips that change the record                                *)
(* ===================================================================== *)

Module Trips.
Import Zzz2rrr Spec TripProps DictFacts StrFacts Dispatch Loop.

Lemma free_not_contains (c : N) (s : str) :
  free_of c s = true -> contains [c] s = false.
Proof.
  induction s as [|x s IH]; [reflexivity|].
  unfold free_of. cbn [forallb]. intros H.
  apply andb_true_iff in H as [Hx Hs].
  rewrite Errors.contains_char_cons, (IH Hs), orb_false_r.
  apply negb_true_iff in Hx. now rewrite N.eqb_sym.
Qed.

(** Every name has a part before its first dash. *)
Lemma first_dash (nm : str) : exists pre, before_dash nm pre.
Proof.
  unfold before_dash. induction nm as [|x nm (pre & IH)].
  - exists []. left. split; reflexivity.
  - destruct (N.eqb_spec x 45) as [->|Hne].
    + exists []. right. exists nm. split; reflexivity.
    + assert (Hx : negb (x =? 45)%N = true)
        by now apply negb_true_iff, N.eqb_neq.
      destruct IH as [[-> Hf]|(post & -> & Hf)].
      * exists (x :: pre). left. split; [reflexivity|].
        unfold free_of in *. cbn [forallb]. now rewrite Hx, Hf.
      * exists (x :: pre). right. exists post. split; [reflexivity|].
        unfold free_of in *. cbn [forallb]. now rewrite Hx, Hf.
Qed.

(** The package and the flat record of a subclass. *)
Lemma subclass_roundtrip repr E path kv nm pre lv :
  get kv L.type_ empty = VStr L.t_subclass ->
  get kv L.name empty = VStr nm ->
  get kv L.level empty = VStr lv ->
  before_dash nm pre ->
  fst (work_zzz E [VDict kv] path) =
    OK (package (match path with [] => L.default_package
                 | _ :: _ => stem E path end) (clock E)
         (add_subclass
           (VDict
             [ (L.id, gen_uuid E 0);
               (L.name, VStr nm);
               (L.desc, get kv L.desc empty);
               (L.parent, get kv L.parent empty);
               (L.subclass_name, VStr pre);
               (L.level, VStr (tier_forth lv));
               (L.cast,
                if truthy (get kv L.cast_attr empty)
                then get kv L.cast_attr empty else VStr L.no_cast);
               (L.image_url, empty) ])
           empty_lists)) /\
  roundtrip repr E path (VDict kv) =
    OK [VDict
      [ (L.name, VStr (pre ++ L.dash ++ tier_back (tier_forth lv)));
        (L.orig_name, empty);
        (L.type_, VStr L.t_subclass);
        (L.parent, get kv L.parent empty);
        (L.level, VStr (tier_back (tier_forth lv)));
        (L.cast_attr,
         if truthy (get kv L.cast_attr empty) then get kv L.cast_attr empty
         else VStr L.no_cast);
        (L.desc, get kv L.desc empty) ]].
Proof.
  intros Ht Hname Hlv Hpre.
  match goal with |- ?A /\ _ => assert (Hz : A) end.
  { unfold work_zzz, zzz_loop. rewrite (zzz_record_subclass E _ kv Ht).
    unfold zzz_subclass. rewrite Hname, Hlv. cbn [py_in bind].
    destruct Hpre as [[-> Hf]|(post & -> & Hf)].
    - rewrite (free_not_contains 45 pre Hf : contains L.dash pre = false).
      reflexivity.
    - rewrite (contains_app_l L.dash pre post). cbn [as_str bind].
      rewrite (split_char_app 45 pre post Hf
                 : split L.dash (pre ++ L.dash ++ post) = _).
      reflexivity. }
  split; [exact Hz|].
  unfold roundtrip. rewrite Hz. cbn [bind].
  unfold empty_lists. rewrite rrr_single_subclass. unfold rrr_subclass.
  cbn. now rewrite <- app_assoc.
Qed.

(** X4.  The 名称 of a subclass comes back as what stood before its first
    [-] (all of it, if it has none), a [-] and the 等级: a name without the
    tier suffix gains one, and what followed the first [-] is lost. *)
Theorem subclass_name_rebuilt repr E path kv nm pre lv :
  get kv L.type_ empty = VStr L.t_subclass ->
  get kv L.name empty = VStr nm ->
  get kv L.level empty = VStr lv ->
  tier_label lv = true ->
  before_dash nm pre ->
  exists r,
    roundtrip repr E path (VDict kv) = OK [VDict r] /\
    dict_get L.name r = Some (VStr (pre ++ L.dash ++ lv)).
Proof.
  intros Ht Hname Hlv Htier Hpre.
  destruct (subclass_roundtrip repr E path kv nm pre lv Ht Hname Hlv Hpre) as [_ Hr].
  destruct (RoundTrip.tier_there_and_back lv Htier) as [Hthere Hback].
  unfold tier_back, tier_forth in Hr. rewrite Hthere, Hback in Hr.
  eexists. split; [exact Hr|reflexivity].
Qed.

Lemma subclass_name_rebuilt_witness :
  exists r,
    roundtrip (fun _ => []) demo_env [] (VDict demo_plain_subclass) = OK [VDict r] /\
    dict_get L.name r = Some (text "剑-基础").
Proof.
  exact (subclass_name_rebuilt (fun _ => []) demo_env [] demo_plain_subclass
           (lit "剑-圣-进阶") (lit "剑") (lit "基础")
           eq_refl eq_refl eq_refl eq_refl
           (or_intror (ex_intro _ (lit "圣-进阶") (conj eq_refl eq_refl)))).
Defined.

(** X5.  A packaged subclass always has a non-empty 施法: an absent or empty
    施法属性 is packaged as 不可施法, and that text is what comes back as
    施法属性. *)
Theorem subclass_cast_sentinel repr E path kv nm lv :
  get kv L.type_ empty = VStr L.t_subclass ->
  get kv L.name empty = VStr nm ->
  get kv L.level empty = VStr lv ->
  exists pkg p c r,
    fst (work_zzz E [VDict kv] path) = OK pkg /\
    category_list pkg L.subclass = [VDict p] /\
    dict_get L.cast p = Some c /\ truthy c = true /\
    roundtrip repr E path (VDict kv) = OK [VDict r] /\
    dict_get L.cast_attr r = Some c /\
    (truthy (get kv L.cast_attr empty) = true -> c = get kv L.cast_attr empty) /\
    (truthy (get kv L.cast_attr empty) = false -> c = VStr L.no_cast).
Proof.
  intros Ht Hname Hlv. destruct (first_dash nm) as (pre & Hpre).
  destruct (subclass_roundtrip repr E path kv nm pre lv Ht Hname Hlv Hpre) as [Hz Hr].
  destruct (truthy (get kv L.cast_attr empty)) eqn:Hc;
    eexists _, _, _, _; (split; [exact Hz|]); (split; [reflexivity|]);
    (split; [reflexivity|]).
  - split; [exact Hc|]. split; [exact Hr|]. split; [reflexivity|].
    split; [reflexivity|discriminate].
  - split; [reflexivity|]. split; [exact Hr|]. split; [reflexivity|].
    split; [discriminate|reflexivity].
Qed.

Lemma subclass_cast_sentinel_witness :
  exists pkg p r,
    fst (work_zzz demo_env [VDict demo_plain_subclass] []) = OK pkg /\
    category_list pkg L.subclass = [VDict p] /\
    dict_get L.cast p = Some (text "不可施法") /\
    roundtrip (fun _ => []) demo_env [] (VDict demo_plain_subclass) = OK [VDict r] /\
    dict_get L.cast_attr r = Some (text "不可施法").
Proof.
  destruct (subclass_cast_sentinel (fun _ => []) demo_env [] demo_plain_subclass
              (lit "剑-圣-进阶") (lit "基础") eq_refl eq_refl eq_refl)
    as (pkg & p & c & r & Hz & Hp & Hc & _ & Hr & Hcr & _ & Hno).
  rewrite (Hno eq_refl) in Hc, Hcr.
  exists pkg, p, r. auto.
Defined.

(** *** A community without a full-width colon *)

(** X6.  A 描述 without [：] is packaged whole as 特性, with an empty 描述, and
    comes back with a [：] at its end. *)
Theorem community_gains_colon repr E path kv s :
  get kv L.type_ empty = VStr L.t_community ->
  get kv L.desc empty = VStr s ->
  contains L.wide_colon s = false ->
  exists pkg p r,
    fst (work_zzz E [VDict kv] path) = OK pkg /\
    category_list pkg L.community = [VDict p] /\
    dict_get L.feature p = Some (VStr s) /\
    dict_get L.desc p = Some empty /\
    roundtrip repr E path (VDict kv) = OK [VDict r] /\
    dict_get L.desc r = Some (VStr (s ++ L.wide_colon)).
Proof.
  intros Ht Hdesc Hcolon.
  assert (Hz : fst (work_zzz E [VDict kv] path) =
    OK (package (match path with [] => L.default_package
                 | _ :: _ => stem E path end) (clock E)
         (add_community
           (VDict
             [ (L.id, gen_uuid E 0);
               (L.name, get kv L.name empty);
               (L.feature, VStr s);
               (L.summary, get kv L.summary (VStr L.na));
               (L.desc, empty);
               (L.image_url, empty) ])
           (note_community (get kv L.name empty) empty_lists)))).
  { unfold work_zzz, zzz_loop. rewrite (zzz_record_community E _ kv Ht).
    unfold zzz_community. rewrite Hdesc. cbn [py_in bind]. rewrite Hcolon.
    reflexivity. }
  eexists _, _, _. split; [exact Hz|]. split; [reflexivity|].
  split; [reflexivity|]. split; [reflexivity|].
  unfold roundtrip. rewrite Hz. cbn [bind].
  unfold empty_lists, note_community, add_unique. cbn [list_mem existsb app].
  rewrite rrr_single_community. unfold rrr_community. cbn.
  rewrite app_nil_r. split; reflexivity.
Qed.

Lemma community_gains_colon_witness :
  exists pkg p r,
    fst (work_zzz demo_env [VDict demo_plain_community] []) = OK pkg /\
    category_list pkg L.community = [VDict p] /\
    dict_get L.feature p = Some (text "你有门路") /\
    dict_get L.desc p = Some empty /\
    roundtrip (fun _ => []) demo_env [] (VDict demo_plain_community) = OK [VDict r] /\
    dict_get L.desc r = Some (text "你有门路：").
Proof.
  exact (community_gains_colon (fun _ => []) demo_env [] demo_plain_community
           (lit "你有门路") eq_refl eq_refl eq_refl).
Defined.

End Trips.

(* ===================================================================== *)
(** ** Ancestries: merging and the round trip                            *)
(* ===================================================================== *)

Module Ancestries.
Import Zzz2rrr Spec TripProps AncestryProps DictFacts StrFacts Dispatch Loop.

Lemma py_eq_hashable (v : value) : hashable v = true -> py_eq v v = true.
Proof.
  destruct v as [|b|z|s|l|d]; simpl; try discriminate; intros _.
  - reflexivity.
  - now destruct b.
  - apply Z.eqb_refl.
  - apply eqb_refl.
Qed.

Lemma join_cons2 (sep x y : str) (ys : list str) :
  join sep (x :: y :: ys) = x ++ sep ++ join sep (y :: ys).
Proof. reflexivity. Qed.

Lemma join_snoc (sep : str) (lines : list str) (l : str) :
  lines <> [] -> join sep (lines ++ [l]) = join sep lines ++ sep ++ l.
Proof.
  induction lines as [|x xs IH]; [congruence|]. intros _.
  destruct xs as [|y ys]; [reflexivity|].
  specialize (IH ltac:(discriminate)). cbn [app] in *.
  rewrite !join_cons2, IH. now rewrite <- !app_assoc.
Qed.

(** One more entry of an ancestry that is in [race_dict] already adds a
    line to its description. *)
Lemma merge_entry nm summary lines d ne :
  hashable nm = true -> entry_of nm d ne -> lines <> [] ->
  rrr_ancestry [(nm, merged nm summary lines)] d =
  OK [(nm, merged nm summary (lines ++ [feature_line ne]))].
Proof.
  intros Hh (Hr & Hn & He) Hne. unfold rrr_ancestry. rewrite Hr, Hh.
  cbn [race_get]. rewrite (py_eq_hashable nm Hh).
  unfold concat. rewrite Hn, He. cbn [get merged dict_get].
  cbn. rewrite (py_eq_hashable nm Hh). unfold merged, feature_line.
  do 5 f_equal.
  rewrite join_snoc by assumption. now rewrite <- !app_assoc.
Qed.

Lemma first_entry nm d ne :
  hashable nm = true -> entry_of nm d ne ->
  rrr_ancestry [] d =
  OK [(nm, merged nm (get d L.summary empty) [feature_line ne])].
Proof.
  intros Hh (Hr & Hn & He). unfold rrr_ancestry. rewrite Hr, Hh.
  cbn [race_get]. unfold concat. rewrite Hn, He. cbn.
  unfold merged, feature_line. now rewrite <- app_assoc.
Qed.

Lemma merge_entries repr nm summary (ds : list dict) pairs :
  hashable nm = true -> Forall2 (entry_of nm) ds pairs ->
  forall o lines, lines <> [] ->
  foldM (rrr_item repr Ancestry) (o, [(nm, merged nm summary lines)])
        (map VDict ds)
  = OK (o, [(nm, merged nm summary (lines ++ map feature_line pairs))]).
Proof.
  intros Hh H. induction H as [|d ne ds pairs Hd _ IH]; intros o lines Hne.
  - simpl. now rewrite app_nil_r.
  - cbn [map foldM rrr_item].
    rewrite (merge_entry nm summary lines d ne Hh Hd Hne). cbn [bind].
    rewrite IH by (destruct lines; discriminate).
    now rewrite <- app_assoc.
Qed.

(** The entries of one ancestry, however many, fold into one record. *)
Lemma merge_all repr nm (d : dict) ne (ds : list dict) pairs o :
  hashable nm = true -> entry_of nm d ne -> Forall2 (entry_of nm) ds pairs ->
  foldM (rrr_item repr Ancestry) (o, []) (map VDict (d :: ds))
  = OK (o, [(nm, merged nm (get d L.summary empty)
                   (map feature_line (ne :: pairs)))]).
Proof.
  intros Hh Hd Hds. cbn [map foldM rrr_item].
  rewrite (first_entry nm d ne Hh Hd). cbn [bind].
  now rewrite (merge_entries repr nm _ ds pairs Hh Hds o [feature_line ne])
    by discriminate.
Qed.

(** X8.  The packaged entries of one ancestry, however many, come back as one
    flat record: 名称 is the ancestry, 简介 that of the first entry, and
    描述 has one line "name：effect" per entry, in their order. *)
Theorem ancestry_entries_merge repr (pk : dict) nm (d : dict) ne (ds : list dict) pairs :
  (forall c, c <> Ancestry -> dict_get (key_of c) pk = None) ->
  dict_get L.ancestry pk = Some (VList (map VDict (d :: ds))) ->
  hashable nm = true ->
  entry_of nm d ne -> Forall2 (entry_of nm) ds pairs ->
  work_rrr repr [VDict pk] =
  OK [VDict (merged nm (get d L.summary empty)
               (map feature_line (ne :: pairs)))].
Proof.
  intros Hother Hanc Hh Hd Hds.
  unfold work_rrr. cbn [foldM rrr_package categories].
  unfold rrr_key at 1. rewrite (Hother Profession) by discriminate. cbn [bind].
  unfold rrr_key at 1. cbn [key_of]. rewrite Hanc.
  change (truthy (VList (map VDict (d :: ds)))) with true.
  cbn [iterate bind].
  rewrite (merge_all repr nm d ne ds pairs [] Hh Hd Hds). cbn [bind].
  unfold rrr_key. rewrite (Hother Community), (Hother Subclass),
    (Hother Domain), (Hother Variant) by discriminate.
  reflexivity.
Qed.

Lemma ancestry_entries_merge_witness :
  work_rrr (fun _ => []) [VDict [(L.ancestry, VList (map VDict demo_entries))]] =
  OK [VDict [ (L.name, text "精灵"); (L.orig_name, text "");
              (L.type_, text "种族"); (L.summary, text "长寿");
              (L.desc, VStr (lit "敏捷：快" ++ L.nl ++ lit "夜视：暗" ++ L.nl
                               ++ lit "长寿：久")) ]].
Proof.
  refine (ancestry_entries_merge (fun _ => [])
            [(L.ancestry, VList (map VDict demo_entries))] (text "精灵")
            _ (lit "敏捷", lit "快") _
            [(lit "夜视", lit "暗"); (lit "长寿", lit "久")]
            _ eq_refl eq_refl _ _).
  - intros c Hc. destruct c; try reflexivity. congruence.
  - repeat split.
  - repeat constructor.
Defined.

(** *** The two feature lines of a flat ancestry *)

Lemma feature_text_inv (s : str) :
  feature_text s = true ->
  free_of 58 s = true /\ free_of 65306 s = true /\ free_of 10 s = true.
Proof.
  unfold feature_text. intros H.
  apply andb_true_iff in H as [H H3]. apply andb_true_iff in H as [H1 H2].
  auto.
Qed.

Lemma flat_map_free (a : N) (new s : str) :
  free_of a s = true ->
  flat_map (fun x => if (a =? x)%N then new else [x]) s = s.
Proof.
  rewrite <- Domains.replace_char_flat. apply replace_char_absent.
Qed.

Lemma replace_pair_free (c : N) (s : str) :
  free_of c s = true -> replace [c; c] [c] s = s.
Proof.
  induction s as [|x s IH]; [reflexivity|].
  unfold free_of. cbn [forallb]. intros H.
  apply andb_true_iff in H as [Hx Hs]. apply negb_true_iff in Hx.
  rewrite Errors.replace_pair_other, (IH Hs); [reflexivity|].
  cbn [starts_with]. now rewrite N.eqb_sym, Hx.
Qed.

Lemma replace_pair_once (c : N) (a b : str) :
  free_of c a = true -> free_of c b = true ->
  replace [c; c] [c] (a ++ c :: b) = a ++ c :: b.
Proof.
  intros Ha Hb. induction a as [|x a IH].
  - cbn [app]. rewrite Errors.replace_pair_other, (replace_pair_free c b Hb);
      [reflexivity|].
    cbn [starts_with]. rewrite N.eqb_refl. cbn [andb].
    destruct b as [|y b]; [reflexivity|].
    unfold free_of in Hb. cbn [forallb] in Hb.
    apply andb_true_iff in Hb as [Hy _]. apply negb_true_iff in Hy.
    now rewrite N.eqb_sym, Hy.
  - unfold free_of in Ha. cbn [forallb] in Ha.
    apply andb_true_iff in Ha as [Hx Ha]. apply negb_true_iff in Hx.
    cbn [app]. rewrite Errors.replace_pair_other, (IH Ha); [reflexivity|].
    cbn [starts_with]. now rewrite N.eqb_sym, Hx.
Qed.

Lemma replace_pair_twice (c : N) (a b : str) :
  free_of c a = true -> free_of c b = true ->
  replace [c; c] [c] (a ++ c :: c :: b) = a ++ c :: b.
Proof.
  intros Ha Hb. induction a as [|x a IH].
  - cbn [app]. now rewrite Errors.replace_pair_double, (replace_pair_free c b Hb).
  - unfold free_of in Ha. cbn [forallb] in Ha.
    apply andb_true_iff in Ha as [Hx Ha]. apply negb_true_iff in Hx.
    cbn [app]. rewrite Errors.replace_pair_other, (IH Ha); [reflexivity|].
    cbn [starts_with]. now rewrite N.eqb_sym, Hx.
Qed.

Lemma colon_replaced (c : str) :
  is_colon c = true ->
  flat_map (fun x => if (58 =? x)%N then [65306%N] else [x]) c = [65306%N].
Proof.
  unfold is_colon. intros H.
  apply orb_true_iff in H as [H|H]; apply eqb_eq in H; subst c; reflexivity.
Qed.

Lemma line_free (c : N) (n e : str) :
  (c =? 65306)%N = false -> free_of c n = true -> free_of c e = true ->
  free_of c (n ++ 65306%N :: e) = true.
Proof.
  intros Hc Hn He. rewrite free_of_app, Hn. unfold free_of in *.
  cbn [forallb andb]. now rewrite He, N.eqb_sym, Hc.
Qed.

(** Two features, each a name, a colon and an effect, a newline or a
    blank line apart, are read as two lines with a full-width colon. *)
Lemma feature_lines (n1 c1 e1 gap n2 c2 e2 : str) :
  feature_text n1 = true -> feature_text e1 = true ->
  feature_text n2 = true -> feature_text e2 = true ->
  is_colon c1 = true -> is_colon c2 = true ->
  gap = L.nl \/ gap = L.nlnl ->
  features_of (n1 ++ c1 ++ e1 ++ gap ++ n2 ++ c2 ++ e2)
  = [n1 ++ L.wide_colon ++ e1; n2 ++ L.wide_colon ++ e2].
Proof.
  intros Hn1 He1 Hn2 He2 Hc1 Hc2 Hgap.
  destruct (feature_text_inv n1 Hn1) as (A1 & A2 & A3).
  destruct (feature_text_inv e1 He1) as (B1 & B2 & B3).
  destruct (feature_text_inv n2 Hn2) as (C1 & C2 & C3).
  destruct (feature_text_inv e2 He2) as (D1 & D2 & D3).
  unfold features_of.
  change L.colon with [58%N]. change L.wide_colon with [65306%N].
  change L.nl with [10%N] in *. change L.nlnl with [10%N; 10%N] in *.
  rewrite Domains.replace_char_flat, !flat_map_app.
  rewrite (flat_map_free 58 _ n1 A1), (flat_map_free 58 _ e1 B1),
    (flat_map_free 58 _ n2 C1), (flat_map_free 58 _ e2 D1),
    (colon_replaced c1 Hc1), (colon_replaced c2 Hc2).
  assert (Hl1 : free_of 10 (n1 ++ 65306%N :: e1) = true)
    by now apply line_free.
  assert (Hl2 : free_of 10 (n2 ++ 65306%N :: e2) = true)
    by now apply line_free.
  assert (Hmid :
    replace [10%N; 10%N] [10%N]
      (n1 ++ [65306%N] ++ e1 ++
       flat_map (fun x => if (58 =? x)%N then [65306%N] else [x]) gap ++
       n2 ++ [65306%N] ++ e2)
    = (n1 ++ 65306%N :: e1) ++ 10%N :: (n2 ++ 65306%N :: e2)).
  { destruct Hgap as [-> | ->]; cbn [flat_map app N.eqb Pos.eqb].
    - rewrite <- (replace_pair_once 10 _ _ Hl1 Hl2).
      f_equal. now rewrite <- !app_assoc.
    - rewrite <- (replace_pair_twice 10 _ _ Hl1 Hl2).
      f_equal. now rewrite <- !app_assoc. }
  rewrite Hmid.
  rewrite (split_char_app 10 _ _ Hl1), (split_char_absent 10 _ Hl2).
  reflexivity.
Qed.

Lemma line_parts (n e : str) :
  feature_text n = true -> feature_text e = true ->
  split L.wide_colon (n ++ L.wide_colon ++ e) = [n; e].
Proof.
  intros Hn He.
  destruct (feature_text_inv n Hn) as (_ & A2 & _).
  destruct (feature_text_inv e He) as (_ & B2 & _).
  rewrite (split_char_app 65306 n e A2
             : split L.wide_colon (n ++ L.wide_colon ++ e) = _).
  now rewrite (split_char_absent 65306 e B2).
Qed.

Lemma rrr_single_ancestry repr name version (a b c d e anc : list value) :
  work_rrr repr [package name version (Lists a b c d e [] anc [] [] [] [])] =
  (st <- foldM (rrr_item repr Ancestry) ([], []) anc ;;
   OK (fst st ++ map (fun kr => VDict (snd kr)) (snd st))).
Proof.
  unfold work_rrr. cbn. destruct anc as [|x anc]; [reflexivity|].
  cbn. destruct x as [| | | | |kv]; try reflexivity.
  destruct (rrr_ancestry [] kv) as [rd|]; [|reflexivity].
  cbn. destruct (foldM (rrr_item repr Ancestry) ([], rd) anc); reflexivity.
Qed.

(** X7.  An ancestry with two features comes back from zzz→rrr→zzz as one
    record: 名称 as it was, an empty 原名, 类型 种族, 简介 as it was (N/A if
    it had none), and 描述 holding the two features, each with a
    full-width colon, one newline apart. *)
Theorem ancestry_roundtrip repr E path kv n1 c1 e1 gap n2 c2 e2 :
  get kv L.type_ empty = VStr L.t_ancestry ->
  hashable (get kv L.name empty) = true ->
  get kv L.desc empty = VStr (n1 ++ c1 ++ e1 ++ gap ++ n2 ++ c2 ++ e2) ->
  feature_text n1 = true -> feature_text e1 = true ->
  feature_text n2 = true -> feature_text e2 = true ->
  is_colon c1 = true -> is_colon c2 = true ->
  gap = L.nl \/ gap = L.nlnl ->
  there_and_back repr E path [VDict kv] =
  OK (VList
        [VDict (merged (get kv L.name empty) (get kv L.summary (VStr L.na))
                  [n1 ++ L.wide_colon ++ e1; n2 ++ L.wide_colon ++ e2])]).
Proof.
  intros Ht Hh Hdesc Hn1 He1 Hn2 He2 Hc1 Hc2 Hgap.
  unfold there_and_back, work_function.
  change (Str.eqb mode_zzz mode_rrr) with false.
  change (Str.eqb mode_zzz mode_zzz) with true.
  change (Str.eqb mode_rrr mode_rrr) with true. cbn match.
  unfold work_zzz, zzz_loop. rewrite (zzz_record_ancestry E _ kv Ht).
  unfold zzz_ancestry. rewrite Hdesc. cbn [as_str bind].
  fold (features_of (n1 ++ c1 ++ e1 ++ gap ++ n2 ++ c2 ++ e2)).
  rewrite (feature_lines n1 c1 e1 gap n2 c2 e2 Hn1 He1 Hn2 He2 Hc1 Hc2 Hgap).
  cbn [index nth_error bind].
  rewrite (line_parts n1 e1 Hn1 He1), (line_parts n2 e2 Hn2 He2).
  cbn [index nth_error bind fst snd].
  unfold empty_lists, note_ancestry, add_ancestry, add_unique.
  cbn [list_mem existsb app].
  rewrite rrr_single_ancestry.
  match goal with |- context [foldM ?f ?s [VDict ?r1; VDict ?r2]] =>
    pose proof (merge_all repr (get kv L.name empty) r1 (n1, e1) [r2] [(n2, e2)] []
                  Hh ltac:(repeat split) ltac:(repeat constructor)) as Hm;
    match type of Hm with ?lhs = _ =>
      change (foldM f s [VDict r1; VDict r2]) with lhs
    end
  end.
  rewrite Hm.
  reflexivity.
Qed.

Lemma ancestry_roundtrip_witness :
  there_and_back (fun _ => []) demo_env [] [VDict demo_spaced_ancestry] =
  OK (VList
        [VDict [ (L.name, text "精灵"); (L.orig_name, text "");
                 (L.type_, text "种族"); (L.summary, text "N/A");
                 (L.desc, VStr (lit "敏捷：快" ++ L.nl ++ lit "长寿：久")) ]]).
Proof.
  exact (ancestry_roundtrip (fun _ => []) demo_env [] demo_spaced_ancestry
           (lit "敏捷") (lit ":") (lit "快") L.nlnl
           (lit "长寿") (lit "：") (lit "久")
           eq_refl eq_refl eq_refl eq_refl eq_refl eq_refl eq_refl
           eq_refl eq_refl (or_intror eq_refl)).
Defined.

End Ancestries.

(* ===================================================================== *)
(** ** The flat records of packaged variants                             *)
(* ===================================================================== *)

Module Variants.
Import Zzz2rrr Spec VariantProps DictFacts StrFacts Dispatch Loop Order.

Lemma mapM_Forall2 {A B} (f : A -> result B) (l : list A) (out : list B) :
  mapM f l = OK out -> Forall2 (fun x y => f x = OK y) l out.
Proof.
  revert out. induction l as [|x l IH]; intros out; simpl.
  - intros [= <-]. constructor.
  - destruct (f x) as [y|] eqn:Hx; simpl; [|discriminate].
    destruct (mapM f l) as [ys|]; simpl; [|discriminate].
    intros [= <-]. constructor; auto.
Qed.

Lemma set_keeps_values (P : value -> Prop) k v (d : dict) :
  P v -> Forall (fun e => P (snd e)) d ->
  Forall (fun e => P (snd e)) (dict_set k v d).
Proof.
  intros Hv H. induction H as [|[k' v'] d Hx Hd IH]; simpl.
  - repeat constructor. exact Hv.
  - destruct (Str.eqb k' k); constructor; auto.
Qed.

Lemma dict_of_values (P : value -> Prop) (l : dict) :
  Forall (fun e => P (snd e)) l -> Forall (fun e => P (snd e)) (dict_of l).
Proof.
  unfold dict_of, dict_update.
  assert (H : forall acc, Forall (fun e => P (snd e)) acc ->
                Forall (fun e => P (snd e)) l ->
                Forall (fun e => P (snd e))
                  (fold_left (fun acc kv => dict_set (fst kv) (snd kv) acc) l acc)).
  { induction l as [|[k v] l IH]; intros acc Hacc Hl; simpl; auto.
    inversion Hl; subst. apply IH; auto. now apply set_keeps_values. }
  intros Hl. apply H; auto.
Qed.

Lemma in_get (k : str) (x : value) (d : dict) :
  In (k, x) d -> dict_get k d <> None.
Proof.
  induction d as [|[k' v'] d IH]; simpl; [tauto|].
  intros [[= -> ->]|H].
  - now rewrite eqb_refl.
  - destruct (Str.eqb k' k); [discriminate|auto].
Qed.

Lemma in_set (k k' : str) (v x : value) (d : dict) :
  In (k', x) (dict_set k v d) -> k' = k \/ In (k', x) d.
Proof.
  induction d as [|[k0 v0] d IH]; simpl.
  - intros [[= -> _]|[]]. now left.
  - destruct (Str.eqb k0 k) eqn:E; simpl.
    + apply eqb_eq in E. subst. intros [[= <- _]|H]; [now left | right; now right].
    + intros [H|H]; [right; now left|].
      destruct (IH H) as [->|Hin]; [now left | right; now right].
Qed.

(** What the variant branch returns. *)
Lemma rrr_variant_clean repr (kv r : dict) :
  rrr_variant repr kv = OK r -> clean_variant (VDict kv) (VDict r).
Proof.
  unfold rrr_variant. intros H.
  set (d' := dict_pop L.image_url (dict_pop L.id kv)) in *.
  assert (Hbrief : get d' L.brief empty = get kv L.brief empty).
  { unfold get, d'. now rewrite !get_pop_other by discriminate. }
  destruct (get d' L.brief empty) as [| | | | |items] eqn:Hb; try discriminate.
  destruct (join_items repr items) as [attr|]; [|discriminate].
  cbn [bind] in H. injection H as <-.
  set (attr' := match attr with [] => [] | _ :: _ => removelast attr end).
  assert (Hkeys : forall k, dict_get k (dict_of (filter (fun e => truthy (snd e))
                                 (dict_set L.brief (VStr attr') d'))) <> None ->
            k = L.brief \/
            (dict_get k kv <> None /\ k <> L.id /\ k <> L.image_url)).
  { intros k Hk.
    destruct (get_update_cases k []
                (filter (fun e => truthy (snd e))
                        (dict_set L.brief (VStr attr') d')))
      as [Hnone|(x & Hin & _)].
    { unfold dict_of in Hk. rewrite Hnone in Hk. now elim Hk. }
    apply filter_In in Hin as [Hin _].
    destruct (in_set _ _ _ _ _ Hin) as [->|Hin']; [now left|]. right.
    unfold d', dict_pop in Hin'.
    apply filter_In in Hin' as [Hin' H1]. apply filter_In in Hin' as [Hin' H2].
    cbn [fst] in H1, H2. apply negb_true_iff, eqb_neq in H1, H2.
    split; [exact (in_get k x kv Hin')|]. split; congruence. }
  eexists kv, _. split; [reflexivity|]. split; [reflexivity|].
  split; [exists items; congruence|].
  split.
  { apply (dict_of_values (fun v => truthy v = true)).
    apply Forall_forall. intros e He. now apply filter_In in He. }
  split; [|split].
  - destruct (dict_get L.id _) eqn:Hid; [|reflexivity].
    destruct (Hkeys L.id) as [Hk|(_ & Hk & _)]; [congruence|discriminate|congruence].
  - destruct (dict_get L.image_url _) eqn:Hid; [|reflexivity].
    destruct (Hkeys L.image_url) as [Hk|(_ & _ & Hk)];
      [congruence|discriminate|congruence].
  - intros k Hk. destruct (Hkeys k Hk) as [->|(Hin & _)]; auto.
Qed.

(** X9.  Every flat record that [work_rrr] makes of a packaged variant holds
    no false value (no empty text, no zero, no empty list), no [id] and
    no [imageUrl], and no key that the packaged record has not, 简略信息
    apart; and [work_rrr] returns only when every packaged variant holds a
    mapping under 简略信息. *)
Theorem variant_records_clean repr data out :
  work_rrr repr data = OK out ->
  exists plain races,
    out = plain ++ races /\
    Forall2 (fun cd o => fst cd = Variant -> clean_variant (snd cd) o)
            (plain_items data) plain.
Proof.
  unfold work_rrr. intros H. bind_inv H. injection H as <-.
  destruct a as [o rd].
  apply packages_flat in Hb.
  destruct (visits_split _ _ _ _ _ _ Hb) as (plain & Hplain & -> & _).
  exists plain, (map (fun kr => VDict (snd kr)) rd). split; [reflexivity|].
  fold (plain_items data) in Hplain.
  apply mapM_Forall2 in Hplain.
  revert Hplain. apply Forall2_impl. intros [c d] y Hy Hc.
  cbn [fst snd] in *. subst c. unfold convert_item in Hy. cbn [fst snd] in Hy.
  destruct d as [| | | | |kv]; try discriminate.
  destruct (rrr_variant repr kv) as [r|] eqn:Hr; [|discriminate].
  injection Hy as <-. now apply (rrr_variant_clean repr).
Qed.

Lemma variant_records_clean_witness :
  exists plain races,
    [VDict [ (L.name, text "长剑"); (L.brief, text "近战") ]] = plain ++ races /\
    Forall2 (fun cd o => fst cd = Variant -> clean_variant (snd cd) o)
            (plain_items [demo_variant_package]) plain.
Proof.
  exact (variant_records_clean (fun _ => []) [demo_variant_package] _ eq_refl).
Defined.

(** X10.  A packaged variant without a mapping under 简略信息 (the key absent,
    or a text as in a flat record) makes [work_rrr] raise
    [AttributeError]. *)
Theorem variant_needs_mapping repr (pk d : dict) (rest : list value) :
  (forall c, c <> Variant -> dict_get (key_of c) pk = None) ->
  dict_get L.variant pk = Some (VList (VDict d :: rest)) ->
  (forall items, get d L.brief empty <> VDict items) ->
  work_rrr repr [VDict pk] = Raise AttributeError.
Proof.
  intros Hother Hvar Hno.
  unfold work_rrr. cbn [foldM rrr_package categories].
  unfold rrr_key. rewrite (Hother Profession), (Hother Ancestry),
    (Hother Community), (Hother Subclass), (Hother Domain) by discriminate.
  cbn [bind key_of]. rewrite Hvar. cbn [truthy iterate bind foldM rrr_item].
  unfold rrr_variant.
  assert (Hbrief : get (dict_pop L.image_url (dict_pop L.id d)) L.brief empty
                   = get d L.brief empty).
  { unfold get. now rewrite !get_pop_other by discriminate. }
  rewrite Hbrief.
  destruct (get d L.brief empty) as [| | | | |items] eqn:Hb; try reflexivity.
  now elim (Hno items).
Qed.

Lemma variant_needs_mapping_witness :
  work_rrr (fun _ => []) [VDict demo_flat_variant] = Raise AttributeError.
Proof.
  refine (variant_needs_mapping (fun _ => []) demo_flat_variant
            [ (L.name, text "长剑"); (L.brief, text "近战/物理") ] []
            _ eq_refl _).
  - intros c Hc. destruct c; try reflexivity. congruence.
  - intros items. discriminate.
Defined.

End Variants.

(* ===================================================================== *)
(** ** The identifiers of [gen_uuid]                                     *)
(* ===================================================================== *)

Module Identifiers.
Import Zzz2rrr Spec IntFacts.

Lemma digits_ascii (u : Decimal.uint) :
  forallb c_isdigit (digits_of_uint u) = true.
Proof. induction u; simpl; auto. Qed.

Lemma digits_values (u : Decimal.uint) :
  uint_of_digits (digit_values (digits_of_uint u)) = u.
Proof.
  unfold uint_of_digits. induction u; simpl; try reflexivity;
    unfold uint_of_digits in *; now rewrite IHu.
Qed.

Lemma digits_nonempty (u : Decimal.uint) :
  u <> Decimal.Nil -> exists c s, digits_of_uint u = c :: s /\ c_isdigit c = true.
Proof. destruct u; [congruence|..]; intros _; simpl; eauto. Qed.

Lemma to_int_nonnil (z : Z) :
  match Z.to_int z with
  | Decimal.Pos u | Decimal.Neg u => u <> Decimal.Nil
  end.
Proof.
  destruct z; simpl; [discriminate|..];
    apply DecimalPos.Unsigned.to_uint_nonnil.
Qed.

Lemma values_of_digits (u : Decimal.uint) (c : N) (s : str) :
  digits_of_uint u = c :: s ->
  uint_of_digits ((c - 48)%N :: map (fun x => (x - 48)%N) s) = u.
Proof.
  intros Hs. rewrite <- (digits_values u), Hs. reflexivity.
Qed.

Lemma int_of_digits (u : Decimal.uint) :
  u <> Decimal.Nil -> within_limit (Decimal.nb_digits u) = true ->
  int_of_str (digits_of_uint u) = Some (Z.of_uint u).
Proof.
  intros Hu Hlim. destruct (digits_nonempty u Hu) as (c & s & Hs & Hc).
  rewrite int_of_digit_string.
  - now rewrite digits_length, Hlim, digits_values.
  - rewrite Hs. discriminate.
  - apply digits_ascii.
Qed.

Lemma int_of_negative (u : Decimal.uint) :
  u <> Decimal.Nil -> within_limit (Decimal.nb_digits u) = true ->
  int_of_str (45%N :: digits_of_uint u) = Some (- Z.of_uint u)%Z.
Proof.
  intros Hu Hlim. destruct (digits_nonempty u Hu) as (c & s & Hs & Hc).
  pose proof (digits_ascii u) as Hall.
  pose proof (values_of_digits u c s Hs) as Hv.
  pose proof (digits_length u) as Hlen.
  unfold int_of_str. cbn [map]. rewrite (fold_digits _ Hall).
  change (ascii_fold 45) with 45%N. cbn [skip_spaces].
  change (c_isspace 45) with false. cbn match.
  change ((45 =? 45)%N) with true. cbn match.
  rewrite (scan_all_digits _ false Hall).
  rewrite Hs in *. cbn [digit_values map skip_spaces].
  assert (Hl : length ((c - 48)%N :: map (fun c0 => (c0 - 48)%N) s)
               = Decimal.nb_digits u)
    by (rewrite <- Hlen; cbn [length]; now rewrite length_map).
  rewrite Hl, Hlim. now rewrite Hv.
Qed.

(** The digits of an integer are those [str()] writes. *)
Lemma digits_of_int_uint (z : Z) :
  digits_of_int z =
  Decimal.nb_digits
    match Z.to_int z with Decimal.Pos u | Decimal.Neg u => u end.
Proof.
  unfold digits_of_int, str_of_int.
  destruct z as [|p|p]; cbn [Z.abs Z.to_int]; apply digits_length.
Qed.

(** [int()] reads back what [str()] wrote, within the limit. *)
Lemma int_of_str_of_int (z : Z) :
  within_limit (digits_of_int z) = true ->
  int_of_str (str_of_int z) = Some z.
Proof.
  rewrite digits_of_int_uint. intros Hlim.
  unfold str_of_int. pose proof (to_int_nonnil z) as Hn.
  pose proof (DecimalZ.of_to z) as Hz.
  destruct (Z.to_int z) as [u|u]; simpl in Hz.
  - now rewrite (int_of_digits u Hn Hlim), Hz.
  - now rewrite (int_of_negative u Hn Hlim), Hz.
Qed.

(** *** A 128-bit integer has 39 digits at most *)

Lemma of_uint_acc_lower (d : Decimal.uint) (acc : positive) :
  (Z.pos acc * 10 ^ Z.of_nat (Decimal.nb_digits d)
   <= Z.pos (Pos.of_uint_acc d acc))%Z.
Proof.
  revert acc. induction d; intros acc; cbn [Decimal.nb_digits Pos.of_uint_acc];
    [rewrite Z.pow_0_r; lia|..];
    rewrite Nat2Z.inj_succ, Z.pow_succ_r by lia;
    match goal with
    | |- (_ <= Z.pos (Pos.of_uint_acc _ ?a))%Z =>
      specialize (IHd a);
      assert (0 < 10 ^ Z.of_nat (Decimal.nb_digits d))%Z
        by (apply Z.pow_pos_nonneg; lia);
      nia
    end.
Qed.

(** The number that digits without a leading zero write has no fewer
    digits than they are. *)
Lemma of_uint_lower (u : Decimal.uint) :
  Decimal.nzhead u <> Decimal.Nil ->
  (10 ^ (Z.of_nat (Decimal.nb_digits (Decimal.nzhead u)) - 1)
   <= Z.of_N (Pos.of_uint u))%Z.
Proof.
  induction u; cbn [Decimal.nzhead Pos.of_uint]; intros Hne;
    [congruence|now apply IHu|..];
    cbn [Decimal.nb_digits]; rewrite Nat2Z.inj_succ;
    replace (Z.succ (Z.of_nat (Decimal.nb_digits u)) - 1)%Z
      with (Z.of_nat (Decimal.nb_digits u)) by lia;
    match goal with
    | |- (_ <= Z.of_N (N.pos (Pos.of_uint_acc _ ?a)))%Z =>
      pose proof (of_uint_acc_lower u a);
      assert (0 < 10 ^ Z.of_nat (Decimal.nb_digits u))%Z
        by (apply Z.pow_pos_nonneg; lia);
      cbn [Z.of_N]; nia
    end.
Qed.

Lemma to_uint_canonical (p : positive) :
  Decimal.nzhead (Pos.to_uint p) = Pos.to_uint p /\
  Pos.to_uint p <> Decimal.Nil.
Proof.
  pose proof (DecimalPos.Unsigned.to_of (Pos.to_uint p)) as H.
  rewrite DecimalPos.Unsigned.of_to in H. cbn [N.to_uint] in H.
  pose proof (DecimalPos.Unsigned.to_uint_nonnil p) as Hn.
  split; [|exact Hn].
  unfold Decimal.unorm in H.
  destruct (Decimal.nzhead (Pos.to_uint p)) eqn:Hz; try (symmetry; exact H).
  pose proof (DecimalPos.Unsigned.of_to p) as Ho. rewrite H in Ho.
  discriminate Ho.
Qed.

(** A number below [10 ^ k] has [k] digits at most. *)
Lemma digits_bound (z : Z) (k : nat) :
  0 < k -> (0 <= z < 10 ^ Z.of_nat k)%Z -> digits_of_int z <= k.
Proof.
  intros Hk [H0 Hz]. rewrite digits_of_int_uint.
  destruct z as [|p|p]; [cbn; lia| |lia]. cbn [Z.to_int].
  destruct (to_uint_canonical p) as [Hc Hn].
  pose proof (of_uint_lower (Pos.to_uint p)) as Hl. rewrite Hc in Hl.
  specialize (Hl Hn). rewrite DecimalPos.Unsigned.of_to in Hl.
  cbn [Z.of_N] in Hl.
  destruct (Nat.le_gt_cases (Decimal.nb_digits (Pos.to_uint p)) k) as [|Hgt];
    [assumption|].
  assert (10 ^ Z.of_nat k <= 10 ^ (Z.of_nat (Decimal.nb_digits (Pos.to_uint p)) - 1))%Z
    by (apply Z.pow_le_mono_r; lia).
  lia.
Qed.

(** A draw of [uuid4] is within the limit of [str()] and [int()]. *)
Lemma draw_within (E : env) (n : nat) :
  within_limit (digits_of_int (uuid4 E n)) = true.
Proof.
  pose proof (uuid4_range E n) as [H0 H1].
  assert (Hd : digits_of_int (uuid4 E n) <= 39).
  { apply digits_bound; [lia|]. split; [exact H0|].
    apply (Z.lt_trans _ _ _ H1). reflexivity. }
  unfold within_limit. apply N.leb_le.
  apply (N.le_trans _ (N.of_nat 39)); [lia|]. discriminate.
Qed.

(** X11.  An identifier is the decimal text of its draw, a string and not a
    number: [int()] of it is the draw, so that different draws give
    different identifiers. *)
Theorem gen_uuid_text E n m :
  (exists s, gen_uuid E n = VStr s /\ s <> []) /\
  py_int (gen_uuid E n) = OK (uuid4 E n) /\
  (gen_uuid E n = gen_uuid E m -> uuid4 E n = uuid4 E m).
Proof.
  assert (Hint : forall k, py_int (gen_uuid E k) = OK (uuid4 E k)).
  { intros k. unfold gen_uuid, py_int.
    now rewrite (int_of_str_of_int _ (draw_within E k)). }
  split; [|split].
  - exists (str_of_int (uuid4 E n)). split; [reflexivity|].
    intros Hs.
    pose proof (int_of_str_of_int (uuid4 E n) (draw_within E n)) as H.
    rewrite Hs in H. discriminate H.
  - apply Hint.
  - intros Heq. pose proof (Hint n) as H1. rewrite Heq, Hint in H1. congruence.
Qed.

Lemma gen_uuid_text_witness :
  gen_uuid demo_env 0 = text "1000" /\
  py_int (gen_uuid demo_env 0) = OK 1000%Z /\
  gen_uuid demo_env 0 <> gen_uuid demo_env 1.
Proof.
  destruct (gen_uuid_text demo_env 0 1) as (_ & Hint & Hinj).
  split; [reflexivity|]. split; [exact Hint|].
  intros Heq. specialize (Hinj Heq). vm_compute in Hinj. discriminate Hinj.
Defined.

End Identifiers.
(* ===================================================================== *)
(** ** zzz2keyword: the summaries                                        *)
(* ===================================================================== *)

Module Summaries.
Import Zzz2keyword Spec KeywordProps DictFacts StrFacts Keyword.

(** *** [strip] *)

Lemma lstrip_fixed (c : N) (r : str) :
  is_space c = false -> lstrip (c :: r) = c :: r.
Proof. intros H. simpl. now rewrite H. Qed.

Lemma lstrip_head (s : str) :
  lstrip s = [] \/ exists c r, lstrip s = c :: r /\ is_space c = false.
Proof.
  induction s as [|x s IH]; [now left|].
  simpl. destruct (is_space x) eqn:Hx; [exact IH|]. right. eauto.
Qed.

Lemma lstrip_idem (s : str) : lstrip (lstrip s) = lstrip s.
Proof.
  destruct (lstrip_head s) as [->|(c & r & -> & Hc)]; [reflexivity|].
  now apply lstrip_fixed.
Qed.

Lemma lstrip_snoc (a : str) (c : N) :
  is_space c = false -> lstrip (a ++ [c]) = lstrip a ++ [c].
Proof.
  intros Hc. induction a as [|x a IH]; simpl.
  - now rewrite Hc.
  - destruct (is_space x); [exact IH|reflexivity].
Qed.

Lemma lstrip_snoc_space (a : str) (c : N) :
  is_space c = true ->
  lstrip (a ++ [c]) = match lstrip a with [] => [] | _ :: _ => lstrip a ++ [c] end.
Proof.
  intros Hc. induction a as [|x a IH]; simpl.
  - now rewrite Hc.
  - destruct (is_space x); [exact IH|reflexivity].
Qed.

Lemma trimmed_strip (s : str) : trimmed (strip s).
Proof.
  unfold trimmed, strip. rewrite rev_involutive, lstrip_idem.
  split; [|reflexivity].
  destruct (lstrip_head s) as [->|(c & r & -> & Hc)]; [reflexivity|].
  cbn [rev]. rewrite (lstrip_snoc (rev r) c Hc), rev_app_distr.
  cbn [rev app]. now apply lstrip_fixed.
Qed.

Lemma strip_trimmed (s : str) : trimmed s -> strip s = s.
Proof.
  intros [H1 H2]. unfold strip. now rewrite H1, H2, rev_involutive.
Qed.

Lemma strip_snoc_space (s : str) (c : N) :
  is_space c = true -> strip (s ++ [c]) = strip s.
Proof.
  intros Hc. unfold strip. rewrite (lstrip_snoc_space s c Hc).
  destruct (lstrip s) as [|x r]; [reflexivity|].
  rewrite rev_app_distr.
  change (lstrip (rev [c] ++ rev (x :: r)))
    with (if is_space c then lstrip (rev (x :: r)) else c :: rev (x :: r)).
  now rewrite Hc.
Qed.

(** *** One record *)

Lemma join_lines (lines : list str) :
  flat_map (fun l => l ++ L.nl) lines =
  match lines with [] => [] | _ :: _ => join L.nl lines ++ L.nl end.
Proof.
  induction lines as [|l ls IH]; [reflexivity|].
  cbn [flat_map]. rewrite IH. destruct ls as [|m ls].
  - now rewrite app_nil_r.
  - change (join L.nl (l :: m :: ls)) with (l ++ L.nl ++ join L.nl (m :: ls)).
    now rewrite <- !app_assoc.
Qed.

Section Record.
Variable repr : value -> str.

Lemma describe_lines (d : dict) (acc : str) :
  fold_left
    (fun desc kv =>
       if Str.eqb (fst kv) L.name then desc
       else desc ++ fst kv ++ L.colon ++ format_with repr (snd kv) ++ L.nl)
    d acc
  = acc ++ flat_map (fun l => l ++ L.nl)
             (map (entry_line repr)
                  (filter (fun e => negb (Str.eqb (fst e) L.name)) d)).
Proof.
  revert acc. induction d as [|[k v] d IH]; intros acc; simpl.
  - now rewrite app_nil_r.
  - rewrite IH. destruct (Str.eqb k L.name); simpl; [reflexivity|].
    unfold entry_line. simpl. repeat (rewrite <- app_assoc; cbn [app]).
    reflexivity.
Qed.

Lemma describe_strip (kv : dict) :
  strip (describe repr (popped kv)) = strip (description_of repr kv).
Proof.
  unfold describe, description_of, described.
  rewrite describe_lines, popped_filter, join_lines. cbn [app].
  destruct (map (entry_line repr) _) as [|l ls]; [reflexivity|].
  apply (strip_snoc_space _ 10). reflexivity.
Qed.

Lemma popped_type (kv : dict) :
  Zzz2rrr.get
    (dict_pop L.relation_qs (dict_pop L.background_qs (dict_pop L.orig_name kv)))
    L.type_ (VStr default_type)
  = Zzz2rrr.get kv L.type_ (VStr default_type).
Proof. unfold Zzz2rrr.get. now rewrite !get_pop_other by discriminate. Qed.

Lemma popped_domain (kv : dict) :
  Zzz2rrr.get (popped kv) L.domain Zzz2rrr.empty
  = Zzz2rrr.get kv L.domain Zzz2rrr.empty.
Proof.
  unfold Zzz2rrr.get, popped. now rewrite !get_pop_other by discriminate.
Qed.

(** What a turn of the loop returns for a record. *)
Lemma work_record_summary (d o : value) :
  fst (work_record repr d) = OK o ->
  summary_fields d o /\ summary_description repr d o.
Proof.
  destruct d as [| | | | |kv]; try discriminate.
  unfold work_record. cbn [fst]. rewrite popped_type.
  fold (popped kv). rewrite popped_domain.
  intros H.
  assert (Hcat : exists cat, category_rule kv cat /\
            o = VDict [ (k_keyword, Zzz2rrr.get kv L.name Zzz2rrr.empty);
                        (k_category, cat);
                        (k_description, VStr (strip (describe repr (popped kv))));
                        (k_display, VStr normal) ]).
  { unfold category_rule.
    destruct (is_str L.t_domain (Zzz2rrr.get kv L.type_ (VStr default_type))).
    - destruct (Zzz2rrr.get kv L.domain Zzz2rrr.empty) as [| | |s| |];
        try discriminate.
      cbn [as_str_operand bind] in H. injection H as <-.
      eexists. split; [exists s; split; reflexivity|reflexivity].
    - cbn [bind] in H. injection H as <-.
      eexists. split; reflexivity. }
  destruct Hcat as (cat & Hrule & ->). split.
  - eexists kv, cat, _. auto.
  - eexists kv, _. split; [reflexivity|]. split; [reflexivity|].
    rewrite describe_strip. split; [reflexivity|].
    split; [apply trimmed_strip|apply strip_trimmed].
Qed.

Lemma work_loop_outputs (data lst out : list value) :
  fst (work_loop repr lst data) = OK out ->
  exists outs, out = lst ++ outs /\
    Forall2 (fun d o => fst (work_record repr d) = OK o) data outs.
Proof.
  revert lst out. induction data as [|d ds IH]; intros lst out.
  - simpl. intros [= <-]. exists []. now rewrite app_nil_r.
  - cbn [work_loop].
    destruct (work_record repr d) as [[dic|e] d'] eqn:Hr; [|discriminate].
    destruct (work_loop repr (lst ++ [dic]) ds) as [r rest] eqn:Hl.
    cbn [fst]. intros ->.
    destruct (IH (lst ++ [dic]) out) as (outs & -> & Hall);
      [now rewrite Hl|].
    exists (dic :: outs). rewrite <- app_assoc. split; [reflexivity|].
    constructor; [now rewrite Hr|exact Hall].
Qed.

Lemma work_outputs (l out : list value) :
  fst (work repr (VList l)) = OK out ->
  Forall2 (fun d o => fst (work_record repr d) = OK o) l out.
Proof.
  unfold work. destruct (work_loop repr [] l) as [r l'] eqn:Hl. cbn [fst].
  intros ->. destruct (work_loop_outputs l [] out) as (outs & -> & H);
    [now rewrite Hl|exact H].
Qed.
End Record.

Lemma summaries_have_fields repr l out :
  fst (work repr (VList l)) = OK out -> Forall2 summary_fields l out.
Proof.
  intros H. apply work_outputs in H. revert H. apply Forall2_impl.
  intros d o Ho. now apply (work_record_summary repr d o).
Qed.

(** X12.  Every summary [work] returns has the four fields keyword, category,
    description and display, in this order: keyword is the 名称 of the
    record (empty if it has none), display is normal, and category is its
    类型 (默认类型 if it has none), for a domain card 领域卡, a dash and
    its 领域. *)
Theorem keyword_summary_fields repr l out :
  fst (work repr (VList l)) = OK out -> Forall2 summary_fields l out.
Proof.
  intros H. apply work_outputs in H. revert H. apply Forall2_impl.
  intros d o Ho. now apply (work_record_summary repr d o).
Qed.

Lemma keyword_summary_fields_witness :
  exists o1 o2,
    fst (work (fun _ => [])
           (VList [VDict demo_profession; VDict (demo_domain_card "2")]))
      = OK [o1; o2] /\
    summary_fields (VDict demo_profession) o1 /\
    summary_fields (VDict (demo_domain_card "2")) o2 /\
    field k_category o2 = Some (text "领域卡-奥秘").
Proof.
  pose proof (keyword_summary_fields (fun _ => [])
                [VDict demo_profession; VDict (demo_domain_card "2")] _ eq_refl)
    as H.
  eexists _, _. split; [reflexivity|].
  inversion H as [|? ? ? ? H1 H']; subst.
  inversion H' as [|? ? ? ? H2 _]; subst.
  split; [exact H1|]. split; [exact H2|reflexivity].
Defined.

(** X13.  The description of a summary is the lines "key:value" of the entries
    of the record, 名称, 原名, 背景问题, 关系问题 and 类型 apart, in their
    order and a newline apart, with the white space at both ends of the
    whole text removed: it never starts or ends with white space, and it is
    the lines as they are when they do not. *)
Theorem keyword_description repr l out :
  fst (work repr (VList l)) = OK out ->
  Forall2 (summary_description repr) l out.
Proof.
  intros H. apply work_outputs in H. revert H. apply Forall2_impl.
  intros d o Ho. now apply (work_record_summary repr d o).
Qed.

Lemma keyword_description_witness :
  exists o,
    fst (work (fun _ => []) (VList [VDict (demo_domain_card "2")])) = OK [o] /\
    summary_description (fun _ => []) (VDict (demo_domain_card "2")) o /\
    field k_description o =
      Some (VStr (lit "领域:奥秘" ++ L.nl ++ lit "等级:1" ++ L.nl ++
                  lit "属性:法术" ++ L.nl ++ lit "回想:2" ++ L.nl ++
                  lit "描述:造成伤害")).
Proof.
  pose proof (keyword_description (fun _ => [])
                [VDict (demo_domain_card "2")] _ eq_refl) as H.
  eexists. split; [reflexivity|].
  inversion H as [|? ? ? ? H1 _]; subst.
  split; [exact H1|reflexivity].
Defined.

(** *** Running [work] again on the same records *)

Section Again.
Variable repr : value -> str.

Lemma stripped_record (kv : dict) :
  exists o2,
    fst (work_record repr (VDict (without_popped kv))) = OK o2 /\
    field k_keyword o2 = Some (Zzz2rrr.get kv L.name Zzz2rrr.empty) /\
    field k_category o2 = Some (VStr default_type).
Proof.
  unfold work_record. cbn [fst]. rewrite popped_type.
  assert (Ht : Zzz2rrr.get (without_popped kv) L.type_ (VStr default_type)
               = VStr default_type).
  { unfold Zzz2rrr.get. now rewrite get_without_popped. }
  assert (Hn : Zzz2rrr.get (without_popped kv) L.name Zzz2rrr.empty
               = Zzz2rrr.get kv L.name Zzz2rrr.empty).
  { unfold Zzz2rrr.get. now rewrite get_without_popped. }
  rewrite Ht, Hn.
  change (is_str L.t_domain (VStr default_type)) with false. cbn [bind].
  eexists. split; [reflexivity|]. split; reflexivity.
Qed.

Lemma loop_again (l out : list value) :
  Forall2 summary_fields l out ->
  forall lst, exists out2,
    fst (work_loop repr lst (map after_work l)) = OK (lst ++ out2) /\
    Forall2 summed_again out out2.
Proof.
  induction 1 as [|d o l out (kv & cat & desc & -> & -> & _) _ IH]; intros lst.
  - exists []. simpl. now rewrite app_nil_r.
  - cbn [map after_work work_loop].
    destruct (stripped_record kv) as (o2 & Ho2 & Hk & Hc).
    destruct (work_record repr (VDict (without_popped kv))) as [r d'].
    cbn [fst] in Ho2. subst r.
    destruct (IH (lst ++ [o2])) as (out2 & Hout2 & Hall).
    destruct (work_loop repr (lst ++ [o2]) (map after_work l)) as [r rest].
    cbn [fst] in *. subst r.
    exists (o2 :: out2). rewrite <- app_assoc. split; [reflexivity|].
    constructor; [|exact Hall]. split; [exact Hk|exact Hc].
Qed.
End Again.

(** X14.  [work] cannot be run twice on the same records: a first run takes
    their 类型 away, so that a second run on them returns, for every
    record, the same keyword and the category 默认类型. *)
Theorem second_run_default_category repr l out :
  fst (work repr (VList l)) = OK out ->
  exists out2,
    fst (work repr (snd (work repr (VList l)))) = OK out2 /\
    Forall2 summed_again out out2.
Proof.
  intros H.
  pose proof (summaries_have_fields repr l out H) as Hfields.
  destruct (work_loop_effect repr l []) as (k & Hk & Hsnd & Hfst).
  unfold work in *. destruct (work_loop repr [] l) as [r l'] eqn:Hl.
  cbn [fst snd] in *. subst r.
  destruct (Hfst out eq_refl) as [-> _].
  rewrite firstn_all, skipn_all, app_nil_r in Hsnd. subst l'.
  destruct (loop_again repr l out Hfields []) as (out2 & Hout2 & Hall).
  destruct (work_loop repr [] (map after_work l)) as [r rest].
  exists out2. split; [exact Hout2|exact Hall].
Qed.

Lemma second_run_default_category_witness :
  exists out2,
    fst (work (fun _ => [])
           (snd (work (fun _ => []) (VList [VDict (demo_domain_card "2")]))))
      = OK out2 /\
    Forall2 summed_again
      [VDict [ (k_keyword, text "火球术"); (k_category, text "领域卡-奥秘");
               (k_description,
                VStr (lit "领域:奥秘" ++ L.nl ++ lit "等级:1" ++ L.nl ++
                      lit "属性:法术" ++ L.nl ++ lit "回想:2" ++ L.nl ++
                      lit "描述:造成伤害"));
               (k_display, text "normal") ]]
      out2.
Proof.
  exact (second_run_default_category (fun _ => [])
           [VDict (demo_domain_card "2")] _ eq_refl).
Defined.

End Summaries.

(* ===================================================================== *)
(** ** zzz2rink: adversaries and the items of [main]                     *)
(* ===================================================================== *)

Module Adversaries.
Import Zzz2rrr Zzz2rink Spec KeywordProps RinkProps DictFacts StrFacts
  Loop Summaries.

(** *** Splitting 经历 *)

Lemma re_split_free (s : str) : comma_free s = true -> re_split is_comma s = [s].
Proof.
  unfold comma_free. induction s as [|x s IH]; [reflexivity|].
  cbn [forallb re_split]. intros H. apply andb_true_iff in H as [Hx Hs].
  apply negb_true_iff in Hx. now rewrite Hx, (IH Hs).
Qed.

Lemma re_split_app (a b : str) (c : N) :
  comma_free a = true -> is_comma c = true ->
  re_split is_comma (a ++ c :: b) = a :: re_split is_comma b.
Proof.
  unfold comma_free. intros Ha Hc. induction a as [|x a IH].
  - cbn [app re_split]. now rewrite Hc.
  - cbn [forallb] in Ha. apply andb_true_iff in Ha as [Hx Ha].
    apply negb_true_iff in Hx. cbn [app re_split]. now rewrite Hx, (IH Ha).
Qed.

Lemma re_split_parts (s : str) :
  Forall (fun p => comma_free p = true) (re_split is_comma s).
Proof.
  induction s as [|x s IH]; [repeat constructor|].
  cbn [re_split]. destruct (is_comma x) eqn:Hx.
  - constructor; [reflexivity|exact IH].
  - destruct (re_split is_comma s) as [|w ws].
    + repeat constructor. unfold comma_free. cbn [forallb]. now rewrite Hx.
    + inversion IH as [|? ? Hw Hws]; subst. constructor; [|exact Hws].
      unfold comma_free in *. cbn [forallb]. now rewrite Hx, Hw.
Qed.

Lemma white_comma_free (w : str) : white w = true -> comma_free w = true.
Proof.
  unfold white, comma_free. apply Errors.forallb_weaken. intros x Hx.
  apply negb_true_iff. unfold is_comma, comma_class. cbn [existsb].
  destruct (N.eqb_spec x 65292) as [->|_]; [discriminate Hx|].
  destruct (N.eqb_spec x 44) as [->|_]; [discriminate Hx|reflexivity].
Qed.

Lemma comma_free_app (a b : str) :
  comma_free (a ++ b) = comma_free a && comma_free b.
Proof. apply forallb_app. Qed.

(** *** [strip] again *)

Lemma lstrip_white (w s : str) : white w = true -> lstrip (w ++ s) = lstrip s.
Proof.
  unfold white. induction w as [|x w IH]; [reflexivity|].
  cbn [forallb app lstrip]. intros H. apply andb_true_iff in H as [Hx Hw].
  now rewrite Hx, (IH Hw).
Qed.

Lemma white_rev (w : str) : white w = true -> white (rev w) = true.
Proof.
  unfold white. intros H. apply forallb_forall. intros x Hx.
  apply in_rev in Hx. now apply (proj1 (forallb_forall _ _) H).
Qed.

Lemma strip_padded (w1 p w2 : str) :
  white w1 = true -> white w2 = true -> trimmed p ->
  strip (w1 ++ p ++ w2) = p.
Proof.
  intros H1 H2 [Hp Hr]. unfold strip.
  rewrite (lstrip_white w1 _ H1).
  destruct p as [|c p].
  - cbn [app]. rewrite <- (app_nil_r w2), (lstrip_white w2 [] H2). reflexivity.
  - assert (Hc : is_space c = false).
    { simpl in Hp. destruct (is_space c); [|reflexivity].
      exfalso. clear - Hp.
      assert (Hlen : length (lstrip p) <= length p).
      { clear. induction p as [|x p IH]; simpl; [lia|].
        destruct (is_space x); simpl; lia. }
      rewrite Hp in Hlen. simpl in Hlen. lia. }
    change ((c :: p) ++ w2) with (c :: (p ++ w2)).
    rewrite (lstrip_fixed c _ Hc).
    change (c :: p ++ w2) with ((c :: p) ++ w2).
    rewrite rev_app_distr, (lstrip_white (rev w2) _ (white_rev w2 H2)), Hr.
    apply rev_involutive.
Qed.

Lemma stripped_cons (p : str) (rest : list str) (w1 w2 : str) :
  white w1 = true -> white w2 = true -> clean_text p ->
  stripped_nonempty ((w1 ++ p ++ w2) :: rest) = p :: stripped_nonempty rest.
Proof.
  intros H1 H2 (Hne & Htr & _). unfold stripped_nonempty. cbn [filter].
  rewrite (strip_padded w1 p w2 H1 H2 Htr).
  destruct p as [|c p]; [congruence|]. cbn [map].
  now rewrite (strip_padded w1 (c :: p) w2 H1 H2 Htr).
Qed.

(** Clean texts with a comma between them, and white space around the
    comma, are split into these texts. *)
Lemma experiences_split (pieces : list str) (w1 w2 : str) (c : N) :
  Forall clean_text pieces -> pieces <> [] ->
  white w1 = true -> white w2 = true -> is_comma c = true ->
  forall w, white w = true ->
  stripped_nonempty
    (re_split is_comma (w ++ join (w1 ++ [c] ++ w2) pieces)) = pieces.
Proof.
  intros Hall Hne H1 H2 Hc.
  induction Hall as [|p ps Hp Hps IH]; [congruence|]. intros w Hw.
  destruct ps as [|q ps].
  - cbn [join]. rewrite re_split_free.
    + pose proof (stripped_cons p [] w [] Hw eq_refl Hp) as Hs.
      rewrite app_nil_r in Hs. exact Hs.
    + rewrite comma_free_app, (white_comma_free w Hw).
      now destruct Hp as (_ & _ & ->).
  - rewrite Ancestries.join_cons2.
    replace (w ++ p ++ (w1 ++ [c] ++ w2) ++ join (w1 ++ [c] ++ w2) (q :: ps))
      with ((w ++ p ++ w1) ++ c :: (w2 ++ join (w1 ++ [c] ++ w2) (q :: ps)))
      by (rewrite <- !app_assoc; reflexivity).
    rewrite re_split_app; [|
      rewrite !comma_free_app, (white_comma_free w Hw), (white_comma_free w1 H1);
      now destruct Hp as (_ & _ & ->) | exact Hc].
    etransitivity; [exact (stripped_cons p _ w w1 Hw H1 Hp)|].
    f_equal. apply IH; [discriminate|exact H2].
Qed.

Lemma lstrip_comma_free (s : str) :
  comma_free s = true -> comma_free (lstrip s) = true.
Proof.
  unfold comma_free. induction s as [|x s IH]; [reflexivity|].
  cbn [forallb lstrip]. intros H. destruct (is_space x).
  - apply andb_true_iff in H as [_ Hs]. auto.
  - exact H.
Qed.

Lemma rev_comma_free (s : str) :
  comma_free s = true -> comma_free (rev s) = true.
Proof.
  unfold comma_free. intros H. apply forallb_forall. intros x Hx.
  apply in_rev in Hx. now apply (proj1 (forallb_forall _ _) H).
Qed.

Lemma strip_comma_free (s : str) :
  comma_free s = true -> comma_free (strip s) = true.
Proof.
  intros H. unfold strip.
  now apply rev_comma_free, lstrip_comma_free, rev_comma_free,
    lstrip_comma_free.
Qed.

Lemma stripped_clean (l : list str) :
  Forall (fun p => comma_free p = true) l ->
  Forall clean_text (stripped_nonempty l).
Proof.
  unfold stripped_nonempty. induction 1 as [|x l Hx _ IH]; [constructor|].
  cbn [filter]. destruct (strip x) as [|c r] eqn:Hs; [exact IH|].
  cbn [map]. constructor; [|exact IH].
  rewrite Hs. rewrite <- Hs. split; [rewrite Hs; discriminate|].
  split; [apply trimmed_strip|now apply strip_comma_free].
Qed.

(** *** [convert_enemy] *)

Lemma enemy_traits repr (traits : list value) :
  Forall (fun t => exists d, t = VDict d) traits ->
  exists outs, mapM (convert_enemy_trait repr) traits = OK outs.
Proof.
  induction 1 as [|t traits (d & ->) _ (outs & IH)].
  - exists []. reflexivity.
  - eexists. cbn [mapM convert_enemy_trait bind]. rewrite IH. reflexivity.
Qed.

(** X15.  The experiences of a converted adversary are clean, whatever 经历
    held: no experience is empty, none has a comma, none starts or ends
    with white space. *)
Theorem experiences_clean repr kv dest :
  convert_enemy repr (VDict kv) = OK dest ->
  exists es,
    field k_experiences dest = Some (VList es) /\
    Forall clean_experience es.
Proof.
  unfold convert_enemy. intros H. bind_inv H. injection H as <-.
  eexists. split; [reflexivity|].
  destruct (truthy (get kv k_experience empty)); [|injection Hb0 as <-; constructor].
  destruct (get kv k_experience empty) as [| | |s| |]; try discriminate.
  injection Hb0 as <-.
  pose proof (stripped_clean _ (re_split_parts s)) as Hc.
  induction Hc as [|x l Hx _ IH]; [constructor|].
  cbn [map]. constructor; [exists x; auto|exact IH].
Qed.

Lemma experiences_clean_witness :
  exists es,
    field k_experiences demo_converted_enemy = Some (VList es) /\
    es = [text "潜行"; text "伏击"; text "追踪"] /\
    Forall clean_experience es.
Proof.
  destruct (experiences_clean (fun _ => []) demo_enemy demo_converted_enemy
              ltac:(vm_compute; reflexivity))
    as (es & Hes & Hclean).
  exists es. split; [exact Hes|]. split; [|exact Hclean].
  vm_compute in Hes. now injection Hes as <-.
Defined.

Lemma join_nonempty (sep p : str) (ps : list str) :
  p <> [] -> join sep (p :: ps) <> [].
Proof.
  intros Hp. destruct ps as [|q ps]; [exact Hp|].
  rewrite Ancestries.join_cons2. destruct p; [congruence|discriminate].
Qed.

(** X16.  Clean experiences written with a comma between them, ASCII or
    full-width, with or without white space around it, are the
    experiences of the converted adversary, in their order. *)
Theorem experiences_roundtrip repr kv pieces w1 c w2 :
  plain_enemy kv ->
  get kv k_experience empty = VStr (join (w1 ++ [c] ++ w2) pieces) ->
  Forall clean_text pieces ->
  white w1 = true -> white w2 = true -> is_comma c = true ->
  exists dest,
    convert_enemy repr (VDict kv) = OK dest /\
    field k_experiences dest = Some (VList (map VStr pieces)).
Proof.
  intros ((a & Ha) & traits & Ht & Hall) Hexp Hclean H1 H2 Hc.
  destruct (enemy_traits repr traits Hall) as (outs & Houts).
  unfold convert_enemy. rewrite Ha, Hexp, Ht.
  assert (Hatt : exists ab,
    (if truthy (VStr a)
     then s <- as_str (VStr a) ;;
          OK (if starts_with L.plus s then VStr (skipn 1 s) else VStr a)
     else OK (VStr a)) = OK ab).
  { destruct (truthy (VStr a)); cbn [as_str bind]; eauto. }
  destruct Hatt as (ab & ->). cbn [bind].
  assert (Hes :
    (if truthy (VStr (join (w1 ++ [c] ++ w2) pieces))
     then OK (map VStr (stripped_nonempty
                (re_split is_comma (join (w1 ++ [c] ++ w2) pieces))))
     else OK []) = OK (map VStr pieces)).
  { destruct pieces as [|p ps]; [reflexivity|].
    assert (Hne : join (w1 ++ [c] ++ w2) (p :: ps) <> []).
    { apply join_nonempty. inversion Hclean as [|? ? (Hp & _) _]. exact Hp. }
    assert (Htr : truthy (VStr (join (w1 ++ [c] ++ w2) (p :: ps))) = true)
      by (destruct (join (w1 ++ [c] ++ w2) (p :: ps)); [congruence|reflexivity]).
    pose proof (experiences_split (p :: ps) w1 w2 c Hclean ltac:(discriminate)
                  H1 H2 Hc [] eq_refl) as Hsp.
    cbn [app] in Hsp. rewrite Htr. f_equal. f_equal. exact Hsp. }
  rewrite Hes. cbn [bind py_iter]. rewrite Houts. cbn [bind].
  eexists. split; reflexivity.
Qed.

Lemma experiences_roundtrip_witness :
  exists dest,
    convert_enemy (fun _ => [])
      (VDict [ (k_experience, text "潜行 ， 伏击 ， 追踪") ]) = OK dest /\
    field k_experiences dest
      = Some (VList [text "潜行"; text "伏击"; text "追踪"]).
Proof.
  refine (experiences_roundtrip (fun _ => [])
            [ (k_experience, text "潜行 ， 伏击 ， 追踪") ]
            [lit "潜行"; lit "伏击"; lit "追踪"] (lit " ") 65292%N (lit " ")
            _ eq_refl _ eq_refl eq_refl eq_refl).
  - split; [exists []; reflexivity|].
    exists []. split; [reflexivity|constructor].
  - repeat constructor; discriminate.
Defined.

(** X17.  The threshold of a converted adversary is the text of 重度伤害阈值,
    a slash and the text of 严重伤害阈值, for texts and for numbers; its
    attack bonus is 攻击命中 without its first character if that is a
    plus, and 攻击命中 as it is otherwise. *)
Theorem enemy_combat_fields repr kv dest :
  convert_enemy repr (VDict kv) = OK dest ->
  (forall h s,
     get kv k_heavy empty = VStr h -> get kv k_severe empty = VStr s ->
     field k_threshold dest = Some (VStr (h ++ L.slash ++ s))) /\
  (forall h s,
     get kv k_heavy empty = VInt h -> get kv k_severe empty = VInt s ->
     field k_threshold dest =
       Some (VStr (str_of_int h ++ L.slash ++ str_of_int s))) /\
  (forall s,
     get kv k_attack empty = VStr (L.plus ++ s) ->
     field k_attack_bonus dest = Some (VStr s)) /\
  (forall s,
     get kv k_attack empty = VStr s -> starts_with L.plus s = false ->
     field k_attack_bonus dest = Some (VStr s)).
Proof.
  unfold convert_enemy. intros H. bind_inv H. injection H as <-.
  split; [|split; [|split]].
  - intros h s Hh Hs. rewrite Hh, Hs. reflexivity.
  - intros h s Hh Hs. rewrite Hh, Hs. reflexivity.
  - intros s Hs. rewrite Hs in Hb. cbn [truthy app L.plus as_str bind] in Hb.
    change (starts_with [43%N] (43%N :: s)) with true in Hb.
    injection Hb as <-. reflexivity.
  - intros s Hs Hplus. rewrite Hs in Hb.
    destruct (truthy (VStr s)); cbn [as_str bind] in Hb;
      [rewrite Hplus in Hb|]; injection Hb as <-; reflexivity.
Qed.

Lemma enemy_combat_fields_witness :
  field k_threshold demo_converted_enemy = Some (text "5/11") /\
  field k_attack_bonus demo_converted_enemy = Some (text "3").
Proof.
  destruct (enemy_combat_fields (fun _ => []) demo_enemy demo_converted_enemy
              ltac:(vm_compute; reflexivity))
    as (_ & Hint & Hplus & _).
  split; [exact (Hint 5%Z 11%Z eq_refl eq_refl)|exact (Hplus (lit "3") eq_refl)].
Defined.

(** *** The items of [main] *)

Section Items.
Variable repr : value -> str.

Lemma enemy_truthy (d r : value) :
  convert_enemy repr d = OK r -> truthy r = true.
Proof.
  intros H. destruct d as [| | | | |kv]; try discriminate.
  unfold convert_enemy in H. bind_inv H. injection H as <-. reflexivity.
Qed.

Lemma environment_truthy (d r : value) :
  convert_environment repr d = OK r -> truthy r = true.
Proof.
  intros H. destruct d as [| | | | |kv]; try discriminate.
  unfold convert_environment in H. bind_inv H. injection H as <-.
  reflexivity.
Qed.

(** A turn of the loop of [main]: an item of a known 类型 adds its
    conversion and prints nothing, any other record adds nothing and
    prints one line. *)
Lemma process_item_cases (item r : value) (out : list str) :
  process_item repr item = (OK r, out) ->
  (exists kv, item = VDict kv) /\
  if rink_type item
  then convert_by_type repr item = OK r /\ truthy r = true /\ out = []
  else r = VNone /\ length out = 1.
Proof.
  intros H. destruct item as [| | | | |kv]; try discriminate.
  unfold process_item in H. unfold rink_type, convert_by_type.
  split; [eauto|].
  destruct (is_str t_enemy (get kv L.type_ VNone)).
  - assert (Hc : convert_enemy repr (VDict kv) = OK r) by congruence.
    assert (Ho : out = []) by congruence.
    cbn [orb]. split; [exact Hc|].
    split; [exact (enemy_truthy _ _ Hc)|exact Ho].
  - cbn [orb]. destruct (is_str t_environment (get kv L.type_ VNone)).
    + assert (Hc : convert_environment repr (VDict kv) = OK r) by congruence.
      assert (Ho : out = []) by congruence.
      split; [exact Hc|].
      split; [exact (environment_truthy _ _ Hc)|exact Ho].
    + injection H as <- <-. split; reflexivity.
Qed.

Lemma convert_items_spec (items acc out : list value) (log : list str) :
  convert_items repr acc items = (OK out, log) ->
  Forall (fun item => exists kv, item = VDict kv) items /\
  exists outs,
    out = acc ++ outs /\
    mapM (convert_by_type repr) (filter rink_type items) = OK outs /\
    length log = length (filter (fun item => negb (rink_type item)) items).
Proof.
  revert acc out log. induction items as [|item items IH]; intros acc out log.
  - simpl. intros [= <- <-]. split; [constructor|].
    exists []. now rewrite app_nil_r.
  - cbn [convert_items].
    destruct (process_item repr item) as [[r|e] o] eqn:Hp; [|discriminate].
    destruct (process_item_cases item r o Hp) as [Hd Hcase].
    destruct (convert_items repr (if truthy r then acc ++ [r] else acc) items)
      as [res log'] eqn:Hrest.
    intros [= -> <-].
    destruct (IH _ _ _ Hrest) as (Hall & outs & -> & Hm & Hlen).
    split; [now constructor|].
    cbn [filter]. destruct (rink_type item).
    + destruct Hcase as (Hc & Htr & ->). rewrite Htr.
      exists (r :: outs). rewrite <- app_assoc. split; [reflexivity|].
      cbn [mapM negb app]. rewrite Hc, Hm. split; [reflexivity|exact Hlen].
    + destruct Hcase as (-> & Ho). cbn [truthy negb].
      exists outs. split; [reflexivity|]. split; [exact Hm|].
      rewrite length_app, Ho, Hlen. reflexivity.
Qed.
End Items.

(** X18.  The list [main] writes holds the conversions of the items whose 类型
    is 敌人 or 环境, one for each and in their order: no conversion is
    dropped.  Every other record is left out, with one line printed for
    it. *)
Theorem rink_items_converted repr l out log :
  converted_data repr (VList l) = (OK (Some out), log) ->
  Forall (fun item => exists kv, item = VDict kv) l /\
  mapM (convert_by_type repr) (filter rink_type l) = OK out /\
  length out = length (filter rink_type l) /\
  length log = length (filter (fun item => negb (rink_type item)) l).
Proof.
  unfold converted_data.
  destruct (convert_items repr [] l) as [[res|e] log'] eqn:Hc; [|discriminate].
  cbn [bind]. intros [= -> ->].
  destruct (convert_items_spec repr l [] out log Hc)
    as (Hall & outs & -> & Hm & Hlen).
  cbn [app]. split; [exact Hall|]. split; [exact Hm|]. split; [|exact Hlen].
  apply Variants.mapM_Forall2 in Hm.
  symmetry. exact (Forall2_length Hm).
Qed.

Lemma rink_items_converted_witness :
  converted_data (fun _ => []) (VList demo_items)
    = (OK (Some demo_items_out), demo_items_log) /\
  length demo_items_out = 2 /\ length demo_items_log = 1.
Proof.
  assert (H : converted_data (fun _ => []) (VList demo_items)
              = (OK (Some demo_items_out), demo_items_log))
    by (vm_compute; reflexivity).
  split; [exact H|].
  destruct (rink_items_converted (fun _ => []) demo_items
              demo_items_out demo_items_log H) as (_ & _ & Hout & Hlog).
  split; [exact Hout|exact Hlog].
Defined.

End Adversaries.

(* ===================================================================== *)
(** ** merge_zzz: the merged list                                        *)
(* ===================================================================== *)

Module Merging.
Import Merge_zzz MergeProps.

Section Files.
Variable json_load : str -> loaded.

Lemma merge_from_spec (fps : list str) (merged : list value) :
  (forall fp, In fp fps -> json_load fp <> Unopened) ->
  merge_from json_load merged fps
  = inl (merged ++ flat_map (list_root json_load) fps).
Proof.
  revert merged. induction fps as [|fp fps IH]; intros merged Hall; simpl.
  - now rewrite app_nil_r.
  - assert (Hfp : json_load fp <> Unopened) by (apply Hall; now left).
    assert (Hrest : forall x, In x fps -> json_load x <> Unopened)
      by (intros x Hx; apply Hall; now right).
    unfold load_json_list, list_root.
    destruct (json_load fp) as [v| |]; [| |congruence].
    + destruct v; rewrite (IH _ Hrest); rewrite ?app_nil_r, <- ?app_assoc;
        reflexivity.
    + now rewrite (IH _ Hrest).
Qed.

Lemma merge_from_abort (pre post : list str) (fp : str) (merged : list value) :
  (forall x, In x pre -> json_load x <> Unopened) ->
  json_load fp = Unopened ->
  merge_from json_load merged (pre ++ fp :: post) = inr Other.
Proof.
  revert merged. induction pre as [|x pre IH]; intros merged Hall Hfp; simpl.
  - unfold load_json_list. now rewrite Hfp.
  - assert (Hx : json_load x <> Unopened) by (apply Hall; now left).
    assert (Hrest : forall y, In y pre -> json_load y <> Unopened)
      by (intros y Hy; apply Hall; now right).
    unfold load_json_list.
    destruct (json_load x) as [v| |]; [| |congruence].
    + destruct v; now rewrite IH.
    + now rewrite IH.
Qed.

Lemma flat_map_length {A B} (f : A -> list B) (l : list A) :
  length (flat_map f l) = list_sum (map (fun x => length (f x)) l).
Proof.
  induction l as [|x l IH]; [reflexivity|].
  simpl. now rewrite length_app, IH.
Qed.
End Files.

(** X19.  [merge_zzz_files] returns the lists of the files whose root is a
    list, one after the other in the order of the paths, so that the
    number of merged records is the sum of their lengths; a file with
    another root, or one that is no JSON, is skipped.  A file that cannot
    be opened is not skipped: the exception ends the merge. *)
Theorem merge_concatenates json_load fps :
  ((forall fp, In fp fps -> json_load fp <> Unopened) ->
   merge_zzz_files json_load fps = inl (flat_map (list_root json_load) fps) /\
   forall merged, merge_zzz_files json_load fps = inl merged ->
     length merged
     = list_sum (map (fun fp => length (list_root json_load fp)) fps)) /\
  (forall pre fp post,
     fps = pre ++ fp :: post ->
     (forall x, In x pre -> json_load x <> Unopened) ->
     json_load fp = Unopened ->
     merge_zzz_files json_load fps = inr Other).
Proof.
  split.
  - intros Hall. unfold merge_zzz_files.
    rewrite (merge_from_spec json_load fps [] Hall). cbn [app].
    split; [reflexivity|]. intros merged [= <-]. apply flat_map_length.
  - intros pre fp post -> Hpre Hfp. now apply merge_from_abort.
Qed.

Lemma merge_concatenates_witness :
  merge_zzz_files demo_files
    [lit "a_zzz.json"; lit "b_zzz.json"; lit "c_zzz.json"; lit "d_zzz.json"]
  = inl [VStr (lit "x"); VStr (lit "y"); VInt 1] /\
  merge_zzz_files demo_files
    [lit "a_zzz.json"; lit "e_zzz.json"; lit "d_zzz.json"] = inr Other.
Proof.
  split.
  - refine (proj1 (proj1 (merge_concatenates demo_files
      [lit "a_zzz.json"; lit "b_zzz.json"; lit "c_zzz.json"; lit "d_zzz.json"])
      _)).
    intros fp [<-|[<-|[<-|[<-|[]]]]]; discriminate.
  - refine (proj2 (merge_concatenates demo_files
      [lit "a_zzz.json"; lit "e_zzz.json"; lit "d_zzz.json"])
      [lit "a_zzz.json"] (lit "e_zzz.json") [lit "d_zzz.json"] eq_refl _ eq_refl).
    intros x [<-|[]]. discriminate.
Defined.

End Merging.

(* ===================================================================== *)
(** ** Packages without records, records without 类型                    *)
(* ===================================================================== *)

Module Packages.
Import Zzz2rrr Spec PackageProps DictFacts StrFacts Dispatch Loop.

Lemma rrr_key_skips repr pk st c :
  match dict_get (key_of c) pk with
  | Some da => truthy da = false
  | None => True
  end ->
  rrr_key repr pk st c = OK st.
Proof.
  unfold rrr_key. destruct (dict_get (key_of c) pk) as [da|]; [|reflexivity].
  now intros ->.
Qed.

(** X20.  A package contributes nothing for a category that is absent or
    false (an empty list, an empty dict, null): packages that hold no
    record at all give the empty list. *)
Theorem empty_packages_give_nothing repr data :
  Forall no_records data -> work_rrr repr data = OK [].
Proof.
  intros H. unfold work_rrr.
  assert (Hf : foldM (rrr_package repr) ([], []) data = OK ([], [])).
  { generalize (@nil value, @nil (value * dict)). intros st.
    induction H as [|dat data (pk & -> & Hpk) _ IH]; [reflexivity|].
    cbn [foldM rrr_package categories].
    repeat (rewrite rrr_key_skips by apply Hpk; cbn [bind]). exact IH. }
  rewrite Hf. reflexivity.
Qed.

Lemma empty_packages_give_nothing_witness :
  work_rrr (fun _ => []) [VDict []; VDict [(L.profession, VList []); (L.variant, VDict [])]]
  = OK [].
Proof.
  apply (empty_packages_give_nothing (fun _ => [])).
  repeat constructor; eexists; (split; [reflexivity|]); intros c;
    destruct c; exact I || reflexivity.
Defined.

(** X21.  A record without 类型 is packaged as a variant, and the empty text is
    listed among the variant types; without 简略信息 it gets an empty
    mapping there. *)
Theorem untyped_record_is_variant E path kv :
  nodup_keys kv = true ->
  dict_get L.type_ kv = None ->
  dict_get L.brief kv = None ->
  exists pkg v,
    fst (work_zzz E [VDict kv] path) = OK pkg /\
    category_list pkg L.variant = [VDict v] /\
    custom_list pkg L.variants = [VStr []] /\
    dict_get L.brief v = Some (VDict []) /\
    RecordCounts.all_records pkg = [VDict v].
Proof.
  intros Hnd Ht Hb.
  assert (Htype : get kv L.type_ empty = empty) by (unfold get; now rewrite Ht).
  assert (Hbrief : get kv L.brief empty = empty) by (unfold get; now rewrite Hb).
  unfold work_zzz, zzz_loop.
  rewrite (zzz_record_variant E _ kv) by (rewrite Htype; reflexivity).
  unfold zzz_variant. rewrite Htype, Hbrief. cbn [truthy empty bind fst snd].
  eexists _, _. split; [reflexivity|]. split; [reflexivity|].
  split; [reflexivity|]. split; [|reflexivity].
  unfold rewrite_variant.
  rewrite get_update by now apply nodup_set, nodup_set.
  now rewrite get_set_same.
Qed.

Lemma untyped_record_is_variant_witness :
  exists pkg v,
    fst (work_zzz demo_env [VDict demo_untyped] []) = OK pkg /\
    category_list pkg L.variant = [VDict v] /\
    custom_list pkg L.variants = [text ""] /\
    dict_get L.brief v = Some (VDict []) /\
    RecordCounts.all_records pkg = [VDict v].
Proof.
  exact (untyped_record_is_variant demo_env [] demo_untyped
           eq_refl eq_refl eq_refl).
Defined.

Lemma foldM_ext {A S} (f g : S -> A -> result S) (l : list A) (s : S) :
  (forall s x, f s x = g s x) -> foldM f s l = foldM g s l.
Proof.
  intros H. revert s. induction l as [|x l IH]; intros s; simpl; auto.
  rewrite H. destruct (g s x); simpl; auto.
Qed.

(** X22.  A category that holds one record, not in a list, is read as the list
    of that record (unless the record is empty: an empty dict counts as no
    record). *)
Theorem single_record_category repr (pk d : dict) (c : category) :
  d <> [] ->
  work_rrr repr [VDict (dict_set (key_of c) (VDict d) pk)]
  = work_rrr repr [VDict (dict_set (key_of c) (VList [VDict d]) pk)].
Proof.
  intros Hd. unfold work_rrr. f_equal. cbn [foldM rrr_package]. f_equal.
  apply foldM_ext. intros st c'. unfold rrr_key.
  destruct (Str.eqb (key_of c) (key_of c')) eqn:Hk.
  - apply eqb_eq in Hk. rewrite <- Hk, !get_set_same.
    destruct d as [|e d]; [congruence|reflexivity].
  - apply eqb_neq in Hk. now rewrite !get_set_other by exact Hk.
Qed.

Lemma single_record_category_witness :
  work_rrr (fun _ => []) [VDict [(L.community,
                    VDict [ (L.name, text "高城"); (L.feature, text "特权");
                            (L.desc, text "门路") ])]]
  = work_rrr (fun _ => []) [VDict [(L.community,
                      VList [VDict [ (L.name, text "高城");
                                     (L.feature, text "特权");
                                     (L.desc, text "门路") ]])]].
Proof.
  exact (single_record_category (fun _ => []) []
           [ (L.name, text "高城"); (L.feature, text "特权");
             (L.desc, text "门路") ]
           Community ltac:(discriminate)).
Defined.

End Packages.

(* ===================================================================== *)
(** ** zzz2rrr: the records [collect_data] gathers                       *)
(* ===================================================================== *)

Module Collecting.
Import Collector CollectorProps.

Section Walk.
Variable F : files.

Lemma add_root_records (all_data : list value) (data : value) :
  match add_root all_data data with
  | Some all_data' => all_data'
  | None => all_data
  end = all_data ++ records_of (Parsed data).
Proof.
  destruct data; simpl; now rewrite ?app_nil_r.
Qed.

Lemma collect_files_spec (root : str) (names : list str) (all_data : list value) :
  (forall file, In file names -> ends_with ext_json (lower F file) = true ->
     load_json_file F (join F root file) <> Failed) ->
  collect_files F root names all_data
  = inl (all_data ++ folder_records F (root, names)).
Proof.
  unfold folder_records. cbn [fst snd]. revert all_data.
  induction names as [|file names IH]; intros all_data Hopen.
  - simpl. now rewrite app_nil_r.
  - cbn [collect_files flat_map].
    assert (Hrest : forall f, In f names ->
              ends_with ext_json (lower F f) = true ->
              load_json_file F (join F root f) <> Failed)
      by (intros f Hf; apply Hopen; now right).
    destruct (ends_with ext_json (lower F file)) eqn:He.
    + pose proof (Hopen file (or_introl eq_refl) He) as Hfile.
      destruct (load_json_file F (join F root file)) as [data| | |];
        [| | |congruence].
      * rewrite add_root_records, (IH _ Hrest). now rewrite <- app_assoc.
      * now rewrite (IH _ Hrest).
      * now rewrite (IH _ Hrest).
    + now rewrite (IH _ Hrest).
Qed.

Lemma collect_walk_spec (entries : list (str * list str)) (all_data : list value) :
  all_open F entries ->
  collect_walk F entries all_data
  = inl (all_data ++ flat_map (folder_records F) entries).
Proof.
  revert all_data. induction entries as [|[root names] entries IH];
    intros all_data Hopen.
  - simpl. now rewrite app_nil_r.
  - cbn [collect_walk flat_map].
    rewrite collect_files_spec.
    + rewrite IH; [now rewrite <- app_assoc|].
      intros r ns f Hin. apply (Hopen r ns f). now right.
    + intros file Hfile. apply (Hopen root names file); [now left|exact Hfile].
Qed.
End Walk.

(** X23.  For a folder, [collect_data] returns the records of the files
    whose name ends in .json, whatever the case of the letters, in the
    order of the walk: a dict root is one record, a list root gives its
    elements, and a file with any other root, or whose text does not
    parse, is skipped.  For a single .json file the same two roots are
    read the same way, but any other root raises [ValueError] and a text
    that does not parse raises its [JSONDecodeError]: nothing is
    skipped. *)
Theorem collect_data_records F input_path :
  (kind F input_path = IsDir -> all_open F (walk F input_path) ->
   collect_data F input_path
   = inl (flat_map (folder_records F) (walk F input_path))) /\
  (kind F input_path = IsFile ->
   ends_with ext_json (lower F input_path) = true ->
   (forall d, load_json_file F input_path = Parsed (VDict d) ->
      collect_data F input_path = inl [VDict d]) /\
   (forall l, load_json_file F input_path = Parsed (VList l) ->
      collect_data F input_path = inl l) /\
   (forall v, load_json_file F input_path = Parsed v ->
      (forall d, v <> VDict d) -> (forall l, v <> VList l) ->
      collect_data F input_path = inr Value_error) /\
   (load_json_file F input_path = BadJson ->
      collect_data F input_path = inr Json_error)).
Proof.
  split.
  - intros Hk Hopen. unfold collect_data. rewrite Hk.
    now rewrite (collect_walk_spec F _ [] Hopen).
  - intros Hk He. unfold collect_data, collect_file. rewrite Hk, He.
    split; [|split; [|split]].
    + now intros d ->.
    + now intros l ->.
    + intros v -> Hd Hl. destruct v as [| | | |l|d]; try reflexivity.
      * now elim (Hl l).
      * now elim (Hd d).
    + now intros ->.
Qed.

Lemma collect_data_records_witness :
  collect_data demo_tree (lit "data")
    = inl [VInt 1; VInt 2; VDict [(lit "k", VInt 4)]] /\
  collect_data demo_tree (lit "one.json") = inr Value_error.
Proof.
  destruct (collect_data_records demo_tree (lit "data")) as [Hdir _].
  destruct (collect_data_records demo_tree (lit "one.json")) as [_ Hfile].
  split.
  - refine (Hdir eq_refl _).
    intros root names file [[= <- <-]|[[= <- <-]|[]]] Hfile' He;
      repeat (destruct Hfile' as [<-|Hfile'];
              [first [vm_compute; discriminate
                     | vm_compute in He; discriminate He]|]);
      contradiction.
  - destruct (Hfile eq_refl eq_refl) as (_ & _ & Hother & _).
    apply (Hother (VInt 5)); [reflexivity|discriminate|discriminate].
Defined.

(** *** The entry of an archive *)

Lemma filter_first {A} (p : A -> bool) (l pre post : list A) (t : A) :
  l = pre ++ t :: post -> p t = true ->
  forallb (fun n => negb (p n)) pre = true ->
  filter p l = t :: filter p post.
Proof.
  intros -> Ht Hpre. induction pre as [|x pre IH]; simpl.
  - now rewrite Ht.
  - simpl in Hpre. apply andb_true_iff in Hpre as [Hx Hpre].
    apply negb_true_iff in Hx. rewrite Hx. auto.
Qed.

Lemma filter_none {A} (p : A -> bool) (l : list A) :
  (forall x, In x l -> p x = false) -> filter p l = [].
Proof.
  induction l as [|x l IH]; intros H; simpl; [reflexivity|].
  rewrite (H x (or_introl eq_refl)). apply IH. intros y Hy. apply H. now right.
Qed.

(** X24.  From an archive [load_dhcb_file] reads one entry: the first
    whose name ends in cards.json, whatever the case of the letters, even
    when an entry that ends in .json stands before it; without such an
    entry, the first whose name ends in .json; without that either, it
    raises [ValueError].  An entry that is no JSON raises [ValueError]
    too. *)
Theorem archive_entry_read F filepath names :
  namelist F filepath = Entries names ->
  (forall t,
     first_with (fun n => ends_with cards_json (lower F n)) names t ->
     load_dhcb_file F filepath = entry_result (read_entry F filepath t)) /\
  (forall t,
     (forall n, In n names -> ends_with cards_json (lower F n) = false) ->
     first_with (fun n => ends_with ext_json (lower F n)) names t ->
     load_dhcb_file F filepath = entry_result (read_entry F filepath t)) /\
  ((forall n, In n names -> ends_with ext_json (lower F n) = false) ->
   (forall n, In n names -> ends_with cards_json (lower F n) = false) ->
   load_dhcb_file F filepath = inr Value_error).
Proof.
  intros Hn. unfold load_dhcb_file. rewrite Hn. split; [|split].
  - intros t (pre & post & Hnames & Ht & Hpre).
    rewrite (filter_first _ names pre post t Hnames Ht Hpre).
    unfold entry_result. destruct (read_entry F filepath t); reflexivity.
  - intros t Hno (pre & post & Hnames & Ht & Hpre).
    rewrite (filter_none _ names Hno).
    rewrite (filter_first _ names pre post t Hnames Ht Hpre).
    unfold entry_result. destruct (read_entry F filepath t); reflexivity.
  - intros Hj Hc. now rewrite (filter_none _ names Hc), (filter_none _ names Hj).
Qed.

Lemma archive_entry_read_witness :
  load_dhcb_file demo_tree (lit "pack.dhcb") = inl (VList [VInt 7]).
Proof.
  destruct (archive_entry_read demo_tree (lit "pack.dhcb") _ eq_refl)
    as (Hcards & _).
  apply (Hcards (lit "x/cards.json")).
  exists [lit "readme.json"], [lit "cards.json"].
  split; [reflexivity|]. split; reflexivity.
Defined.

End Collecting.

(* ===================================================================== *)
(** ** zzz2rink: the traits                                              *)
(* ===================================================================== *)

Module Traits.
Import Zzz2rrr Zzz2rink Spec TraitProps DictFacts Loop.

Section Each.
Variable repr : value -> str.

Lemma environment_trait_converted (tr out : value) :
  convert_trait repr tr = OK out -> environment_trait repr tr out.
Proof.
  intros H. destruct tr as [| | | | |t]; try discriminate.
  unfold convert_trait in H.
  destruct (get t k_trait_desc empty) as [| | |s| |] eqn:Hd; try discriminate.
  destruct (search_cost s); injection H as <-; exists t; rewrite ?Hd;
    repeat split; reflexivity.
Qed.

Lemma enemy_trait_converted (tr out : value) :
  convert_enemy_trait repr tr = OK out -> enemy_trait repr tr out.
Proof.
  intros H. destruct tr as [| | | | |t]; try discriminate.
  unfold convert_enemy_trait in H. injection H as <-.
  exists t. split; reflexivity.
Qed.
End Each.

(** X25.  The traits of a converted environment are those of 特性, one
    for one and in their order: each keeps its 类型, its 特性描述 (the
    search for a cost leaves the description as it is) and its 特性问题,
    and its name is 名称, followed by a blank and 原名 when there is one. *)
Theorem environment_traits_in_order repr kv traits dest :
  get kv L.feature (VList []) = VList traits ->
  convert_environment repr (VDict kv) = OK dest ->
  exists outs,
    field k_traits dest = Some (VList outs) /\
    Forall2 (environment_trait repr) traits outs.
Proof.
  intros Hf H. unfold convert_environment in H. rewrite Hf in H.
  cbn [py_iter bind] in H. bind_inv H. injection H as <-.
  eexists. split; [reflexivity|].
  apply Variants.mapM_Forall2 in Hb. revert Hb. apply Forall2_impl.
  intros tr out. apply environment_trait_converted.
Qed.

Lemma environment_traits_in_order_witness :
  exists dest outs,
    convert_environment (fun _ => []) (VDict demo_environment) = OK dest /\
    field k_traits dest = Some (VList outs) /\
    Forall2 (environment_trait (fun _ => [])) demo_traits outs.
Proof.
  eexists. 
  destruct (environment_traits_in_order (fun _ => []) demo_environment
              demo_traits _ eq_refl eq_refl) as (outs & Ho & Hall).
  exists outs. split; [reflexivity|]. split; [exact Ho|exact Hall].
Defined.

(** X26.  The traits of a converted adversary are those of 特性, one for
    one and in their order: each has a name, a desc and an empty flavor and
    nothing else, and the desc is 特性描述 with the 类型 and a full-width
    colon before it when there is a 类型. *)
Theorem enemy_traits_in_order repr kv traits dest :
  get kv L.feature (VList []) = VList traits ->
  convert_enemy repr (VDict kv) = OK dest ->
  exists outs,
    field k_traits dest = Some (VList outs) /\
    Forall2 (enemy_trait repr) traits outs.
Proof.
  intros Hf H. unfold convert_enemy in H. rewrite Hf in H.
  bind_inv H. injection H as <-. cbn [py_iter] in Hb1. injection Hb1 as <-.
  eexists. split; [reflexivity|].
  apply Variants.mapM_Forall2 in Hb2. revert Hb2. apply Forall2_impl.
  intros tr out. apply enemy_trait_converted.
Qed.

Lemma enemy_traits_in_order_witness :
  exists outs,
    field k_traits RinkProps.demo_converted_enemy = Some (VList outs) /\
    Forall2 (enemy_trait (fun _ => []))
      [ VDict [ (L.name, text "不死"); (L.type_, text "被动");
                (k_trait_desc, text "免疫毒素") ] ]
      outs /\
    outs = [ VDict [ (k_name_out, text "不死");
                     (k_desc_out, text "被动：免疫毒素");
                     (k_flavor, text "") ] ].
Proof.
  destruct (enemy_traits_in_order (fun _ => []) RinkProps.demo_enemy _
              RinkProps.demo_converted_enemy eq_refl
              ltac:(vm_compute; reflexivity)) as (outs & Ho & Hall).
  exists outs. split; [exact Ho|]. split; [exact Hall|].
  vm_compute in Ho. now injection Ho as <-.
Defined.

End Traits.

